(* ===== verification/_CoqProject ===== *)
-Q . S2P
Prelude.v
GoIO.v
Strconv.v
NetAddr.v
Varint.v
Utf8.v
McString.v
Frame.v
Wire.v
Crypto.v
Cipher.v
Session.v
Errors.v
Queue.v
Ratelimit.v
Handshake.v
Status.v
Login.v
Configuration.v
Nbt.v
Play.v
Forwarding.v
Auth.v
Botfilter.v
Link.v
Backend.v
Bridge.v
Transfer.v
BarrierClient.v
Limbo.v
LimboShared.v
KeepAlive.v
Server.v
ServeLogin.v
Transport.v
TransportLink.v
PlayStreams.v
AppConfig.v
Monitor.v
Shutdown.v
Goroutines.v
System.v
App.v
Lifecycle.v
Harness.v
