(* ===== verification/Prelude.v ===== *)
(** * RegionGate: a verification development

    RegionGate (src/) is a gateway in front of a Minecraft 1.20.4 server. It
    accepts client connections, answers server-list pings, logs players in,
    holds them in a void world ("Limbo") while a bot filter observes them and a
    FIFO queue spaces their admission, and then moves each player to a backend
    server without a reconnect: it logs in at the backend, sends the client
    through its configuration again, replays what the player did meanwhile, and
    from then on copies packets in both directions.

    ** How the library is organised

    Every file models one part of the program as executable functions on explicit
    state, with the source's names, and states what makes that part correct. Go
    errors are values of [error], a function returning (T, error) returns [res],
    integers are [Z] with their conversions written out, bytes are [Byte.byte],
    maps and sets are stdpp's [gmap] and [gset], times are nanoseconds in [Z].
    Goroutines that share an object under a mutex are sequences of atomic steps;
    where a method releases the mutex, or a component is a protocol between
    goroutines, the steps of the others may come in between.

    - Prelude: errors, results, bytes, machine integers, big-endian encoding,
      tactics ([bool_facts], [len]) and hint databases.
    - GoIO, Strconv, NetAddr, Utf8, Crypto: what the program uses of Go's standard
      library (io, strconv and time.ParseDuration, net.SplitHostPort, unicode/utf8,
      MD5, SHA-1, SHA-256, HMAC and AES), executable. Errors: the text of every
      error value, per package. The interface io.Writer is the class [Writer] with its
      contract [WriterLaws]; zlib is the class [Zlib] with [ZlibLaws] (Frame).
    - Varint, McString, Frame, Wire, Cipher: internal/protocol/codec. VarInts,
      strings, frames, compression and the AES-CFB8 cipher.
    - Handshake, Status, Login, Configuration, Nbt, Play: internal/protocol. Every
      packet parser and builder the gateway has.
    - Transport: internal/transport at the level of bytes: buffering, framing,
      compression and encryption over a connection with arbitrary chunking.
    - Link: the same object as its users see it, a sequence of frames.
      TransportLink: the bytes of the one behave as the frames of the other.
    - Session: internal/session, the state machine of a player and the barrier
      that merges movements and queues commands during a transfer.
    - Queue, Ratelimit, Botfilter, Forwarding, Auth: the packages of those names
      (and internal/challenge in Forwarding).
    - Backend: internal/backend, dialling and the login and configuration
      dialogues with a backend. Goroutines: its interruptOnDone, and prepareTransfer
      and Admit of the server.
    - Transfer: internal/transfer, preparing, committing and rolling back a
      transfer. Bridge: internal/bridge, the copying of play packets, as a
      function of the frames received; PlayStreams: its goroutines.
    - BarrierClient, Limbo, ServeLogin, Server, Shutdown: internal/server. Client
      packets in the barrier; the select loop of a Limbo session; everything from
      the handshake to Limbo; connection limits and accounting; serving and
      shutting down. LimboShared: what a round of the loop does to the queue and
      the other objects it shares. KeepAlive: the same loop with a clock and the
      keep-alive timer.
    - System: the gateway as a whole. Any number of connections, each going from
      accept through login, Limbo and bridge to its clean-up (four deferred
      sections, each a step) by the operations of the files above, share the
      server's tables and the admission queue with the scheduler and its calls of
      Admit; one step relation, with an executable schedule for concrete runs.
    - AppConfig, Monitor, App, Lifecycle: internal/app. The configuration from the
      environment, the HTTP endpoints with the server's metrics, the wiring of
      the components, the exit status of cmd/regiongate; the goroutines of Run
      from its select to the end of the process, the loops of the bot filter and
      of the scheduler included.
    - Harness: integration/internal/minecrafttest, the start of a test server in
      a container.

    ** What the theorems show

    - Codecs and packets: parsers accept exactly their grammar and read back what
      the builders produce, on every branch; limits hold for any input; the
      streaming VarInt decoder equals the one on slices.
    - Transport: two ends that switch compression and encryption at the same
      points exchange exactly the frames sent, however the bytes are cut; the
      switch is refused when it could garble the stream. Between two switches a
      transport answers any reads and writes as the sequence of frames the other
      components are modelled with.
    - Session and transfer: the barrier refines its specification (last movement,
      commands in order up to the limit); under any interleaving a transfer is
      decided exactly once; preparing one succeeds exactly when its stages do,
      and leaves no backend connection open when it fails; any undecided run can
      be completed by the remaining calls of the session loop as long as inputs
      are accepted; and what the client did reaches the backend.
    - Bridge: packets are forwarded unchanged and in order, keep-alives are
      isolated, and in every interleaving of the goroutines nothing is lost while
      the bridge runs and no goroutine is left when it has ended.
    - Limbo, queue, limiter, bot filter: a player is queued only after the
      challenge and the required keep-alives, sent one at a time; the queue
      refines a bounded duplicate-free list and waiting is bounded; the login
      limiter bounds every window, shortened by twice the skew between the
      instants at which callers read the clock; the bot filter decides as a
      ledger of every look, violation and block that never forgets; the
      keep-alive timer ends a session exactly when the last keep-alive sent has
      been outstanding, neither answered in the loop nor forgotten after a failed
      transfer, for the configured time.
    - The gateway as a whole: in every interleaving, a player whose packets reach
      a backend was logged in, vetted, queued and asked for, in this order; a
      connection is asked for at most once, requests are handled one at a time,
      and the scheduler waits only for a session that is still in its Limbo loop
      or whose own deferred calls free it.
    - Server: connection counts are exact and bounded under any interleaving of
      the clean-up's sections; no accepted connection is lost; after the end of
      the context the closer finishes in two steps of its own, and then every
      connection still served is closed; Serve returns.
    - Authentication and forwarding: a player enters Limbo only with an
      authenticated identity; the signed identity is read back by the backend.
    - Application: a configuration is accepted exactly when the environment
      describes one, the error is that of the first violated rule of a list stated
      apart from the code; every field of a loaded configuration reaches the
      component it is meant for; the admin endpoint needs the token; the metrics
      can be read back; after the end of its context Run can always return, and
      from then on a measure bounds the steps left to its goroutines, those of the
      connections and the ticks apart, and can be brought down until all of them
      have ended.
    - Test harness: it decides within a bounded number of polls, returns only a
      reachable server, and registers every started container for removal.

    Some lemmas prove deviations of the code from its intention: see
    [BarrierClient.zero_limit_refuses_commands],
    [Limbo.answered_keepalive_times_out], [Limbo.overtaken_request_unanswered],
    [Ratelimit.out_of_order_exceeds_limit], [Frame.uncompressed_over_limit],
    [Shutdown.shutdown_race] and [Lifecycle.run_returns_before_serve].

    ** Fuel and bounds

    Recursion is structural wherever the code's is. Loops over a shrinking input
    take its length as fuel, which suffices because every round consumes at
    least one byte (writeAll, the cipher writer, UTF-8, JSON escaping, durations,
    block splitting); VarInt loops run at most five rounds; numbers are printed
    with 20 decimal or 40 hexadecimal digits, enough for 64 and 160 bits. The
    dialogues with a backend and the wait for the teleport read at most once per
    scripted frame, and one more read returns the error at the end of the script,
    so the length of the script and one is enough. The polling loops of the test
    harness get one answer per round; 121 and 181 rounds pass their deadlines. The
    runs of System and of the Limbo loop are shorter than 2^63 steps, so that the
    64-bit keep-alive numbers do not wrap. No theorem assumes that fuel
    suffices: it is proved, or the loop's result is characterised for the fuel
    the definition uses.

    ** Not modelled

    Code outside the repository is a parameter with its documented behaviour as
    hypotheses: zlib, RSA and key generation, YAML and JSON decoding, the HTTP
    client, sockets, the clock, docker, os.Stat and os.ReadFile, and the Unicode
    tables behind strings.EqualFold and strings.ToLower. An HTTP server is modelled
    by when it stops. Except for the keep-alive timer and the harness, durations
    are not modelled: a timer or ticker may fire at any moment. Deadlines appear as
    the read and write errors they cause; a read that blocks is a reader whose next
    step has not been taken. Logging, the pages of net/http/pprof and
    the signals behind the context of Run are left out: they have no state of
    their own. *)

From Stdlib Require Export ZArith Lia Init.Byte.
From Stdlib Require Strings.Byte.
From stdpp Require Export base tactics numbers gmap strings option sorting.
From stdpp Require Export list.

#[global] Open Scope Z_scope.

(** ** Scope and notation of the development *)

Declare Scope gate_scope.
Delimit Scope gate_scope with gate.
#[global] Open Scope gate_scope.

(** ** Go errors as values

    One constructor per sentinel error of the source and of the standard
    library functions it calls; the last three constructors are the forms of
    [fmt.Errorf] the source uses. *)

Inductive error : Type :=
(* io *)
| io_EOF | io_ErrUnexpectedEOF | io_ErrShortWrite
(* net and context *)
| net_ErrClosed | os_ErrDeadlineExceeded | context_Canceled | context_DeadlineExceeded
(* internal/protocol/codec *)
| ErrVarIntTooLong | ErrVarIntPartial | ErrVarIntOverflow
| ErrStringTooLong | ErrInvalidUTF8
| ErrEmptyPacket | ErrNegativeLength | PacketTooLargeError (len limit : Z)
| ErrInvalidCompressionThreshold | ErrInvalidCompressedPacket
| ErrInvalidCipherParameters
(* internal/protocol packages: one ErrMalformed each *)
| handshake_ErrMalformed | status_ErrMalformed | login_ErrMalformed
| configuration_ErrMalformed | play_ErrMalformed | ErrNBTTooLarge
| ErrUnsupportedVersion (version : Z)
(* internal/transport *)
| transport_ErrClosed | ErrBufferedEncryptionTransition
(* internal/session *)
| ErrBarrierInactive | ErrBarrierNotReady | ErrUnexpectedKeepAlive
| ErrCommandQueueExhausted | InvalidTransitionError (from to : Z)
(* internal/queue *)
| ErrFull | ErrDuplicate | ErrItemRequired
(* internal/forwarding, internal/auth *)
| ErrEmptySecret | ErrInvalidIdentity
| ErrInvalidSharedSecret | ErrVerifyTokenMismatch | ErrNotJoined | ErrInvalidUUID
(* internal/backend *)
| ErrBackendDisconnected | ErrUnexpectedLoginPacket | ErrUnsupportedEncryption
| ErrUnexpectedPlugin | ErrBackendConfigurationDisconnected
| ErrBackendConfigurationPacket | ErrBackendConfigurationTooLarge
| ErrBackendAddressEmpty
(* internal/transfer *)
| ErrTransferAlreadyFinalized | ErrTransferTimedOut | ErrTransferNotConfigured
(* internal/bridge *)
| ErrUnexpectedBackendKeepAlive | ErrKeepAliveLimit
(* internal/botfilter *)
| ErrPolicyVersion (version : Z) | ErrPolicyObservation | ErrPolicyReputation
| ErrPolicySignals | ErrVerificationFailed
(* internal/server *)
| ErrNotInLimbo | ErrSessionNotAvailable | ErrLimboKeepAliveTimeout (id : Z)
(* strconv and time *)
| strconv_ErrSyntax | strconv_ErrRange | time_ErrDuration
(* net/http and os *)
| http_ErrServerClosed | os_ErrNotExist
(* errors.New(text) where the text is composed *)
| ErrNew (text : string)
(* errors of code outside the repository, by number *)
| ErrOther (code : Z)
(* fmt.Errorf("ctx: %w", err) *)
| ErrWrap (ctx : string) (inner : error)
(* fmt.Errorf("%w: %v", err, cause): the cause is only printed *)
| ErrDetail (inner cause : error)
(* fmt.Errorf("%w: %s", err, text) *)
| ErrText (inner : error) (text : string).

#[global] Instance error_eq_dec : EqDecision error.
Proof. solve_decision. Defined.

(** [errors.Is(err, target)]: the error or one it wraps is the target. *)
Fixpoint errors_Is (err target : error) : bool :=
  bool_decide (err = target) ||
  match err with ErrWrap _ inner | ErrDetail inner _ | ErrText inner _ => errors_Is inner target | _ => false end.

(** ** Results of fallible functions: Go's [(T, error)] *)

Inductive res (A : Type) : Type :=
| Ok (a : A)
| Err (e : error).
Arguments Ok {A} _.
Arguments Err {A} _.

#[global] Instance res_eq_dec {A} `{EqDecision A} : EqDecision (res A).
Proof. solve_decision. Defined.

(** [v, err := f(); if err != nil { return err }] *)
Notation "'let!' p ':=' e 'in' k" :=
  (match e with Ok p => k | Err err_ => Err err_ end)
  (at level 10, p pattern, e at level 100, k at level 200,
   format "'[v' 'let!'  p  ':='  e  'in' '/' k ']'") : gate_scope.

(** [v, err := f(); if err != nil { return x }] *)
Notation "'let!' p ':=' e 'else' x 'in' k" :=
  (match e with Ok p => k | Err _ => Err x end)
  (at level 10, p pattern, e at level 100, x at level 100, k at level 200,
   format "'[v' 'let!'  p  ':='  e  'else'  x  'in' '/' k ']'") : gate_scope.

Definition is_ok {A} (r : res A) : bool := match r with Ok _ => true | Err _ => false end.

(** ** Bytes *)

(** The value of a [byte] and the truncating conversion [byte(z)]. *)
Definition ubyte (b : byte) : Z := Z.of_N (Byte.to_N b).
Definition mkbyte (z : Z) : byte := default x00 (Byte.of_N (Z.to_N (z mod 256))).

Arguments ubyte : simpl never.
Arguments mkbyte : simpl never.

(** A Go string is a sequence of bytes; [str] gives the bytes of a literal. *)
Abbreviation gostring := (list byte).
Definition str (s : string) : gostring := String.list_byte_of_string s.

#[global] Instance byte_eq_dec : EqDecision byte.
Proof. intros a b. destruct (Byte.byte_eq_dec a b); [by left | by right]. Defined.

#[global] Program Instance byte_countable : Countable byte :=
  inj_countable Byte.to_N Byte.of_N _.
Next Obligation. intros b. apply Byte.of_to_N. Qed.

(** Lengths as Go [int]s. *)
Definition blen {A} (l : list A) : Z := Z.of_nat (length l).
Arguments blen : simpl never.

(** ** Machine integers

    A w-bit Go integer is a [Z]; the conversions wrap around. *)

Definition uint8 (z : Z) : Z := z mod 2 ^ 8.
Definition uint16 (z : Z) : Z := z mod 2 ^ 16.
Definition uint32 (z : Z) : Z := z mod 2 ^ 32.
Definition uint64 (z : Z) : Z := z mod 2 ^ 64.
Definition int8 (z : Z) : Z := (z + 2 ^ 7) mod 2 ^ 8 - 2 ^ 7.
Definition int32 (z : Z) : Z := (z + 2 ^ 31) mod 2 ^ 32 - 2 ^ 31.
Definition int64 (z : Z) : Z := (z + 2 ^ 63) mod 2 ^ 64 - 2 ^ 63.

Definition in_int8 (z : Z) : Prop := - 2 ^ 7 <= z < 2 ^ 7.
Definition in_int32 (z : Z) : Prop := - 2 ^ 31 <= z < 2 ^ 31.
Definition in_int64 (z : Z) : Prop := - 2 ^ 63 <= z < 2 ^ 63.
Definition in_uint8 (z : Z) : Prop := 0 <= z < 2 ^ 8.
Definition in_uint16 (z : Z) : Prop := 0 <= z < 2 ^ 16.
Definition in_uint32 (z : Z) : Prop := 0 <= z < 2 ^ 32.
Definition in_uint64 (z : Z) : Prop := 0 <= z < 2 ^ 64.

#[global] Instance in_int8_dec z : Decision (in_int8 z).
Proof. unfold in_int8. apply _. Defined.
#[global] Instance in_int32_dec z : Decision (in_int32 z).
Proof. unfold in_int32. apply _. Defined.
#[global] Instance in_int64_dec z : Decision (in_int64 z).
Proof. unfold in_int64. apply _. Defined.

(** ** encoding/binary.BigEndian *)

(** [BigEndian.PutUintN]: the [n] bytes of [z], most significant first. *)
Fixpoint be_bytes (n : nat) (z : Z) : list byte :=
  match n with
  | O => []
  | S n' => mkbyte (Z.shiftr z (8 * Z.of_nat n')) :: be_bytes n' z
  end.

(** [BigEndian.UintN]: the value of a byte sequence, most significant first. *)
Fixpoint be_val_acc (acc : Z) (l : list byte) : Z :=
  match l with
  | [] => acc
  | b :: l' => be_val_acc (Z.lor (Z.shiftl acc 8) (ubyte b)) l'
  end.
Definition be_val (l : list byte) : Z := be_val_acc 0 l.

Arguments be_bytes : simpl never.
Arguments be_val : simpl never.

(** ** encoding/hex *)

Definition hex_digit (z : Z) : byte :=
  default x00 (str "0123456789abcdef" !! Z.to_nat (z mod 16)).

(** [hex.EncodeToString] *)
Definition hex_encode (l : list byte) : gostring :=
  concat (map (fun b => [hex_digit (Z.shiftr (ubyte b) 4); hex_digit (ubyte b)]) l).

(** The value of a hexadecimal digit of either case. *)
Definition hex_value (b : byte) : option Z :=
  let c := ubyte b in
  if (48 <=? c) && (c <=? 57) then Some (c - 48)
  else if (97 <=? c) && (c <=? 102) then Some (c - 97 + 10)
  else if (65 <=? c) && (c <=? 70) then Some (c - 65 + 10)
  else None.

(** [hex.DecodeString]: [None] for an odd length or a bad digit. *)
Fixpoint hex_decode (s : gostring) : option (list byte) :=
  match s with
  | [] => Some []
  | [_] => None
  | a :: b :: s' =>
    match hex_value a, hex_value b, hex_decode s' with
    | Some x, Some y, Some l => Some (mkbyte (Z.lor (Z.shiftl x 4) y) :: l)
    | _, _, _ => None
    end
  end.

(** Slices [l[a:b]] with [0 <= a <= b <= len(l)]. *)
Definition slice {A} (l : list A) (a b : nat) : list A := take (b - a) (drop a l).

(** ** Tactics *)

(** Case analysis on the boolean tests of the code, turned into facts for [lia]. *)
Ltac bool_facts :=
  repeat match goal with
  | H : (_ && _) = true |- _ => apply andb_true_iff in H; destruct H
  | H : (_ || _) = false |- _ => apply orb_false_iff in H; destruct H
  | H : negb _ = true |- _ => apply negb_true_iff in H
  | H : negb _ = false |- _ => apply negb_false_iff in H
  | H : (_ =? _) = true |- _ => apply Z.eqb_eq in H
  | H : (_ =? _) = false |- _ => apply Z.eqb_neq in H
  | H : (_ <? _) = true |- _ => apply Z.ltb_lt in H
  | H : (_ <? _) = false |- _ => apply Z.ltb_ge in H
  | H : (_ <=? _) = true |- _ => apply Z.leb_le in H
  | H : (_ <=? _) = false |- _ => apply Z.leb_gt in H
  | H : bool_decide _ = true |- _ => apply bool_decide_eq_true_1 in H
  | H : bool_decide _ = false |- _ => apply bool_decide_eq_false_1 in H
  end.

(** Split every [if] and [match] of a hypothesis, discarding impossible cases. *)
Ltac inv_ok H :=
  repeat (case_match; simplify_eq/=; try discriminate H; try discriminate).

Ltac unfold_ints := unfold in_int8, in_int32, in_int64, in_uint8, in_uint16, in_uint32, in_uint64,
  int8, int32, int64, uint8, uint16, uint32, uint64 in *.

(** ** Lemmas: bytes *)

Lemma ubyte_range b : 0 <= ubyte b < 256.
Proof. unfold ubyte. pose proof (Byte.to_N_bounded b). lia. Qed.

Lemma ubyte_mkbyte z : ubyte (mkbyte z) = z mod 256.
Proof.
  unfold ubyte, mkbyte. pose proof (Z.mod_pos_bound z 256 ltac:(lia)) as Hb.
  destruct (Byte.of_N (Z.to_N (z mod 256))) as [b|] eqn:E; simpl.
  - apply Byte.to_of_N in E. rewrite E. lia.
  - apply Byte.of_N_None_iff in E. lia.
Qed.

Lemma ubyte_mkbyte_small z : 0 <= z < 256 -> ubyte (mkbyte z) = z.
Proof. intros. rewrite ubyte_mkbyte. by apply Z.mod_small. Qed.

Lemma mkbyte_ubyte b : mkbyte (ubyte b) = b.
Proof.
  unfold mkbyte, ubyte. pose proof (Byte.to_N_bounded b).
  rewrite Z.mod_small by lia. by rewrite N2Z.id, Byte.of_to_N.
Qed.

Lemma ubyte_inj a b : ubyte a = ubyte b -> a = b.
Proof. intros E. by rewrite <-(mkbyte_ubyte a), E, mkbyte_ubyte. Qed.

Lemma mkbyte_mod z : mkbyte (z mod 256) = mkbyte z.
Proof. apply ubyte_inj. by rewrite !ubyte_mkbyte, Z.mod_mod. Qed.

(** ** Lemmas: lengths *)

Lemma blen_nil {A} : blen (@nil A) = 0.
Proof. done. Qed.
Lemma blen_cons {A} (x : A) l : blen (x :: l) = blen l + 1.
Proof. unfold blen. simpl. lia. Qed.
Lemma blen_app {A} (l1 l2 : list A) : blen (l1 ++ l2) = blen l1 + blen l2.
Proof. unfold blen. rewrite length_app. lia. Qed.
Lemma blen_nonneg {A} (l : list A) : 0 <= blen l.
Proof. unfold blen. lia. Qed.
Lemma blen_0 {A} (l : list A) : blen l = 0 <-> l = [].
Proof. unfold blen. destruct l; simpl; split; intros; simplify_eq; try done; lia. Qed.

Lemma drop_app_blen {A} (l k : list A) n :
  n = blen l -> drop (Z.to_nat n) (l ++ k) = k.
Proof. intros ->. unfold blen. by rewrite Nat2Z.id, drop_app_length. Qed.

Lemma take_app_blen {A} (l k : list A) n :
  n = blen l -> take (Z.to_nat n) (l ++ k) = l.
Proof. intros ->. unfold blen. by rewrite Nat2Z.id, take_app_length. Qed.

(** ** Lemmas: machine integers *)

Lemma int8_small z : in_int8 z -> int8 z = z.
Proof. unfold_ints. intros. rewrite Z.mod_small; lia. Qed.
Lemma int32_small z : in_int32 z -> int32 z = z.
Proof. unfold_ints. intros. rewrite Z.mod_small; lia. Qed.
Lemma int64_small z : in_int64 z -> int64 z = z.
Proof. unfold_ints. intros. rewrite Z.mod_small; lia. Qed.

Lemma int32_range z : in_int32 (int32 z).
Proof. unfold_ints. pose proof (Z.mod_pos_bound (z + 2 ^ 31) (2 ^ 32)). lia. Qed.
Lemma int64_range z : in_int64 (int64 z).
Proof. unfold_ints. pose proof (Z.mod_pos_bound (z + 2 ^ 63) (2 ^ 64)). lia. Qed.
Lemma uint32_range z : in_uint32 (uint32 z).
Proof. unfold_ints. apply Z.mod_pos_bound. lia. Qed.
Lemma uint64_range z : in_uint64 (uint64 z).
Proof. unfold_ints. apply Z.mod_pos_bound. lia. Qed.

Lemma int8_mod z : int8 (z mod 2 ^ 8) = int8 z.
Proof. unfold int8. by rewrite Zplus_mod_idemp_l. Qed.
Lemma int32_uint32 z : int32 (uint32 z) = int32 z.
Proof. unfold int32, uint32. by rewrite Zplus_mod_idemp_l. Qed.
Lemma int64_uint64 z : int64 (uint64 z) = int64 z.
Proof. unfold int64, uint64. by rewrite Zplus_mod_idemp_l. Qed.
Lemma uint32_int32 z : uint32 (int32 z) = uint32 z.
Proof.
  unfold int32, uint32. rewrite Zminus_mod_idemp_l. f_equal. lia.
Qed.
Lemma uint64_int64 z : uint64 (int64 z) = uint64 z.
Proof.
  unfold int64, uint64. rewrite Zminus_mod_idemp_l. f_equal. lia.
Qed.
Lemma uint32_small z : in_uint32 z -> uint32 z = z.
Proof. apply Z.mod_small. Qed.
Lemma uint64_small z : in_uint64 z -> uint64 z = z.
Proof. apply Z.mod_small. Qed.
Lemma uint16_small z : in_uint16 z -> uint16 z = z.
Proof. apply Z.mod_small. Qed.

(** ** Lemmas: big-endian encoding *)

(** An or of disjoint bit ranges is a sum. *)
Lemma lor_shiftl_add a b k :
  0 <= k -> 0 <= b < 2 ^ k -> Z.lor (Z.shiftl a k) b = a * 2 ^ k + b.
Proof.
  intros Hk Hb. rewrite <-Z.add_nocarry_lor; [by rewrite Z.shiftl_mul_pow2|].
  apply Z.bits_inj'. intros i Hi. rewrite Z.land_spec, Z.bits_0, Z.shiftl_mul_pow2 by done.
  destruct (Z.lt_ge_cases i k).
  - by rewrite Z.mul_pow2_bits_low.
  - rewrite (proj1 (Z.bounded_iff_bits_nonneg k b Hk (proj1 Hb)) (proj2 Hb)) by done.
    by rewrite andb_false_r.
Qed.

Lemma lor_add_shiftl a b k :
  0 <= k -> 0 <= b < 2 ^ k -> Z.lor b (Z.shiftl a k) = b + a * 2 ^ k.
Proof. intros. rewrite Z.lor_comm, lor_shiftl_add by done. lia. Qed.

Lemma pow2_byte_succ n : 2 ^ (8 * Z.of_nat (S n)) = 256 * 2 ^ (8 * Z.of_nat n).
Proof.
  replace (8 * Z.of_nat (S n)) with (8 + 8 * Z.of_nat n) by lia.
  by rewrite Z.pow_add_r by lia.
Qed.

Lemma pow2_byte_pos n : 0 < 2 ^ (8 * Z.of_nat n).
Proof. apply Z.pow_pos_nonneg; lia. Qed.

Lemma be_val_acc_spec l acc :
  be_val_acc acc l = acc * 2 ^ (8 * blen l) + be_val l.
Proof.
  unfold be_val. revert acc. induction l as [|b l IH]; intros acc; cbn [be_val_acc].
  - rewrite (blen_nil (A:=byte)). simpl. lia.
  - rewrite IH, (IH (Z.lor _ _)). pose proof (ubyte_range b).
    rewrite !lor_shiftl_add by lia. unfold blen. cbn [length].
    rewrite pow2_byte_succ. lia.
Qed.

Lemma be_val_cons b l : be_val (b :: l) = ubyte b * 2 ^ (8 * blen l) + be_val l.
Proof.
  unfold be_val at 1. cbn [be_val_acc]. rewrite be_val_acc_spec.
  by rewrite Z.shiftl_0_l, Z.lor_0_l.
Qed.

Lemma be_val_nil : be_val [] = 0.
Proof. done. Qed.

Lemma be_val_range l : 0 <= be_val l < 2 ^ (8 * blen l).
Proof.
  induction l as [|b l IH]; [done|].
  rewrite be_val_cons. pose proof (ubyte_range b). unfold blen in *. cbn [length].
  rewrite pow2_byte_succ. nia.
Qed.

Lemma be_bytes_S n z : be_bytes (S n) z = mkbyte (Z.shiftr z (8 * Z.of_nat n)) :: be_bytes n z.
Proof. done. Qed.

Lemma length_be_bytes n z : length (be_bytes n z) = n.
Proof. induction n; [done|]. rewrite be_bytes_S. simpl. by f_equal. Qed.

Lemma blen_be_bytes n z : blen (be_bytes n z) = Z.of_nat n.
Proof. unfold blen. by rewrite length_be_bytes. Qed.

Lemma take_be_bytes n z rest : take n (be_bytes n z ++ rest) = be_bytes n z.
Proof. rewrite <-(length_be_bytes n z) at 1. apply take_app_length. Qed.
Lemma drop_be_bytes n z rest : drop n (be_bytes n z ++ rest) = rest.
Proof. rewrite <-(length_be_bytes n z) at 1. apply drop_app_length. Qed.

Lemma be_val_be_bytes n z : be_val (be_bytes n z) = z mod 2 ^ (8 * Z.of_nat n).
Proof.
  induction n as [|n IH]; [by rewrite Z.mod_1_r|].
  rewrite be_bytes_S, be_val_cons, ubyte_mkbyte, IH, blen_be_bytes.
  rewrite Z.shiftr_div_pow2 by lia. rewrite pow2_byte_succ, (Z.mul_comm 256).
  pose proof (pow2_byte_pos n). rewrite Z.rem_mul_r by lia. lia.
Qed.

Lemma be_bytes_be_val l n : n = length l -> be_bytes n (be_val l) = l.
Proof.
  intros ->. induction l as [|b l IH]; [done|].
  cbn [length]. rewrite be_bytes_S, be_val_cons.
  assert (Hlow : forall m a, (m <= length l)%nat ->
     be_bytes m (a * 2 ^ (8 * blen l) + be_val l) = be_bytes m (be_val l)).
  { intros m a. induction m as [|m IHm]; [done|]. intros Hm.
    rewrite !be_bytes_S, IHm by lia. f_equal. apply ubyte_inj. rewrite !ubyte_mkbyte.
    rewrite !Z.shiftr_div_pow2 by lia.
    replace (8 * blen l) with (8 * (blen l - 1 - Z.of_nat m) + 8 + 8 * Z.of_nat m)
      by (unfold blen; lia).
    rewrite !Z.pow_add_r by (unfold blen; lia).
    pose proof (pow2_byte_pos m).
    rewrite !Z.mul_assoc, Z.div_add_l by lia.
    by rewrite Z.add_comm, Z.mod_add by lia. }
  rewrite Hlow, IH by done. f_equal. apply ubyte_inj. rewrite ubyte_mkbyte.
  rewrite Z.shiftr_div_pow2 by lia. fold (blen l). pose proof (be_val_range l).
  pose proof (pow2_byte_pos (length l)). unfold blen in *.
  rewrite Z.div_add_l by lia. rewrite (Z.div_small (be_val l)) by lia.
  rewrite Z.add_0_r. apply Z.mod_small, ubyte_range.
Qed.

Lemma be_val_inj l k : length l = length k -> be_val l = be_val k -> l = k.
Proof.
  intros Hl Hv. rewrite <-(be_bytes_be_val l (length l)) by done.
  rewrite Hv. by apply be_bytes_be_val.
Qed.

Lemma be_bytes_inj n a b :
  0 <= a < 2 ^ (8 * Z.of_nat n) -> 0 <= b < 2 ^ (8 * Z.of_nat n) ->
  be_bytes n a = be_bytes n b -> a = b.
Proof.
  intros Ha Hb E. apply (f_equal be_val) in E. rewrite !be_val_be_bytes in E.
  by rewrite !Z.mod_small in E.
Qed.

Lemma int64_be_val z : in_int64 z -> int64 (be_val (be_bytes 8 (uint64 z))) = z.
Proof.
  intros Hz. rewrite be_val_be_bytes. change (8 * Z.of_nat 8) with 64.
  fold (uint64 (uint64 z)). rewrite (uint64_small (uint64 z)) by apply uint64_range.
  by rewrite int64_uint64, int64_small.
Qed.

Lemma be_bytes_int64 l : length l = 8%nat -> be_bytes 8 (uint64 (int64 (be_val l))) = l.
Proof.
  intros Hl. rewrite uint64_int64, uint64_small.
  - by apply be_bytes_be_val.
  - pose proof (be_val_range l) as Hr. unfold blen in Hr. rewrite Hl in Hr. exact Hr.
Qed.

Lemma be_val_uint64 z : in_uint64 z -> be_val (be_bytes 8 z) = z.
Proof. intros. rewrite be_val_be_bytes. by apply Z.mod_small. Qed.
Lemma be_val_uint32 z : in_uint32 z -> be_val (be_bytes 4 z) = z.
Proof. intros. rewrite be_val_be_bytes. by apply Z.mod_small. Qed.
Lemma be_val_uint16 z : in_uint16 z -> be_val (be_bytes 2 z) = z.
Proof. intros. rewrite be_val_be_bytes. by apply Z.mod_small. Qed.

(** ** Lemmas: lists *)

Lemma app_length_eq_l {A} (a b c d : list A) :
  length a = length c -> a ++ b = c ++ d -> a = c /\ b = d.
Proof. intros Hl E. by apply app_inj_1 in E. Qed.

Lemma filter_snoc {A} (P : A -> Prop) `{forall x, Decision (P x)} l x :
  filter P (l ++ [x]) = filter P l ++ (if decide (P x) then [x] else []).
Proof. rewrite filter_app. cbn. by case_decide. Qed.

Lemma filter_all {A} (P : A -> Prop) `{forall x, Decision (P x)} (l : list A) :
  Forall P l -> filter P l = l.
Proof. induction 1 as [|x l Hx _ IH]; [done|]. rewrite filter_cons, decide_True by done. by f_equal. Qed.

Lemma filter_none {A} (P : A -> Prop) `{forall x, Decision (P x)} (l : list A) :
  Forall (fun x => ~ P x) l -> filter P l = [].
Proof. induction 1 as [|x l Hx _ IH]; [done|]. by rewrite filter_cons, decide_False. Qed.

(** ** Lemmas: hexadecimal *)

Lemma hex_decode_encode l : hex_decode (hex_encode l) = Some l.
Proof.
  induction l as [|b l IH]; [done|]. cbn [hex_encode map concat app hex_decode].
  unfold hex_encode in IH. rewrite IH. by destruct b.
Qed.

Lemma length_hex_encode l : length (hex_encode l) = (2 * length l)%nat.
Proof. unfold hex_encode. induction l as [|b l IH]; [done|]. cbn in *. lia. Qed.

(** ** Hint databases *)

Create HintDb gate discriminated.
Create Rewrite HintDb gate_len.

#[export] Hint Rewrite @blen_nil @blen_cons @blen_app blen_be_bytes : gate_len.
#[export] Hint Resolve ubyte_range int32_range int64_range uint32_range uint64_range
  @blen_nonneg be_val_range : gate.

(** Normalise lengths, then linear arithmetic. *)
Ltac len := autorewrite with gate_len in *; try lia.
