(* ===== verification/GoIO.v ===== *)
(** * The parts of package io the gateway uses

    - [reader]: an [io.ByteReader] / [*bufio.Reader] over a connection: the
      bytes that will still arrive, and the error every read returns once they
      are used up ([io.EOF], a deadline, a reset);
    - [Writer]: the interface [io.Writer] as a class, with its contract in
      [WriterLaws]; [sink] is an in-memory instance (bytes.Buffer) and
      [chunked] a connection that accepts a bounded number of bytes per call. *)

From S2P Require Import Prelude.

(** ** Readers *)

Record reader := Reader {
  rd_data : list byte;   (* bytes not yet consumed *)
  rd_err : error         (* what a read returns after them *)
}.

(** [r.ReadByte()] *)
Definition ReadByte (r : reader) : res byte * reader :=
  match rd_data r with
  | [] => (Err (rd_err r), r)
  | b :: rest => (Ok b, Reader rest (rd_err r))
  end.

(** [io.ReadFull(r, buf)] with [len(buf) = n]: [io.EOF] after some bytes
    becomes [io.ErrUnexpectedEOF]. *)
Definition ReadFull (r : reader) (n : nat) : res (list byte) * reader :=
  if bool_decide (n <= length (rd_data r))%nat then
    (Ok (take n (rd_data r)), Reader (drop n (rd_data r)) (rd_err r))
  else
    (Err (match rd_data r with
          | [] => rd_err r
          | _ => if bool_decide (rd_err r = io_EOF) then io_ErrUnexpectedEOF else rd_err r
          end),
     Reader [] (rd_err r)).

(** ** Writers *)

(** [w.Write(data)] returns the number of bytes accepted and an error; the
    receiver is updated. [w_out] observes everything accepted so far. *)
Class Writer (W : Type) := {
  w_write : W -> list byte -> nat * option error * W;
  w_out : W -> list byte
}.

(** The part of the [io.Writer] contract the code relies on: never more bytes
    than offered, and exactly the reported prefix reaches the output. *)
Class WriterLaws (W : Type) `{Writer W} := {
  w_write_le : forall w d n e w', w_write w d = (n, e, w') -> (n <= length d)%nat;
  w_write_out : forall w d n e w', w_write w d = (n, e, w') -> w_out w' = w_out w ++ take n d
}.

(** A writer that never fails: [Write] accepts everything. *)
Class ReliableWriter (W : Type) `{Writer W} :=
  w_write_all : forall w d, exists w', w_write w d = (length d, None, w').

(** [bytes.Buffer] *)
Record sink := Sink { sink_bytes : list byte }.

#[global] Instance sink_writer : Writer sink := {
  w_write w d := (length d, None, Sink (sink_bytes w ++ d));
  w_out := sink_bytes
}.

(** A connection that accepts at most [ch_max] bytes per call and [ch_room]
    bytes in all, then fails with [ch_err]. *)
Record chunked := Chunked {
  ch_max : nat;
  ch_room : nat;
  ch_err : error;
  ch_bytes : list byte
}.

#[global] Instance chunked_writer : Writer chunked := {
  w_write w d :=
    if bool_decide (ch_room w = 0%nat) then (0%nat, Some (ch_err w), w)
    else let n := Nat.min (length d) (Nat.min (ch_max w) (ch_room w)) in
         (n, None, Chunked (ch_max w) (ch_room w - n) (ch_err w) (ch_bytes w ++ take n d));
  w_out := ch_bytes
}.

(** ** Lemmas *)

#[global] Instance sink_laws : WriterLaws sink.
Proof.
  split; intros [o] d n e w' E; cbn in E; simplify_eq; cbn; [done|].
  by rewrite firstn_all.
Qed.

#[global] Instance sink_reliable : ReliableWriter sink.
Proof. intros [o] d. by eexists. Qed.

#[global] Instance chunked_laws : WriterLaws chunked.
Proof.
  split; intros w d n e w' E; cbn in E; case_bool_decide; simplify_eq; cbn; [lia|lia| |done].
  by rewrite app_nil_r.
Qed.

Lemma ReadFull_app data rest e :
  ReadFull (Reader (data ++ rest) e) (length data) = (Ok data, Reader rest e).
Proof.
  unfold ReadFull. cbn. rewrite bool_decide_true by (rewrite length_app; lia).
  by rewrite take_app_length, drop_app_length.
Qed.

Lemma ReadFull_Ok r n data r' :
  ReadFull r n = (Ok data, r') ->
  length data = n /\ rd_data r = data ++ rd_data r' /\ rd_err r' = rd_err r.
Proof.
  unfold ReadFull. case_bool_decide; intros; simplify_eq; cbn.
  rewrite length_take, take_drop. split; [lia|done].
Qed.
