(* ===== verification/Strconv.v ===== *)
(** * The parts of strconv and time the gateway uses

    [strconv.ParseUint] in base 10, [strconv.Atoi] with its fast path,
    [strconv.ParseBool], [strconv.FormatUint] in base 10 and
    [time.ParseDuration], whose fractions are computed in IEEE 754 double
    precision ([SpecFloat]). 64-bit arithmetic wraps around as in Go. *)

From S2P Require Import Prelude.
From Stdlib Require Import Floats.SpecFloat.

(** ** Decimal digits *)

Definition is_digit (b : byte) : bool := (48 <=? ubyte b) && (ubyte b <=? 57).
Definition digit_value (b : byte) : Z := ubyte b - 48.

(** The value of a digit string, most significant first. *)
Definition digits_value (acc : Z) (s : gostring) : Z := foldl (fun n b => n * 10 + digit_value b) acc s.

(** ** strconv *)

(** [strconv.ParseUint(s, 10, bitSize)] with [maxVal = 2^bitSize - 1]. *)
Fixpoint ParseUint_loop (maxVal n : Z) (s : gostring) : res Z :=
  match s with
  | [] => Ok n
  | c :: s =>
    if negb (is_digit c) then Err strconv_ErrSyntax
    else if (2 ^ 64 - 1) / 10 + 1 <=? n then Err strconv_ErrRange
    else
      let n := uint64 (n * 10) in
      let n1 := uint64 (n + digit_value c) in
      if (n1 <? n) || (maxVal <? n1) then Err strconv_ErrRange else ParseUint_loop maxVal n1 s
  end.

Definition ParseUint (s : gostring) (bitSize : Z) : res Z :=
  if bool_decide (s = []) then Err strconv_ErrSyntax else ParseUint_loop (2 ^ bitSize - 1) 0 s.

(** Split off an optional sign. *)
Definition sign (s : gostring) : bool * gostring :=
  match s with
  | c :: s' => if bool_decide (c = x2d) then (true, s') else if bool_decide (c = x2b) then (false, s') else (false, s)
  | [] => (false, [])
  end.

(** [strconv.ParseInt(s, 10, 0)] on a 64-bit platform. *)
Definition ParseInt (s : gostring) : res Z :=
  if bool_decide (s = []) then Err strconv_ErrSyntax
  else
    let '(neg, s) := sign s in
    let cutoff := 2 ^ 63 in
    match ParseUint s 64 with
    | Err strconv_ErrRange => Err strconv_ErrRange     (* un = 2^64 - 1 is past either cutoff *)
    | Err err => Err err
    | Ok un =>
      if negb neg && (cutoff <=? un) then Err strconv_ErrRange
      else if neg && (cutoff <? un) then Err strconv_ErrRange
      else Ok (if neg then int64 (- int64 un) else int64 un)
    end.

(** The fast path of [Atoi]: fewer than 19 bytes cannot overflow. *)
Fixpoint Atoi_fast (n : Z) (s : gostring) : res Z :=
  match s with
  | [] => Ok n
  | c :: s => if 9 <? uint8 (ubyte c - 48) then Err strconv_ErrSyntax else Atoi_fast (int64 (n * 10 + uint8 (ubyte c - 48))) s
  end.

Definition Atoi (s : gostring) : res Z :=
  if (0 <? blen s) && (blen s <? 19) then
    let '(neg, digits) := sign s in
    if bool_decide (digits = []) then Err strconv_ErrSyntax
    else let! n := Atoi_fast 0 digits in Ok (if neg then int64 (- n) else n)
  else ParseInt s.

Definition ParseBool (s : gostring) : res bool :=
  if bool_decide (s ∈ [str "1"; str "t"; str "T"; str "TRUE"; str "true"; str "True"]) then Ok true
  else if bool_decide (s ∈ [str "0"; str "f"; str "F"; str "FALSE"; str "false"; str "False"]) then Ok false
  else Err strconv_ErrSyntax.

(** [strconv.FormatUint(z, 10)]; a 64-bit number has at most 20 digits. *)
Fixpoint decimal (fuel : nat) (z : Z) : gostring :=
  match fuel with
  | O => []
  | S fuel => if z <? 10 then [mkbyte (48 + z)] else decimal fuel (z / 10) ++ [mkbyte (48 + z mod 10)]
  end.
Definition FormatUint (z : Z) : gostring := decimal 20 z.

(** ** time.ParseDuration *)

Definition Nanosecond : Z := 1.
Definition Microsecond : Z := 1000.
Definition Millisecond : Z := 1000000.
Definition Second : Z := 1000000000.
Definition Minute : Z := 60 * Second.
Definition Hour : Z := 60 * Minute.

(** [unitMap], with the two encodings of the micro sign. *)
Definition unitMap (u : gostring) : option Z :=
  if bool_decide (u = str "ns") then Some Nanosecond
  else if bool_decide (u ∈ [str "us"; [xc2; xb5; x73]; [xce; xbc; x73]]) then Some Microsecond
  else if bool_decide (u = str "ms") then Some Millisecond
  else if bool_decide (u = str "s") then Some Second
  else if bool_decide (u = str "m") then Some Minute
  else if bool_decide (u = str "h") then Some Hour
  else None.

Fixpoint leadingInt (x : Z) (s : gostring) : option (Z * gostring) :=
  match s with
  | [] => Some (x, [])
  | c :: s' =>
    if negb (is_digit c) then Some (x, s)
    else if 2 ^ 63 / 10 <? x then None
    else let x := uint64 (x * 10 + digit_value c) in
         if 2 ^ 63 <? x then None else leadingInt x s'
  end.

(** float64 operations *)
Definition float_of (z : Z) : spec_float := binary_normalize 53 1024 z 0 false.
Definition float_mul : spec_float -> spec_float -> spec_float := SFmul 53 1024.
Definition float_div : spec_float -> spec_float -> spec_float := SFdiv 53 1024.

(** [uint64(f)]: the integer part of a finite non-negative value. *)
Definition float_trunc (f : spec_float) : Z :=
  match f with
  | S754_finite false m e => uint64 (Z.shiftl (Z.pos m) e)
  | _ => 0
  end.

Fixpoint leadingFraction (x : Z) (scale : spec_float) (overflow : bool) (s : gostring) : Z * spec_float * gostring :=
  match s with
  | [] => (x, scale, [])
  | c :: s' =>
    if negb (is_digit c) then (x, scale, s)
    else if overflow then leadingFraction x scale true s'
    else if (2 ^ 63 - 1) / 10 <? x then leadingFraction x scale true s'
    else let y := uint64 (x * 10 + digit_value c) in
         if 2 ^ 63 <? y then leadingFraction x scale true s'
         else leadingFraction y (float_mul scale (float_of 10)) false s'
  end.

(** The bytes up to the next digit or point. *)
Fixpoint unit_prefix (s : gostring) : gostring * gostring :=
  match s with
  | [] => ([], [])
  | c :: s' => if bool_decide (c = x2e) || is_digit c then ([], s) else let '(u, rest) := unit_prefix s' in (c :: u, rest)
  end.

Definition head_is (p : byte -> bool) (s : gostring) : bool := match s with c :: _ => p c | [] => false end.

(** One number with its unit: the nanoseconds and what follows. *)
Definition duration_part (s : gostring) : option (Z * gostring) :=
  if negb (head_is (fun c => bool_decide (c = x2e) || is_digit c) s) then None
  else match leadingInt 0 s with
  | None => None
  | Some (v, s1) =>
    let pre := negb (bool_decide (length s = length s1)) in
    let '(f, scale, s2, post) :=
      if head_is (fun c => bool_decide (c = x2e)) s1 then
        let '(f, scale, rest) := leadingFraction 0 (float_of 1) false (tail s1) in
        (f, scale, rest, negb (bool_decide (length (tail s1) = length rest)))
      else (0, float_of 1, s1, false) in
    if negb pre && negb post then None
    else
      let '(u, s3) := unit_prefix s2 in
      if bool_decide (u = []) then None
      else match unitMap u with
      | None => None
      | Some unit =>
        if 2 ^ 63 / unit <? v then None
        else
          let v := uint64 (v * unit) in
          if 0 <? f then
            let v := uint64 (v + float_trunc (float_mul (float_of f) (float_div (float_of unit) scale))) in
            if 2 ^ 63 <? v then None else Some (v, s3)
          else Some (v, s3)
      end
  end.

(** The loop over the parts; every part consumes at least one byte, so the length
    of the string is enough fuel. *)
Fixpoint duration_loop (fuel : nat) (d : Z) (s : gostring) : option Z :=
  match s, fuel with
  | [], _ => Some d
  | _, O => None
  | _, S fuel =>
    match duration_part s with
    | None => None
    | Some (v, s) =>
      let d := uint64 (d + v) in
      if 2 ^ 63 <? d then None else duration_loop fuel d s
    end
  end.

Definition ParseDuration (orig : gostring) : res Z :=
  let '(neg, s) := sign orig in
  if bool_decide (s = str "0") then Ok 0
  else if bool_decide (s = []) then Err time_ErrDuration
  else match duration_loop (length s) 0 s with
  | None => Err time_ErrDuration
  | Some d =>
    if neg then Ok (int64 (- int64 d))
    else if 2 ^ 63 - 1 <? d then Err time_ErrDuration else Ok (int64 d)
  end.

Example duration_seconds : ParseDuration (str "1h15m30.918273645s") = Ok 4530918273645.
Proof. reflexivity. Qed.
Example duration_fraction : ParseDuration (str "1.5h") = Ok (90 * Minute) /\ ParseDuration (str ".1us") = Ok 100 /\
  ParseDuration (str "-1.5ms") = Ok (-1500000) /\ ParseDuration (str "0.3333333333333333333h") = Ok 1200000000000 /\
  ParseDuration (str "9007199254.740993ms") = Ok 9007199254740993.
Proof. repeat split; reflexivity. Qed.
Example duration_errors : ParseDuration (str "3") = Err time_ErrDuration /\ ParseDuration (str "") = Err time_ErrDuration /\
  ParseDuration (str ".s") = Err time_ErrDuration /\ ParseDuration (str "9223372036854775808ns") = Err time_ErrDuration /\
  ParseDuration (str "-9223372036854775808ns") = Ok (- 2 ^ 63).
Proof. repeat split; reflexivity. Qed.
Example atoi_examples : Atoi (str "-17") = Ok (-17) /\ Atoi (str "+5") = Ok 5 /\ Atoi (str "9223372036854775807") = Ok (2 ^ 63 - 1) /\
  Atoi (str "9223372036854775808") = Err strconv_ErrRange /\ Atoi (str "1_0") = Err strconv_ErrSyntax /\ Atoi (str "-") = Err strconv_ErrSyntax.
Proof. repeat split; reflexivity. Qed.

(** ** Lemmas: digits *)

Lemma digit_range b : is_digit b = true -> 0 <= digit_value b <= 9.
Proof. unfold is_digit, digit_value. intros. bool_facts. lia. Qed.

Lemma digits_value_cons n b s : digits_value n (b :: s) = digits_value (n * 10 + digit_value b) s.
Proof. done. Qed.

Lemma digits_value_ge s : forall n, 0 <= n -> Forall (fun b => is_digit b = true) s -> n <= digits_value n s.
Proof.
  induction s as [|b s IH]; intros n Hn Hs; [done|]. inversion Hs as [|? ? Hb Hs']; subst.
  rewrite digits_value_cons. pose proof (digit_range _ Hb). specialize (IH (n * 10 + digit_value b) ltac:(lia) Hs'). lia.
Qed.

Lemma ParseUint_loop_iff maxVal s : maxVal < 2 ^ 64 -> forall n v, 0 <= n <= maxVal ->
  ParseUint_loop maxVal n s = Ok v <->
  Forall (fun b => is_digit b = true) s /\ v = digits_value n s /\ v <= maxVal.
Proof.
  intros Hm. induction s as [|c s IH]; intros n v Hn; cbn [ParseUint_loop].
  { cbn. split; [intros; simplify_eq; split_and!; [constructor|done|lia]|intros (_ & -> & _); done]. }
  destruct (is_digit c) eqn:Hc; cbn [negb]; [|split; [done|intros (H & _); inversion H; congruence]].
  pose proof (digit_range _ Hc) as Hd. rewrite digits_value_cons.
  assert (Hbig : maxVal < n * 10 + digit_value c -> ~ (Forall (fun b => is_digit b = true) (c :: s) /\
    v = digits_value (n * 10 + digit_value c) s /\ v <= maxVal)).
  { intros Hb (Hf & -> & Hle). inversion Hf as [|? ? _ Hs]; subst.
    pose proof (digits_value_ge s (n * 10 + digit_value c) ltac:(lia) Hs). lia. }
  destruct (Z.leb_spec ((2 ^ 64 - 1) / 10 + 1) n) as [Hcut|Hcut].
  { split; [done|]. intros H. destruct (Hbig ltac:(change ((2 ^ 64 - 1) / 10 + 1) with 1844674407370955162 in Hcut; lia) H). }
  change ((2 ^ 64 - 1) / 10 + 1) with 1844674407370955162 in Hcut.
  rewrite (uint64_small (n * 10)) by (unfold in_uint64; lia).
  destruct (Z.le_gt_cases (n * 10 + digit_value c) maxVal) as [Hle|Hgt].
  - rewrite uint64_small by (unfold in_uint64; lia).
    rewrite (proj2 (Z.ltb_ge _ _)), (proj2 (Z.ltb_ge _ _)) by lia. cbn [orb]. rewrite IH by lia.
    rewrite Forall_cons. naive_solver.
  - split; [|intros H; destruct (Hbig Hgt H)]. intros He. exfalso.
    destruct (Z.lt_ge_cases (n * 10 + digit_value c) (2 ^ 64)).
    + rewrite uint64_small in He by (unfold in_uint64; lia).
      rewrite (proj2 (Z.ltb_lt maxVal _)), orb_true_r in He by lia. done.
    + assert (uint64 (n * 10 + digit_value c) = n * 10 + digit_value c - 2 ^ 64) as Hw.
      { unfold uint64. rewrite <-(Z.mod_small (n * 10 + digit_value c - 2 ^ 64) (2 ^ 64)) by lia.
        rewrite <-(Z.mod_add (n * 10 + digit_value c - 2 ^ 64) 1) by lia. f_equal. lia. }
      rewrite Hw, (proj2 (Z.ltb_lt _ (n * 10))) in He by lia. done.
Qed.

(** [ParseUint] accepts exactly the non-empty digit strings of a value that fits. *)
Lemma ParseUint_iff s k v : 0 <= k <= 64 ->
  ParseUint s k = Ok v <-> s <> [] /\ Forall (fun b => is_digit b = true) s /\ v = digits_value 0 s /\ v < 2 ^ k.
Proof.
  intros Hk. unfold ParseUint. assert (0 < 2 ^ k <= 2 ^ 64) by (split; [apply Z.pow_pos_nonneg; lia|apply Z.pow_le_mono_r; lia]).
  case_bool_decide as Hs; [naive_solver|]. rewrite ParseUint_loop_iff by lia. naive_solver lia.
Qed.

(** ** Lemmas: Atoi *)

Definition signed (neg : bool) (z : Z) : Z := if neg then - z else z.

Lemma digit_uint8 c : (9 <? uint8 (ubyte c - 48)) = negb (is_digit c).
Proof.
  unfold is_digit, uint8. pose proof (ubyte_range c).
  destruct (Z.lt_ge_cases (ubyte c) 48).
  - rewrite <-(Z.mod_add _ 1) by done. rewrite Z.mod_small by lia.
    rewrite (proj2 (Z.ltb_lt _ _)), (proj2 (Z.leb_gt 48 _)) by lia. done.
  - rewrite Z.mod_small by lia. rewrite (proj2 (Z.leb_le 48 _)) by lia.
    destruct (Z.leb_spec (ubyte c) 57); destruct (Z.ltb_spec 9 (ubyte c - 48)); try done; lia.
Qed.

Lemma digits_value_lt s : forall n, 0 <= n -> Forall (fun b => is_digit b = true) s ->
  digits_value n s < (n + 1) * 10 ^ blen s.
Proof.
  induction s as [|b s IH]; intros n Hn Hs; [change (blen (@nil byte)) with 0; cbn; lia|]. inversion Hs as [|? ? Hb Hs']; subst.
  rewrite digits_value_cons, blen_cons, Z.pow_add_r by (try apply blen_nonneg; lia).
  pose proof (digit_range _ Hb). specialize (IH (n * 10 + digit_value b) ltac:(lia) Hs').
  pose proof (Z.pow_pos_nonneg 10 (blen s) ltac:(lia) (blen_nonneg _)). nia.
Qed.

Lemma Atoi_fast_iff s : forall n v, 0 <= n -> (n + 1) * 10 ^ blen s <= 2 ^ 63 ->
  Atoi_fast n s = Ok v <-> Forall (fun b => is_digit b = true) s /\ v = digits_value n s.
Proof.
  induction s as [|c s IH]; intros n v Hn Hb; cbn [Atoi_fast].
  { cbn. split; [intros; by simplify_eq|by intros [_ ->]]. }
  rewrite digit_uint8. destruct (is_digit c) eqn:Hc; cbn [negb]; [|split; [done|intros (H & _); inversion H; congruence]].
  pose proof (digit_range _ Hc) as Hd. rewrite digits_value_cons.
  rewrite blen_cons, Z.pow_add_r in Hb by (try apply blen_nonneg; lia).
  pose proof (Z.pow_pos_nonneg 10 (blen s) ltac:(lia) (blen_nonneg _)).
  assert (uint8 (ubyte c - 48) = digit_value c) as -> by (apply Z.mod_small; unfold digit_value in *; lia).
  rewrite int64_small by (unfold in_int64; nia). rewrite IH by nia. rewrite Forall_cons. naive_solver.
Qed.

Lemma sign_length s neg ds : sign s = (neg, ds) -> blen ds <= blen s.
Proof.
  unfold sign. destruct s as [|c s]; [by intros; simplify_eq|].
  repeat case_bool_decide; intros; simplify_eq; rewrite ?blen_cons; lia.
Qed.

(** Either path of [Atoi] reads an optional sign and a non-empty string of
    digits, and accepts exactly the values an [int] holds. *)
Lemma Atoi_iff s v :
  Atoi s = Ok v <->
  let '(neg, ds) := sign s in
  ds <> [] /\ Forall (fun b => is_digit b = true) ds /\ v = signed neg (digits_value 0 ds) /\ in_int64 v.
Proof.
  unfold Atoi. destruct (sign s) as [neg ds] eqn:Es. pose proof (sign_length _ _ _ Es) as Hl.
  destruct ((0 <? blen s) && (blen s <? 19)) eqn:Hf.
  - bool_facts. case_bool_decide as Hd; [naive_solver|].
    pose proof (Z.pow_le_mono_r 10 (blen ds) 18 ltac:(lia) ltac:(lia)) as Hp. change (10 ^ 18) with 1000000000000000000 in Hp.
    assert (Hval : Forall (fun b => is_digit b = true) ds -> 0 <= digits_value 0 ds < 2 ^ 63).
    { intros Hds. pose proof (digits_value_ge ds 0 ltac:(lia) Hds). pose proof (digits_value_lt ds 0 ltac:(lia) Hds). lia. }
    destruct (Atoi_fast 0 ds) as [n|err] eqn:E.
    + apply Atoi_fast_iff in E as [Hds ->]; [|lia|lia]. specialize (Hval Hds).
      assert ((if neg then int64 (- digits_value 0 ds) else digits_value 0 ds) = signed neg (digits_value 0 ds)) as ->.
      { destruct neg; [|done]. cbn. apply int64_small. unfold in_int64; lia. }
      split; [intros; simplify_eq; split_and!; try done; destruct neg; unfold in_int64; cbn; lia|naive_solver].
    + split; [done|]. intros (_ & Hds & _). exfalso.
      assert (Atoi_fast 0 ds = Ok (digits_value 0 ds)) by (apply Atoi_fast_iff; [lia|lia|done]). congruence.
  - unfold ParseInt. destruct s as [|c s]; [cbn in Es; simplify_eq; naive_solver|].
    rewrite bool_decide_false by done. rewrite Es.
    destruct (ParseUint ds 64) as [un|err] eqn:E.
    + apply ParseUint_iff in E as (Hne & Hds & -> & Hlt); [|lia].
      pose proof (digits_value_ge ds 0 ltac:(lia) Hds) as Hge. destruct neg; cbn [negb andb].
      * destruct (Z.ltb_spec (2 ^ 63) (digits_value 0 ds)) as [Hr|Hr]; [split; [done|]; intros (_ & _ & -> & Hi); unfold in_int64 in Hi; cbn in Hi; lia|].
        assert (int64 (- int64 (digits_value 0 ds)) = - digits_value 0 ds) as ->.
        { destruct (decide (digits_value 0 ds = 2 ^ 63)) as [->|]; [done|].
          rewrite !int64_small; [done| |]; unfold in_int64; try rewrite int64_small; unfold in_int64; lia. }
        split; [intros; simplify_eq; split_and!; try done; unfold in_int64; cbn; lia|naive_solver].
      * destruct (Z.leb_spec (2 ^ 63) (digits_value 0 ds)) as [Hr|Hr]; [split; [done|]; intros (_ & _ & -> & Hi); unfold in_int64 in Hi; cbn in Hi; lia|].
        rewrite int64_small by (unfold in_int64; lia).
        split; [intros; simplify_eq; split_and!; try done; unfold in_int64; cbn; lia|naive_solver].
    + assert (Hno : ~ (ds <> [] /\ Forall (fun b => is_digit b = true) ds /\ v = signed neg (digits_value 0 ds) /\ in_int64 v)).
      { intros (Hne & Hds & -> & Hi). assert (ParseUint ds 64 = Ok (digits_value 0 ds)); [|congruence].
        apply ParseUint_iff; [lia|]. split_and!; try done. unfold in_int64 in Hi. destruct neg; cbn in Hi; lia. }
      destruct err; naive_solver.
Qed.

(** ** Lemmas: FormatUint *)

Lemma digit_mkbyte z : 0 <= z < 10 -> is_digit (mkbyte (48 + z)) = true /\ digit_value (mkbyte (48 + z)) = z.
Proof.
  intros Hz. unfold is_digit, digit_value. rewrite ubyte_mkbyte_small by lia.
  rewrite (proj2 (Z.leb_le _ _)), (proj2 (Z.leb_le _ _)) by lia. split; [done|lia].
Qed.

Lemma digits_value_app n s t : digits_value n (s ++ t) = digits_value (digits_value n s) t.
Proof. apply foldl_app. Qed.

Lemma decimal_spec fuel : forall z, 0 <= z < 10 ^ Z.of_nat fuel -> (0 < fuel)%nat ->
  decimal fuel z <> [] /\ Forall (fun b => is_digit b = true) (decimal fuel z) /\ digits_value 0 (decimal fuel z) = z.
Proof.
  induction fuel as [|fuel IH]; intros z Hz Hf; [lia|]. cbn [decimal].
  destruct (Z.ltb_spec z 10) as [Hlt|Hge].
  { destruct (digit_mkbyte z ltac:(lia)) as [Hd Hv]. split_and!; [done|by repeat constructor|]. cbn. lia. }
  destruct (digit_mkbyte (z mod 10)) as [Hd Hv]; [apply Z.mod_pos_bound; lia|].
  rewrite Nat2Z.inj_succ, Z.pow_succ_r in Hz by lia.
  assert (0 <= z / 10 < 10 ^ Z.of_nat fuel) as Hq.
  { split; [apply Z.div_pos; lia|apply Z.div_lt_upper_bound; lia]. }
  destruct fuel as [|fuel]; [cbn in Hq; pose proof (Z.div_le_lower_bound z 10 1); lia|].
  destruct (IH (z / 10) Hq ltac:(lia)) as (Hne & Hall & Hval).
  split_and!; [by destruct (decimal (S fuel) (z / 10))|by apply Forall_app; split; [|repeat constructor]|].
  rewrite digits_value_app, Hval, digits_value_cons, Hv. cbn. pose proof (Z.div_mod z 10). lia.
Qed.

Lemma FormatUint_spec z : in_uint64 z ->
  FormatUint z <> [] /\ Forall (fun b => is_digit b = true) (FormatUint z) /\ digits_value 0 (FormatUint z) = z.
Proof. intros Hz. apply decimal_spec; [|lia]. unfold in_uint64 in Hz. split; [lia|]. change (10 ^ Z.of_nat 20) with (10 ^ 20). lia. Qed.

(** Printing and parsing a number of any width up to 64 bits. *)
Lemma ParseUint_FormatUint z k : 0 <= k <= 64 -> 0 <= z < 2 ^ k -> ParseUint (FormatUint z) k = Ok z.
Proof.
  intros Hk Hz. assert (in_uint64 z) as Hu by (pose proof (Z.pow_le_mono_r 2 k 64); unfold in_uint64; lia).
  destruct (FormatUint_spec z Hu) as (Hne & Hall & Hval). apply ParseUint_iff; [done|]. split_and!; try done. lia.
Qed.

(** ** Lemmas: ParseDuration *)

Lemma leadingInt_digits ds rest : forall x, 0 <= x -> Forall (fun b => is_digit b = true) ds ->
  digits_value x ds <= 2 ^ 63 -> head_is is_digit rest = false ->
  leadingInt x (ds ++ rest) = Some (digits_value x ds, rest).
Proof.
  induction ds as [|c ds IH]; intros x Hx Hds Hv Hr; cbn [app leadingInt].
  { destruct rest as [|c rest]; [done|]. cbn in Hr |- *. by rewrite Hr. }
  inversion Hds as [|? ? Hc Hds']; subst. rewrite Hc. cbn [negb]. pose proof (digit_range _ Hc).
  rewrite digits_value_cons in *. pose proof (digits_value_ge ds (x * 10 + digit_value c) ltac:(lia) Hds').
  change (2 ^ 63 / 10) with 922337203685477580. rewrite (proj2 (Z.ltb_ge _ _)) by lia.
  rewrite uint64_small by (unfold in_uint64; lia). rewrite (proj2 (Z.ltb_ge _ _)) by lia. by apply IH; try lia.
Qed.

Lemma leadingInt_length s : forall x v rest, leadingInt x s = Some (v, rest) -> (length rest <= length s)%nat.
Proof.
  induction s as [|c s IH]; intros x v rest; cbn [leadingInt]; [by intros; simplify_eq|].
  destruct (is_digit c); cbn [negb]; [|by intros; simplify_eq].
  destruct (_ <? x); [done|]. destruct (_ <? uint64 _); [done|]. intros E. apply IH in E. cbn. lia.
Qed.

Lemma leadingFraction_length s : forall x sc o f sc' rest,
  leadingFraction x sc o s = (f, sc', rest) -> (length rest <= length s)%nat.
Proof.
  induction s as [|c s IH]; intros x sc o f sc' rest; cbn [leadingFraction]; [by intros; simplify_eq|].
  destruct (is_digit c); cbn [negb]; [|by intros; simplify_eq].
  repeat case_match; intros E; apply IH in E; cbn; lia.
Qed.

Lemma unit_prefix_split s u rest : unit_prefix s = (u, rest) -> s = u ++ rest.
Proof.
  revert u rest. induction s as [|c s IH]; intros u rest; cbn; [by intros; simplify_eq|].
  destruct (_ || _); [by intros; simplify_eq|]. destruct (unit_prefix s) as [u' r']. intros; simplify_eq.
  cbn. by rewrite (IH u' rest).
Qed.

(** Every part of a duration consumes input. *)
Lemma duration_part_shorter s v rest : duration_part s = Some (v, rest) -> (length rest < length s)%nat.
Proof.
  unfold duration_part. destruct (negb _); [done|]. destruct (leadingInt 0 s) as [[v0 s1]|] eqn:E1; [|done].
  apply leadingInt_length in E1.
  destruct (if head_is _ s1 then _ else _) as [[[f scale] s2] post] eqn:E2.
  assert (length s2 <= length s1)%nat as H2.
  { destruct (head_is _ s1).
    - destruct (leadingFraction _ _ _ (tail s1)) as [[f' sc'] r'] eqn:E; apply leadingFraction_length in E.
      simplify_eq. destruct s1; cbn in *; lia.
    - by simplify_eq. }
  destruct (_ && _); [done|]. destruct (unit_prefix s2) as [u s3] eqn:E3. apply unit_prefix_split in E3 as ->.
  case_bool_decide as Hu; [done|]. rewrite length_app in H2. destruct u; [done|]. cbn in H2.
  repeat case_match; intros; simplify_eq; lia.
Qed.

(** The length of the string is enough fuel: more changes nothing. *)
Lemma duration_loop_fuel fuel : forall d s, (length s <= fuel)%nat ->
  duration_loop fuel d s = duration_loop (length s) d s.
Proof.
  induction fuel as [fuel IH] using lt_wf_ind. intros d [|c s] Hf; [by destruct fuel|].
  destruct fuel as [|fuel]; [cbn in Hf; lia|]. cbn [duration_loop length].
  destruct (duration_part (c :: s)) as [[v rest]|] eqn:E; [|done]. apply duration_part_shorter in E.
  destruct (2 ^ 63 <? uint64 (d + v)); [done|]. cbn in E, Hf.
  rewrite IH by lia. symmetry. apply IH; lia.
Qed.

(** A decimal number with a unit means that many units, when it fits. *)
Lemma ParseDuration_units n u unit : u ∈ [str "ns"; str "us"; str "ms"; str "s"; str "m"; str "h"] ->
  unitMap u = Some unit -> 0 <= n -> n * unit < 2 ^ 63 -> ParseDuration (FormatUint n ++ u) = Ok (n * unit).
Proof.
  intros Hu Hun Hn Hlt.
  assert (Hunit : 0 < unit <= 3600000000000 /\ u <> [] /\ unit_prefix u = (u, []) /\ head_is is_digit u = false).
  { rewrite !elem_of_cons, elem_of_nil in Hu. destruct_or! Hu; try done; subst u; cbn in Hun; injection Hun as <-; split_and!; done. }
  destruct Hunit as (Hunit & Hne & Hpre & Hhd).
  assert (in_uint64 n) as Hn64 by (unfold in_uint64; nia).
  destruct (FormatUint_spec n Hn64) as (Hfne & Hall & Hval).
  assert (Hs : exists c ds, FormatUint n = c :: ds /\ is_digit c = true).
  { destruct (FormatUint n) as [|c ds]; [done|]. inversion Hall; eauto. }
  destruct Hs as (c & ds & Hc & Hd).
  assert (Hsign : sign (FormatUint n ++ u) = (false, FormatUint n ++ u)).
  { rewrite Hc. cbn. repeat case_bool_decide; subst; done. }
  unfold ParseDuration. rewrite Hsign.
  rewrite bool_decide_false by (intros E; apply (f_equal length) in E; rewrite Hc in E; cbn in E; rewrite length_app in E; destruct u; [done|cbn in E; lia]).
  rewrite bool_decide_false by (by rewrite Hc).
  assert (Hpart : duration_part (FormatUint n ++ u) = Some (n * unit, [])).
  { unfold duration_part. rewrite Hc at 1. cbn [app head_is]. rewrite Hd, orb_true_r. cbn [negb].
    rewrite leadingInt_digits by (try done; rewrite Hval; nia). rewrite Hval.
    rewrite bool_decide_false by (rewrite length_app, Hc; cbn; lia). cbn [negb].
    assert (head_is (fun c => bool_decide (c = x2e)) u = false) as ->.
    { rewrite !elem_of_cons, elem_of_nil in Hu. destruct_or! Hu; try done; by subst u. }
    cbn [andb]. rewrite Hpre, bool_decide_false by done. rewrite Hun.
    rewrite (proj2 (Z.ltb_ge _ _)) by (apply Z.div_le_lower_bound; nia).
    cbn [Z.ltb Z.compare]. rewrite uint64_small by (unfold in_uint64; nia). done. }
  destruct (FormatUint n ++ u) as [|b s] eqn:Es; [by rewrite Hc in Es|].
  cbn [length duration_loop]. rewrite Hpart. rewrite Z.add_0_l, uint64_small by (unfold in_uint64; nia).
  rewrite (proj2 (Z.ltb_ge _ _)) by nia. destruct (length s); cbn [duration_loop];
  rewrite (proj2 (Z.ltb_ge _ _)) by nia; rewrite int64_small by (unfold in_int64; nia); done.
Qed.
