(* ===== verification/NetAddr.v ===== *)
(** * Addresses (net.SplitHostPort, net.JoinHostPort)

    The server counts connections per host and the test harness reads published
    ports: both take the text of an address apart. *)

From S2P Require Import Prelude.

(** ':', '[' and ']' *)
Definition colon : byte := x3a.
Definition bracket_l : byte := x5b.
Definition bracket_r : byte := x5d.

Definition IndexByte (s : gostring) (c : byte) : option nat := fst <$> list_find (fun b => b = c) s.
Definition LastIndexByte (s : gostring) (c : byte) : option nat :=
  (fun i => (length s - S i)%nat) <$> IndexByte (reverse s) c.

(** [AddrError.Error] *)
Definition addrErr {A} (addr : gostring) (why : string) : res A :=
  Err (ErrNew (if bool_decide (addr = []) then why else "address " +:+ String.string_of_list_byte addr +:+ ": " +:+ why)).

Definition missingPort : string := "missing port in address".
Definition tooManyColons : string := "too many colons in address".

(** The checks after the host was found, and the port. *)
Definition split_port (hostport host : gostring) (i j k : nat) : res (gostring * gostring) :=
  match IndexByte (drop j hostport) bracket_l, IndexByte (drop k hostport) bracket_r with
  | Some _, _ => addrErr hostport "unexpected '[' in address"
  | None, Some _ => addrErr hostport "unexpected ']' in address"
  | None, None => Ok (host, drop (S i) hostport)
  end.

Definition SplitHostPort (hostport : gostring) : res (gostring * gostring) :=
  match LastIndexByte hostport colon with
  | None => addrErr hostport missingPort
  | Some i =>
    if bool_decide (head hostport = Some bracket_l) then
      match IndexByte hostport bracket_r with
      | None => addrErr hostport "missing ']' in address"
      | Some e =>
        if (S e =? length hostport)%nat then addrErr hostport missingPort
        else if (S e =? i)%nat then split_port hostport (drop 1 (take e hostport)) i 1 (S e)
        else if bool_decide (hostport !! S e = Some colon) then addrErr hostport tooManyColons
        else addrErr hostport missingPort
      end
    else
      let host := take i hostport in
      match IndexByte host colon with
      | Some _ => addrErr hostport tooManyColons
      | None => split_port hostport host i 0 0
      end
  end.

(** An IPv6 host is written in brackets. *)
Definition JoinHostPort (host port : gostring) : gostring :=
  match IndexByte host colon with
  | Some _ => bracket_l :: host ++ bracket_r :: colon :: port
  | None => host ++ colon :: port
  end.

(** ** Lemmas *)

Lemma IndexByte_None s c : IndexByte s c = None <-> c ∉ s.
Proof.
  unfold IndexByte. rewrite fmap_None, list_find_None, Forall_forall. split.
  - intros H Hin. by apply (H c Hin).
  - intros H x Hx ->. done.
Qed.

Lemma IndexByte_app s c t : c ∉ s -> IndexByte (s ++ c :: t) c = Some (length s).
Proof.
  intros H. unfold IndexByte. rewrite list_find_app_r; [|apply list_find_None, Forall_forall; intros x Hx ->; done].
  cbn [list_find]. by rewrite decide_True.
Qed.

Lemma LastIndexByte_app s c t : c ∉ t -> LastIndexByte (s ++ c :: t) c = Some (length s).
Proof.
  intros H. unfold LastIndexByte. rewrite reverse_app, reverse_cons, <-app_assoc. cbn [app].
  rewrite IndexByte_app by set_solver. cbn. rewrite length_app, length_reverse. cbn. f_equal. lia.
Qed.

Lemma split_port_Ok hostport host i j k :
  bracket_l ∉ drop j hostport -> bracket_r ∉ drop k hostport -> split_port hostport host i j k = Ok (host, drop (S i) hostport).
Proof. intros Hl Hr. unfold split_port. by rewrite (proj2 (IndexByte_None _ _) Hl), (proj2 (IndexByte_None _ _) Hr). Qed.

(** The text of a host or port: no brackets, and for a port no colon. *)
Definition plain (s : gostring) : Prop := (bracket_l ∉ s) /\ (bracket_r ∉ s).

(** Splitting takes a joined address apart again, with and without brackets. *)
Lemma SplitHostPort_JoinHostPort host port :
  plain host -> plain port -> colon ∉ port -> SplitHostPort (JoinHostPort host port) = Ok (host, port).
Proof.
  intros [Hh1 Hh2] [Hp1 Hp2] Hc. unfold JoinHostPort. destruct (IndexByte host colon) eqn:Ei.
  - assert (El : LastIndexByte (bracket_l :: host ++ bracket_r :: colon :: port) colon = Some (S (S (length host)))).
    { change (bracket_l :: host ++ bracket_r :: colon :: port) with ((bracket_l :: host) ++ [bracket_r] ++ colon :: port).
      rewrite app_assoc, LastIndexByte_app by done. rewrite length_app. cbn. f_equal. lia. }
    assert (Er : IndexByte (bracket_l :: host ++ bracket_r :: colon :: port) bracket_r = Some (S (length host))).
    { apply (IndexByte_app (bracket_l :: host)). set_unfold. intros [?|?]; done. }
    unfold SplitHostPort. rewrite El, bool_decide_eq_true_2, Er by done.
    destruct (Nat.eqb_spec (S (S (length host))) (length (bracket_l :: host ++ bracket_r :: colon :: port))) as [E|_].
    { exfalso. cbn in E. rewrite length_app in E. cbn in E. lia. }
    rewrite Nat.eqb_refl. cbn [take drop]. rewrite take_app_length.
    assert (Ed : drop (S (length host)) (host ++ bracket_r :: colon :: port) = colon :: port).
    { replace (S (length host)) with (length host + 1)%nat by lia. by rewrite <-drop_drop, drop_app_length. }
    rewrite split_port_Ok.
    + cbn [drop]. replace (S (S (length host))) with (length host + 2)%nat by lia. by rewrite <-drop_drop, drop_app_length.
    + cbn [drop]. set_unfold. intros [?|[?|[?|?]]]; done.
    + cbn [drop]. rewrite Ed. set_unfold. intros [?|?]; done.
  - apply IndexByte_None in Ei. unfold SplitHostPort. rewrite LastIndexByte_app by done.
    rewrite bool_decide_eq_false_2 by (destruct host; cbn; [done|]; intros [= ->]; set_solver).
    rewrite take_app_length, (proj2 (IndexByte_None host colon) Ei). rewrite split_port_Ok.
    + replace (S (length host)) with (length host + 1)%nat by lia. by rewrite <-drop_drop, drop_app_length.
    + cbn [drop]. set_unfold. intros [?|[?|?]]; done.
    + cbn [drop]. set_unfold. intros [?|[?|?]]; done.
Qed.
