(* ===== verification/Varint.v ===== *)
(** * VarInt codec (internal/protocol/codec/varint.go)

    Minecraft's signed 32-bit VarInt: seven value bits per byte, least
    significant group first, bit 7 set on all bytes but the last. [ReadVarInt]
    decodes from a stream, [ConsumeVarInt] from a slice, [AppendVarInt]
    encodes. [varint_value] is the reference meaning of an encoding. *)

From S2P Require Import Prelude GoIO.

Definition MaxVarIntBytes : nat := 5.

(** The loop of [ReadVarInt]: [left] iterations remain,
    [left + position = MaxVarIntBytes]. *)
Fixpoint ReadVarInt_loop (left position : nat) (value : Z) (r : reader) : res Z * reader :=
  match left with
  | O => (Err ErrVarIntTooLong, r)
  | S left' =>
    match ReadByte r with
    | (Err err, r') =>
      if errors_Is err io_EOF && bool_decide (0 < position)%nat
      then (Err ErrVarIntPartial, r') else (Err err, r')
    | (Ok b, r') =>
      let current := ubyte b in
      if bool_decide (position = MaxVarIntBytes - 1)%nat
         && (Z.land current 0x80 =? 0) && negb (Z.land current 0x70 =? 0)
      then (Err ErrVarIntOverflow, r')
      else
        let value' := Z.lor value (uint32 (Z.shiftl (Z.land current 0x7f) (7 * Z.of_nat position))) in
        if Z.land current 0x80 =? 0 then (Ok (int32 value'), r')
        else ReadVarInt_loop left' (S position) value' r'
    end
  end.

Definition ReadVarInt (r : reader) : res Z * reader := ReadVarInt_loop MaxVarIntBytes 0 0 r.

(** The loop of [ConsumeVarInt]. *)
Fixpoint ConsumeVarInt_loop (left position : nat) (value : Z) (data : list byte) : res (Z * Z) :=
  match left with
  | O => Err ErrVarIntTooLong
  | S left' =>
    match data !! position with
    | None => Err ErrVarIntPartial
    | Some b =>
      let current := ubyte b in
      if bool_decide (position = MaxVarIntBytes - 1)%nat
         && (Z.land current 0x80 =? 0) && negb (Z.land current 0x70 =? 0)
      then Err ErrVarIntOverflow
      else
        let value' := Z.lor value (uint32 (Z.shiftl (Z.land current 0x7f) (7 * Z.of_nat position))) in
        if Z.land current 0x80 =? 0 then Ok (int32 value', Z.of_nat position + 1)
        else ConsumeVarInt_loop left' (S position) value' data
    end
  end.

(** Value and encoded size. *)
Definition ConsumeVarInt (data : list byte) : res (Z * Z) :=
  ConsumeVarInt_loop MaxVarIntBytes 0 0 data.

(** The loop of [AppendVarInt]. The source loops without a bound; five rounds
    always suffice for a 32-bit value ([varint_enc_shape]). *)
Fixpoint AppendVarInt_loop (fuel : nat) (dst : list byte) (remaining : Z) : list byte :=
  match fuel with
  | O => dst
  | S fuel' =>
    if Z.ldiff remaining 0x7f =? 0 then dst ++ [mkbyte remaining]
    else AppendVarInt_loop fuel' (dst ++ [mkbyte (Z.lor (Z.land remaining 0x7f) 0x80)])
                           (Z.shiftr remaining 7)
  end.

Definition AppendVarInt (dst : list byte) (value : Z) : list byte :=
  AppendVarInt_loop MaxVarIntBytes dst (uint32 value).

Arguments ReadVarInt : simpl never.
Arguments ConsumeVarInt : simpl never.
Arguments AppendVarInt : simpl never.

(** ** Reference meaning *)

(** The unsigned value of a group sequence: little-endian base 128. *)
Fixpoint varint_groups (l : list byte) : Z :=
  match l with
  | [] => 0
  | b :: l' => ubyte b mod 128 + 128 * varint_groups l'
  end.

(** A complete encoding: continuation bits on all bytes but the last. *)
Fixpoint varint_shape (l : list byte) : bool :=
  match l with
  | [] => false
  | [b] => ubyte b <? 128
  | b :: l' => (128 <=? ubyte b) && varint_shape l'
  end.

(** A VarInt encoding of at most five bytes whose value fits 32 bits. *)
Definition varint_encoding (l : list byte) : bool :=
  varint_shape l && (blen l <=? 5) && (varint_groups l <? 2 ^ 32).

(** The encoder without its accumulator. *)
Fixpoint varint_enc (fuel : nat) (z : Z) : list byte :=
  match fuel with
  | O => []
  | S fuel' => if z <? 128 then [mkbyte z] else mkbyte (z mod 128 + 128) :: varint_enc fuel' (z / 128)
  end.

(** The bytes of a value on their own. *)
Definition varint (value : Z) : list byte := AppendVarInt [] value.

(** ** Bit masks of a byte, as arithmetic *)

Lemma land_80 b : (Z.land (ubyte b) 0x80 =? 0) = (ubyte b <? 128).
Proof. by destruct b. Qed.

Lemma land_7f b : Z.land (ubyte b) 0x7f = ubyte b mod 128.
Proof. by destruct b. Qed.

Lemma land_70 b : ubyte b < 128 -> (Z.land (ubyte b) 0x70 =? 0) = (ubyte b <? 16).
Proof. by destruct b. Qed.

Lemma ldiff_7f z : 0 <= z -> (Z.ldiff z 0x7f =? 0) = (z <? 128).
Proof.
  intros Hz. change 0x7f with (Z.ones 7). rewrite Z.ldiff_ones_r by lia.
  rewrite Z.shiftl_mul_pow2, Z.shiftr_div_pow2 by lia. change (2 ^ 7) with 128.
  pose proof (Z.div_pos z 128 Hz ltac:(lia)).
  destruct (Z.ltb_spec z 128).
  - by rewrite Z.div_small by lia.
  - apply Z.eqb_neq. assert (1 <= z / 128) by (apply Z.div_le_lower_bound; lia). lia.
Qed.

Lemma lor_80 z : 0 <= z < 128 -> Z.lor z 0x80 = z + 128.
Proof.
  intros. change (Z.lor z 0x80) with (Z.lor z (Z.shiftl 1 7)). rewrite lor_add_shiftl by lia. lia.
Qed.

Lemma pow2_7_succ p : 2 ^ (7 * Z.of_nat (S p)) = 128 * 2 ^ (7 * Z.of_nat p).
Proof.
  replace (7 * Z.of_nat (S p)) with (7 + 7 * Z.of_nat p) by lia.
  by rewrite Z.pow_add_r by lia.
Qed.

Lemma pow2_7_pos p : 0 < 2 ^ (7 * Z.of_nat p).
Proof. apply Z.pow_pos_nonneg; lia. Qed.

(** One round of either decoding loop adds a group above the ones read. *)
Lemma varint_add_group p v b :
  (p < 5)%nat -> 0 <= v < 2 ^ (7 * Z.of_nat p) -> (p = 4%nat -> ubyte b mod 128 < 16) ->
  Z.lor v (uint32 (Z.shiftl (Z.land (ubyte b) 0x7f) (7 * Z.of_nat p)))
  = v + ubyte b mod 128 * 2 ^ (7 * Z.of_nat p).
Proof.
  intros Hp Hv H4. rewrite land_7f. pose proof (Z.mod_pos_bound (ubyte b) 128 ltac:(lia)).
  pose proof (pow2_7_pos p).
  rewrite uint32_small; [by apply lor_add_shiftl; lia|].
  unfold in_uint32. rewrite Z.shiftl_mul_pow2 by lia. split; [nia|].
  destruct (decide (p = 4%nat)) as [->|Hne].
  - specialize (H4 eq_refl). change (2 ^ (7 * Z.of_nat 4)) with (2 ^ 28). lia.
  - assert (2 ^ (7 * Z.of_nat p) <= 2 ^ 21) by (apply Z.pow_le_mono_r; lia). nia.
Qed.

Lemma varint_value_bound p v b :
  0 <= v < 2 ^ (7 * Z.of_nat p) ->
  0 <= v + ubyte b mod 128 * 2 ^ (7 * Z.of_nat p) < 2 ^ (7 * Z.of_nat (S p)).
Proof.
  intros. rewrite pow2_7_succ. pose proof (Z.mod_pos_bound (ubyte b) 128 ltac:(lia)). nia.
Qed.

(** ** The loops against the reference meaning *)

Lemma varint_groups_nonneg l : 0 <= varint_groups l.
Proof.
  induction l as [|b l IH]; simpl; [lia|].
  pose proof (Z.mod_pos_bound (ubyte b) 128 ltac:(lia)). lia.
Qed.

Lemma varint_shape_cons b l :
  varint_shape (b :: l) = if ubyte b <? 128 then bool_decide (l = []) else varint_shape l.
Proof.
  destruct l; simpl; destruct (Z.ltb_spec (ubyte b) 128), (Z.leb_spec 128 (ubyte b)); try lia; done.
Qed.

(** What the fifth byte must satisfy for the value to fit 32 bits. *)
Lemma fifth_byte_small p v b l :
  p = 4%nat -> 0 <= v ->
  v + varint_groups (b :: l) * 2 ^ (7 * Z.of_nat p) < 2 ^ 32 -> ubyte b mod 128 < 16.
Proof.
  intros -> Hv H. simpl varint_groups in H. change (2 ^ (7 * Z.of_nat 4)) with (2 ^ 28) in H.
  pose proof (varint_groups_nonneg l). lia.
Qed.

Lemma ConsumeVarInt_loop_complete l : forall left p v pre rest,
  (left + p = 5)%nat -> length pre = p -> 0 <= v < 2 ^ (7 * Z.of_nat p) ->
  varint_shape l = true -> (length l <= left)%nat ->
  v + varint_groups l * 2 ^ (7 * Z.of_nat p) < 2 ^ 32 ->
  ConsumeVarInt_loop left p v (pre ++ l ++ rest)
  = Ok (int32 (v + varint_groups l * 2 ^ (7 * Z.of_nat p)), Z.of_nat p + blen l).
Proof.
  induction l as [|b l IH]; intros left p v pre rest Hlp Hpre Hv Hs Hl Hb; [done|].
  destruct left as [|left]; [simpl in Hl; lia|]. cbn [ConsumeVarInt_loop].
  rewrite lookup_app_r by lia. rewrite Hpre, Nat.sub_diag. cbn [app lookup list_lookup].
  assert (Hb4 : p = 4%nat -> ubyte b mod 128 < 16)
    by (intros; eapply fifth_byte_small; eauto; lia).
  rewrite land_80. rewrite varint_shape_cons in Hs. pose proof (ubyte_range b).
  rewrite varint_add_group by (done || lia).
  destruct (Z.ltb_spec (ubyte b) 128) as [Hlt|Hge].
  - apply bool_decide_eq_true in Hs as ->.
    rewrite land_70 by done. rewrite Z.mod_small in * by lia.
    replace (bool_decide (p = (MaxVarIntBytes - 1)%nat) && true && negb (ubyte b <? 16)) with false.
    2: { case_bool_decide; [|done]. destruct (Z.ltb_spec (ubyte b) 16); [done|].
         unfold MaxVarIntBytes in *. lia. }
    apply (f_equal Ok), f_equal2; [|unfold blen; simpl; lia].
    simpl. rewrite Z.mod_small by lia. f_equal. lia.
  - replace (bool_decide (p = (MaxVarIntBytes - 1)%nat) && false && _) with false
      by (by rewrite andb_false_r).
    replace (pre ++ b :: l ++ rest) with ((pre ++ [b]) ++ l ++ rest) by (by rewrite <-app_assoc).
    rewrite (IH left (S p)); try done; try (simpl in *; lia).
    + rewrite pow2_7_succ. simpl varint_groups. apply (f_equal Ok), f_equal2; [f_equal|]; unfold blen; simpl; lia.
    + rewrite length_app. simpl. lia.
    + by apply varint_value_bound.
    + rewrite pow2_7_succ. simpl varint_groups in Hb. lia.
Qed.

Lemma ConsumeVarInt_loop_sound left : forall p v pre tail r n,
  (left + p = 5)%nat -> length pre = p -> 0 <= v < 2 ^ (7 * Z.of_nat p) ->
  ConsumeVarInt_loop left p v (pre ++ tail) = Ok (r, n) ->
  exists l rest, tail = l ++ rest /\ varint_shape l = true /\ (length l <= left)%nat /\
    v + varint_groups l * 2 ^ (7 * Z.of_nat p) < 2 ^ 32 /\
    r = int32 (v + varint_groups l * 2 ^ (7 * Z.of_nat p)) /\ n = Z.of_nat p + blen l.
Proof.
  induction left as [|left IH]; intros p v pre tail r n Hlp Hpre Hv; cbn [ConsumeVarInt_loop]; [done|].
  rewrite lookup_app_r by lia. rewrite Hpre, Nat.sub_diag.
  destruct tail as [|b tail]; cbn [lookup list_lookup]; [done|].
  rewrite land_80. pose proof (ubyte_range b).
  destruct (Z.ltb_spec (ubyte b) 128) as [Hlt|Hge].
  - rewrite land_70, andb_true_r by done.
    destruct (bool_decide (p = (MaxVarIntBytes - 1)%nat) && negb (ubyte b <? 16)) eqn:Ec; [done|].
    assert (H4 : p = 4%nat -> ubyte b < 16).
    { intros ->. rewrite bool_decide_true in Ec by done. simpl in Ec. bool_facts. lia. }
    assert (Hb4 : p = 4%nat -> ubyte b mod 128 < 16) by (intros; rewrite Z.mod_small; auto; lia).
    rewrite varint_add_group by (done || lia). rewrite Z.mod_small by lia.
    intros ?; simplify_eq. exists [b], tail. simpl. rewrite Z.mod_small by lia.
    split_and!; [done|by apply Z.ltb_lt|lia| |f_equal; lia|unfold blen; simpl; lia].
    destruct (decide (length pre = 4%nat)) as [E|Hne].
    + rewrite E in *. change (2 ^ (7 * Z.of_nat 4)) with (2 ^ 28) in *. specialize (H4 eq_refl). lia.
    + assert (2 ^ (7 * Z.of_nat (length pre)) <= 2 ^ 21) by (apply Z.pow_le_mono_r; lia). nia.
  - rewrite andb_false_r. cbn [andb].
    destruct (decide (p = 4%nat)) as [->|Hne].
    { destruct left; [done|lia]. }
    rewrite varint_add_group by (done || lia).
    replace (pre ++ b :: tail) with ((pre ++ [b]) ++ tail) by (by rewrite <-app_assoc).
    intros Hc. apply (IH (S p)) in Hc as (l & rest & -> & Hs & Hl & Hb & -> & ->);
      [|lia|rewrite length_app; simpl; lia|by apply varint_value_bound].
    rewrite pow2_7_succ in *. exists (b :: l), rest. simpl varint_groups.
    split_and!; [done| |simpl; lia|lia|f_equal; lia|unfold blen; simpl; lia].
    rewrite varint_shape_cons. by rewrite (proj2 (Z.ltb_ge _ _)) by lia.
Qed.

Lemma ConsumeVarInt_complete l rest :
  varint_encoding l = true ->
  ConsumeVarInt (l ++ rest) = Ok (int32 (varint_groups l), blen l).
Proof.
  unfold varint_encoding. intros He. bool_facts. unfold blen in *.
  pose proof (ConsumeVarInt_loop_complete l 5 0 0 [] rest) as Hc.
  simpl in Hc. rewrite Z.mul_1_r in Hc. unfold ConsumeVarInt. apply Hc; try done; lia.
Qed.

Lemma ConsumeVarInt_sound data v n :
  ConsumeVarInt data = Ok (v, n) ->
  exists l rest, data = l ++ rest /\ varint_encoding l = true /\
    v = int32 (varint_groups l) /\ n = blen l.
Proof.
  unfold ConsumeVarInt. intros H.
  apply (ConsumeVarInt_loop_sound 5 0 0 [] data) in H as (l & rest & -> & Hs & Hl & Hb & -> & ->);
    [|done|done|simpl; lia].
  simpl in Hb. rewrite ?Z.mul_1_r in Hb. exists l, rest. split_and!; [done| |f_equal; simpl; lia|lia].
  unfold varint_encoding. rewrite Hs. simpl.
  apply andb_true_iff. split; [apply Z.leb_le; unfold blen; lia|apply Z.ltb_lt; lia].
Qed.

(** ** The encoder *)

Lemma AppendVarInt_loop_enc fuel : forall dst z,
  0 <= z -> AppendVarInt_loop fuel dst z = dst ++ varint_enc fuel z.
Proof.
  induction fuel as [|fuel IH]; intros dst z Hz; cbn; [by rewrite app_nil_r|].
  rewrite ldiff_7f by done. destruct (z <? 128); [done|].
  rewrite Z.shiftr_div_pow2, IH by (try apply Z.div_pos; lia).
  change 0x7f with (Z.ones 7). rewrite Z.land_ones by lia.
  rewrite lor_80 by (apply Z.mod_pos_bound; lia). by rewrite <-app_assoc.
Qed.

Lemma varint_enc_shape fuel : forall z,
  (0 < fuel)%nat -> 0 <= z < 2 ^ (7 * Z.of_nat fuel) ->
  varint_shape (varint_enc fuel z) = true /\ (length (varint_enc fuel z) <= fuel)%nat /\
  varint_groups (varint_enc fuel z) = z.
Proof.
  induction fuel as [|fuel IH]; intros z Hf Hz; [lia|]. cbn [varint_enc].
  rewrite pow2_7_succ in Hz. destruct (Z.ltb_spec z 128) as [Hlt|Hge].
  - simpl. rewrite ubyte_mkbyte_small, Z.mod_small by lia.
    split_and!; [by apply Z.ltb_lt|lia|lia].
  - pose proof (Z.mod_pos_bound z 128 ltac:(lia)).
    assert (Hd : 0 <= z / 128 < 2 ^ (7 * Z.of_nat fuel))
      by (split; [apply Z.div_pos|apply Z.div_lt_upper_bound]; lia).
    destruct fuel as [|fuel']; [simpl in Hz; lia|].
    destruct (IH (z / 128) ltac:(lia) Hd) as (Hs & Hl & Hg).
    rewrite varint_shape_cons. cbn [varint_groups length]. rewrite Hg, ubyte_mkbyte_small by lia.
    rewrite (proj2 (Z.ltb_ge (z mod 128 + 128) 128)) by lia.
    split_and!; [done|lia|].
    rewrite <-(Zplus_mod_idemp_r 128), Z.mod_same, Z.add_0_r, Z.mod_mod by lia.
    pose proof (Z.div_mod z 128). lia.
Qed.

(** The encoder's equation, as the source's loop states it. *)
Lemma AppendVarInt_app dst v : AppendVarInt dst v = dst ++ varint v.
Proof.
  unfold varint, AppendVarInt. pose proof (uint32_range v) as []. by rewrite !AppendVarInt_loop_enc.
Qed.

Lemma varint_is_encoding v :
  varint_encoding (varint v) = true /\ varint_groups (varint v) = uint32 v.
Proof.
  unfold varint, AppendVarInt. pose proof (uint32_range v) as Hr.
  rewrite AppendVarInt_loop_enc by apply Hr. cbn [app].
  destruct (varint_enc_shape MaxVarIntBytes (uint32 v)) as (Hs & Hl & Hg).
  { unfold MaxVarIntBytes; lia. }
  { unfold in_uint32 in Hr. unfold MaxVarIntBytes. change (7 * Z.of_nat 5) with 35. lia. }
  split; [|done]. unfold varint_encoding. rewrite Hs, Hg. cbn [andb].
  apply andb_true_iff. split.
  - apply Z.leb_le. unfold blen, MaxVarIntBytes in *. lia.
  - apply Z.ltb_lt. apply Hr.
Qed.

Lemma varint_encoding_length l : varint_encoding l = true -> 1 <= blen l <= 5.
Proof.
  unfold varint_encoding. intros. bool_facts. split; [|done].
  destruct l; [done|]. len. pose proof (blen_nonneg l). lia.
Qed.

(** A nonnegative decoded value is the value of the groups. *)
Lemma varint_groups_int32 l :
  varint_encoding l = true -> 0 <= int32 (varint_groups l) -> int32 (varint_groups l) = varint_groups l.
Proof.
  intros He Hi. pose proof (varint_groups_nonneg l).
  assert (varint_groups l < 2 ^ 32) by (unfold varint_encoding in He; bool_facts; lia).
  destruct (Z.lt_ge_cases (varint_groups l) (2 ^ 31)).
  - apply int32_small. unfold in_int32. lia.
  - exfalso. revert Hi. unfold int32.
    replace (varint_groups l + 2 ^ 31) with ((varint_groups l - 2 ^ 31) + 1 * 2 ^ 32) by lia.
    rewrite Z.mod_add, Z.mod_small by lia. lia.
Qed.

Lemma varint_length v : 1 <= blen (varint v) <= 5.
Proof. apply varint_encoding_length, varint_is_encoding. Qed.

Lemma varint_nonempty v : varint v <> [].
Proof. intros E. pose proof (varint_length v). rewrite E, blen_nil in *. lia. Qed.

Lemma ConsumeVarInt_varint v rest :
  in_int32 v -> ConsumeVarInt (varint v ++ rest) = Ok (v, blen (varint v)).
Proof.
  intros Hv. destruct (varint_is_encoding v) as [He Hg].
  by rewrite ConsumeVarInt_complete, Hg, int32_uint32, int32_small.
Qed.

Lemma ConsumeVarInt_bounds data v n :
  ConsumeVarInt data = Ok (v, n) -> in_int32 v /\ 1 <= n <= 5 /\ n <= blen data.
Proof.
  intros H. apply ConsumeVarInt_sound in H as (l & rest & -> & He & -> & ->).
  split_and!; [apply int32_range|apply varint_encoding_length, He..|].
  len. pose proof (blen_nonneg rest). lia.
Qed.

(** Decoding looks at the encoding only: what follows it is irrelevant. *)
Lemma ConsumeVarInt_prefix data v n rest :
  ConsumeVarInt data = Ok (v, n) -> ConsumeVarInt (data ++ rest) = Ok (v, n).
Proof.
  intros H. apply ConsumeVarInt_sound in H as (l & r & -> & He & -> & ->).
  rewrite <-app_assoc. by apply ConsumeVarInt_complete.
Qed.

Lemma ReadVarInt_loop_consume left : forall p v pre tail e,
  (left + p = 5)%nat -> length pre = p ->
  ReadVarInt_loop left p v (Reader tail e) =
  match ConsumeVarInt_loop left p v (pre ++ tail) with
  | Ok (x, n) => (Ok x, Reader (drop (Z.to_nat n - p) tail) e)
  | Err ErrVarIntPartial =>
      (Err (if errors_Is e io_EOF && bool_decide (0 < length (pre ++ tail))%nat
            then ErrVarIntPartial else e), Reader [] e)
  | Err x => (Err x, Reader (drop left tail) e)
  end.
Proof.
  induction left as [|left IH]; intros p v pre tail e Hlp Hpre; [done|].
  cbn [ReadVarInt_loop ConsumeVarInt_loop]. rewrite lookup_app_r by lia.
  rewrite Hpre, Nat.sub_diag. destruct tail as [|b tail]; cbn [ReadByte rd_data rd_err].
  { cbn. rewrite app_nil_r, Hpre. by destruct (_ && _). }
  cbn [lookup list_lookup].
  destruct (bool_decide (p = (MaxVarIntBytes - 1)%nat) && _ && _) eqn:Ec.
  { bool_facts. unfold MaxVarIntBytes in *. by replace left with 0%nat by lia. }
  destruct (Z.land (ubyte b) 0x80 =? 0).
  { by replace (Z.to_nat (Z.of_nat p + 1) - p)%nat with 1%nat by lia. }
  rewrite (IH (S p) _ (pre ++ [b])); [|lia|rewrite length_app; simpl; lia].
  rewrite <-app_assoc. cbn [app].
  destruct (ConsumeVarInt_loop left (S p) _ (pre ++ b :: tail)) as [[x n]|err] eqn:E.
  - assert (Hn : Z.of_nat p + 1 < n).
    { clear -E Hlp. revert E. generalize (Z.lor v (uint32 (Z.shiftl (Z.land (ubyte b) 0x7f) (7 * Z.of_nat p)))).
      generalize (pre ++ b :: tail). clear tail b. intros d z E.
      assert (G : forall left p z, ConsumeVarInt_loop left p z d = Ok (x, n) -> Z.of_nat p < n).
      { clear. intros left. induction left as [|left IHl]; intros p z; cbn [ConsumeVarInt_loop]; [done|].
        destruct (d !! p); [|done]. repeat case_match; intros; simplify_eq; try lia.
        specialize (IHl _ _ ltac:(eassumption)). lia. }
      apply G in E. lia. }
    replace (Z.to_nat n - p)%nat with (S (Z.to_nat n - S p)) by lia. done.
  - by destruct err.
Qed.

(** The value of a shorter encoding is smaller: used for minimality. *)
Lemma varint_groups_bound l : varint_groups l < 2 ^ (7 * blen l).
Proof.
  induction l as [|b l IH]; [done|]. cbn [varint_groups]. unfold blen in *. cbn [length].
  rewrite pow2_7_succ. pose proof (Z.mod_pos_bound (ubyte b) 128 ltac:(lia)). lia.
Qed.

Lemma varint_enc_length_le fuel : forall z k,
  0 <= z < 2 ^ (7 * Z.of_nat k) -> (0 < k)%nat -> (length (varint_enc fuel z) <= k)%nat.
Proof.
  induction fuel as [|fuel IH]; intros z k Hz Hk; cbn [varint_enc]; [simpl; lia|].
  destruct (Z.ltb_spec z 128); [simpl; lia|].
  destruct k as [|[|k]]; [lia|simpl in Hz; lia|].
  rewrite pow2_7_succ in Hz. cbn [length].
  specialize (IH (z / 128) (S k)). apply le_n_S, IH; [|lia].
  split; [apply Z.div_pos|apply Z.div_lt_upper_bound]; lia.
Qed.

(** The streaming decoder, on an encoded value and on success. *)
Lemma ReadVarInt_varint v rest e :
  in_int32 v -> ReadVarInt (Reader (varint v ++ rest) e) = (Ok v, Reader rest e).
Proof.
  intros Hv. unfold ReadVarInt. rewrite (ReadVarInt_loop_consume 5 0 0 []) by done. cbn [app].
  pose proof (ConsumeVarInt_varint v rest Hv) as E. unfold ConsumeVarInt, MaxVarIntBytes in E.
  rewrite E, Nat.sub_0_r. by rewrite drop_app_blen.
Qed.

Lemma ReadVarInt_Ok r v r' :
  ReadVarInt r = (Ok v, r') ->
  exists n, ConsumeVarInt (rd_data r) = Ok (v, n) /\
    r' = Reader (drop (Z.to_nat n) (rd_data r)) (rd_err r).
Proof.
  destruct r as [data e]. unfold ReadVarInt. rewrite (ReadVarInt_loop_consume 5 0 0 []) by done.
  cbn [app rd_data rd_err]. unfold ConsumeVarInt, MaxVarIntBytes.
  destruct (ConsumeVarInt_loop 5 0 0 data) as [[x n]|err].
  - rewrite Nat.sub_0_r. intros; simplify_eq. eauto.
  - destruct err; naive_solver.
Qed.

(** ** Properties *)

(** [AppendVarInt] extends [dst] by between 1 and 5 bytes, and both decoders,
    [ConsumeVarInt] on a slice and [ReadVarInt] on a stream, give back every
    32-bit value from them, leave exactly the bytes that follow, and report the
    encoded size. *)
Theorem varint_roundtrip dst v rest e :
  in_int32 v ->
  exists enc, AppendVarInt dst v = dst ++ enc /\ 1 <= blen enc <= 5 /\
    ConsumeVarInt (enc ++ rest) = Ok (v, blen enc) /\
    ReadVarInt (Reader (enc ++ rest) e) = (Ok v, Reader rest e).
Proof.
  intros Hv. exists (varint v). split_and!; [apply AppendVarInt_app|apply varint_length..| |].
  - by apply ConsumeVarInt_varint.
  - by apply ReadVarInt_varint.
Qed.

Lemma varint_roundtrip_witness :
  exists enc, AppendVarInt [x07] (-2147483648) = [x07] ++ enc /\ 1 <= blen enc <= 5 /\
    ConsumeVarInt (enc ++ [x2a]) = Ok (-2147483648, blen enc) /\
    ReadVarInt (Reader (enc ++ [x2a]) io_EOF) = (Ok (-2147483648), Reader [x2a] io_EOF).
Proof. apply (varint_roundtrip [x07] (-2147483648) [x2a] io_EOF). unfold in_int32; lia. Defined.

(** [ConsumeVarInt] accepts exactly the encodings: it succeeds with value [v]
    and size [n] if and only if the first [n] bytes are a VarInt of at most five
    groups, continuation bits set on all but the last, whose base-128 value fits
    32 bits and is [v] in two's complement. No encoding of [v] is shorter than
    the one [AppendVarInt] produces. *)
Theorem ConsumeVarInt_characterised data v n :
  (ConsumeVarInt data = Ok (v, n) <->
   varint_encoding (take (Z.to_nat n) data) = true /\ n = blen (take (Z.to_nat n) data) /\
   v = int32 (varint_groups (take (Z.to_nat n) data))) /\
  (ConsumeVarInt data = Ok (v, n) -> blen (AppendVarInt [] v) <= n).
Proof.
  split; [split|].
  - intros H. apply ConsumeVarInt_sound in H as (l & rest & -> & He & -> & ->).
    by rewrite take_app_blen.
  - intros (He & Hn & ->). rewrite <-(take_drop (Z.to_nat n) data) at 1.
    rewrite ConsumeVarInt_complete by done. by rewrite <-Hn.
  - intros H. apply ConsumeVarInt_sound in H as (l & rest & -> & He & -> & ->).
    unfold AppendVarInt. rewrite uint32_int32.
    pose proof (varint_groups_nonneg l). pose proof (varint_groups_bound l) as Hb.
    pose proof (varint_encoding_length l He).
    assert (varint_groups l < 2 ^ 32) by (unfold varint_encoding in He; bool_facts; lia).
    rewrite uint32_small by done. rewrite AppendVarInt_loop_enc by done. cbn [app].
    unfold blen in *. apply Nat2Z.inj_le, varint_enc_length_le; lia.
Qed.

Lemma ConsumeVarInt_characterised_witness : blen (AppendVarInt [] 1) <= 3.
Proof. by apply (ConsumeVarInt_characterised [x81; x80; x00; x55] 1 3). Defined.

(** C35: the streaming decoder is the slice decoder: for any bytes [data] followed
    by any read error [e], [ReadVarInt] returns what [ConsumeVarInt] returns on
    [data], having consumed exactly the encoding (five bytes when it rejects an
    over-long or overflowing one); where the slice ends inside a VarInt it
    returns [ErrVarIntPartial] at end of file and [e] otherwise. *)
Theorem ReadVarInt_ConsumeVarInt data e :
  ReadVarInt (Reader data e) =
  match ConsumeVarInt data with
  | Ok (v, n) => (Ok v, Reader (drop (Z.to_nat n) data) e)
  | Err ErrVarIntPartial =>
      (Err (if errors_Is e io_EOF && bool_decide (0 < length data)%nat
            then ErrVarIntPartial else e), Reader [] e)
  | Err x => (Err x, Reader (drop 5 data) e)
  end.
Proof.
  unfold ReadVarInt. rewrite (ReadVarInt_loop_consume 5 0 0 []) by done. cbn [app].
  unfold ConsumeVarInt, MaxVarIntBytes.
  destruct (ConsumeVarInt_loop 5 0 0 data) as [[v n]|x]; [by rewrite Nat.sub_0_r|done].
Qed.
