(* ===== verification/Utf8.v ===== *)
(** * UTF-8 as package unicode/utf8 and bytes define it

    [rune_width] is what [utf8.DecodeRune] reports for a well-formed sequence;
    [utf8_Valid], [RuneCount] and [ToValidUTF8] are the library loops over it.
    The specification is the encoder [encode_rune] of Unicode scalar values. *)

From S2P Require Import Prelude.

Definition in_range (lo hi : Z) (b : byte) : bool := (lo <=? ubyte b) && (ubyte b <=? hi).
Definition cont (b : byte) : bool := in_range 0x80 0xBF b.

(** The range of the second byte, by the first ([acceptRanges] of the library). *)
Definition second_ok (b0 b1 : byte) : bool :=
  if ubyte b0 =? 0xE0 then in_range 0xA0 0xBF b1
  else if ubyte b0 =? 0xED then in_range 0x80 0x9F b1
  else if ubyte b0 =? 0xF0 then in_range 0x90 0xBF b1
  else if ubyte b0 =? 0xF4 then in_range 0x80 0x8F b1
  else cont b1.

(** Width of the well-formed sequence at the head, if there is one. *)
Definition rune_width (p : list byte) : option nat :=
  match p with
  | [] => None
  | b0 :: p1 =>
    if ubyte b0 <? 0x80 then Some 1%nat
    else if in_range 0xC2 0xDF b0 then
      match p1 with
      | b1 :: _ => if cont b1 then Some 2%nat else None
      | _ => None
      end
    else if in_range 0xE0 0xEF b0 then
      match p1 with
      | b1 :: b2 :: _ => if second_ok b0 b1 && cont b2 then Some 3%nat else None
      | _ => None
      end
    else if in_range 0xF0 0xF4 b0 then
      match p1 with
      | b1 :: b2 :: b3 :: _ => if second_ok b0 b1 && cont b2 && cont b3 then Some 4%nat else None
      | _ => None
      end
    else None
  end.

(** [utf8.Valid]; each round consumes at least one byte, so [length p] rounds
    suffice. *)
Fixpoint utf8_Valid_loop (fuel : nat) (p : list byte) : bool :=
  match p, fuel with
  | [], _ => true
  | _, O => false
  | _, S fuel' =>
    match rune_width p with
    | Some n => utf8_Valid_loop fuel' (drop n p)
    | None => false
    end
  end.
Definition utf8_Valid (p : list byte) : bool := utf8_Valid_loop (length p) p.

(** [utf8.RuneCount]: an invalid byte counts as one rune of width one. *)
Fixpoint RuneCount_loop (fuel : nat) (p : list byte) : Z :=
  match p, fuel with
  | [], _ => 0
  | _, O => 0
  | _, S fuel' => 1 + RuneCount_loop fuel' (drop (default 1%nat (rune_width p)) p)
  end.
Definition RuneCount (p : list byte) : Z := RuneCount_loop (length p) p.

(** [bytes.ToValidUTF8(p, nil)]: invalid bytes are dropped. *)
Fixpoint ToValidUTF8_loop (fuel : nat) (p : list byte) : list byte :=
  match p, fuel with
  | [], _ => []
  | _, O => []
  | _, S fuel' =>
    match rune_width p with
    | Some n => take n p ++ ToValidUTF8_loop fuel' (drop n p)
    | None => ToValidUTF8_loop fuel' (drop 1 p)
    end
  end.
Definition ToValidUTF8 (p : list byte) : list byte := ToValidUTF8_loop (length p) p.

(** ** Specification: scalar values and their encoding *)

Definition scalar (c : Z) : Prop := 0 <= c < 0xD800 \/ 0xE000 <= c < 0x110000.

#[global] Instance scalar_dec c : Decision (scalar c).
Proof. unfold scalar. apply _. Defined.

Definition encode_rune (c : Z) : list byte :=
  if c <? 0x80 then [mkbyte c]
  else if c <? 0x800 then [mkbyte (0xC0 + c / 64); mkbyte (0x80 + c mod 64)]
  else if c <? 0x10000 then
    [mkbyte (0xE0 + c / 4096); mkbyte (0x80 + c / 64 mod 64); mkbyte (0x80 + c mod 64)]
  else
    [mkbyte (0xF0 + c / 262144); mkbyte (0x80 + c / 4096 mod 64);
     mkbyte (0x80 + c / 64 mod 64); mkbyte (0x80 + c mod 64)].

Definition encode_runes (cs : list Z) : list byte := mjoin (encode_rune <$> cs).

(** ** Lemmas *)

Ltac zdiv := Z.to_euclidean_division_equations; lia.

Lemma encode_rune_length c : (1 <= length (encode_rune c) <= 4)%nat.
Proof. unfold encode_rune. repeat case_match; simpl; lia. Qed.

Lemma rune_width_length p n : rune_width p = Some n -> (1 <= n <= length p)%nat.
Proof. unfold rune_width. intros. repeat case_match; simplify_eq/=; lia. Qed.

(** Decide a Boolean test over integer comparisons from arithmetic facts. *)
Ltac decide_tests :=
  repeat match goal with
  | |- context [?a <? ?b] => first [rewrite (proj2 (Z.ltb_lt a b)) by zdiv | rewrite (proj2 (Z.ltb_ge a b)) by zdiv]
  | |- context [?a <=? ?b] => first [rewrite (proj2 (Z.leb_le a b)) by zdiv | rewrite (proj2 (Z.leb_gt a b)) by zdiv]
  end; cbn [andb].

Lemma rune_width_encode c rest :
  scalar c -> rune_width (encode_rune c ++ rest) = Some (length (encode_rune c)).
Proof.
  intros Hc. unfold scalar in Hc. unfold encode_rune.
  destruct (Z.ltb_spec c 0x80).
  { cbn. rewrite ubyte_mkbyte_small by lia. by decide_tests. }
  destruct (Z.ltb_spec c 0x800).
  { cbn. unfold in_range, cont, in_range. rewrite !ubyte_mkbyte_small by zdiv. by decide_tests. }
  destruct (Z.ltb_spec c 0x10000).
  { cbn. unfold second_ok, in_range, cont, in_range. rewrite !ubyte_mkbyte_small by zdiv.
    decide_tests.
    destruct (Z.eqb_spec (0xE0 + c / 4096) 0xE0) as [E|E]; [by decide_tests|].
    destruct (Z.eqb_spec (0xE0 + c / 4096) 0xED) as [E2|E2]; [by decide_tests|].
    rewrite !(proj2 (Z.eqb_neq _ _)) by zdiv. by decide_tests. }
  cbn. unfold second_ok, in_range, cont, in_range. rewrite !ubyte_mkbyte_small by zdiv.
  decide_tests.
  rewrite (proj2 (Z.eqb_neq _ 0xE0)), (proj2 (Z.eqb_neq _ 0xED)) by zdiv.
  destruct (Z.eqb_spec (0xF0 + c / 262144) 0xF0) as [E|E]; [by decide_tests|].
  destruct (Z.eqb_spec (0xF0 + c / 262144) 0xF4) as [E2|E2]; by decide_tests.
Qed.

Lemma mkbyte_eq z b : z = ubyte b -> mkbyte z = b.
Proof. intros ->. apply mkbyte_ubyte. Qed.

(** A well-formed sequence encodes a scalar value. *)
Lemma rune_width_scalar p n :
  rune_width p = Some n -> exists c, scalar c /\ take n p = encode_rune c.
Proof.
  destruct p as [|b0 p]; [done|]. unfold rune_width, second_ok, cont, in_range.
  pose proof (ubyte_range b0). destruct (ubyte b0 <? 0x80) eqn:E0.
  { intros; simplify_eq/=. bool_facts. exists (ubyte b0). unfold scalar, encode_rune.
    split; [lia|]. decide_tests. by rewrite mkbyte_ubyte, firstn_O. }
  destruct (_ && _) eqn:E1 in |- *.
  { destruct p as [|b1 p]; [done|]. destruct (_ && _) eqn:E2 in |- *; [|done].
    intros; simplify_eq/=. bool_facts. rewrite firstn_O.
    exists ((ubyte b0 - 0xC0) * 64 + (ubyte b1 - 0x80)). unfold scalar, encode_rune.
    split; [lia|]. decide_tests. f_equal; [|f_equal]; symmetry; apply mkbyte_eq; zdiv. }
  clear E1. destruct (_ && _) eqn:E1 in |- *.
  { destruct p as [|b1 [|b2 p]]; [done..|]. destruct (_ && _) eqn:E2 in |- *; [|done].
    intros; simplify_eq/=. rewrite firstn_O. apply andb_true_iff in E2 as [E2 E3].
    pose proof (ubyte_range b1). pose proof (ubyte_range b2).
    assert (Hb : 0x80 <= ubyte b1 <= 0xBF /\ (ubyte b0 = 0xE0 -> 0xA0 <= ubyte b1) /\
                 (ubyte b0 = 0xED -> ubyte b1 <= 0x9F)).
    { repeat case_match; bool_facts; lia. }
    bool_facts. destruct Hb as (? & Ha & Hd).
    exists ((ubyte b0 - 0xE0) * 4096 + (ubyte b1 - 0x80) * 64 + (ubyte b2 - 0x80)).
    unfold scalar, encode_rune.
    assert (0x800 <= (ubyte b0 - 0xE0) * 4096 + (ubyte b1 - 0x80) * 64 + (ubyte b2 - 0x80))
      by (destruct (decide (ubyte b0 = 0xE0)); lia).
    split; [destruct (decide (ubyte b0 <= 0xED)); [destruct (decide (ubyte b0 = 0xED))|]; lia|].
    decide_tests. repeat f_equal; symmetry; apply mkbyte_eq; zdiv. }
  clear E1. destruct (_ && _) eqn:E1 in |- *; [|done].
  destruct p as [|b1 [|b2 [|b3 p]]]; [done..|]. destruct (_ && _) eqn:E2 in |- *; [|done].
  intros; simplify_eq/=. rewrite firstn_O.
  apply andb_true_iff in E2 as [E2 E3]. apply andb_true_iff in E2 as [E2 E4].
  pose proof (ubyte_range b1). pose proof (ubyte_range b2).
  assert (Hb : 0x80 <= ubyte b1 <= 0xBF /\ (ubyte b0 = 0xF0 -> 0x90 <= ubyte b1) /\
               (ubyte b0 = 0xF4 -> ubyte b1 <= 0x8F)).
  { repeat case_match; bool_facts; lia. }
  bool_facts. destruct Hb as (? & Ha & Hd).
  exists ((ubyte b0 - 0xF0) * 262144 + (ubyte b1 - 0x80) * 4096 + (ubyte b2 - 0x80) * 64 + (ubyte b3 - 0x80)).
  unfold scalar, encode_rune.
  assert (0x10000 <= (ubyte b0 - 0xF0) * 262144 + (ubyte b1 - 0x80) * 4096 + (ubyte b2 - 0x80) * 64 + (ubyte b3 - 0x80) < 0x110000)
    by (destruct (decide (ubyte b0 = 0xF0)), (decide (ubyte b0 = 0xF4)); lia).
  split; [lia|]. decide_tests. repeat f_equal; symmetry; apply mkbyte_eq; zdiv.
Qed.

(** ** The loops *)

Lemma encode_runes_cons c cs : encode_runes (c :: cs) = encode_rune c ++ encode_runes cs.
Proof. done. Qed.

Lemma utf8_Valid_loop_encode cs : forall fuel,
  Forall scalar cs -> (length (encode_runes cs) <= fuel)%nat ->
  utf8_Valid_loop fuel (encode_runes cs) = true /\ RuneCount_loop fuel (encode_runes cs) = blen cs.
Proof.
  induction cs as [|c cs IH]; intros fuel Hcs Hf; [by destruct fuel|].
  inversion_clear Hcs as [|?? Hc Hcs']. rewrite encode_runes_cons in *.
  pose proof (encode_rune_length c). rewrite length_app in Hf.
  destruct fuel as [|fuel]; [lia|].
  pose proof (rune_width_encode c (encode_runes cs) Hc) as Hw.
  destruct (encode_rune c ++ encode_runes cs) as [|b0 p] eqn:Ep.
  { apply app_eq_nil in Ep as [E _]. rewrite E in *. simpl in *. lia. }
  cbn [utf8_Valid_loop RuneCount_loop]. rewrite Hw. cbn [from_option id]. rewrite <-Ep, drop_app_length.
  destruct (IH fuel Hcs') as [-> ->]; [lia|]. split; [done|]. len.
Qed.

Lemma utf8_Valid_loop_decode fuel : forall p,
  utf8_Valid_loop fuel p = true -> exists cs, Forall scalar cs /\ p = encode_runes cs.
Proof.
  induction fuel as [|fuel IH]; intros [|b p]; cbn [utf8_Valid_loop]; try done;
    try (intros _; by exists []).
  destruct (rune_width (b :: p)) as [n|] eqn:En; [|done].
  intros H. apply IH in H as (cs & Hcs & Hp).
  destruct (rune_width_scalar _ _ En) as (c & Hc & Ht).
  exists (c :: cs). split; [by constructor|].
  rewrite encode_runes_cons, <-Ht, <-Hp. by rewrite take_drop.
Qed.

(** [utf8.Valid] accepts exactly the encodings of scalar value sequences, and
    [utf8.RuneCount] is the number of scalar values. *)
Lemma utf8_Valid_spec p :
  utf8_Valid p = true <-> exists cs, Forall scalar cs /\ p = encode_runes cs.
Proof.
  unfold utf8_Valid. split; [apply utf8_Valid_loop_decode|].
  intros (cs & Hcs & ->). by apply utf8_Valid_loop_encode.
Qed.

Lemma RuneCount_encode_runes cs : Forall scalar cs -> RuneCount (encode_runes cs) = blen cs.
Proof. intros Hcs. unfold RuneCount. by apply utf8_Valid_loop_encode. Qed.

Lemma ToValidUTF8_loop_length fuel : forall p,
  (length (ToValidUTF8_loop fuel p) <= length p)%nat.
Proof.
  induction fuel as [|fuel IH]; intros [|b p]; cbn [ToValidUTF8_loop]; try (simpl; lia).
  destruct (rune_width (b :: p)) as [n|] eqn:En.
  - rewrite length_app, length_take. specialize (IH (drop n (b :: p))).
    rewrite length_drop in IH. apply rune_width_length in En. simpl in *. lia.
  - specialize (IH (drop 1 (b :: p))). rewrite length_drop in IH. simpl in *. lia.
Qed.

Lemma ToValidUTF8_loop_Valid fuel : forall p,
  (length p <= fuel)%nat -> (ToValidUTF8_loop fuel p = p <-> utf8_Valid_loop fuel p = true).
Proof.
  induction fuel as [|fuel IH]; intros [|b p] Hf; cbn [ToValidUTF8_loop utf8_Valid_loop];
    try done.
  destruct (rune_width (b :: p)) as [n|] eqn:En.
  - rewrite <-IH; [|apply rune_width_length in En; rewrite length_drop; simpl in *; lia].
    rewrite <-(take_drop n (b :: p)) at 3. split; [apply app_inv_head|congruence].
  - split; [|done]. intros E. exfalso. apply (f_equal length) in E.
    pose proof (ToValidUTF8_loop_length fuel (drop 1 (b :: p))) as Hl. rewrite length_drop in Hl. simpl in *. lia.
Qed.

Lemma RuneCount_loop_le fuel : forall p, RuneCount_loop fuel p <= blen p.
Proof.
  induction fuel as [|fuel IH]; intros [|b p]; cbn [RuneCount_loop]; try apply blen_nonneg.
  specialize (IH (drop (default 1%nat (rune_width (b :: p))) (b :: p))).
  unfold blen in *. rewrite length_drop in IH.
  destruct (rune_width (b :: p)) as [n|] eqn:En; cbn [from_option id] in *.
  - apply rune_width_length in En. lia.
  - simpl in *. lia.
Qed.

Lemma RuneCount_le p : RuneCount p <= blen p.
Proof. apply RuneCount_loop_le. Qed.

Lemma encode_runes_length cs : blen (encode_runes cs) <= 4 * blen cs.
Proof.
  induction cs as [|c cs IH]; [done|]. rewrite encode_runes_cons. len.
  pose proof (encode_rune_length c). unfold blen at 1. lia.
Qed.

(** ASCII text is valid, one rune per byte. *)
Lemma ascii_encode_runes s :
  Forall (fun b => ubyte b < 128) s -> s = encode_runes (ubyte <$> s) /\ Forall scalar (ubyte <$> s).
Proof.
  induction 1 as [|b s Hb Hs [IH1 IH2]]; [by split|]. pose proof (ubyte_range b). split.
  - cbn [fmap list_fmap]. rewrite encode_runes_cons, <-IH1. unfold encode_rune.
    by rewrite (proj2 (Z.ltb_lt _ _)), mkbyte_ubyte by lia.
  - constructor; [unfold scalar; lia|done].
Qed.

Lemma ascii_Valid s :
  Forall (fun b => ubyte b < 128) s -> utf8_Valid s = true /\ RuneCount s = blen s.
Proof.
  intros Hs. destruct (ascii_encode_runes s Hs) as [E Hc]. split.
  - apply utf8_Valid_spec. eauto.
  - rewrite E at 1. rewrite RuneCount_encode_runes by done. unfold blen. by rewrite length_fmap.
Qed.
