(* ===== verification/McString.v ===== *)
(** * Minecraft strings (internal/protocol/codec/string.go)

    A string is its byte length as a VarInt followed by UTF-8 bytes. *)

From S2P Require Import Prelude GoIO Varint Utf8.

(** [utf8Valid]: compare with the repaired copy. *)
Definition utf8Valid (data : list byte) : bool := bool_decide (data = ToValidUTF8 data).

(** The loop [for i := range data { data[i], err = r.ReadByte() }]. *)
Fixpoint ReadString_loop (n : nat) (r : reader) : res (list byte) * reader :=
  match n with
  | O => (Ok [], r)
  | S n' =>
    match ReadByte r with
    | (Err e, r') => (Err e, r')
    | (Ok b, r') =>
      match ReadString_loop n' r' with
      | (Err e, r'') => (Err e, r'')
      | (Ok l, r'') => (Ok (b :: l), r'')
      end
    end
  end.

Definition ReadString (r : reader) (maxBytes : Z) : res gostring * reader :=
  match ReadVarInt r with
  | (Err err, r') => (Err err, r')
  | (Ok length, r') =>
    if (length <? 0) || (maxBytes <? length) then (Err ErrStringTooLong, r')
    else
      match ReadString_loop (Z.to_nat length) r' with
      | (Err err, r'') => (Err err, r'')
      | (Ok data, r'') =>
        if negb (utf8Valid data) then (Err ErrInvalidUTF8, r'') else (Ok data, r'')
      end
  end.

Definition AppendString (dst : list byte) (value : gostring) : list byte :=
  AppendVarInt dst (int32 (blen value)) ++ value.

(** The string and its encoded size. *)
Definition ConsumeString (data : list byte) (maxChars : Z) : res (gostring * Z) :=
  match ConsumeVarInt data with
  | Err _ => Err ErrStringTooLong
  | Ok (length, prefix) =>
    if (length <? 0) || (maxChars * 3 <? length) then Err ErrStringTooLong
    else
      let end_ := prefix + length in
      if blen data <? end_ then Err io_ErrUnexpectedEOF
      else
        let value := slice data (Z.to_nat prefix) (Z.to_nat end_) in
        if negb (utf8_Valid value) || (maxChars <? RuneCount value) then Err ErrStringTooLong
        else Ok (value, end_)
  end.

Arguments ReadString : simpl never.
Arguments AppendString : simpl never.
Arguments ConsumeString : simpl never.

(** ** Specification *)

(** A string a reader with limit [maxChars] accepts: well-formed UTF-8 of at
    most [maxChars] runes and [3 * maxChars] bytes. *)
Definition string_fits (maxChars : Z) (s : gostring) : bool :=
  utf8_Valid s && (RuneCount s <=? maxChars) && (blen s <=? maxChars * 3) && (blen s <? 2 ^ 31).

(** The encoding of a string on its own. *)
Definition mcstring (s : gostring) : list byte := AppendString [] s.

(** ** Lemmas *)

Lemma slice_app {A} (a b c : list A) : slice (a ++ b ++ c) (length a) (length a + length b) = b.
Proof.
  unfold slice. rewrite drop_app_length.
  replace (length a + length b - length a)%nat with (length b) by lia. apply take_app_length.
Qed.

Lemma slice_app_Z {A} (a b c : list A) m n :
  m = blen a -> n = blen a + blen b -> slice (a ++ b ++ c) (Z.to_nat m) (Z.to_nat n) = b.
Proof.
  intros -> ->. unfold blen. rewrite Nat2Z.id.
  replace (Z.to_nat (Z.of_nat (length a) + Z.of_nat (length b))) with (length a + length b)%nat by lia.
  apply slice_app.
Qed.

Lemma AppendString_app dst s : AppendString dst s = dst ++ mcstring s.
Proof. unfold mcstring, AppendString. by rewrite !AppendVarInt_app, <-!app_assoc. Qed.

Lemma mcstring_eq s : mcstring s = varint (int32 (blen s)) ++ s.
Proof. done. Qed.

Lemma blen_int32 {A} (s : list A) : blen s < 2 ^ 31 -> int32 (blen s) = blen s.
Proof. intros. pose proof (blen_nonneg s). apply int32_small. unfold in_int32. lia. Qed.

Lemma ConsumeString_app l s rest maxChars :
  varint_encoding l = true -> varint_groups l = blen s -> string_fits maxChars s = true ->
  ConsumeString (l ++ s ++ rest) maxChars = Ok (s, blen l + blen s).
Proof.
  unfold string_fits. intros Hl Hg Hs. bool_facts. pose proof (blen_nonneg s).
  unfold ConsumeString. rewrite ConsumeVarInt_complete, Hg, blen_int32 by done.
  rewrite (proj2 (Z.ltb_ge _ _)), (proj2 (Z.ltb_ge (maxChars * 3) _)) by lia. cbn [orb].
  rewrite (proj2 (Z.ltb_ge (blen _) _)).
  2: { len. pose proof (blen_nonneg rest). lia. }
  rewrite slice_app_Z by done.
  by rewrite H, (proj2 (Z.ltb_ge maxChars (RuneCount s))) by lia.
Qed.

Lemma ConsumeString_mcstring s rest maxChars :
  string_fits maxChars s = true ->
  ConsumeString (mcstring s ++ rest) maxChars = Ok (s, blen (mcstring s)).
Proof.
  intros Hs. rewrite mcstring_eq, <-app_assoc.
  destruct (varint_is_encoding (int32 (blen s))) as [He Hg].
  assert (blen s < 2 ^ 31) by (unfold string_fits in Hs; bool_facts; lia).
  rewrite ConsumeString_app; [by len|done| |done].
  rewrite Hg, uint32_int32. apply uint32_small. pose proof (blen_nonneg s). unfold in_uint32. lia.
Qed.

Lemma ConsumeString_Ok data maxChars s n :
  ConsumeString data maxChars = Ok (s, n) ->
  exists l rest, data = l ++ s ++ rest /\ varint_encoding l = true /\
    varint_groups l = blen s /\ string_fits maxChars s = true /\ n = blen l + blen s.
Proof.
  unfold ConsumeString. destruct (ConsumeVarInt data) as [[len pre]|] eqn:Ec; [|done].
  apply ConsumeVarInt_sound in Ec as (l & tail & -> & He & -> & ->).
  case_match eqn:E1; [done|]. case_match eqn:E2; [done|].
  case_match eqn:E3; [done|]. intros ?; simplify_eq. bool_facts.
  pose proof (varint_groups_nonneg l) as Hg0.
  pose proof (varint_groups_int32 l He ltac:(lia)) as Hg. rewrite Hg in *. len.
  assert (Hv : slice (l ++ tail) (Z.to_nat (blen l)) (Z.to_nat (blen l + varint_groups l))
     = take (Z.to_nat (varint_groups l)) tail).
  { unfold slice. rewrite drop_app_blen by done. f_equal. pose proof (blen_nonneg l). lia. }
  rewrite Hv in *. exists l, (drop (Z.to_nat (varint_groups l)) tail). rewrite take_drop.
  assert (Hl : blen (take (Z.to_nat (varint_groups l)) tail) = varint_groups l).
  { unfold blen in *. rewrite length_take. lia. }
  split_and!; try done; [|by rewrite Hl].
  unfold string_fits. rewrite H, Hl. cbn [andb].
  pose proof (int32_range (varint_groups l)) as Hr. rewrite Hg in Hr. unfold in_int32 in Hr.
  by rewrite !(proj2 (Z.leb_le _ _)), (proj2 (Z.ltb_lt _ _)) by lia.
Qed.

Lemma ConsumeString_bounds data maxChars s n :
  ConsumeString data maxChars = Ok (s, n) -> 1 <= n <= blen data /\ string_fits maxChars s = true.
Proof.
  intros H. apply ConsumeString_Ok in H as (l & rest & -> & He & _ & Hf & ->).
  apply varint_encoding_length in He. len. pose proof (blen_nonneg s). pose proof (blen_nonneg rest).
  split; [lia|done].
Qed.

Lemma ReadString_loop_app s : forall rest e,
  ReadString_loop (length s) (Reader (s ++ rest) e) = (Ok s, Reader rest e).
Proof. induction s as [|b s IH]; intros rest e; [done|]. cbn. by rewrite IH. Qed.

Lemma ReadString_loop_Ok n : forall r s r',
  ReadString_loop n r = (Ok s, r') ->
  length s = n /\ rd_data r = s ++ rd_data r' /\ rd_err r' = rd_err r.
Proof.
  induction n as [|n IH]; intros [data e] s r'; cbn; [by intros; simplify_eq|].
  destruct data as [|b data]; cbn; [done|].
  destruct (ReadString_loop n (Reader data e)) as [[l|] r''] eqn:E; [|done].
  intros; simplify_eq. apply IH in E as (<- & Hd & He). cbn in *. by rewrite Hd.
Qed.

Lemma utf8Valid_eq data : utf8Valid data = utf8_Valid data.
Proof.
  unfold utf8Valid, utf8_Valid, ToValidUTF8.
  pose proof (ToValidUTF8_loop_Valid (length data) data ltac:(lia)) as Hv.
  destruct (utf8_Valid_loop (length data) data).
  - apply bool_decide_eq_true. symmetry. by apply Hv.
  - apply bool_decide_eq_false. intros E. discriminate (proj1 Hv (eq_sym E)).
Qed.

(** ** Properties *)

(** a string is read back exactly: [ConsumeString] with limit [maxChars]
    returns [s] and the encoded size [n] if and only if the data starts with a
    VarInt length prefix of [s] followed by [s] itself, [s] is well-formed
    UTF-8, has at most [maxChars] runes and at most [3 * maxChars] bytes; and
    what [AppendString] writes for such an [s] is read back whatever follows. *)
Theorem ConsumeString_characterised data maxChars s n rest dst :
  (ConsumeString data maxChars = Ok (s, n) <->
   exists l tl, data = l ++ s ++ tl /\ varint_encoding l = true /\ varint_groups l = blen s /\
     string_fits maxChars s = true /\ n = blen l + blen s) /\
  (string_fits maxChars s = true ->
   exists enc, AppendString dst s = dst ++ enc /\
     ConsumeString (enc ++ rest) maxChars = Ok (s, blen enc)).
Proof.
  split; [split|].
  - apply ConsumeString_Ok.
  - intros (l & tl & -> & He & Hg & Hf & ->). by apply ConsumeString_app.
  - intros Hf. exists (mcstring s). split; [apply AppendString_app|by apply ConsumeString_mcstring].
Qed.

Lemma ConsumeString_characterised_witness :
  exists enc, AppendString [x00] (str "limbo") = [x00] ++ enc /\
    ConsumeString (enc ++ [x01]) 16 = Ok (str "limbo", blen enc).
Proof. by apply (ConsumeString_characterised [] 16 (str "limbo") 0 [x01] [x00]). Defined.

(** the streaming reader [ReadString] accepts a string exactly when its
    bytes are well-formed UTF-8 (its own check, comparison with the repaired
    copy, decides that) and number at most [maxBytes]: on the output of
    [AppendString] it returns the string and leaves what follows. There is no
    limit on the number of runes besides the byte limit. *)
Theorem ReadString_AppendString s maxBytes rest e :
  blen s < 2 ^ 31 ->
  ReadString (Reader (AppendString [] s ++ rest) e) maxBytes =
  if maxBytes <? blen s then (Err ErrStringTooLong, Reader (s ++ rest) e)
  else if utf8_Valid s then (Ok s, Reader rest e) else (Err ErrInvalidUTF8, Reader rest e).
Proof.
  intros Hs. change (AppendString [] s) with (mcstring s). rewrite mcstring_eq, <-app_assoc.
  unfold ReadString. rewrite ReadVarInt_varint by apply int32_range.
  rewrite blen_int32 by done. pose proof (blen_nonneg s).
  rewrite (proj2 (Z.ltb_ge (blen s) 0)) by lia. cbn [orb].
  destruct (maxBytes <? blen s); [done|]. unfold blen. rewrite Nat2Z.id, ReadString_loop_app.
  rewrite utf8Valid_eq. by destruct (utf8_Valid s).
Qed.

Lemma ReadString_AppendString_witness :
  ReadString (Reader (AppendString [] (str "abc") ++ [x09]) io_EOF) 3 =
  (Ok (str "abc"), Reader [x09] io_EOF).
Proof. by rewrite (ReadString_AppendString (str "abc") 3 [x09] io_EOF ltac:(done)). Defined.
