(* ===== verification/Frame.v ===== *)
(** * Packet framing and compression
    (internal/protocol/codec/frame.go, compression.go)

    A frame is a VarInt length and that many payload bytes; with compression
    enabled the payload carries the uncompressed length (0 for a packet below
    the threshold) and zlib data. compress/zlib is a parameter: [Zlib] names the
    two operations the code uses and [ZlibLaws] the documented facts it relies
    on. The buffer [dst] of [ReadFrame] only saves an allocation and is not
    modelled; every caller in the repository passes nil. *)

From S2P Require Import Prelude GoIO Varint.

Definition DefaultMaxPacketSize : Z := Z.shiftl 2 20.

Record Framer := mkFramer { maxPacketSize : Z }.

Definition NewFramer (maxPacketSize : Z) : Framer :=
  mkFramer (if maxPacketSize <=? 0 then DefaultMaxPacketSize else maxPacketSize).

Definition ReadFrame (f : Framer) (r : reader) : res (list byte) * reader :=
  match ReadVarInt r with
  | (Err err, r') => (Err err, r')
  | (Ok length, r') =>
    if length <? 0 then (Err ErrNegativeLength, r')
    else if length =? 0 then (Err ErrEmptyPacket, r')
    else if maxPacketSize f <? length then (Err (PacketTooLargeError length (maxPacketSize f)), r')
    else ReadFull r' (Z.to_nat length)
  end.

(** [writeAll]: offer the rest until nothing is left. Every round that
    continues accepted at least one byte, so [length data] rounds suffice. *)
Fixpoint writeAll_loop {W} `{Writer W} (fuel : nat) (w : W) (data : list byte) : option error * W :=
  match data, fuel with
  | [], _ | _, O => (None, w)
  | _, S fuel' =>
    match w_write w data with
    | (_, Some err, w') => (Some err, w')
    | (n, None, w') =>
      if bool_decide (n = 0%nat) then (Some io_ErrShortWrite, w')
      else writeAll_loop fuel' w' (drop n data)
    end
  end.
Definition writeAll {W} `{Writer W} (w : W) (data : list byte) : option error * W :=
  writeAll_loop (length data) w data.

Definition WriteFrame {W} `{Writer W} (f : Framer) (w : W) (payload : list byte) : option error * W :=
  if blen payload =? 0 then (Some ErrEmptyPacket, w)
  else if maxPacketSize f <? blen payload then
    (Some (PacketTooLargeError (blen payload) (maxPacketSize f)), w)
  else
    let header := AppendVarInt [] (int32 (blen payload)) in
    match writeAll w header with
    | (Some err, w') => (Some err, w')
    | (None, w') => writeAll w' payload
    end.

(** Identifier and body of a packet. *)
Definition PacketID (payload : list byte) : res (Z * list byte) :=
  let! (id, size) := ConsumeVarInt payload in
  Ok (id, drop (Z.to_nat size) payload).

Arguments PacketID : simpl never.
Arguments ReadFrame : simpl never.
Arguments WriteFrame : simpl never.

(** ** Compression *)

(** compress/zlib. [inflate data] is an error when [zlib.NewReader] (or [Reset])
    rejects the header, else everything the reader yields and how it ends:
    [None] for [io.EOF] after a good checksum, [Some err] otherwise. *)
Class Zlib := {
  deflate : list byte -> list byte;
  inflate : list byte -> res (list byte * option error)
}.

Class ZlibLaws `{Zlib} := {
  inflate_deflate : forall p, inflate (deflate p) = Ok (p, None);
  inflate_nil : inflate [] = Err io_ErrUnexpectedEOF;
  deflate_bound : forall p, blen (deflate p) <= blen p + blen p / 1000 + 64
}.

Record CompressionState := mkCompressionState {
  threshold : Z;
  cs_maxPacketSize : Z;
  wireFramer : Framer
}.

Definition NewCompressionState (threshold maxPacketSize : Z) : res CompressionState :=
  if threshold <? 0 then Err ErrInvalidCompressionThreshold
  else
    let maxPacketSize := if maxPacketSize <=? 0 then DefaultMaxPacketSize else maxPacketSize in
    let wireLimit := maxPacketSize + maxPacketSize / 1000 + 64 + Z.of_nat MaxVarIntBytes in
    Ok (mkCompressionState threshold maxPacketSize (NewFramer wireLimit)).

Section compression.
Context `{Zlib}.

(** The error of [io.ReadFull] when the reader ends too early. *)
Definition short_read (out : list byte) (status : option error) : error :=
  match status with
  | Some err => err
  | None => if blen out =? 0 then io_EOF else io_ErrUnexpectedEOF
  end.

Definition CompressionState_ReadFrame (c : CompressionState) (r : reader) : res (list byte) * reader :=
  match ReadFrame (wireFramer c) r with
  | (Err err, r') => (Err err, r')
  | (Ok wire, r') =>
    (match ConsumeVarInt wire with
     | Err _ => Err ErrInvalidCompressedPacket
     | Ok (dataLength, used) =>
       if dataLength <? 0 then Err ErrInvalidCompressedPacket
       else
         let data := drop (Z.to_nat used) wire in
         if dataLength =? 0 then
           if (blen data =? 0) || (threshold c <=? blen data) then Err ErrInvalidCompressedPacket
           else Ok data
         else if cs_maxPacketSize c <? dataLength then
           Err (PacketTooLargeError dataLength (cs_maxPacketSize c))
         else if (dataLength <? threshold c) || (blen data =? 0) then Err ErrInvalidCompressedPacket
         else
           match inflate data with
           | Err err => Err (ErrDetail ErrInvalidCompressedPacket err)
           | Ok (out, status) =>
             if blen out <? dataLength then Err (ErrDetail ErrInvalidCompressedPacket (short_read out status))
             else if (dataLength <? blen out) || (match status with Some _ => true | None => false end)
             then Err ErrInvalidCompressedPacket
             else Ok (take (Z.to_nat dataLength) out)
           end
     end, r')
  end.

Definition CompressionState_WriteFrame {W} `{Writer W} (c : CompressionState) (w : W)
    (payload : list byte) : option error * W :=
  if blen payload =? 0 then (Some ErrEmptyPacket, w)
  else if cs_maxPacketSize c <? blen payload then
    (Some (PacketTooLargeError (blen payload) (cs_maxPacketSize c)), w)
  else if blen payload <? threshold c then
    let wire := AppendVarInt [] 0 ++ payload in
    WriteFrame (wireFramer c) w wire
  else
    let compressed := deflate payload in
    let wire := AppendVarInt [] (int32 (blen payload)) ++ compressed in
    WriteFrame (wireFramer c) w wire.

End compression.

(** ** Specification: the bytes of a frame *)

Definition frame_bytes (payload : list byte) : list byte :=
  varint (int32 (blen payload)) ++ payload.

(** A payload a framer transports. The second bound is the one of the int32
    length prefix; the default limit of 2 MiB is far below it. *)
Definition frame_ok (f : Framer) (payload : list byte) : Prop :=
  payload <> [] /\ blen payload <= maxPacketSize f /\ blen payload < 2 ^ 31.

#[global] Instance frame_ok_dec f p : Decision (frame_ok f p).
Proof. unfold frame_ok. apply _. Defined.

(** Read [n] frames in a row. *)
Fixpoint ReadFrames (f : Framer) (n : nat) (r : reader) : res (list (list byte)) * reader :=
  match n with
  | O => (Ok [], r)
  | S n' =>
    match ReadFrame f r with
    | (Err e, r') => (Err e, r')
    | (Ok p, r') =>
      match ReadFrames f n' r' with
      | (Err e, r'') => (Err e, r'')
      | (Ok ps, r'') => (Ok (p :: ps), r'')
      end
    end
  end.

(** Write payloads in a row, stopping at the first error. *)
Fixpoint WriteFrames {W} `{Writer W} (f : Framer) (w : W) (ps : list (list byte)) : option error * W :=
  match ps with
  | [] => (None, w)
  | p :: ps' =>
    match WriteFrame f w p with
    | (Some e, w') => (Some e, w')
    | (None, w') => WriteFrames f w' ps'
    end
  end.

(** ** A concrete zlib

    A compressor in the manner of deflate's stored blocks (no checksum), which
    satisfies [ZlibLaws]; the witnesses use it where a statement is about every
    lawful zlib. *)

(** One stored block per 65535 bytes: final flag, LEN, NLEN, data. *)
Fixpoint stored_blocks (fuel : nat) (p : list byte) : list byte :=
  match fuel with
  | O => []
  | S fuel' =>
    let block := take (Z.to_nat 65535) p in
    let rest := drop (Z.to_nat 65535) p in
    let hdr := be_bytes 2 (blen block) ++ be_bytes 2 (65535 - blen block) in
    if bool_decide (rest = []) then x01 :: hdr ++ block
    else x00 :: hdr ++ block ++ stored_blocks fuel' rest
  end.

Fixpoint stored_unblocks (fuel : nat) (d : list byte) : option (list byte) :=
  match fuel, d with
  | S fuel', flag :: l1 :: l0 :: n1 :: n0 :: d' =>
    let n := be_val [l1; l0] in
    if blen d' <? n then None
    else
      let block := take (Z.to_nat n) d' in
      if bool_decide (flag = x01) then Some block
      else match stored_unblocks fuel' (drop (Z.to_nat n) d') with
           | Some rest => Some (block ++ rest)
           | None => None
           end
  | _, _ => None
  end.

Definition stored_zlib : Zlib := {|
  deflate p := x78 :: x01 :: stored_blocks (S (Z.to_nat (blen p / 65535))) p;
  inflate d :=
    match d with
    | x78 :: x01 :: d' =>
      match stored_unblocks (length d') d' with
      | Some out => Ok (out, None)
      | None => Ok ([], Some io_ErrUnexpectedEOF)
      end
    | [] | [_] => Err io_ErrUnexpectedEOF
    | _ => Err (ErrOther 0)
    end
|}.

(** ** Lemmas: the concrete zlib *)

Lemma stored_blocks_unblocks fuel : forall p m,
  blen p < 65535 * Z.of_nat fuel -> (length (stored_blocks fuel p) <= m)%nat ->
  stored_unblocks m (stored_blocks fuel p) = Some p.
Proof.
  induction fuel as [|fuel IH]; intros p m Hp Hm; [pose proof (blen_nonneg p); lia|].
  cbn [stored_blocks] in *. set (block := take (Z.to_nat 65535) p) in *.
  set (rest := drop (Z.to_nat 65535) p) in *.
  assert (Hpe : p = block ++ rest) by (symmetry; apply take_drop).
  assert (Hb : 0 <= blen block <= 65535) by (unfold blen, block; rewrite length_take; lia).
  assert (Hhdr : exists l1 l0 n1 n0, be_bytes 2 (blen block) ++ be_bytes 2 (65535 - blen block)
     = [l1; l0; n1; n0] /\ be_val [l1; l0] = blen block).
  { do 4 eexists. split; [reflexivity|]. change [_; _] with (be_bytes 2 (blen block)).
    apply be_val_uint16. unfold in_uint16. lia. }
  destruct Hhdr as (l1 & l0 & n1 & n0 & Eh & Ev). rewrite Eh in *. cbn [app] in *.
  case_bool_decide as Er; (destruct m as [|m]; [simpl in Hm; lia|]); cbn [stored_unblocks].
  - rewrite Ev, Z.ltb_irrefl. cbn. rewrite Hpe, Er, app_nil_r.
    rewrite take_ge by (unfold blen; lia). done.
  - rewrite Ev, (proj2 (Z.ltb_ge _ _)) by (len; pose proof (blen_nonneg (stored_blocks fuel rest)); lia).
    rewrite drop_app_blen, take_app_blen by done. cbn.
    assert (Hfull : blen block = 65535).
    { unfold blen, block in *. rewrite length_take in *. unfold rest in Er.
      destruct (decide (length p <= Z.to_nat 65535)%nat); [|lia].
      by rewrite drop_ge in Er by lia. }
    rewrite IH; [by rewrite <-Hpe| |].
    + rewrite Hpe in Hp. len.
    + simpl in Hm. rewrite length_app in Hm. lia.
Qed.

Lemma stored_blocks_length fuel : forall p,
  blen p < 65535 * Z.of_nat fuel -> blen (stored_blocks fuel p) <= blen p + 5 * (blen p / 65535 + 1).
Proof.
  induction fuel as [|fuel IH]; intros p Hp; [pose proof (blen_nonneg p); lia|].
  cbn [stored_blocks]. set (block := take (Z.to_nat 65535) p) in *.
  set (rest := drop (Z.to_nat 65535) p) in *.
  assert (Hpe : p = block ++ rest) by (symmetry; apply take_drop).
  pose proof (Z.div_pos (blen p) 65535 (blen_nonneg p) ltac:(lia)).
  case_bool_decide as Er.
  - rewrite Hpe in *. rewrite Er in *. rewrite app_nil_r in *. len.
  - assert (Hfull : blen block = 65535).
    { unfold blen, block in *. rewrite length_take in *. unfold rest in Er.
      destruct (decide (length p <= Z.to_nat 65535)%nat); [|lia].
      by rewrite drop_ge in Er by lia. }
    rewrite Hpe in *. len. rewrite Hfull in *.
    assert (Hr : blen rest < 65535 * Z.of_nat fuel) by lia. specialize (IH rest Hr).
    replace (65535 + blen rest) with (blen rest + 1 * 65535) in * by lia.
    rewrite Z.div_add in * by lia. lia.
Qed.

Lemma stored_zlib_laws : @ZlibLaws stored_zlib.
Proof.
  assert (Hq : forall p : list byte, blen p < 65535 * Z.of_nat (S (Z.to_nat (blen p / 65535)))).
  { intros p. pose proof (blen_nonneg p). pose proof (Z.div_pos (blen p) 65535 ltac:(lia) ltac:(lia)).
    pose proof (Z.mod_pos_bound (blen p) 65535 ltac:(lia)). pose proof (Z.div_mod (blen p) 65535). lia. }
  split; [|done|]; intros p; cbn [deflate inflate stored_zlib].
  - by rewrite stored_blocks_unblocks.
  - pose proof (stored_blocks_length _ p (Hq p)). len. pose proof (blen_nonneg p).
    assert (65 * (blen p / 65535) <= blen p / 1000).
    { apply Z.div_le_lower_bound; [lia|]. pose proof (Z.mul_div_le (blen p) 65535). lia. }
    pose proof (Z.div_pos (blen p) 65535). lia.
Qed.

(** ** Lemmas: writing *)

Section writing.
Context {W} `{WriterLaws W}.

(** Whatever the chunking, [writeAll] delivers a prefix, and all of the data
    when it reports no error. *)
Lemma writeAll_loop_out fuel : forall (w : W) data r w',
  (length data <= fuel)%nat -> writeAll_loop fuel w data = (r, w') ->
  exists sent rest, data = sent ++ rest /\ w_out w' = w_out w ++ sent /\ (r = None -> rest = []).
Proof.
  induction fuel as [|fuel IH]; intros w [|b data] r w' Hf; cbn [writeAll_loop];
    try (intros; simplify_eq; exists [], []; split_and!; [done|by rewrite app_nil_r|done]).
  { simpl in Hf. lia. }
  destruct (w_write w (b :: data)) as [[n [err|]] w1] eqn:Ew.
  - intros; simplify_eq. exists (take n (b :: data)), (drop n (b :: data)).
    rewrite take_drop. split_and!; [done| |done]. by eapply w_write_out.
  - pose proof (w_write_le _ _ _ _ _ Ew) as Hle. pose proof (w_write_out _ _ _ _ _ Ew) as Ho.
    case_bool_decide as En.
    { intros; simplify_eq. exists [], (b :: data). split_and!; [done| |done].
      by rewrite Ho. }
    intros Hl. apply IH in Hl as (sent & rest & Hd & Hs & Hr).
    2: { rewrite length_drop. simpl in *. lia. }
    exists (take n (b :: data) ++ sent), rest. rewrite <-app_assoc, <-Hd, take_drop.
    split_and!; [done| |done]. by rewrite Hs, Ho, app_assoc.
Qed.

Lemma writeAll_out (w : W) data r w' :
  writeAll w data = (r, w') ->
  exists sent rest, data = sent ++ rest /\ w_out w' = w_out w ++ sent /\ (r = None -> rest = []).
Proof. by apply writeAll_loop_out. Qed.

Lemma writeAll_None (w : W) data w' :
  writeAll w data = (None, w') -> w_out w' = w_out w ++ data.
Proof.
  intros Hw. apply writeAll_out in Hw as (sent & rest & -> & -> & Hr).
  by rewrite Hr, app_nil_r by done.
Qed.

Lemma WriteFrame_None f (w : W) payload w' :
  WriteFrame f w payload = (None, w') ->
  payload <> [] /\ blen payload <= maxPacketSize f /\ w_out w' = w_out w ++ frame_bytes payload.
Proof.
  unfold WriteFrame. case_match eqn:E0; [done|]. case_match eqn:E1; [done|].
  destruct (writeAll w _) as [[err|] w1] eqn:Eh; [done|]. intros Hp.
  apply writeAll_None in Hp. apply writeAll_None in Eh. bool_facts.
  rewrite Hp, Eh, <-app_assoc. split_and!; [|lia|done].
  intros ->. by rewrite blen_nil in E0.
Qed.
End writing.

Lemma writeAll_reliable {W} `{WriterLaws W, !ReliableWriter W} (w : W) data :
  exists w', writeAll w data = (None, w') /\ w_out w' = w_out w ++ data.
Proof.
  destruct data as [|b data].
  { exists w. by rewrite app_nil_r. }
  unfold writeAll. cbn [length writeAll_loop]. destruct (w_write_all w (b :: data)) as [w' Ew].
  pose proof (w_write_out _ _ _ _ _ Ew) as Ho. rewrite Ew. cbn [length]. rewrite bool_decide_false by done.
  replace (drop (S (length data)) (b :: data)) with (@nil byte).
  2: { symmetry. apply drop_ge. done. }
  exists w'. destruct (length data); split; try done; rewrite Ho, firstn_all2 by (simpl; lia); done.
Qed.

Lemma WriteFrame_reliable {W} `{WriterLaws W, !ReliableWriter W} f (w : W) payload :
  payload <> [] -> blen payload <= maxPacketSize f ->
  exists w', WriteFrame f w payload = (None, w') /\ w_out w' = w_out w ++ frame_bytes payload.
Proof.
  intros Hne Hle. unfold WriteFrame.
  rewrite (proj2 (Z.eqb_neq _ _)) by (by rewrite blen_0).
  rewrite (proj2 (Z.ltb_ge _ _)) by lia.
  destruct (writeAll_reliable w (AppendVarInt [] (int32 (blen payload)))) as (w1 & -> & Ho1).
  destruct (writeAll_reliable w1 payload) as (w2 & -> & Ho2).
  exists w2. split; [done|]. by rewrite Ho2, Ho1, <-app_assoc.
Qed.

(** ** Lemmas: reading *)

Lemma ReadFrame_frame f payload rest e :
  frame_ok f payload -> ReadFrame f (Reader (frame_bytes payload ++ rest) e) = (Ok payload, Reader rest e).
Proof.
  intros (Hne & Hle & Hlt). unfold ReadFrame, frame_bytes. rewrite <-app_assoc.
  rewrite ReadVarInt_varint by apply int32_range.
  pose proof (blen_nonneg payload). assert (blen payload <> 0) by (by rewrite blen_0).
  rewrite int32_small by (unfold in_int32; lia).
  rewrite (proj2 (Z.ltb_ge _ 0)), (proj2 (Z.eqb_neq _ _)), (proj2 (Z.ltb_ge _ _)) by lia.
  unfold blen. rewrite Nat2Z.id. apply ReadFull_app.
Qed.

Lemma ReadFrame_Ok f r payload r' :
  ReadFrame f r = (Ok payload, r') ->
  1 <= blen payload <= maxPacketSize f /\ blen payload < 2 ^ 31 /\
  exists prefix, rd_data r = prefix ++ payload ++ rd_data r' /\ varint_encoding prefix = true /\
    varint_groups prefix = blen payload.
Proof.
  unfold ReadFrame. destruct (ReadVarInt r) as [[len|] r1] eqn:Ev; [|done].
  apply ReadVarInt_Ok in Ev as (n & Hc & ->).
  apply ConsumeVarInt_sound in Hc as (l & tail & Hd & He & -> & ->).
  repeat (case_match; [done|]). bool_facts. intros Hf.
  apply ReadFull_Ok in Hf as (Hl & Hd2 & _). cbn [rd_data] in *.
  rewrite Hd, drop_app_blen in Hd2 by done.
  pose proof (varint_groups_nonneg l). pose proof (int32_range (varint_groups l)) as Hr.
  unfold in_int32 in Hr. unfold blen. rewrite Hl.
  pose proof (varint_groups_int32 l He ltac:(lia)) as Hi.
  split_and!; [lia..|]. exists l. rewrite Hd, Hd2. split_and!; [done..|lia].
Qed.

Lemma PacketID_varint id body : in_int32 id -> PacketID (varint id ++ body) = Ok (id, body).
Proof.
  intros. unfold PacketID. rewrite ConsumeVarInt_varint by done. by rewrite drop_app_blen.
Qed.

Lemma PacketID_Ok payload id body :
  PacketID payload = Ok (id, body) ->
  exists l, payload = l ++ body /\ varint_encoding l = true /\ id = int32 (varint_groups l).
Proof.
  unfold PacketID. destruct (ConsumeVarInt payload) as [[i n]|] eqn:E; [|done].
  intros; simplify_eq. apply ConsumeVarInt_sound in E as (l & rest & -> & He & -> & ->).
  exists l. by rewrite drop_app_blen.
Qed.

(** ** Lemmas: compression *)

Lemma NewCompressionState_Ok t m c :
  NewCompressionState t m = Ok c ->
  0 <= threshold c /\ 0 < cs_maxPacketSize c /\
  maxPacketSize (wireFramer c) = cs_maxPacketSize c + cs_maxPacketSize c / 1000 + 69.
Proof.
  unfold NewCompressionState, NewFramer, DefaultMaxPacketSize, MaxVarIntBytes.
  destruct (Z.ltb_spec t 0); [done|]. intros; simplify_eq/=.
  destruct (Z.leb_spec m 0); [change (Z.shiftl 2 20) with 2097152; simpl; lia|].
  pose proof (Z.div_pos m 1000). rewrite (proj2 (Z.leb_gt _ _)) by lia. simpl. lia.
Qed.

Section compression_lemmas.
Context `{ZlibLaws}.

Lemma deflate_nonempty p : deflate p <> [].
Proof. intros E. pose proof (inflate_deflate p) as Hi. by rewrite E, inflate_nil in Hi. Qed.

(** The wire payload of a compressed frame. *)
Definition compressed_payload (c : CompressionState) (payload : list byte) : list byte :=
  if blen payload <? threshold c then varint 0 ++ payload
  else varint (int32 (blen payload)) ++ deflate payload.

(** Every admissible payload fits the wire framer. *)
Lemma compressed_payload_fits t m c payload :
  NewCompressionState t m = Ok c -> payload <> [] ->
  blen payload <= cs_maxPacketSize c -> cs_maxPacketSize c < 2 ^ 30 ->
  frame_ok (wireFramer c) (compressed_payload c payload).
Proof.
  intros Hc Hne Hle Hm. destruct (NewCompressionState_Ok _ _ _ Hc) as (Ht & Hp & Hw).
  pose proof (blen_nonneg payload).
  assert (blen payload / 1000 <= cs_maxPacketSize c / 1000) by (apply Z.div_le_mono; lia).
  assert (cs_maxPacketSize c / 1000 < 2 ^ 21) by (apply Z.div_lt_upper_bound; lia).
  assert (0 <= cs_maxPacketSize c / 1000) by (apply Z.div_pos; lia).
  unfold frame_ok, compressed_payload. rewrite Hw.
  destruct (_ <? _); (split; [intros E; apply app_eq_nil in E as [E _]; by apply varint_nonempty in E|]).
  - len. pose proof (varint_length 0). lia.
  - len. pose proof (varint_length (int32 (blen payload))). pose proof (deflate_bound payload). lia.
Qed.

Lemma CompressionState_ReadFrame_payload t m c payload rest e :
  NewCompressionState t m = Ok c -> payload <> [] ->
  blen payload <= cs_maxPacketSize c -> cs_maxPacketSize c < 2 ^ 30 ->
  CompressionState_ReadFrame c (Reader (frame_bytes (compressed_payload c payload) ++ rest) e)
  = (Ok payload, Reader rest e).
Proof.
  intros Hc Hne Hle Hm. unfold CompressionState_ReadFrame.
  rewrite ReadFrame_frame by (by eapply compressed_payload_fits).
  destruct (NewCompressionState_Ok _ _ _ Hc) as (Ht & Hp & Hw). f_equal.
  pose proof (blen_nonneg payload). assert (blen payload <> 0) by (by rewrite blen_0).
  assert (Hi : int32 (blen payload) = blen payload) by (apply int32_small; unfold in_int32; lia).
  unfold compressed_payload. destruct (Z.ltb_spec (blen payload) (threshold c)) as [Hlt|Hge].
  - rewrite ConsumeVarInt_varint by (unfold in_int32; lia). rewrite drop_app_blen by done.
    change (0 <? 0) with false. change (0 =? 0) with true. cbn iota.
    by rewrite (proj2 (Z.eqb_neq _ _)), (proj2 (Z.leb_gt _ _)) by lia.
  - rewrite ConsumeVarInt_varint by apply int32_range. rewrite drop_app_blen, Hi by done.
    rewrite (proj2 (Z.ltb_ge _ 0)), (proj2 (Z.eqb_neq _ 0)), (proj2 (Z.ltb_ge _ (blen payload))),
      (proj2 (Z.ltb_ge (blen payload) _)) by lia.
    rewrite (proj2 (Z.eqb_neq (blen (deflate payload)) 0)) by (rewrite blen_0; apply deflate_nonempty).
    cbn [orb]. rewrite inflate_deflate, Z.ltb_irrefl. cbn [orb].
    unfold blen. by rewrite Nat2Z.id, firstn_all.
Qed.

Lemma CompressionState_WriteFrame_eq {W} `{Writer W} c (w : W) payload :
  payload <> [] -> blen payload <= cs_maxPacketSize c ->
  CompressionState_WriteFrame c w payload = WriteFrame (wireFramer c) w (compressed_payload c payload).
Proof.
  intros Hne Hle. unfold CompressionState_WriteFrame, compressed_payload.
  rewrite (proj2 (Z.eqb_neq _ _)) by (by rewrite blen_0).
  rewrite (proj2 (Z.ltb_ge _ _)) by lia. by destruct (_ <? _).
Qed.

Lemma CompressionState_WriteFrame_None {W} `{WriterLaws W} c (w : W) payload w' :
  CompressionState_WriteFrame c w payload = (None, w') ->
  payload <> [] /\ blen payload <= cs_maxPacketSize c /\
  w_out w' = w_out w ++ frame_bytes (compressed_payload c payload).
Proof.
  intros Hw. assert (payload <> [] /\ blen payload <= cs_maxPacketSize c) as [Hne Hle].
  { unfold CompressionState_WriteFrame in Hw. case_match eqn:E0; [done|].
    case_match eqn:E1; [done|]. bool_facts. split; [|lia]. intros ->. by rewrite blen_nil in E0. }
  rewrite CompressionState_WriteFrame_eq in Hw by done. split_and!; [done..|].
  by apply WriteFrame_None in Hw as (_ & _ & ->).
Qed.
End compression_lemmas.

(** ** Properties *)

(** a sequence of packets written with [WriteFrame] through any io.Writer,
    however it splits the writes, is read back by [ReadFrame] in the same order
    and with nothing left over: if no write reported an error, the output grew
    by bytes from which reading as many frames yields exactly the payloads. *)
Theorem frames_roundtrip {W} `{WriterLaws W} f (w w' : W) ps rest e :
  maxPacketSize f < 2 ^ 31 -> WriteFrames f w ps = (None, w') ->
  exists out, w_out w' = w_out w ++ out /\
    ReadFrames f (length ps) (Reader (out ++ rest) e) = (Ok ps, Reader rest e).
Proof.
  intros Hm. revert w. induction ps as [|p ps IH]; intros w; cbn [WriteFrames ReadFrames length].
  { intros; simplify_eq. exists []. by rewrite app_nil_r. }
  destruct (WriteFrame f w p) as [[err|] w1] eqn:Ew; [done|]. intros Hws.
  apply WriteFrame_None in Ew as (Hne & Hle & Ho). apply IH in Hws as (out & Ho' & Hr).
  exists (frame_bytes p ++ out). rewrite Ho', Ho, <-!app_assoc. split; [done|].
  rewrite ReadFrame_frame by (unfold frame_ok; split_and!; [done|lia..]). by rewrite Hr.
Qed.

Lemma frames_roundtrip_witness :
  exists out, w_out (Chunked 2 100 io_EOF [x01; x2a; x02; x07; x08]) = w_out (Chunked 2 105 io_EOF []) ++ out /\
    ReadFrames (NewFramer 16) 2 (Reader (out ++ [x63]) io_EOF) = (Ok [[x2a]; [x07; x08]], Reader [x63] io_EOF).
Proof.
  apply (frames_roundtrip (NewFramer 16) (Chunked 2 105 io_EOF []) _ [[x2a]; [x07; x08]] [x63] io_EOF);
    [done|reflexivity].
Defined.

(** [ReadFrame] never yields an empty or oversized packet: a payload it
    returns has between 1 and [maxPacketSize] bytes, is preceded by a VarInt of
    exactly its length, and the reader is left at the byte after it. *)
Theorem ReadFrame_bounded f r payload r' :
  ReadFrame f r = (Ok payload, r') ->
  1 <= blen payload <= maxPacketSize f /\
  exists prefix, rd_data r = prefix ++ payload ++ rd_data r' /\
    ConsumeVarInt (rd_data r) = Ok (blen payload, blen prefix).
Proof.
  intros Hr. apply ReadFrame_Ok in Hr as (Hb & Hlt & prefix & Hd & He & Hg). split; [done|].
  exists prefix. split; [done|]. rewrite Hd, ConsumeVarInt_complete, Hg by done.
  by rewrite int32_small by (unfold in_int32; lia).
Qed.

Lemma ReadFrame_bounded_witness :
  1 <= blen [x2a; x2b] <= maxPacketSize (NewFramer 4) /\
  exists prefix, rd_data (Reader [x02; x2a; x2b; x05] io_EOF) = prefix ++ [x2a; x2b] ++ rd_data (Reader [x05] io_EOF) /\
    ConsumeVarInt (rd_data (Reader [x02; x2a; x2b; x05] io_EOF)) = Ok (blen [x2a; x2b], blen prefix).
Proof. apply (ReadFrame_bounded (NewFramer 4) (Reader [x02; x2a; x2b; x05] io_EOF)). reflexivity. Defined.

(** with compression enabled, for any lawful zlib, threshold and packet
    limit below 2^30, what [CompressionState.WriteFrame] writes for a packet is
    read back by [CompressionState.ReadFrame] as that packet, whether it was
    below the threshold (sent as is) or compressed, and the wire limit of the
    state always leaves room for it: writing to a reliable connection succeeds
    for every nonempty packet within the limit. *)
Theorem compression_roundtrip `{ZlibLaws} {W} `{WriterLaws W, !ReliableWriter W} t m c (w : W) payload rest e :
  NewCompressionState t m = Ok c -> cs_maxPacketSize c < 2 ^ 30 ->
  payload <> [] -> blen payload <= cs_maxPacketSize c ->
  exists w' out, CompressionState_WriteFrame c w payload = (None, w') /\ w_out w' = w_out w ++ out /\
    CompressionState_ReadFrame c (Reader (out ++ rest) e) = (Ok payload, Reader rest e).
Proof.
  intros Hc Hm Hne Hle.
  pose proof (compressed_payload_fits _ _ _ _ Hc Hne Hle Hm) as (Hwne & Hwle & _).
  destruct (WriteFrame_reliable (wireFramer c) w (compressed_payload c payload)) as (w' & Hw & Ho); [done..|].
  exists w', (frame_bytes (compressed_payload c payload)).
  rewrite CompressionState_WriteFrame_eq by done. split_and!; [done..|].
  by eapply CompressionState_ReadFrame_payload.
Qed.

Lemma compression_roundtrip_witness :
  exists w' out, CompressionState_WriteFrame (H:=stored_zlib) (mkCompressionState 3 2097152 (mkFramer 2099318)) (Sink []) (str "hello") = (None, w')
    /\ w_out w' = w_out (Sink []) ++ out /\
    CompressionState_ReadFrame (H:=stored_zlib) (mkCompressionState 3 2097152 (mkFramer 2099318)) (Reader (out ++ [x07]) io_EOF)
      = (Ok (str "hello"), Reader [x07] io_EOF).
Proof.
  apply (@compression_roundtrip stored_zlib stored_zlib_laws sink _ _ _ 3 0); [reflexivity|done|done|done].
Defined.

(** C36: received packets are bounded. Whatever the peer sends and whatever zlib
    inflates it to, a packet [CompressionState.ReadFrame] returns is nonempty. If
    it was sent compressed it has at least threshold and at most [maxPacketSize]
    bytes. If it was sent uncompressed it is below the threshold, and within the
    limit of the frame that carried it, which is [maxPacketSize] and what zlib may
    add to it: the packet limit itself is not checked on such packets. *)
Theorem decompression_bounded `{Zlib} t m c r payload r' :
  NewCompressionState t m = Ok c ->
  CompressionState_ReadFrame c r = (Ok payload, r') ->
  exists wire dataLength used, ReadFrame (wireFramer c) r = (Ok wire, r') /\
    ConsumeVarInt wire = Ok (dataLength, used) /\ payload <> [] /\
    ((dataLength = 0 /\ blen payload < threshold c /\ blen payload <= cs_maxPacketSize c + cs_maxPacketSize c / 1000 + 69 /\
      payload = drop (Z.to_nat used) wire) \/
     (dataLength = blen payload /\ threshold c <= blen payload <= cs_maxPacketSize c /\
      inflate (drop (Z.to_nat used) wire) = Ok (payload, None))).
Proof.
  intros Hc. apply NewCompressionState_Ok in Hc as (Ht & Hp & Hw).
  unfold CompressionState_ReadFrame. destruct (ReadFrame (wireFramer c) r) as [[wire|] r1] eqn:Er; [|done].
  destruct (ConsumeVarInt wire) as [[dataLength used]|] eqn:Ec; [|done].
  destruct (Z.ltb_spec dataLength 0); [done|]. destruct (Z.eqb_spec dataLength 0) as [->|Hne].
  - apply ReadFrame_Ok in Er as (Hb & _).
    assert (blen (drop (Z.to_nat used) wire) <= blen wire) by (unfold blen; rewrite length_drop; lia).
    case_match eqn:E; [done|]. intros; simplify_eq. bool_facts.
    exists wire, 0, used. split_and!; [done|done| |left; split_and!; [done|lia|lia|done]].
    intros E. by rewrite E, blen_nil in *.
  - case_match eqn:E1; [done|]. case_match eqn:E2; [done|].
    destruct (inflate _) as [[out [err|]]|] eqn:Ei; try done.
    { case_match; [done|]. by rewrite orb_true_r. }
    case_match eqn:E3; [done|]. case_match eqn:E4; [done|]. intros; simplify_eq. bool_facts.
    assert (Hl : blen out = dataLength) by lia.
    assert (Ht' : take (Z.to_nat dataLength) out = out)
      by (apply take_ge; unfold blen in *; lia).
    rewrite Ht'. exists wire, dataLength, used. split_and!; [done|done| |].
    + intros ->. rewrite blen_nil in Hl. lia.
    + right. rewrite Hl. split_and!; [done|lia|lia|done].
Qed.

Lemma decompression_bounded_witness :
  exists wire dataLength used,
    ReadFrame (mkFramer 2099318) (Reader [x03; x00; x2a; x2b] io_EOF) = (Ok wire, Reader [] io_EOF) /\
    ConsumeVarInt wire = Ok (dataLength, used) /\ [x2a; x2b] <> [] /\
    ((dataLength = 0 /\ blen [x2a; x2b] < 3 /\ blen [x2a; x2b] <= 2097152 + 2097152 / 1000 + 69 /\ [x2a; x2b] = drop (Z.to_nat used) wire) \/
     (dataLength = blen [x2a; x2b] /\ 3 <= blen [x2a; x2b] <= 2097152 /\
      @inflate stored_zlib (drop (Z.to_nat used) wire) = Ok ([x2a; x2b], None))).
Proof.
  apply (@decompression_bounded stored_zlib 3 0 (mkCompressionState 3 2097152 (mkFramer 2099318)));
    reflexivity.
Defined.

(** An uncompressed packet may exceed the packet limit when the threshold does. *)
Lemma uncompressed_over_limit `{Zlib} :
  exists c, NewCompressionState 1000 10 = Ok c /\
    CompressionState_ReadFrame c (Reader (x33 :: x00 :: replicate 50 x2a) io_EOF) = (Ok (replicate 50 x2a), Reader [] io_EOF).
Proof. eexists. split; reflexivity. Qed.
