(* ===== verification/Wire.v ===== *)
(** * The wire grammar of packets

    Packet bodies are concatenations of VarInts, strings and fixed-width
    fields. [enc_varint l v] and [enc_string m l s] say that the bytes [l] are
    an accepted (not necessarily shortest) encoding of a VarInt and of a string
    of at most [m] characters. The parsers of the protocol packages are proved
    to accept exactly a grammar written with them; the lemmas here turn each
    parsing step into a statement about a prefix of the input and back. *)

From S2P Require Import Prelude GoIO Varint Utf8 McString Frame.

Definition enc_varint (l : list byte) (v : Z) : Prop :=
  varint_encoding l = true /\ v = int32 (varint_groups l).

Definition enc_string (maxChars : Z) (l : list byte) (s : gostring) : Prop :=
  exists p, l = p ++ s /\ varint_encoding p = true /\ varint_groups p = blen s /\
    string_fits maxChars s = true.

(** A packet identifier followed by a body. *)
Definition enc_packet (id : Z) (payload body : list byte) : Prop :=
  exists l, payload = l ++ body /\ enc_varint l id.

(** ** The encoders produce these encodings *)

Lemma enc_varint_varint v : in_int32 v -> enc_varint (varint v) v.
Proof.
  intros Hv. destruct (varint_is_encoding v) as [He Hg]. split; [done|].
  by rewrite Hg, int32_uint32, int32_small.
Qed.

Lemma enc_varint_int32 v : enc_varint (varint v) (int32 v).
Proof. destruct (varint_is_encoding v) as [He Hg]. split; [done|]. by rewrite Hg, int32_uint32. Qed.

Lemma enc_string_mcstring m s : string_fits m s = true -> enc_string m (mcstring s) s.
Proof.
  intros Hs. exists (varint (int32 (blen s))). split; [done|].
  destruct (varint_is_encoding (int32 (blen s))) as [He Hg].
  split_and!; [done| |done]. rewrite Hg, uint32_int32. apply uint32_small.
  unfold string_fits in Hs. bool_facts. pose proof (blen_nonneg s). unfold in_uint32. lia.
Qed.

Lemma enc_packet_varint id body : in_int32 id -> enc_packet id (varint id ++ body) body.
Proof. intros. eexists. split; [done|]. by apply enc_varint_varint. Qed.

Lemma enc_varint_range l v : enc_varint l v -> in_int32 v.
Proof. intros [_ ->]. apply int32_range. Qed.

Lemma enc_varint_len l v : enc_varint l v -> 1 <= blen l <= 5.
Proof. intros [He _]. by apply varint_encoding_length. Qed.

Lemma enc_string_fits m l s : enc_string m l s -> string_fits m s = true.
Proof. by intros (p & _ & _ & _ & Hs). Qed.

Lemma enc_string_len m l s : enc_string m l s -> 1 + blen s <= blen l <= 5 + blen s.
Proof.
  intros (p & -> & He & _). apply varint_encoding_length in He. len.
Qed.

(** ** The decoders accept exactly them *)

Lemma ConsumeVarInt_enc l v rest : enc_varint l v -> ConsumeVarInt (l ++ rest) = Ok (v, blen l).
Proof. intros [He ->]. by apply ConsumeVarInt_complete. Qed.

Lemma ConsumeVarInt_enc_nil l v : enc_varint l v -> ConsumeVarInt l = Ok (v, blen l).
Proof. intros He. rewrite <-(app_nil_r l) at 1. by apply ConsumeVarInt_enc. Qed.

Lemma ConsumeVarInt_inv data v n :
  ConsumeVarInt data = Ok (v, n) -> exists l rest, data = l ++ rest /\ enc_varint l v /\ n = blen l.
Proof.
  intros H. apply ConsumeVarInt_sound in H as (l & rest & -> & He & -> & ->). by exists l, rest.
Qed.

Lemma ConsumeString_enc m l s rest : enc_string m l s -> ConsumeString (l ++ rest) m = Ok (s, blen l).
Proof.
  intros (p & -> & He & Hg & Hs). rewrite <-app_assoc, ConsumeString_app by done. by len.
Qed.

Lemma ConsumeString_inv m data s n :
  ConsumeString data m = Ok (s, n) -> exists l rest, data = l ++ rest /\ enc_string m l s /\ n = blen l.
Proof.
  intros H. apply ConsumeString_Ok in H as (p & rest & -> & He & Hg & Hs & ->).
  exists (p ++ s), rest. rewrite <-app_assoc. split_and!; [done|by exists p|by len].
Qed.

Lemma PacketID_enc id payload body : enc_packet id payload body -> PacketID payload = Ok (id, body).
Proof.
  intros (l & -> & He). unfold PacketID. rewrite (ConsumeVarInt_enc l id) by done.
  by rewrite drop_app_blen.
Qed.

Lemma PacketID_inv payload id body : PacketID payload = Ok (id, body) -> enc_packet id payload body.
Proof. intros H. apply PacketID_Ok in H as (l & -> & He & ->). by exists l. Qed.

(** An encoding fixes its value and, being prefix-free, its extent. *)
Lemma enc_varint_prefix l l' v v' r r' :
  enc_varint l v -> enc_varint l' v' -> l ++ r = l' ++ r' -> l = l' /\ v = v' /\ r = r'.
Proof.
  intros He He' E. pose proof (ConsumeVarInt_enc l v r He) as H1.
  pose proof (ConsumeVarInt_enc l' v' r' He') as H2. rewrite E, H2 in H1. injection H1 as -> Hl.
  unfold blen in Hl. apply app_inj_1 in E as [-> ->]; [done|lia].
Qed.

Lemma enc_packet_inj id id' payload body body' :
  enc_packet id payload body -> enc_packet id' payload body' -> id = id' /\ body = body'.
Proof.
  intros (l & -> & He) (l' & E & He').
  by destruct (enc_varint_prefix _ _ _ _ _ _ He He' E) as (_ & -> & ->).
Qed.

Lemma blen_list {A} (l : list A) (n : nat) : blen l = Z.of_nat n <-> length l = n.
Proof. unfold blen. lia. Qed.

(** ** Automation *)

(** Read encoders as concatenations of field encodings. *)
Ltac wire_norm :=
  rewrite ?AppendString_app, ?AppendVarInt_app; cbn [app];
  rewrite <-?app_assoc; cbn [app].

(** Decide the tests of a parser whose truth follows by linear arithmetic. *)
Ltac wire_tests :=
  repeat match goal with
  | |- context [?a =? ?a] => rewrite (Z.eqb_refl a)
  | |- context [?a <? ?b] =>
      first [rewrite (proj2 (Z.ltb_ge a b)) by lia | rewrite (proj2 (Z.ltb_lt a b)) by lia]
  | |- context [?a <=? ?b] =>
      first [rewrite (proj2 (Z.leb_gt a b)) by lia | rewrite (proj2 (Z.leb_le a b)) by lia]
  | |- context [?a =? ?b] =>
      first [rewrite (proj2 (Z.eqb_eq a b)) by lia | rewrite (proj2 (Z.eqb_neq a b)) by lia]
  end; cbn [negb orb andb].

(** Turn every successful decoding step in the context into its grammar. *)
Ltac wire_inv :=
  repeat match goal with
  | H : PacketID _ = Ok _ |- _ => apply PacketID_inv in H
  | H : ConsumeVarInt _ = Ok (_, _) |- _ =>
      let l := fresh "l" in let r := fresh "r" in let E := fresh "Hd" in let He := fresh "He" in
      apply ConsumeVarInt_inv in H as (l & r & E & He & ->); try (subst; rewrite drop_app_blen in * by done)
  | H : ConsumeString _ _ = Ok (_, _) |- _ =>
      let l := fresh "l" in let r := fresh "r" in let E := fresh "Hd" in let He := fresh "He" in
      apply ConsumeString_inv in H as (l & r & E & He & ->); try (subst; rewrite drop_app_blen in * by done)
  end.

#[export] Hint Resolve enc_varint_varint enc_string_mcstring enc_packet_varint : gate.
