(* ===== verification/Crypto.v ===== *)
(** * The cryptographic primitives the program takes from Go's standard library

    [crypto/md5], [crypto/sha1], [crypto/sha256], [crypto/hmac] and the AES-128
    block function of [crypto/aes], as executable functions on bytes (RFC 1321,
    FIPS 180-4, RFC 2104, FIPS 197). The published test vectors are evaluated at
    the end of the file. Words are [Z] values below [2 ^ 32]. *)

From S2P Require Import Prelude.

(** ** 32-bit words *)

Definition add32 (a b : Z) : Z := uint32 (a + b).
Definition not32 (a : Z) : Z := Z.lxor a 0xffffffff.
Definition rotl32 (n a : Z) : Z := Z.lor (uint32 (Z.shiftl a n)) (Z.shiftr a (32 - n)).
Definition rotr32 (n a : Z) : Z := Z.lor (Z.shiftr a n) (uint32 (Z.shiftl a (32 - n))).

(** The bytes of a word, least significant first. *)
Definition le_bytes (n : nat) (z : Z) : list byte := rev (be_bytes n z).

(** A message in blocks of [n] elements ([length l / n] of them). *)
Fixpoint blocks_loop {A} (fuel : nat) (n : nat) (l : list A) : list (list A) :=
  match fuel with
  | O => []
  | S fuel' => match l with [] => [] | _ => take n l :: blocks_loop fuel' n (drop n l) end
  end.
Definition blocks {A} (n : nat) (l : list A) : list (list A) := blocks_loop (length l) n l.

(** Merkle-Damgard padding: 0x80, zeros up to 56 modulo 64, the bit length. *)
Definition md_pad (length_bytes : Z -> list byte) (msg : list byte) : list byte :=
  msg ++ [mkbyte 0x80] ++ replicate (Z.to_nat ((55 - blen msg) mod 64)) x00 ++ length_bytes (8 * blen msg).

(** ** MD5 *)

Definition md5_K : list Z :=
  [
   0xd76aa478; 0xe8c7b756; 0x242070db; 0xc1bdceee; 0xf57c0faf; 0x4787c62a; 0xa8304613; 0xfd469501;
   0x698098d8; 0x8b44f7af; 0xffff5bb1; 0x895cd7be; 0x6b901122; 0xfd987193; 0xa679438e; 0x49b40821;
   0xf61e2562; 0xc040b340; 0x265e5a51; 0xe9b6c7aa; 0xd62f105d; 0x02441453; 0xd8a1e681; 0xe7d3fbc8;
   0x21e1cde6; 0xc33707d6; 0xf4d50d87; 0x455a14ed; 0xa9e3e905; 0xfcefa3f8; 0x676f02d9; 0x8d2a4c8a;
   0xfffa3942; 0x8771f681; 0x6d9d6122; 0xfde5380c; 0xa4beea44; 0x4bdecfa9; 0xf6bb4b60; 0xbebfbc70;
   0x289b7ec6; 0xeaa127fa; 0xd4ef3085; 0x04881d05; 0xd9d4d039; 0xe6db99e5; 0x1fa27cf8; 0xc4ac5665;
   0xf4292244; 0x432aff97; 0xab9423a7; 0xfc93a039; 0x655b59c3; 0x8f0ccc92; 0xffeff47d; 0x85845dd1;
   0x6fa87e4f; 0xfe2ce6e0; 0xa3014314; 0x4e0811a1; 0xf7537e82; 0xbd3af235; 0x2ad7d2bb; 0xeb86d391].

Definition md5_S : list Z :=
  concat (replicate 4 [7; 12; 17; 22]) ++ concat (replicate 4 [5; 9; 14; 20]) ++
  concat (replicate 4 [4; 11; 16; 23]) ++ concat (replicate 4 [6; 10; 15; 21]).

(** Step [i]: the mixing function and the message word it uses. *)
Definition md5_step (m : list Z) (st : Z * Z * Z * Z) (step : nat * (Z * Z)) : Z * Z * Z * Z :=
  let '(a, b, c, d) := st in
  let '(i, (k, s)) := step in
  let '(f, g) :=
    if (i <? 16)%nat then (Z.lor (Z.land b c) (Z.land (not32 b) d), i)
    else if (i <? 32)%nat then (Z.lor (Z.land d b) (Z.land (not32 d) c), (5 * i + 1) mod 16)%nat
    else if (i <? 48)%nat then (Z.lxor b (Z.lxor c d), (3 * i + 5) mod 16)%nat
    else (Z.lxor c (Z.lor b (not32 d)), (7 * i) mod 16)%nat in
  let f' := add32 (add32 f a) (add32 k (default 0 (m !! g))) in
  (d, add32 b (rotl32 s f'), b, c).

Definition md5_block (st : Z * Z * Z * Z) (block : list byte) : Z * Z * Z * Z :=
  let m := (fun w => be_val (rev w)) <$> blocks 4 block in
  let '(a, b, c, d) := st in
  let '(a', b', c', d') := foldl (md5_step m) st (zip (seq 0 64) (zip md5_K md5_S)) in
  (add32 a a', add32 b b', add32 c c', add32 d d').

Definition md5_Sum (msg : list byte) : list byte :=
  let '(a, b, c, d) := foldl md5_block (0x67452301, 0xefcdab89, 0x98badcfe, 0x10325476)
                             (blocks 64 (md_pad (le_bytes 8) msg)) in
  le_bytes 4 a ++ le_bytes 4 b ++ le_bytes 4 c ++ le_bytes 4 d.

(** ** SHA-1 *)

(** The message schedule, extended by [n] words; [w] is most recent first. *)
Fixpoint sha1_schedule (n : nat) (w : list Z) : list Z :=
  match n with
  | O => w
  | S n' =>
    let at_ i := default 0 (w !! i) in
    sha1_schedule n' (rotl32 1 (Z.lxor (Z.lxor (at_ 2%nat) (at_ 7%nat)) (Z.lxor (at_ 13%nat) (at_ 15%nat))) :: w)
  end.

Definition sha1_step (st : Z * Z * Z * Z * Z) (step : nat * Z) : Z * Z * Z * Z * Z :=
  let '(a, b, c, d, e) := st in
  let '(i, w) := step in
  let '(f, k) :=
    if (i <? 20)%nat then (Z.lor (Z.land b c) (Z.land (not32 b) d), 0x5a827999)
    else if (i <? 40)%nat then (Z.lxor b (Z.lxor c d), 0x6ed9eba1)
    else if (i <? 60)%nat then (Z.lor (Z.land b c) (Z.lor (Z.land b d) (Z.land c d)), 0x8f1bbcdc)
    else (Z.lxor b (Z.lxor c d), 0xca62c1d6) in
  (add32 (add32 (rotl32 5 a) f) (add32 e (add32 k w)), a, rotl32 30 b, c, d).

Definition sha1_block (st : Z * Z * Z * Z * Z) (block : list byte) : Z * Z * Z * Z * Z :=
  let w := rev (sha1_schedule 64 (rev (be_val <$> blocks 4 block))) in
  let '(a, b, c, d, e) := st in
  let '(a', b', c', d', e') := foldl sha1_step st (zip (seq 0 80) w) in
  (add32 a a', add32 b b', add32 c c', add32 d d', add32 e e').

Definition sha1_Sum (msg : list byte) : list byte :=
  let '(a, b, c, d, e) := foldl sha1_block (0x67452301, 0xefcdab89, 0x98badcfe, 0x10325476, 0xc3d2e1f0)
                                (blocks 64 (md_pad (be_bytes 8) msg)) in
  be_bytes 4 a ++ be_bytes 4 b ++ be_bytes 4 c ++ be_bytes 4 d ++ be_bytes 4 e.

(** ** SHA-256 and HMAC *)

(** FIPS 180-4 takes its constants from the first primes: the leading 32 bits of
    the fractional parts of their cube roots and square roots. *)
Definition is_prime (n : nat) : bool := forallb (fun d => negb (n mod d =? 0)%nat) (seq 2 (n - 2)).
Definition sha256_primes : list Z :=
  Eval vm_compute in Z.of_nat <$> List.filter is_prime (seq 2 310).

(** The integer cube root below [2 ^ bits]. *)
Fixpoint icbrt (bits : nat) (r n : Z) : Z :=
  match bits with
  | O => r
  | S b => let r' := r + 2 ^ Z.of_nat b in icbrt b (if r' ^ 3 <=? n then r' else r) n
  end.

Definition sha256_K : list Z :=
  Eval vm_compute in (fun p => uint32 (icbrt 36 0 (p * 2 ^ 96))) <$> sha256_primes.

Definition sha256_H : list Z :=
  Eval vm_compute in (fun p => uint32 (Z.sqrt (p * 2 ^ 64))) <$> take 8 sha256_primes.

Fixpoint sha256_schedule (n : nat) (w : list Z) : list Z :=
  match n with
  | O => w
  | S n' =>
    let at_ i := default 0 (w !! i) in
    let s0 := let x := at_ 14%nat in Z.lxor (rotr32 7 x) (Z.lxor (rotr32 18 x) (Z.shiftr x 3)) in
    let s1 := let x := at_ 1%nat in Z.lxor (rotr32 17 x) (Z.lxor (rotr32 19 x) (Z.shiftr x 10)) in
    sha256_schedule n' (add32 (add32 (at_ 15%nat) s0) (add32 (at_ 6%nat) s1) :: w)
  end.

Definition sha256_step (st : list Z) (kw : Z * Z) : list Z :=
  match st with
  | [a; b; c; d; e; f; g; h] =>
    let s1 := Z.lxor (rotr32 6 e) (Z.lxor (rotr32 11 e) (rotr32 25 e)) in
    let ch := Z.lxor (Z.land e f) (Z.land (not32 e) g) in
    let t1 := add32 (add32 h s1) (add32 ch (add32 (fst kw) (snd kw))) in
    let s0 := Z.lxor (rotr32 2 a) (Z.lxor (rotr32 13 a) (rotr32 22 a)) in
    let maj := Z.lxor (Z.land a b) (Z.lxor (Z.land a c) (Z.land b c)) in
    [add32 t1 (add32 s0 maj); a; b; c; add32 d t1; e; f; g]
  | _ => st
  end.

Definition sha256_block (st : list Z) (block : list byte) : list Z :=
  let w := rev (sha256_schedule 48 (rev (be_val <$> blocks 4 block))) in
  zip_with add32 st (foldl sha256_step st (zip sha256_K w)).

Definition sha256_Sum (msg : list byte) : list byte :=
  concat (be_bytes 4 <$> foldl sha256_block sha256_H (blocks 64 (md_pad (be_bytes 8) msg))).

(** [hmac.New(sha256.New, key)], written to and summed once. *)
Definition hmac_sha256 (key msg : list byte) : list byte :=
  let key' := if (64 <? length key)%nat then sha256_Sum key else key in
  let k0 := key' ++ replicate (64 - length key') x00 in
  let pad (p : Z) := (fun b => mkbyte (Z.lxor (ubyte b) p)) <$> k0 in
  sha256_Sum (pad 0x5c ++ sha256_Sum (pad 0x36 ++ msg)).

(** ** AES-128 *)

Definition aes_sbox : list Z :=
  [
   0x63; 0x7c; 0x77; 0x7b; 0xf2; 0x6b; 0x6f; 0xc5; 0x30; 0x01; 0x67; 0x2b; 0xfe; 0xd7; 0xab; 0x76;
   0xca; 0x82; 0xc9; 0x7d; 0xfa; 0x59; 0x47; 0xf0; 0xad; 0xd4; 0xa2; 0xaf; 0x9c; 0xa4; 0x72; 0xc0;
   0xb7; 0xfd; 0x93; 0x26; 0x36; 0x3f; 0xf7; 0xcc; 0x34; 0xa5; 0xe5; 0xf1; 0x71; 0xd8; 0x31; 0x15;
   0x04; 0xc7; 0x23; 0xc3; 0x18; 0x96; 0x05; 0x9a; 0x07; 0x12; 0x80; 0xe2; 0xeb; 0x27; 0xb2; 0x75;
   0x09; 0x83; 0x2c; 0x1a; 0x1b; 0x6e; 0x5a; 0xa0; 0x52; 0x3b; 0xd6; 0xb3; 0x29; 0xe3; 0x2f; 0x84;
   0x53; 0xd1; 0x00; 0xed; 0x20; 0xfc; 0xb1; 0x5b; 0x6a; 0xcb; 0xbe; 0x39; 0x4a; 0x4c; 0x58; 0xcf;
   0xd0; 0xef; 0xaa; 0xfb; 0x43; 0x4d; 0x33; 0x85; 0x45; 0xf9; 0x02; 0x7f; 0x50; 0x3c; 0x9f; 0xa8;
   0x51; 0xa3; 0x40; 0x8f; 0x92; 0x9d; 0x38; 0xf5; 0xbc; 0xb6; 0xda; 0x21; 0x10; 0xff; 0xf3; 0xd2;
   0xcd; 0x0c; 0x13; 0xec; 0x5f; 0x97; 0x44; 0x17; 0xc4; 0xa7; 0x7e; 0x3d; 0x64; 0x5d; 0x19; 0x73;
   0x60; 0x81; 0x4f; 0xdc; 0x22; 0x2a; 0x90; 0x88; 0x46; 0xee; 0xb8; 0x14; 0xde; 0x5e; 0x0b; 0xdb;
   0xe0; 0x32; 0x3a; 0x0a; 0x49; 0x06; 0x24; 0x5c; 0xc2; 0xd3; 0xac; 0x62; 0x91; 0x95; 0xe4; 0x79;
   0xe7; 0xc8; 0x37; 0x6d; 0x8d; 0xd5; 0x4e; 0xa9; 0x6c; 0x56; 0xf4; 0xea; 0x65; 0x7a; 0xae; 0x08;
   0xba; 0x78; 0x25; 0x2e; 0x1c; 0xa6; 0xb4; 0xc6; 0xe8; 0xdd; 0x74; 0x1f; 0x4b; 0xbd; 0x8b; 0x8a;
   0x70; 0x3e; 0xb5; 0x66; 0x48; 0x03; 0xf6; 0x0e; 0x61; 0x35; 0x57; 0xb9; 0x86; 0xc1; 0x1d; 0x9e;
   0xe1; 0xf8; 0x98; 0x11; 0x69; 0xd9; 0x8e; 0x94; 0x9b; 0x1e; 0x87; 0xe9; 0xce; 0x55; 0x28; 0xdf;
   0x8c; 0xa1; 0x89; 0x0d; 0xbf; 0xe6; 0x42; 0x68; 0x41; 0x99; 0x2d; 0x0f; 0xb0; 0x54; 0xbb; 0x16].

Definition sub_byte (z : Z) : Z := default 0 (aes_sbox !! Z.to_nat z).

Definition xtime (z : Z) : Z :=
  if z <? 128 then Z.shiftl z 1 else Z.lxor (uint8 (Z.shiftl z 1)) 0x1b.

Definition xor_bytes (a b : list Z) : list Z := zip_with Z.lxor a b.

(** The next round key from the current one (four words of four bytes). *)
Definition aes_next_key (rcon : Z) (k : list (list Z)) : list (list Z) :=
  match k with
  | [w0; w1; w2; w3] =>
    let t := match sub_byte <$> w3 with
             | [b0; b1; b2; b3] => [Z.lxor b1 rcon; b2; b3; b0] | w => w end in
    let w0' := xor_bytes w0 t in
    let w1' := xor_bytes w1 w0' in
    let w2' := xor_bytes w2 w1' in
    [w0'; w1'; w2'; xor_bytes w3 w2']
  | _ => k
  end.

Fixpoint aes_keys (rcons : list Z) (k : list (list Z)) : list (list (list Z)) :=
  match rcons with
  | [] => []
  | rcon :: rcons' => let k' := aes_next_key rcon k in k' :: aes_keys rcons' k'
  end.

(** The state is four columns of four bytes. *)
Definition shift_rows (s : list (list Z)) : list (list Z) :=
  let at_ c r := default 0 ((default [] (s !! c)) !! r) in
  (fun c => (fun r => at_ ((c + r) mod 4)%nat r) <$> seq 0 4) <$> seq 0 4.

Definition mix_column (c : list Z) : list Z :=
  match c with
  | [a0; a1; a2; a3] =>
    let m x y z w := Z.lxor (xtime x) (Z.lxor (Z.lxor (xtime y) y) (Z.lxor z w)) in
    [m a0 a1 a2 a3; m a1 a2 a3 a0; m a2 a3 a0 a1; m a3 a0 a1 a2]
  | _ => c
  end.

Definition add_key (k s : list (list Z)) : list (list Z) := zip_with xor_bytes s k.

Fixpoint aes_rounds (keys : list (list (list Z))) (s : list (list Z)) : list (list Z) :=
  match keys with
  | [] => s
  | [k] => add_key k (shift_rows (map (map sub_byte) s))
  | k :: keys' =>
    aes_rounds keys' (add_key k (map mix_column (shift_rows (map (map sub_byte) s))))
  end.

(** [aes.NewCipher(key)] then [Encrypt] of one block. *)
Definition aes128_Encrypt (key block : list byte) : list byte :=
  let k := blocks 4 (ubyte <$> key) in
  let s := blocks 4 (ubyte <$> block) in
  mkbyte <$> concat (aes_rounds (aes_keys [0x01; 0x02; 0x04; 0x08; 0x10; 0x20; 0x40; 0x80; 0x1b; 0x36] k)
                                (add_key k s)).

(** ** Sizes *)

Lemma length_le_bytes n z : length (le_bytes n z) = n.
Proof. unfold le_bytes. by rewrite length_rev, length_be_bytes. Qed.

Lemma length_md5_Sum msg : length (md5_Sum msg) = 16%nat.
Proof.
  unfold md5_Sum. destruct (foldl _ _ _) as [[[a b] c] d].
  by rewrite !length_app, !length_le_bytes.
Qed.

Lemma length_sha1_Sum msg : length (sha1_Sum msg) = 20%nat.
Proof.
  unfold sha1_Sum. destruct (foldl _ _ _) as [[[[a b] c] d] e].
  by rewrite !length_app, !length_be_bytes.
Qed.

Lemma sha256_step_length st kw : length (sha256_step st kw) = length st.
Proof. unfold sha256_step. by repeat (case_match; try done). Qed.

Lemma sha256_block_length st block : length st = 8%nat -> length (sha256_block st block) = 8%nat.
Proof.
  intros Hst. unfold sha256_block. rewrite length_zip_with.
  assert (forall l st, length (foldl sha256_step st l) = length st) as ->; [|lia].
  intros l. induction l as [|kw l IH]; intros st'; [done|]. cbn. by rewrite IH, sha256_step_length.
Qed.

Lemma length_sha256_Sum msg : length (sha256_Sum msg) = 32%nat.
Proof.
  unfold sha256_Sum.
  assert (Hl : forall l st, length st = 8%nat -> length (foldl sha256_block st l) = 8%nat).
  { intros l. induction l as [|b l IH]; intros st Hst; [done|]. cbn. by apply IH, sha256_block_length. }
  specialize (Hl (blocks 64 (md_pad (be_bytes 8) msg)) sha256_H eq_refl).
  destruct (foldl _ _ _) as [|a [|b [|c [|d [|e [|f [|g [|h [|]]]]]]]]]; try discriminate Hl.
  cbn [fmap list_fmap concat]. by rewrite !length_app, !length_be_bytes.
Qed.

Lemma length_hmac_sha256 key msg : length (hmac_sha256 key msg) = 32%nat.
Proof. apply length_sha256_Sum. Qed.

#[global] Opaque md5_Sum sha1_Sum sha256_Sum hmac_sha256 aes128_Encrypt.

(** ** Published test vectors *)

Example md5_abc : be_val (md5_Sum (str "abc")) = 0x900150983cd24fb0d6963f7d28e17f72.
Proof. vm_compute. reflexivity. Qed.

Example sha1_abc : be_val (sha1_Sum (str "abc")) = 0xa9993e364706816aba3e25717850c26c9cd0d89d.
Proof. vm_compute. reflexivity. Qed.

Example sha256_abc :
  be_val (sha256_Sum (str "abc")) = 0xba7816bf8f01cfea414140de5dae2223b00361a396177a9cb410ff61f20015ad.
Proof. vm_compute. reflexivity. Qed.

(** RFC 4231, test case 2. *)
Example hmac_jefe :
  be_val (hmac_sha256 (str "Jefe") (str "what do ya want for nothing?")) =
  0x5bdcc146bf60754e6a042426089575c75a003f089d2739839dec58b964ec3843.
Proof. vm_compute. reflexivity. Qed.

(** FIPS 197, appendix C.1. *)
Example aes_fips197 :
  be_val (aes128_Encrypt (be_bytes 16 0x000102030405060708090a0b0c0d0e0f)
                         (be_bytes 16 0x00112233445566778899aabbccddeeff)) =
  0x69c4e0d86a7b0430d8cdb78070b4c55a.
Proof. vm_compute. reflexivity. Qed.
