(* ===== verification/Cipher.v ===== *)
(** * Stream encryption: AES-CFB8 (internal/protocol/codec/cipher.go)

    Both directions of a connection keep a 16-byte shift register that is fed
    with ciphertext. [cfb8] is written over any block function, as the source is
    over [cipher.Block]; [NewCipherState] fixes AES-128. *)

From S2P Require Import Prelude Crypto.

Definition BlockSize : Z := 16.

Section cfb8.
Context (block : list byte -> list byte).

(** The loop of [cfb8]: the bytes written to [dst] and the final register. *)
Fixpoint cfb8_loop (shift src : list byte) (encrypt : bool) : list byte * list byte :=
  match src with
  | [] => ([], shift)
  | value :: src' =>
    let encrypted := block shift in
    let result := mkbyte (Z.lxor (ubyte value) (ubyte (default x00 (encrypted !! 0%nat)))) in
    let feedback := if encrypt then result else value in
    let '(out, shift') := cfb8_loop (drop 1 shift ++ [feedback]) src' encrypt in
    (result :: out, shift')
  end.

(** [dst] and the register after the call; [None] is the panic. *)
Definition cfb8 (shift dst src : list byte) (encrypt : bool) : option (list byte * list byte) :=
  if blen dst <? blen src then None
  else let '(out, shift') := cfb8_loop shift src encrypt in
       Some (out ++ drop (length src) dst, shift').
End cfb8.

Record CipherState := mkCipher {
  block : list byte -> list byte;
  encryptIV : list byte;
  decryptIV : list byte
}.

(** [aes.NewCipher] accepts every 16-byte key. *)
Definition NewCipherState (key iv : list byte) : res CipherState :=
  if negb (blen key =? BlockSize) || negb (blen iv =? BlockSize) then Err ErrInvalidCipherParameters
  else Ok (mkCipher (aes128_Encrypt key) iv iv).

Definition Encrypt (c : CipherState) (dst src : list byte) : option (list byte * CipherState) :=
  match cfb8 (block c) (encryptIV c) dst src true with
  | Some (dst', iv) => Some (dst', mkCipher (block c) iv (decryptIV c))
  | None => None
  end.

Definition Decrypt (c : CipherState) (dst src : list byte) : option (list byte * CipherState) :=
  match cfb8 (block c) (decryptIV c) dst src false with
  | Some (dst', iv) => Some (dst', mkCipher (block c) (encryptIV c) iv)
  | None => None
  end.

(** ** Streams of calls *)

(** Encrypt chunks one after the other, each into a buffer of its own size
    ([make([]byte, len(data))] in the transport); in place for decryption. *)
Fixpoint Encrypt_all (c : CipherState) (chunks : list (list byte)) : option (list (list byte) * CipherState) :=
  match chunks with
  | [] => Some ([], c)
  | d :: chunks' =>
    match Encrypt c (replicate (length d) x00) d with
    | None => None
    | Some (o, c') =>
      match Encrypt_all c' chunks' with None => None | Some (os, c'') => Some (o :: os, c'') end
    end
  end.

Fixpoint Decrypt_all (c : CipherState) (chunks : list (list byte)) : option (list (list byte) * CipherState) :=
  match chunks with
  | [] => Some ([], c)
  | d :: chunks' =>
    match Decrypt c d d with
    | None => None
    | Some (o, c') =>
      match Decrypt_all c' chunks' with None => None | Some (os, c'') => Some (o :: os, c'') end
    end
  end.

(** The ciphertext and plaintext of a whole stream. *)
Definition encrypted (c : CipherState) (data : list byte) : list byte :=
  fst (cfb8_loop (block c) (encryptIV c) data true).
Definition decrypted (c : CipherState) (data : list byte) : list byte :=
  fst (cfb8_loop (block c) (decryptIV c) data false).

(** The state after a stream. *)
Definition after_encrypt (c : CipherState) (data : list byte) : CipherState :=
  mkCipher (block c) (snd (cfb8_loop (block c) (encryptIV c) data true)) (decryptIV c).
Definition after_decrypt (c : CipherState) (data : list byte) : CipherState :=
  mkCipher (block c) (encryptIV c) (snd (cfb8_loop (block c) (decryptIV c) data false)).

(** ** Lemmas *)

Lemma lxor_byte a b : mkbyte (Z.lxor (ubyte (mkbyte (Z.lxor (ubyte a) (ubyte b)))) (ubyte b)) = a.
Proof.
  assert (Hx : 0 <= Z.lxor (ubyte a) (ubyte b) < 2 ^ 8).
  { pose proof (ubyte_range a). pose proof (ubyte_range b).
    split; [apply Z.lxor_nonneg; lia|].
    destruct (decide (Z.lxor (ubyte a) (ubyte b) = 0)) as [->|Hn]; [done|].
    apply Z.log2_lt_cancel. rewrite Z.log2_pow2 by lia.
    assert (0 <= Z.lxor (ubyte a) (ubyte b)) by (apply Z.lxor_nonneg; lia).
    pose proof (Z.log2_lxor (ubyte a) (ubyte b) ltac:(lia) ltac:(lia)).
    assert (Z.log2 (ubyte a) < 8 /\ Z.log2 (ubyte b) < 8); [|lia].
    split; (destruct (decide (ubyte a = 0)) as [E|]; destruct (decide (ubyte b = 0)) as [E'|];
      rewrite ?E, ?E'; try done; apply Z.log2_lt_pow2; lia). }
  rewrite ubyte_mkbyte_small by (change 256 with (2 ^ 8); lia).
  rewrite Z.lxor_assoc, Z.lxor_nilpotent, Z.lxor_0_r. apply mkbyte_ubyte.
Qed.

Lemma cfb8_loop_length bl enc src : forall shift,
  length (fst (cfb8_loop bl shift src enc)) = length src.
Proof.
  induction src as [|v src IH]; intros shift; [done|]. cbn.
  match goal with |- context [cfb8_loop bl ?s src enc] => specialize (IH s); destruct (cfb8_loop bl s src enc) end.
  cbn in *. by f_equal.
Qed.

Lemma cfb8_loop_app bl enc s1 : forall shift s2,
  cfb8_loop bl shift (s1 ++ s2) enc =
  let '(o1, sh1) := cfb8_loop bl shift s1 enc in
  let '(o2, sh2) := cfb8_loop bl sh1 s2 enc in (o1 ++ o2, sh2).
Proof.
  induction s1 as [|v s1 IH]; intros shift s2; cbn.
  - by destruct (cfb8_loop bl shift s2 enc).
  - rewrite IH. match goal with |- context [cfb8_loop bl ?s s1 enc] => destruct (cfb8_loop bl s s1 enc) as [o1 sh1] end.
    by destruct (cfb8_loop bl sh1 s2 enc).
Qed.

(** Decrypting what was encrypted from the same register, and the registers
    stay equal. *)
Lemma cfb8_inverse bl src : forall shift,
  let '(o, sh) := cfb8_loop bl shift src true in cfb8_loop bl shift o false = (src, sh).
Proof.
  induction src as [|v src IH]; intros shift; [done|]. cbn.
  match goal with |- context [cfb8_loop bl ?s src true] =>
    specialize (IH s); destruct (cfb8_loop bl s src true) as [o sh] end.
  cbn. rewrite IH. by rewrite lxor_byte.
Qed.

Lemma Encrypt_eq c dst src :
  length dst = length src -> Encrypt c dst src = Some (encrypted c src, after_encrypt c src).
Proof.
  intros Hl. unfold Encrypt, cfb8, encrypted, after_encrypt.
  rewrite (proj2 (Z.ltb_ge _ _)) by (unfold blen; lia).
  destruct (cfb8_loop (block c) (encryptIV c) src true) as [o iv].
  rewrite drop_ge by lia. by rewrite app_nil_r.
Qed.

Lemma Decrypt_eq c src : Decrypt c src src = Some (decrypted c src, after_decrypt c src).
Proof.
  unfold Decrypt, cfb8, decrypted, after_decrypt.
  rewrite (proj2 (Z.ltb_ge _ _)) by (unfold blen; lia).
  destruct (cfb8_loop (block c) (decryptIV c) src false) as [o iv].
  rewrite drop_ge by lia. by rewrite app_nil_r.
Qed.

Lemma encrypted_app c a b : encrypted c (a ++ b) = encrypted c a ++ encrypted (after_encrypt c a) b.
Proof.
  unfold encrypted, after_encrypt. rewrite cfb8_loop_app. cbn.
  destruct (cfb8_loop _ _ a true) as [oa sa]. cbn. by destruct (cfb8_loop _ sa b true).
Qed.

Lemma decrypted_app c a b : decrypted c (a ++ b) = decrypted c a ++ decrypted (after_decrypt c a) b.
Proof.
  unfold decrypted, after_decrypt. rewrite cfb8_loop_app. cbn.
  destruct (cfb8_loop _ _ a false) as [oa sa]. cbn. by destruct (cfb8_loop _ sa b false).
Qed.

Lemma length_encrypted c d : length (encrypted c d) = length d.
Proof. apply cfb8_loop_length. Qed.
Lemma length_decrypted c d : length (decrypted c d) = length d.
Proof. apply cfb8_loop_length. Qed.

Lemma Encrypt_all_concat chunks : forall c, exists os c',
  Encrypt_all c chunks = Some (os, c') /\ concat os = encrypted c (concat chunks) /\
  length <$> os = length <$> chunks.
Proof.
  induction chunks as [|d chunks IH]; intros c; cbn; [by exists [], c|].
  rewrite Encrypt_eq by apply length_replicate.
  destruct (IH (after_encrypt c d)) as (os & c' & -> & Ho & Hl).
  eexists _, _. split; [done|]. cbn. by rewrite Ho, Hl, encrypted_app, length_encrypted.
Qed.

Lemma Decrypt_all_concat chunks : forall c, exists os c',
  Decrypt_all c chunks = Some (os, c') /\ concat os = decrypted c (concat chunks).
Proof.
  induction chunks as [|d chunks IH]; intros c; cbn; [by exists [], c|].
  rewrite Decrypt_eq. destruct (IH (after_decrypt c d)) as (os & c' & -> & Ho).
  eexists _, _. split; [done|]. cbn. by rewrite Ho, decrypted_app.
Qed.

Lemma decrypted_encrypted c d data :
  block c = block d -> encryptIV c = decryptIV d -> decrypted d (encrypted c data) = data.
Proof.
  intros Hb Hi. unfold decrypted, encrypted. rewrite Hb, Hi.
  pose proof (cfb8_inverse (block d) data (decryptIV d)) as E.
  by destruct (cfb8_loop (block d) (decryptIV d) data true) as [o sh]; cbn; rewrite E.
Qed.

(** ** Properties *)

(** encryption is transparent to the byte stream. Two endpoints that enable
    encryption with the same 16-byte key and IV agree in both directions: the
    sender may cut its stream into any write calls, each byte count is kept on
    the wire, and the receiver may read the ciphertext in any other pieces; no
    call panics and what is decrypted is exactly what was sent. A key or IV of
    another size is refused. *)
Theorem cipher_stream_roundtrip key iv sent received :
  match NewCipherState key iv with
  | Err e => e = ErrInvalidCipherParameters /\ ~ (length key = 16%nat /\ length iv = 16%nat)
  | Ok c =>
    length key = 16%nat /\ length iv = 16%nat /\
    exists wire c', Encrypt_all c sent = Some (wire, c') /\ length <$> wire = length <$> sent /\
      (concat received = concat wire ->
       exists got d', Decrypt_all c received = Some (got, d') /\ concat got = concat sent)
  end.
Proof.
  unfold NewCipherState, BlockSize, blen.
  destruct (Z.eqb_spec (Z.of_nat (length key)) 16); destruct (Z.eqb_spec (Z.of_nat (length iv)) 16); cbn [negb orb];
    try (split; [done|lia]).
  split_and!; [lia|lia|]. set (c := mkCipher _ _ _).
  destruct (Encrypt_all_concat sent c) as (wire & c' & -> & Hw & Hl).
  exists wire, c'. split_and!; [done|done|]. intros Hr.
  destruct (Decrypt_all_concat received c) as (got & d' & -> & Hg).
  exists got, d'. split; [done|]. rewrite Hg, Hr, Hw. by apply decrypted_encrypted.
Qed.
