(* ===== verification/Session.v ===== *)
(** * Session state machine and transfer barrier
    (internal/session/state.go, barrier.go, session.go)

    One [Session] per client connection. Every method of the source holds the
    session's mutex for its whole body, so a method is one atomic step: a
    function from the state before to its result and the state after.
    Interleavings of goroutines are sequences of such steps ([op], [run_op]).

    Floating-point fields are carried as their IEEE-754 bit patterns. *)

From S2P Require Import Prelude.

(** Bits of a float64 / float32; this package only copies them. *)
Abbreviation float64 := Z (only parsing).
Abbreviation float32 := Z (only parsing).

(** ** state.go *)

Inductive State : Type :=
| StateHandshake | StateLogin | StateConfiguration | StateLimboPlay | StateTransferBarrier
| StateBackendLogin | StateBackendConfiguration | StateBackendPlay | StateClosing.

#[global] Instance State_eq_dec : EqDecision State.
Proof. solve_decision. Defined.

(** The [iota] value. *)
Definition State_num (s : State) : Z :=
  match s with
  | StateHandshake => 0 | StateLogin => 1 | StateConfiguration => 2 | StateLimboPlay => 3
  | StateTransferBarrier => 4 | StateBackendLogin => 5 | StateBackendConfiguration => 6
  | StateBackendPlay => 7 | StateClosing => 8
  end.

Definition State_String (s : State) : string :=
  match s with
  | StateHandshake => "handshake" | StateLogin => "login" | StateConfiguration => "configuration"
  | StateLimboPlay => "limbo_play" | StateTransferBarrier => "transfer_barrier"
  | StateBackendLogin => "backend_login" | StateBackendConfiguration => "backend_configuration"
  | StateBackendPlay => "backend_play" | StateClosing => "closing"
  end.

Definition canTransition (from to : State) : bool :=
  if bool_decide (to = StateClosing) then bool_decide (from <> StateClosing)
  else
    match from with
    | StateHandshake => bool_decide (to = StateLogin)
    | StateLogin => bool_decide (to = StateConfiguration)
    | StateConfiguration => bool_decide (to = StateLimboPlay)
    | StateLimboPlay => bool_decide (to = StateTransferBarrier)
    | StateTransferBarrier => bool_decide (to = StateBackendLogin) || bool_decide (to = StateLimboPlay)
    | StateBackendLogin => bool_decide (to = StateBackendConfiguration) || bool_decide (to = StateLimboPlay)
    | StateBackendConfiguration => bool_decide (to = StateBackendPlay) || bool_decide (to = StateLimboPlay)
    | StateBackendPlay => bool_decide (to = StateTransferBarrier)
    | StateClosing => false
    end.

(** ** barrier.go *)

(** [BarrierPhase] is a [uint8]: [AdvanceBarrier] does arithmetic on it. *)
Abbreviation BarrierPhase := Z (only parsing).
Definition BarrierDraining : BarrierPhase := 0.
Definition BarrierBackendLogin : BarrierPhase := 1.
Definition BarrierBackendConfiguration : BarrierPhase := 2.
Definition BarrierAwaitingClientConfigurationStart : BarrierPhase := 3.
Definition BarrierClientConfiguration : BarrierPhase := 4.
Definition BarrierAwaitingClientConfigurationFinish : BarrierPhase := 5.
Definition BarrierReady : BarrierPhase := 6.

Inductive InputKind : Type := InputKeepAlive | InputMovement | InputPlayerCommand | InputUnsafe.

Inductive InputDisposition : Type := InputConsumed | InputCoalesced | InputQueued | InputDropped.

#[global] Instance InputKind_eq_dec : EqDecision InputKind.
Proof. solve_decision. Defined.
#[global] Instance InputDisposition_eq_dec : EqDecision InputDisposition.
Proof. solve_decision. Defined.

Record Position := mkPosition {
  pos_X : float64; pos_Y : float64; pos_Z : float64;
  pos_Yaw : float32; pos_Pitch : float32;
  pos_OnGround : bool
}.

Record PlayerCommand := mkPlayerCommand { EntityID : Z; ActionID : Z; Data : Z }.

#[global] Instance Position_eq_dec : EqDecision Position.
Proof. solve_decision. Defined.
#[global] Instance PlayerCommand_eq_dec : EqDecision PlayerCommand.
Proof. solve_decision. Defined.

Definition zero_position : Position := mkPosition 0 0 0 0 0 false.
Definition zero_command : PlayerCommand := mkPlayerCommand 0 0 0.

Record Input := mkInput {
  in_Kind : InputKind;
  in_KeepAliveID : Z;
  in_Position : Position;
  in_HasLook : bool;
  in_Command : PlayerCommand
}.

Record Replay := mkReplay { re_Position : option Position; re_Commands : list PlayerCommand }.

Record barrierState := mkBarrier {
  startedAt : Z;
  phase : BarrierPhase;
  limboKeepAlives : gset Z;
  latestPosition : Position;
  hasPosition : bool;
  commands : list PlayerCommand;
  maxCommands : Z
}.

Definition newBarrier (now : Z) (keepAliveIDs : list Z) (maxCommands : Z) : barrierState :=
  let maxCommands := if maxCommands <? 0 then 0 else maxCommands in
  {| startedAt := now; phase := BarrierDraining; limboKeepAlives := list_to_set keepAliveIDs;
     latestPosition := zero_position; hasPosition := false; commands := [];
     maxCommands := maxCommands |}.

(** Struct updates. *)
Definition set_phase (p : BarrierPhase) (b : barrierState) : barrierState :=
  mkBarrier (startedAt b) p (limboKeepAlives b) (latestPosition b) (hasPosition b) (commands b) (maxCommands b).
Definition set_keepAlives (k : gset Z) (b : barrierState) : barrierState :=
  mkBarrier (startedAt b) (phase b) k (latestPosition b) (hasPosition b) (commands b) (maxCommands b).
Definition set_position (p : Position) (b : barrierState) : barrierState :=
  mkBarrier (startedAt b) (phase b) (limboKeepAlives b) p true (commands b) (maxCommands b).
Definition set_commands (c : list PlayerCommand) (b : barrierState) : barrierState :=
  mkBarrier (startedAt b) (phase b) (limboKeepAlives b) (latestPosition b) (hasPosition b) c (maxCommands b).

Definition handle (b : barrierState) (input : Input) : (InputDisposition * option error) * barrierState :=
  match in_Kind input with
  | InputKeepAlive =>
    if bool_decide (in_KeepAliveID input ∈ limboKeepAlives b) then
      ((InputConsumed, None), set_keepAlives (limboKeepAlives b ∖ {[in_KeepAliveID input]}) b)
    else ((InputDropped, Some ErrUnexpectedKeepAlive), b)
  | InputMovement =>
    let position := in_Position input in
    let position :=
      if negb (in_HasLook input) && hasPosition b then
        mkPosition (pos_X position) (pos_Y position) (pos_Z position)
          (pos_Yaw (latestPosition b)) (pos_Pitch (latestPosition b)) (pos_OnGround position)
      else position in
    ((InputCoalesced, None), set_position position b)
  | InputPlayerCommand =>
    if maxCommands b <=? blen (commands b) then ((InputDropped, Some ErrCommandQueueExhausted), b)
    else ((InputQueued, None), set_commands (commands b ++ [in_Command input]) b)
  | InputUnsafe => ((InputDropped, None), b)
  end.

Definition replay (b : barrierState) : Replay :=
  mkReplay (if hasPosition b then Some (latestPosition b) else None) (commands b).

(** ** session.go *)

Record Session := mkSession { state : State; barrier : option barrierState }.

Definition New : Session := mkSession StateHandshake None.

Definition transitionLocked (s : Session) (to : State) : option error * Session :=
  if negb (canTransition (state s) to) then
    (Some (InvalidTransitionError (State_num (state s)) (State_num to)), s)
  else (None, mkSession to (if bool_decide (to = StateClosing) then None else barrier s)).

Definition Transition (s : Session) (to : State) : option error * Session := transitionLocked s to.

Definition BeginTransfer (s : Session) (now : Z) (limboKeepAliveIDs : list Z) (maxPendingCommands : Z)
    : option error * Session :=
  match transitionLocked s StateTransferBarrier with
  | (Some err, s') => (Some err, s')
  | (None, s') => (None, mkSession (state s') (Some (newBarrier now limboKeepAliveIDs maxPendingCommands)))
  end.

(** The guard every barrier method starts with:
    [s.state != StateTransferBarrier || s.barrier == nil]. *)
Definition active_barrier (s : Session) : option barrierState :=
  if bool_decide (state s = StateTransferBarrier) then barrier s else None.

Definition HandleBarrierInput (s : Session) (input : Input)
    : (InputDisposition * option error) * Session :=
  match active_barrier s with
  | None => ((InputDropped, Some ErrBarrierInactive), s)
  | Some b => let '(r, b') := handle b input in (r, mkSession (state s) (Some b'))
  end.

Definition Session_BarrierPhase (s : Session) : res BarrierPhase :=
  match active_barrier s with
  | None => Err ErrBarrierInactive
  | Some b => Ok (phase b)
  end.

Definition AdvanceBarrier (s : Session) (p : BarrierPhase) : option error * Session :=
  match active_barrier s with
  | None => (Some ErrBarrierInactive, s)
  | Some b =>
    if negb (p =? uint8 (phase b + 1)) then (Some ErrBarrierNotReady, s)
    else (None, mkSession (state s) (Some (set_phase p b)))
  end.

Definition ReleaseTransfer (s : Session) : res Replay * Session :=
  match active_barrier s with
  | None => (Err ErrBarrierInactive, s)
  | Some b =>
    if negb (phase b =? BarrierReady) then (Err ErrBarrierNotReady, s)
    else (Ok (replay b), mkSession StateBackendPlay None)
  end.

Definition RollbackTransfer (s : Session) : option error * Session :=
  match active_barrier s with
  | None => (Some ErrBarrierInactive, s)
  | Some _ => (None, mkSession StateLimboPlay None)
  end.

(** ** Sequences of operations *)

Inductive op : Type :=
| OpTransition (to : State)
| OpBegin (now : Z) (ids : list Z) (maxPending : Z)
| OpInput (i : Input)
| OpAdvance (p : BarrierPhase)
| OpRelease
| OpRollback.

(** Did the operation report success, and the state after it. *)
Definition run_op (s : Session) (o : op) : bool * Session :=
  match o with
  | OpTransition to => let '(e, s') := Transition s to in (bool_decide (e = None), s')
  | OpBegin now ids m => let '(e, s') := BeginTransfer s now ids m in (bool_decide (e = None), s')
  | OpInput i => let '((_, e), s') := HandleBarrierInput s i in (bool_decide (e = None), s')
  | OpAdvance p => let '(e, s') := AdvanceBarrier s p in (bool_decide (e = None), s')
  | OpRelease => let '(r, s') := ReleaseTransfer s in (is_ok r, s')
  | OpRollback => let '(e, s') := RollbackTransfer s in (bool_decide (e = None), s')
  end.

Definition run_ops (s : Session) (os : list op) : Session := foldl (fun s o => snd (run_op s o)) s os.

(** The operations that reported success, in order. *)
Fixpoint succeeded (s : Session) (os : list op) : list op :=
  match os with
  | [] => []
  | o :: os' => let '(ok, s') := run_op s o in (if ok then [o] else []) ++ succeeded s' os'
  end.

(** The operations as the gateway uses them: [Transition] never enters or
    leaves the barrier by hand; that is done by [BeginTransfer],
    [ReleaseTransfer] and [RollbackTransfer]. *)
Definition gateway_op (o : op) : bool :=
  match o with
  | OpTransition to =>
    bool_decide (to = StateLogin \/ to = StateConfiguration \/ to = StateClosing)
  | _ => true
  end.

(** Entering Limbo at the end of login is the one other transition used; it is
    taken from the Configuration state. *)
Definition gateway_step (s : Session) (o : op) : bool :=
  match o with
  | OpTransition StateLimboPlay => bool_decide (state s = StateConfiguration)
  | _ => gateway_op o
  end.

Inductive gateway_reachable : Session -> Prop :=
| gateway_init : gateway_reachable New
| gateway_next s o : gateway_reachable s -> gateway_step s o = true ->
    gateway_reachable (snd (run_op s o)).

(** ** Specification of the replay

    What the barrier promises to hand to the backend for a sequence of client
    inputs, stated without the barrier's state. *)

Definition movements (ins : list Input) : list Input := filter (fun i => in_Kind i = InputMovement) ins.

(** The look direction: that of the last movement that carries one, else the
    fields of the first movement. *)
Definition spec_look (ms : list Input) : option (float32 * float32) :=
  (fun m => (pos_Yaw (in_Position m), pos_Pitch (in_Position m))) <$>
  match last (filter (fun m => in_HasLook m = true) ms) with
  | Some m => Some m
  | None => head ms
  end.

(** Coordinates of the last movement with that look direction. *)
Definition spec_position (ins : list Input) : option Position :=
  match last (movements ins), spec_look (movements ins) with
  | Some m, Some (yaw, pitch) =>
    let p := in_Position m in
    Some (mkPosition (pos_X p) (pos_Y p) (pos_Z p) yaw pitch (pos_OnGround p))
  | _, _ => None
  end.

(** The first [maxPending] commands, in order. *)
Definition spec_commands (maxPending : Z) (ins : list Input) : list PlayerCommand :=
  take (Z.to_nat maxPending) (in_Command <$> filter (fun i => in_Kind i = InputPlayerCommand) ins).

Definition spec_replay (maxPending : Z) (ins : list Input) : Replay :=
  mkReplay (spec_position ins) (spec_commands maxPending ins).

(** The keep-alive ids answered. *)
Definition answered (ins : list Input) : list Z :=
  in_KeepAliveID <$> filter (fun i => in_Kind i = InputKeepAlive) ins.

Definition handle_all (b : barrierState) (ins : list Input) : barrierState :=
  foldl (fun b i => snd (handle b i)) b ins.

Definition op_inputs (os : list op) : list Input :=
  omap (fun o => match o with OpInput i => Some i | _ => None end) os.
Definition op_advances (os : list op) : list BarrierPhase :=
  omap (fun o => match o with OpAdvance p => Some p | _ => None end) os.

(** Operations available to the goroutines that share a session in the barrier. *)
Definition barrier_op (o : op) : bool :=
  match o with
  | OpInput _ | OpRelease | OpRollback => true
  | OpAdvance p => (0 <=? p) && (p <=? BarrierReady)
  | OpTransition _ | OpBegin _ _ _ => false
  end.

(** ** Lemmas: the barrier *)

Lemma handle_all_snoc b ins i : handle_all b (ins ++ [i]) = snd (handle (handle_all b ins) i).
Proof. unfold handle_all. by rewrite foldl_app. Qed.

Lemma handle_set_phase p b i : snd (handle (set_phase p b) i) = set_phase p (snd (handle b i)).
Proof.
  unfold handle. destruct (in_Kind i); cbn -[bool_decide]; try done;
    [case_bool_decide|destruct (_ <=? _)]; done.
Qed.

Lemma replay_set_phase p b : replay (set_phase p b) = replay b.
Proof. done. Qed.

Lemma handle_maxCommands b i : maxCommands (snd (handle b i)) = maxCommands b.
Proof.
  unfold handle. destruct (in_Kind i); cbn -[bool_decide]; try done;
    [case_bool_decide|destruct (_ <=? _)]; done.
Qed.

Lemma handle_all_maxCommands b ins : maxCommands (handle_all b ins) = maxCommands b.
Proof.
  induction ins as [|i ins IH] using rev_ind; [done|].
  by rewrite handle_all_snoc, handle_maxCommands.
Qed.

(** The command queue: the first [maxCommands] commands. *)
Lemma handle_all_commands now ids m ins :
  commands (handle_all (newBarrier now ids m) ins) = spec_commands m ins.
Proof.
  induction ins as [|i ins IH] using rev_ind.
  { unfold spec_commands. by rewrite filter_nil, fmap_nil, take_nil. }
  rewrite handle_all_snoc. unfold spec_commands in *. rewrite filter_snoc, fmap_app.
  pose proof (handle_all_maxCommands (newBarrier now ids m) ins) as Hmax.
  set (b := handle_all (newBarrier now ids m) ins) in *.
  set (cs := in_Command <$> filter _ ins) in *.
  unfold handle. destruct (in_Kind i) eqn:Ek; rewrite ?decide_False by done;
    cbn [fmap list_fmap]; rewrite ?app_nil_r; [by case_bool_decide|done| |done].
  rewrite decide_True by done. rewrite Hmax, IH. clear Hmax. cbn [newBarrier maxCommands].
  destruct (Z.ltb_spec m 0) as [Hm|Hm].
  { rewrite (proj2 (Z.leb_le 0 _)) by apply blen_nonneg. cbn [snd]. rewrite IH.
    by replace (Z.to_nat m) with 0%nat by lia. }
  destruct (Z.leb_spec m (blen (take (Z.to_nat m) cs))) as [Hl|Hl]; cbn [snd commands set_commands].
  - rewrite IH. rewrite take_app_le; [done|]. unfold blen in Hl. rewrite length_take in Hl. lia.
  - unfold blen in Hl. rewrite length_take in Hl. rewrite take_ge by lia.
    rewrite take_ge; [done|]. rewrite length_app. simpl. lia.
Qed.

Lemma spec_look_None ms : spec_look ms = None <-> ms = [].
Proof.
  unfold spec_look. split; [|by intros ->].
  destruct (last (filter _ ms)) eqn:El; [done|]. by destruct ms.
Qed.

Lemma spec_look_snoc ms m :
  spec_look (ms ++ [m]) =
  if negb (in_HasLook m) && bool_decide (ms <> []) then spec_look ms
  else Some (pos_Yaw (in_Position m), pos_Pitch (in_Position m)).
Proof.
  unfold spec_look. rewrite filter_snoc. destruct (in_HasLook m) eqn:Em; cbn [negb andb].
  - by rewrite decide_True, last_snoc.
  - rewrite decide_False, app_nil_r by done. destruct ms as [|m0 ms]; [done|].
    by rewrite bool_decide_true.
Qed.

Lemma spec_position_movement ins i :
  in_Kind i = InputMovement ->
  spec_position (ins ++ [i]) =
  Some (match spec_look (movements ins ++ [i]) with
        | Some (yaw, pitch) => mkPosition (pos_X (in_Position i)) (pos_Y (in_Position i))
            (pos_Z (in_Position i)) yaw pitch (pos_OnGround (in_Position i))
        | None => in_Position i
        end).
Proof.
  intros Ek. unfold spec_position, movements. rewrite filter_snoc, decide_True, last_snoc by done.
  destruct (spec_look _) as [[yaw pitch]|] eqn:El; [done|].
  apply spec_look_None in El. by destruct (filter _ ins).
Qed.

Lemma spec_position_other ins i :
  in_Kind i <> InputMovement -> spec_position (ins ++ [i]) = spec_position ins.
Proof.
  intros Ek. unfold spec_position, movements. by rewrite filter_snoc, decide_False, app_nil_r.
Qed.

Lemma spec_position_None ins : spec_position ins = None <-> movements ins = [].
Proof.
  unfold spec_position. split; [|by intros ->].
  destruct (last (movements ins)) eqn:El; [|by rewrite last_None in El].
  destruct (spec_look (movements ins)) as [[? ?]|] eqn:E; [done|]. by rewrite spec_look_None in E.
Qed.

(** The coalesced position. *)
Lemma handle_all_position now ids m ins :
  let b := handle_all (newBarrier now ids m) ins in
  (if hasPosition b then Some (latestPosition b) else None) = spec_position ins.
Proof.
  cbn zeta. induction ins as [|i ins IH] using rev_ind; [done|].
  rewrite handle_all_snoc. set (b := handle_all (newBarrier now ids m) ins) in *.
  destruct (decide (in_Kind i = InputMovement)) as [Ek|Ek].
  2: { rewrite spec_position_other, <-IH by done. unfold handle.
       destruct (in_Kind i); try done; [by case_bool_decide|by destruct (_ <=? _)]. }
  rewrite spec_position_movement, spec_look_snoc by done. unfold handle. rewrite Ek.
  cbn [snd set_position hasPosition latestPosition]. f_equal.
  assert (Hp : hasPosition b = bool_decide (movements ins <> [])).
  { symmetry. destruct (hasPosition b); [apply bool_decide_eq_true_2|apply bool_decide_eq_false_2];
      rewrite <-spec_position_None, <-IH; naive_solver. }
  rewrite <-Hp. destruct (in_HasLook i); cbn [negb andb]; [by destruct (in_Position i)|].
  destruct (hasPosition b) eqn:Eh; [|by destruct (in_Position i)].
  assert (Hl : spec_look (movements ins) = Some (pos_Yaw (latestPosition b), pos_Pitch (latestPosition b))).
  { unfold spec_position in IH. destruct (last (movements ins)); [|done].
    destruct (spec_look (movements ins)) as [[yaw pitch]|]; [|done].
    injection IH as ->. done. }
  by rewrite Hl.
Qed.

Lemma handle_all_replay now ids m ins :
  replay (handle_all (newBarrier now ids m) ins) = spec_replay m ins.
Proof.
  unfold replay, spec_replay. f_equal; [apply handle_all_position|apply handle_all_commands].
Qed.

Lemma handle_all_keepAlives now ids m ins :
  limboKeepAlives (handle_all (newBarrier now ids m) ins)
  = list_to_set ids ∖ list_to_set (answered ins).
Proof.
  induction ins as [|i ins IH] using rev_ind.
  { unfold answered. rewrite filter_nil. cbn. set_solver. }
  rewrite handle_all_snoc. unfold answered in *. rewrite filter_snoc, fmap_app, list_to_set_app_L.
  set (b := handle_all (newBarrier now ids m) ins) in *. unfold handle.
  destruct (in_Kind i) eqn:Ek; rewrite ?decide_False by done; cbn [fmap list_fmap list_to_set].
  2-4: rewrite union_empty_r_L; try (by destruct (_ <=? _)); done.
  rewrite decide_True by done. cbn [fmap list_fmap list_to_set]. rewrite union_empty_r_L.
  case_bool_decide; cbn [snd limboKeepAlives set_keepAlives]; rewrite IH in *; set_solver.
Qed.

(** ** Lemmas: operations *)

Lemma active_barrier_Some s b :
  active_barrier s = Some b <-> state s = StateTransferBarrier /\ barrier s = Some b.
Proof. unfold active_barrier. case_bool_decide; naive_solver. Qed.

Lemma canTransition_barrier from :
  canTransition from StateTransferBarrier =
  match from with StateLimboPlay | StateBackendPlay => true | _ => false end.
Proof. by destruct from. Qed.

Lemma BeginTransfer_None s now ids m s' :
  BeginTransfer s now ids m = (None, s') ->
  (state s = StateLimboPlay \/ state s = StateBackendPlay) /\
  s' = mkSession StateTransferBarrier (Some (newBarrier now ids m)).
Proof.
  unfold BeginTransfer, transitionLocked. rewrite canTransition_barrier.
  destruct (state s); cbn -[newBarrier]; intros; simplify_eq; split; auto.
Qed.

(** The methods on an active barrier. *)
Lemma active_barrier_barrier b : active_barrier (mkSession StateTransferBarrier b) = b.
Proof. done. Qed.

Lemma HandleBarrierInput_active b i :
  HandleBarrierInput (mkSession StateTransferBarrier (Some b)) i =
  (fst (handle b i), mkSession StateTransferBarrier (Some (snd (handle b i)))).
Proof. unfold HandleBarrierInput. rewrite active_barrier_barrier. by destruct (handle b i). Qed.

Lemma AdvanceBarrier_active b p :
  AdvanceBarrier (mkSession StateTransferBarrier (Some b)) p =
  if p =? uint8 (phase b + 1) then (None, mkSession StateTransferBarrier (Some (set_phase p b)))
  else (Some ErrBarrierNotReady, mkSession StateTransferBarrier (Some b)).
Proof. unfold AdvanceBarrier. rewrite active_barrier_barrier. by destruct (_ =? _). Qed.

Lemma ReleaseTransfer_active b :
  ReleaseTransfer (mkSession StateTransferBarrier (Some b)) =
  if phase b =? BarrierReady then (Ok (replay b), mkSession StateBackendPlay None)
  else (Err ErrBarrierNotReady, mkSession StateTransferBarrier (Some b)).
Proof. unfold ReleaseTransfer. rewrite active_barrier_barrier. by destruct (_ =? _). Qed.

Lemma RollbackTransfer_active b :
  RollbackTransfer (mkSession StateTransferBarrier (Some b)) = (None, mkSession StateLimboPlay None).
Proof. done. Qed.

Lemma run_ops_snoc s os o : run_ops s (os ++ [o]) = snd (run_op (run_ops s os) o).
Proof. unfold run_ops. by rewrite foldl_app. Qed.

Lemma succeeded_snoc os : forall s o,
  succeeded s (os ++ [o]) = succeeded s os ++ (if fst (run_op (run_ops s os) o) then [o] else []).
Proof.
  induction os as [|o1 os IH]; intros s o; cbn [app succeeded run_ops foldl].
  - destruct (run_op s o) as [[] s']; done.
  - destruct (run_op s o1) as [ok s'] eqn:E. rewrite IH. by rewrite app_assoc.
Qed.

(** What holds while the barrier set up by [BeginTransfer] is worked on: either
    it is still active in phase [k], the phases were advanced one by one, and
    its contents are those of the inputs; or it was released or rolled back. *)
Inductive barrier_run (b0 : barrierState) (s0 : Session) (os : list op) : Prop :=
| run_active k :
    0 <= k <= BarrierReady ->
    run_ops s0 os = mkSession StateTransferBarrier (Some (set_phase k (handle_all b0 (op_inputs os)))) ->
    op_advances (succeeded s0 os) = seqZ 1 k ->
    OpRelease ∉ succeeded s0 os -> OpRollback ∉ succeeded s0 os ->
    barrier_run b0 s0 os
| run_over :
    active_barrier (run_ops s0 os) = None ->
    OpRelease ∈ succeeded s0 os \/ OpRollback ∈ succeeded s0 os ->
    barrier_run b0 s0 os.

Lemma op_advances_app a b : op_advances (a ++ b) = op_advances a ++ op_advances b.
Proof. unfold op_advances. by rewrite omap_app. Qed.

Lemma op_inputs_snoc os o :
  op_inputs (os ++ [o]) = op_inputs os ++ (match o with OpInput i => [i] | _ => [] end).
Proof. unfold op_inputs. rewrite omap_app. by destruct o. Qed.

Lemma barrier_run_step b0 s0 os o :
  barrier_run b0 s0 os -> barrier_op o = true -> barrier_run b0 s0 (os ++ [o]).
Proof.
  intros [k Hk Hs Ha Hrel Hrol|Hin Hx] Ho.
  2: { apply run_over.
       - rewrite run_ops_snoc. destruct o; try done; cbn;
           unfold HandleBarrierInput, AdvanceBarrier, ReleaseTransfer, RollbackTransfer; by rewrite Hin.
       - rewrite succeeded_snoc. set_solver. }
  set (b := handle_all b0 (op_inputs os)) in *.
  pose proof (run_ops_snoc s0 os o) as Hr. pose proof (succeeded_snoc os s0 o) as Hsu.
  rewrite Hs in *. pose proof (op_inputs_snoc os o) as Hi. destruct o; try done; cbn [run_op fst snd] in Hr, Hsu.
  - (* input *)
    rewrite HandleBarrierInput_active in *. pose proof (handle_set_phase k b i) as Hp.
    destruct (handle (set_phase k b) i) as [[d e] b']. cbn in Hr, Hsu, Hp. subst b'.
    apply (run_active _ _ _ k); [done| |rewrite Hsu..].
    + by rewrite Hr, Hi, handle_all_snoc.
    + rewrite op_advances_app, Ha. case_bool_decide; cbn; by rewrite app_nil_r.
    + case_bool_decide; set_solver.
    + case_bool_decide; set_solver.
  - (* advance *)
    cbn in Ho. bool_facts. rewrite AdvanceBarrier_active in *. cbn in Hr, Hsu. rewrite app_nil_r in Hi.
    destruct (Z.eqb_spec p (uint8 (k + 1))) as [->|Hne]; cbn in Hr, Hsu.
    + unfold BarrierReady in *. assert (uint8 (k + 1) = k + 1) as E
        by (unfold uint8; apply Z.mod_small; lia). rewrite E in *.
      apply (run_active _ _ _ (k + 1)); [unfold BarrierReady; lia|by rewrite Hr, Hi|..].
      * rewrite Hsu, op_advances_app, Ha. cbn. rewrite (seqZ_app 1 k 1) by lia. f_equal. cbn.
        by rewrite Z.add_comm.
      * rewrite Hsu. set_solver.
      * rewrite Hsu. set_solver.
    + rewrite app_nil_r in Hsu. apply (run_active _ _ _ k); rewrite ?Hsu, ?Hi; done.
  - (* release *)
    rewrite ReleaseTransfer_active in *. cbn in Hr, Hsu. rewrite app_nil_r in Hi.
    destruct (Z.eqb_spec k BarrierReady); cbn in Hr, Hsu.
    + apply run_over; [by rewrite Hr|rewrite Hsu; set_solver].
    + rewrite app_nil_r in Hsu. apply (run_active _ _ _ k); rewrite ?Hsu, ?Hi; done.
  - (* rollback *)
    apply run_over; [by rewrite Hr|rewrite Hsu; set_solver].
Qed.

Lemma barrier_run_all b0 s0 os :
  s0 = mkSession StateTransferBarrier (Some b0) -> phase b0 = BarrierDraining ->
  forallb barrier_op os = true -> barrier_run b0 s0 os.
Proof.
  intros -> Hp. induction os as [|o os IH] using rev_ind.
  - intros _. apply (run_active _ _ _ 0); try done; try set_solver.
    cbn. destruct b0; cbn in *. by subst.
  - rewrite forallb_app. cbn. intros. bool_facts. by apply barrier_run_step; auto.
Qed.

(** ** The session invariant *)

Record session_inv (s : Session) : Prop := {
  inv_barrier : is_Some (barrier s) <-> state s = StateTransferBarrier;
  inv_commands : forall b, barrier s = Some b -> blen (commands b) <= maxCommands b;
  inv_phase : forall b, barrier s = Some b -> 0 <= phase b < 256;
  inv_unused : state s <> StateBackendLogin /\ state s <> StateBackendConfiguration
}.

Lemma handle_commands b i :
  blen (commands b) <= maxCommands b -> blen (commands (snd (handle b i))) <= maxCommands b.
Proof.
  intros Hb. unfold handle. destruct (in_Kind i); try done; [by case_bool_decide|].
  destruct (Z.leb_spec (maxCommands b) (blen (commands b))); [done|]. cbn. len.
Qed.

Lemma handle_phase b i : phase (snd (handle b i)) = phase b.
Proof.
  unfold handle. destruct (in_Kind i); try done; [by case_bool_decide|by destruct (_ <=? _)].
Qed.

Lemma session_inv_no_barrier st :
  st <> StateTransferBarrier -> st <> StateBackendLogin -> st <> StateBackendConfiguration ->
  session_inv (mkSession st None).
Proof. intros. split; cbn; [|done|done|done]. split; [by intros [? ?]|done]. Qed.

Lemma session_inv_active b :
  blen (commands b) <= maxCommands b -> 0 <= phase b < 256 ->
  session_inv (mkSession StateTransferBarrier (Some b)).
Proof. intros. split; cbn; [by eauto|naive_solver|naive_solver|done]. Qed.

Lemma newBarrier_inv now ids m :
  session_inv (mkSession StateTransferBarrier (Some (newBarrier now ids m))).
Proof.
  apply session_inv_active; [|done]. cbn. rewrite (blen_nil (A:=PlayerCommand)).
  destruct (Z.ltb_spec m 0); lia.
Qed.

(** In an invariant state the barrier guard succeeds exactly in the barrier. *)
Lemma session_inv_cases s :
  session_inv s ->
  (exists b, s = mkSession StateTransferBarrier (Some b) /\ blen (commands b) <= maxCommands b /\
     0 <= phase b < 256) \/
  (active_barrier s = None /\ barrier s = None /\ state s <> StateTransferBarrier).
Proof.
  intros [Hb Hc Hp _]. destruct s as [st [b|]]; cbn in *.
  - left. exists b. rewrite <-(proj1 Hb (ex_intro _ b eq_refl)). auto.
  - right. assert (st <> StateTransferBarrier) by (intros E; by destruct (proj2 Hb E)).
    split_and!; [|done..]. unfold active_barrier. by case_bool_decide.
Qed.

Lemma Transition_inv s to :
  session_inv s -> gateway_step s (OpTransition to) = true -> session_inv (snd (Transition s to)).
Proof.
  intros Hi Hg. unfold Transition, transitionLocked.
  destruct (canTransition (state s) to) eqn:Ec; [cbn [negb snd]|done].
  destruct (decide (to = StateClosing)) as [->|Hc].
  { rewrite bool_decide_true by done. by apply session_inv_no_barrier. }
  rewrite bool_decide_false by done.
  destruct (session_inv_cases s Hi) as [(b & -> & _)|(_ & -> & Hs)].
  - exfalso. destruct to; try done; cbn in Hg; by vm_compute in Ec.
  - destruct to; try done; apply session_inv_no_barrier; try done.
Qed.

Lemma run_op_inv s o : session_inv s -> gateway_step s o = true -> session_inv (snd (run_op s o)).
Proof.
  intros Hi Hg. destruct o; cbn [run_op].
  - pose proof (Transition_inv s to Hi Hg). by destruct (Transition s to).
  - destruct (BeginTransfer s now ids maxPending) as [[e|] s'] eqn:Eb; cbn.
    + unfold BeginTransfer, transitionLocked in Eb. destruct (canTransition _ _); by simplify_eq/=.
    + apply BeginTransfer_None in Eb as [_ ->]. apply newBarrier_inv.
  - destruct (session_inv_cases s Hi) as [(b & -> & Hc & Hp)|(Hn & _)].
    + rewrite HandleBarrierInput_active. destruct (handle b i) as [[d e] b'] eqn:Eh. cbn.
      pose proof (handle_commands b i Hc) as H1. pose proof (handle_phase b i) as H2.
      pose proof (handle_maxCommands b i) as H3. rewrite Eh in *. cbn in *.
      apply session_inv_active; lia.
    + unfold HandleBarrierInput. by rewrite Hn.
  - destruct (session_inv_cases s Hi) as [(b & -> & Hc & Hp)|(Hn & _)].
    + rewrite AdvanceBarrier_active. destruct (Z.eqb_spec p (uint8 (phase b + 1))) as [->|]; [|done].
      cbn. apply session_inv_active; [done|]. apply Z.mod_pos_bound. lia.
    + unfold AdvanceBarrier. by rewrite Hn.
  - destruct (session_inv_cases s Hi) as [(b & -> & Hc & Hp)|(Hn & _)].
    + rewrite ReleaseTransfer_active. destruct (_ =? _); [by apply session_inv_no_barrier|done].
    + unfold ReleaseTransfer. by rewrite Hn.
  - destruct (session_inv_cases s Hi) as [(b & -> & Hc & Hp)|(Hn & _)].
    + by apply session_inv_no_barrier.
    + unfold RollbackTransfer. by rewrite Hn.
Qed.

Lemma gateway_session_inv s : gateway_reachable s -> session_inv s.
Proof.
  induction 1 as [|s o _ IH Hg]; [by apply session_inv_no_barrier|by apply run_op_inv].
Qed.

(** ** Properties *)

(** C1: the transfer barrier contract. Take a successful [BeginTransfer] with at
    most [m] pending commands, then any interleaving [os] of client inputs,
    phase advances, releases and rollbacks by the goroutines sharing the
    session. [ReleaseTransfer] then succeeds if and only if the successful
    advances were exactly the phases backend login, backend configuration,
    awaiting start, client configuration, awaiting finish, ready, in this order,
    and nothing released or rolled back the transfer before. The replay is then
    the specified one, the last position with the last known look direction and
    the first [m] commands in order, and the session is in backend play with no
    barrier. *)
Theorem transfer_barrier_contract s now ids m s0 os :
  BeginTransfer s now ids m = (None, s0) -> forallb barrier_op os = true ->
  let ok := op_advances (succeeded s0 os) =
              [BarrierBackendLogin; BarrierBackendConfiguration; BarrierAwaitingClientConfigurationStart;
               BarrierClientConfiguration; BarrierAwaitingClientConfigurationFinish; BarrierReady] /\
            (OpRelease ∉ succeeded s0 os) /\ (OpRollback ∉ succeeded s0 os) in
  (ok -> ReleaseTransfer (run_ops s0 os) = (Ok (spec_replay m (op_inputs os)), mkSession StateBackendPlay None)) /\
  (~ ok -> exists e, ReleaseTransfer (run_ops s0 os) = (Err e, run_ops s0 os)).
Proof.
  intros Hb Ho. apply BeginTransfer_None in Hb as [_ Hs0].
  pose proof (barrier_run_all _ s0 os Hs0 eq_refl Ho) as [k Hk Hs Ha Hrel Hrol|Hin Hx]; cbn zeta.
  - split.
    + intros (Hok & _ & _). assert (k = BarrierReady) as ->.
      { rewrite Ha in Hok. apply (f_equal length) in Hok. rewrite length_seqZ in Hok.
        cbn in Hok. unfold BarrierReady in *. lia. }
      rewrite Hs, ReleaseTransfer_active. cbn -[replay handle_all newBarrier].
      by rewrite replay_set_phase, handle_all_replay.
    + intros Hn. rewrite Hs, ReleaseTransfer_active. cbn -[replay handle_all newBarrier].
      destruct (Z.eqb_spec k BarrierReady) as [->|]; [|by eexists].
      exfalso. apply Hn. split; [by rewrite Ha|done].
  - split; [naive_solver|]. intros _. unfold ReleaseTransfer. rewrite Hin. by eexists.
Qed.

Definition demo_limbo : Session := mkSession StateLimboPlay None.
Definition demo_ops : list op :=
  [OpAdvance 1; OpInput (mkInput InputMovement 0 (mkPosition 1 2 3 4 5 true) true zero_command);
   OpAdvance 2; OpAdvance 2; OpInput (mkInput InputPlayerCommand 0 zero_position false (mkPlayerCommand 1 2 0));
   OpInput (mkInput InputPlayerCommand 0 zero_position false (mkPlayerCommand 1 3 0));
   OpAdvance 3; OpAdvance 4; OpRelease; OpAdvance 5;
   OpInput (mkInput InputMovement 0 (mkPosition 6 7 8 0 0 false) false zero_command); OpAdvance 6].

Lemma transfer_barrier_contract_witness :
  ReleaseTransfer (run_ops (snd (BeginTransfer demo_limbo 0 [7] 1)) demo_ops) =
  (Ok (mkReplay (Some (mkPosition 6 7 8 4 5 false)) [mkPlayerCommand 1 2 0]), mkSession StateBackendPlay None).
Proof.
  apply (transfer_barrier_contract demo_limbo 0 [7] 1 _ demo_ops); [reflexivity|reflexivity|].
  split; [vm_compute; reflexivity|].
  replace (succeeded (snd (BeginTransfer demo_limbo 0 [7] 1)) demo_ops)
    with [OpAdvance 1; OpInput (mkInput InputMovement 0 (mkPosition 1 2 3 4 5 true) true zero_command);
      OpAdvance 2; OpInput (mkInput InputPlayerCommand 0 zero_position false (mkPlayerCommand 1 2 0));
      OpAdvance 3; OpAdvance 4; OpAdvance 5;
      OpInput (mkInput InputMovement 0 (mkPosition 6 7 8 0 0 false) false zero_command); OpAdvance 6]
    by (vm_compute; reflexivity).
  set_solver.
Defined.

(** C26: session invariant. In every state the gateway's use of a session can
    reach (login transitions, begin, input, advance, release and rollback of a
    transfer in any order, closing), a barrier is present exactly in the
    TransferBarrier state, its command queue never exceeds its limit, and the
    states BackendLogin and BackendConfiguration are never entered: the barrier
    phases stand for them. A closed session rejects every operation unchanged. *)
Theorem session_invariant s :
  gateway_reachable s ->
  (is_Some (barrier s) <-> state s = StateTransferBarrier) /\
  (forall b, barrier s = Some b -> blen (commands b) <= maxCommands b) /\
  (state s <> StateBackendLogin /\ state s <> StateBackendConfiguration) /\
  (state s = StateClosing -> forall o, run_op s o = (false, s)).
Proof.
  intros Hr. pose proof (gateway_session_inv s Hr) as Hi. destruct Hi as [Hb Hc Hp Hu].
  split; [exact Hb|]. split; [exact Hc|]. split; [exact Hu|]. intros Hcl o. assert (Ha : active_barrier s = None).
  { unfold active_barrier. rewrite Hcl. by case_bool_decide. }
  destruct o; cbn [run_op]; unfold HandleBarrierInput, AdvanceBarrier, ReleaseTransfer,
    RollbackTransfer, Transition, BeginTransfer, transitionLocked; rewrite ?Ha, ?Hcl; try done.
  by destruct to.
Qed.

Definition demo_transfer : Session :=
  run_ops New [OpTransition StateLogin; OpTransition StateConfiguration; OpTransition StateLimboPlay;
    OpBegin 5 [3] 2; OpInput (mkInput InputPlayerCommand 0 zero_position false zero_command)].

Lemma session_invariant_witness :
  is_Some (barrier demo_transfer) /\
  blen (commands (default (newBarrier 0 [] 0) (barrier demo_transfer))) <=
  maxCommands (default (newBarrier 0 [] 0) (barrier demo_transfer)).
Proof.
  destruct (session_invariant demo_transfer) as (Hb & Hc & _).
  - repeat (apply gateway_next; [|reflexivity]). apply gateway_init.
  - destruct (proj2 Hb eq_refl) as [b E]. rewrite E. split; [by exists b|by apply Hc].
Defined.

(** what the barrier does with each input, after any earlier inputs [ins]: a
    keep-alive answer is consumed exactly when Limbo was waiting for that id
    when the transfer began and it was not answered since, and is otherwise an
    error; a movement is always coalesced; a command is queued while fewer than
    [m] were received and an error afterwards; anything else is dropped. *)
Theorem barrier_dispositions now ids m ins i :
  fst (handle (handle_all (newBarrier now ids m) ins) i) =
  match in_Kind i with
  | InputKeepAlive =>
    if bool_decide (in_KeepAliveID i ∈ ids /\ in_KeepAliveID i ∉ answered ins)
    then (InputConsumed, None) else (InputDropped, Some ErrUnexpectedKeepAlive)
  | InputMovement => (InputCoalesced, None)
  | InputPlayerCommand =>
    if blen (filter (fun j => in_Kind j = InputPlayerCommand) ins) <? m
    then (InputQueued, None) else (InputDropped, Some ErrCommandQueueExhausted)
  | InputUnsafe => (InputDropped, None)
  end.
Proof.
  pose proof (handle_all_keepAlives now ids m ins) as Hk.
  pose proof (handle_all_commands now ids m ins) as Hc.
  pose proof (handle_all_maxCommands (newBarrier now ids m) ins) as Hm.
  set (b := handle_all (newBarrier now ids m) ins) in *. unfold handle.
  destruct (in_Kind i); try done.
  - rewrite Hk. case_bool_decide as H1; case_bool_decide as H2; set_solver.
  - rewrite Hc, Hm. clear Hc Hm Hk. unfold spec_commands. cbn [newBarrier maxCommands].
    set (n := filter _ ins). unfold blen. rewrite length_take, length_fmap.
    destruct (Z.ltb_spec m 0), (Z.ltb_spec (Z.of_nat (length n)) m); try lia.
    + by rewrite (proj2 (Z.leb_le _ _)) by lia.
    + by rewrite (proj2 (Z.leb_gt _ _)) by lia.
    + by rewrite (proj2 (Z.leb_le _ _)) by lia.
Qed.
