(* ===== verification/Errors.v ===== *)
(** * Error texts

    The text of every error value: what [Error()] returns for the sentinel errors
    and error types of each package, and for the errors [fmt.Errorf] builds from
    them. The last error of a backend, which the health endpoint reports, is such
    a text. Errors of code outside the repository have the texts [foreign]. *)

From stdpp Require Import pretty.
From S2P Require Import Prelude Session.

#[local] Open Scope string_scope.

(** ** Sentinel errors and error types, per file *)

Definition varint_errors (e : error) : option string :=
  match e with
  | ErrVarIntTooLong => Some "varint exceeds 5 bytes"
  | ErrVarIntPartial => Some "incomplete varint"
  | ErrVarIntOverflow => Some "varint exceeds 32 bits"
  | _ => None
  end.

Definition string_errors (e : error) : option string :=
  match e with
  | ErrStringTooLong => Some "minecraft string exceeds limit"
  | ErrInvalidUTF8 => Some "invalid UTF-8 string"
  | _ => None
  end.

Definition frame_errors (e : error) : option string :=
  match e with
  | ErrEmptyPacket => Some "empty packet"
  | ErrNegativeLength => Some "negative packet length"
  | PacketTooLargeError len limit => Some ("packet length " +:+ pretty len +:+ " exceeds limit " +:+ pretty limit)
  | _ => None
  end.

Definition compression_errors (e : error) : option string :=
  match e with
  | ErrInvalidCompressionThreshold => Some "invalid compression threshold"
  | ErrInvalidCompressedPacket => Some "invalid compressed packet"
  | _ => None
  end.

Definition cipher_errors (e : error) : option string :=
  match e with ErrInvalidCipherParameters => Some "AES-CFB8 requires a 16-byte key and IV" | _ => None end.

(** The protocol packages: one [ErrMalformed] each. *)
Definition handshake_errors (e : error) : option string :=
  match e with
  | handshake_ErrMalformed => Some "malformed handshake packet"
  | ErrUnsupportedVersion version => Some ("unsupported Minecraft protocol version " +:+ pretty version)
  | _ => None
  end.

Definition status_errors (e : error) : option string :=
  match e with status_ErrMalformed => Some "malformed status packet" | _ => None end.
Definition login_errors (e : error) : option string :=
  match e with login_ErrMalformed => Some "malformed login packet" | _ => None end.
Definition configuration_errors (e : error) : option string :=
  match e with configuration_ErrMalformed => Some "malformed configuration packet" | _ => None end.
Definition nbt_errors (e : error) : option string :=
  match e with ErrNBTTooLarge => Some "NBT document exceeds limit" | _ => None end.
Definition play_errors (e : error) : option string :=
  match e with play_ErrMalformed => Some "malformed play packet" | _ => None end.

Definition transport_errors (e : error) : option string :=
  match e with
  | transport_ErrClosed => Some "transport is closed"
  | ErrBufferedEncryptionTransition => Some "cannot enable encryption with buffered input"
  | _ => None
  end.

Definition barrier_errors (e : error) : option string :=
  match e with
  | ErrBarrierInactive => Some "transfer barrier is not active"
  | ErrBarrierNotReady => Some "transfer barrier is not ready to release"
  | ErrUnexpectedKeepAlive => Some "unexpected limbo keepalive response"
  | ErrCommandQueueExhausted => Some "transfer barrier command queue is full"
  | _ => None
  end.

(** [State.String] on any value of the type, and [InvalidTransitionError.Error]. *)
Definition state_text (n : Z) : string :=
  match List.find (fun s => (State_num s =? n)%Z)
          [StateHandshake; StateLogin; StateConfiguration; StateLimboPlay; StateTransferBarrier; StateBackendLogin;
           StateBackendConfiguration; StateBackendPlay; StateClosing] with
  | Some s => State_String s
  | None => "unknown(" +:+ pretty n +:+ ")"
  end.

Definition transition_errors (e : error) : option string :=
  match e with
  | InvalidTransitionError from to => Some ("invalid session transition from " +:+ state_text from +:+ " to " +:+ state_text to)
  | _ => None
  end.

Definition queue_errors (e : error) : option string :=
  match e with
  | ErrFull => Some "admission queue is full"
  | ErrDuplicate => Some "admission queue item already exists"
  | ErrItemRequired => Some "queue item requires ID and Admit callback"
  | _ => None
  end.

Definition velocity_errors (e : error) : option string :=
  match e with
  | ErrEmptySecret => Some "velocity forwarding secret is empty"
  | ErrInvalidIdentity => Some "invalid player identity"
  | _ => None
  end.

Definition challenge_errors (e : error) : option string :=
  match e with
  | ErrInvalidSharedSecret => Some "invalid Minecraft shared secret"
  | ErrVerifyTokenMismatch => Some "Minecraft verify token mismatch"
  | _ => None
  end.

Definition session_errors (e : error) : option string :=
  match e with
  | ErrNotJoined => Some "player has not joined the Minecraft session"
  | ErrInvalidUUID => Some "invalid Mojang profile UUID"
  | _ => None
  end.

Definition backend_login_errors (e : error) : option string :=
  match e with
  | ErrBackendDisconnected => Some "backend disconnected during login"
  | ErrUnexpectedLoginPacket => Some "unexpected backend login packet"
  | ErrUnsupportedEncryption => Some "backend encryption is not supported"
  | ErrUnexpectedPlugin => Some "unexpected backend login plugin request"
  | _ => None
  end.

Definition backend_configuration_errors (e : error) : option string :=
  match e with
  | ErrBackendConfigurationDisconnected => Some "backend disconnected during configuration"
  | ErrBackendConfigurationPacket => Some "unexpected backend configuration packet"
  | ErrBackendConfigurationTooLarge => Some "backend configuration buffer limit exceeded"
  | _ => None
  end.

Definition dialer_errors (e : error) : option string :=
  match e with ErrBackendAddressEmpty => Some "backend address is empty" | _ => None end.

Definition coordinator_errors (e : error) : option string :=
  match e with
  | ErrTransferAlreadyFinalized => Some "transfer is already finalized"
  | ErrTransferTimedOut => Some "transfer barrier timed out"
  | ErrTransferNotConfigured => Some "transfer coordinator is not configured"
  | _ => None
  end.

Definition bridge_errors (e : error) : option string :=
  match e with
  | ErrUnexpectedBackendKeepAlive => Some "unexpected backend keepalive response"
  | ErrKeepAliveLimit => Some "backend keepalive limit exceeded"
  | _ => None
  end.

Definition botfilter_errors (e : error) : option string :=
  match e with
  | ErrPolicyVersion version => Some ("unsupported bot filter policy version " +:+ pretty version)
  | ErrPolicyObservation => Some "bot_filter observation values must be positive"
  | ErrPolicyReputation => Some "bot_filter reputation values must be positive"
  | ErrPolicySignals => Some "bot_filter signal values must be positive"
  | ErrVerificationFailed => Some "connection verification failed"
  | _ => None
  end.

Definition server_errors (e : error) : option string :=
  match e with
  | ErrSessionNotAvailable => Some "session is not available for transfer"
  | ErrLimboKeepAliveTimeout id => Some ("limbo keepalive " +:+ pretty id +:+ " timed out")
  | ErrNotInLimbo => Some "connection is not in limbo"
  | _ => None
  end.

(** ** Error *)

(** The errors of the packages, in no particular order: no two of the functions
    above know the same error. *)
Definition own_errors : list (error -> option string) :=
  [varint_errors; string_errors; frame_errors; compression_errors; cipher_errors; handshake_errors; status_errors;
   login_errors; configuration_errors; nbt_errors; play_errors; transport_errors; barrier_errors; transition_errors;
   queue_errors; velocity_errors; challenge_errors; session_errors; backend_login_errors; backend_configuration_errors;
   dialer_errors; coordinator_errors; bridge_errors; botfilter_errors; server_errors].

Definition own_text (e : error) : option string := head (omap (fun f => f e) own_errors).

(** Errors of the standard library that are values. *)
Definition std_errors (e : error) : option string :=
  match e with
  | io_EOF => Some "EOF"
  | io_ErrUnexpectedEOF => Some "unexpected EOF"
  | io_ErrShortWrite => Some "short write"
  | net_ErrClosed => Some "use of closed network connection"
  | os_ErrDeadlineExceeded => Some "i/o timeout"
  | context_Canceled => Some "context canceled"
  | context_DeadlineExceeded => Some "context deadline exceeded"
  | strconv_ErrSyntax => Some "invalid syntax"
  | strconv_ErrRange => Some "value out of range"
  | http_ErrServerClosed => Some "http: Server closed"
  | os_ErrNotExist => Some "file does not exist"
  | _ => None
  end.

Section text.
Context (foreign : error -> string).

Fixpoint error_text (e : error) : string :=
  match e with
  | ErrNew text => text
  | ErrWrap ctx inner => ctx +:+ ": " +:+ error_text inner
  | ErrDetail inner cause => error_text inner +:+ ": " +:+ error_text cause
  | ErrText inner text => error_text inner +:+ ": " +:+ text
  | _ => match own_text e with
         | Some text => text
         | None => match std_errors e with Some text => text | None => foreign e end
         end
  end.

Definition Error (e : error) : gostring := str (error_text e).
End text.

(** The sentinel errors of the packages. *)
Definition sentinels : list error :=
  [ErrVarIntTooLong; ErrVarIntPartial; ErrVarIntOverflow; ErrStringTooLong; ErrInvalidUTF8; ErrEmptyPacket; ErrNegativeLength;
   ErrInvalidCompressionThreshold; ErrInvalidCompressedPacket; ErrInvalidCipherParameters; handshake_ErrMalformed;
   status_ErrMalformed; login_ErrMalformed; configuration_ErrMalformed; play_ErrMalformed; ErrNBTTooLarge; transport_ErrClosed;
   ErrBufferedEncryptionTransition; ErrBarrierInactive; ErrBarrierNotReady; ErrUnexpectedKeepAlive; ErrCommandQueueExhausted;
   ErrFull; ErrDuplicate; ErrItemRequired; ErrEmptySecret; ErrInvalidIdentity; ErrInvalidSharedSecret; ErrVerifyTokenMismatch;
   ErrNotJoined; ErrInvalidUUID; ErrBackendDisconnected; ErrUnexpectedLoginPacket; ErrUnsupportedEncryption; ErrUnexpectedPlugin;
   ErrBackendConfigurationDisconnected; ErrBackendConfigurationPacket; ErrBackendConfigurationTooLarge; ErrBackendAddressEmpty;
   ErrTransferAlreadyFinalized; ErrTransferTimedOut; ErrTransferNotConfigured; ErrUnexpectedBackendKeepAlive; ErrKeepAliveLimit;
   ErrPolicyObservation; ErrPolicyReputation; ErrPolicySignals; ErrVerificationFailed; ErrNotInLimbo; ErrSessionNotAvailable].

(** Every sentinel has a text of its own in exactly one package, so a log line or
    the health document identifies the error. *)
Lemma sentinel_texts :
  Forall (fun e => List.length (omap (fun f : error -> option string => f e) own_errors) = 1%nat) sentinels /\
  NoDup ((fun e => error_text (fun _ => "") e) <$> sentinels).
Proof.
  split; [apply (bool_decide_unpack _); vm_compute; exact I|]. apply (bool_decide_unpack _). vm_compute. exact I.
Qed.

Lemma str_append a b : str (a +:+ b) = (str a ++ str b)%list.
Proof.
  unfold str, String.list_byte_of_string. rewrite <-map_app. f_equal. induction a as [|x a IH]; [done|].
  change (String.list_ascii_of_string (String x a +:+ b)) with (x :: String.list_ascii_of_string (a +:+ b)). by rewrite IH.
Qed.

(** Wrapping keeps the identity of the inner error and shows its text. *)
Lemma wrapped_text foreign ctx e :
  errors_Is (ErrWrap ctx e) e = true /\ Error foreign (ErrWrap ctx e) = (str ctx ++ str ": " ++ Error foreign e)%list.
Proof.
  split.
  - cbn. apply orb_true_iff. right. destruct e; cbn; by rewrite bool_decide_eq_true_2.
  - unfold Error. cbn [error_text]. by rewrite !str_append.
Qed.
