(* ===== verification/Queue.v ===== *)
(** * Admission queue (internal/queue/queue.go)

    A bounded FIFO of login sessions with a set of queued ids, and the scheduler
    that admits its head on every tick. Each method holds the mutex for its
    whole body and is one atomic step. Contexts and callbacks are abstract: [C]
    stands for context.Context and [F] for the Admit callbacks. *)

From S2P Require Import Prelude.

Section queue.
Context {C F : Type} (Background : C).

Record Item := mkItem {
  ID : gostring;
  Context_ : option C;    (* None is nil *)
  Admit : option F        (* None is nil *)
}.

Record FIFO := mkFIFO {
  maxSize : Z;
  items : list Item;
  queued : gset gostring
}.

Definition New (maxSize : Z) : FIFO :=
  mkFIFO (if maxSize <=? 0 then 1024 else maxSize) [] ∅.

Definition Enqueue (q : FIFO) (item : Item) : res Z * FIFO :=
  if bool_decide (ID item = []) || match Admit item with None => true | Some _ => false end
  then (Err ErrItemRequired, q)
  else if bool_decide (ID item ∈ queued q) then (Err ErrDuplicate, q)
  else if maxSize q <=? blen (items q) then (Err ErrFull, q)
  else
    let item := match Context_ item with
                | None => mkItem (ID item) (Some Background) (Admit item)
                | Some _ => item
                end in
    let q' := mkFIFO (maxSize q) (items q ++ [item]) ({[ID item]} ∪ queued q) in
    (Ok (blen (items q')), q').

(** The loop over [q.items]: index of the first item with this id. *)
Fixpoint find_index (index : nat) (l : list Item) (id : gostring) : option nat :=
  match l with
  | [] => None
  | item :: l' => if bool_decide (ID item = id) then Some index else find_index (S index) l' id
  end.

(** [copy(q.items[i:], q.items[i+1:])] and dropping the last slot. *)
Definition remove_at (i : nat) (l : list Item) : list Item := take i l ++ drop (S i) l.

Definition Cancel (q : FIFO) (id : gostring) : bool * FIFO :=
  match find_index 0 (items q) id with
  | Some index => (true, mkFIFO (maxSize q) (remove_at index (items q)) (queued q ∖ {[id]}))
  | None => (false, q)
  end.

Definition Pop (q : FIFO) : option Item * FIFO :=
  match items q with
  | [] => (None, q)
  | item :: _ => (Some item, mkFIFO (maxSize q) (remove_at 0 (items q)) (queued q ∖ {[ID item]}))
  end.

Definition Len (q : FIFO) : Z := blen (items q).

(** One-based position, if queued. *)
Definition Queue_Position (q : FIFO) (id : gostring) : option Z :=
  match find_index 0 (items q) id with
  | Some index => Some (Z.of_nat index + 1)
  | None => None
  end.

(** ** The scheduler

    [ctx_Err] is [item.Context.Err()] and [call_Admit] the result of the callback at
    the time of the tick. *)

Record SchedulerEnv := mkEnv {
  ctx_Err : C -> option error;
  call_Admit : F -> C -> option error
}.

(** One tick of [Scheduler.Run]: what [OnResult] is called with, if anything,
    and whether the callback ran. *)
Definition Scheduler_tick (env : SchedulerEnv) (q : FIFO) : option (Item * option error * bool) * FIFO :=
  match Pop q with
  | (None, q') => (None, q')
  | (Some item, q') =>
    let ctx := default Background (Context_ item) in
    match ctx_Err env ctx with
    | Some err => (Some (item, Some err, false), q')
    | None =>
      match Admit item with
      | Some f => (Some (item, call_Admit env f ctx, true), q')
      | None => (Some (item, None, false), q')
      end
    end
  end.

(** [Scheduler.Run]: the ticks until the context is done; between ticks other
    goroutines use the queue, given as one function per tick. *)
Fixpoint Scheduler_Run (ticks : list (SchedulerEnv * (FIFO -> FIFO))) (q : FIFO)
    : list (Item * option error * bool) * FIFO :=
  match ticks with
  | [] => ([], q)
  | (env, others) :: ticks' =>
    let '(r, q1) := Scheduler_tick env (others q) in
    let '(rs, q2) := Scheduler_Run ticks' q1 in
    (option_list r ++ rs, q2)
  end.

(** ** Sequences of operations *)

Inductive qop : Type :=
| QEnqueue (item : Item)
| QCancel (id : gostring)
| QPop.

Definition is_pop (o : qop) : bool := match o with QPop => true | _ => false end.

(** The state after an operation and the item it popped. *)
Definition run_qop (q : FIFO) (o : qop) : option Item * FIFO :=
  match o with
  | QEnqueue item => (None, snd (Enqueue q item))
  | QCancel id => (None, snd (Cancel q id))
  | QPop => Pop q
  end.

Fixpoint run_qops (q : FIFO) (os : list qop) : list Item * FIFO :=
  match os with
  | [] => ([], q)
  | o :: os' =>
    let '(p, q1) := run_qop q o in
    let '(ps, q2) := run_qops q1 os' in
    (option_list p ++ ps, q2)
  end.

(** ** Abstract specification: a list of items without duplicate ids *)

Definition spec_Enqueue (max : Z) (l : list Item) (item : Item) : res Z * list Item :=
  if bool_decide (ID item = []) || match Admit item with None => true | Some _ => false end
  then (Err ErrItemRequired, l)
  else if bool_decide (ID item ∈ ID <$> l) then (Err ErrDuplicate, l)
  else if max <=? blen l then (Err ErrFull, l)
  else (Ok (blen l + 1), l ++ [mkItem (ID item) (Some (default Background (Context_ item))) (Admit item)]).

Definition spec_Cancel (l : list Item) (id : gostring) : bool * list Item :=
  (bool_decide (id ∈ ID <$> l), filter (fun item => ID item <> id) l).

Definition spec_Pop (l : list Item) : option Item * list Item :=
  match l with [] => (None, []) | x :: l' => (Some x, l') end.

(** The invariant that links them. *)
Record queue_inv (q : FIFO) : Prop := {
  qi_ids : queued q = list_to_set (ID <$> items q);
  qi_nodup : NoDup (ID <$> items q);
  qi_size : blen (items q) <= maxSize q;
  qi_items : Forall (fun x => ID x <> [] /\ is_Some (Admit x) /\ is_Some (Context_ x)) (items q)
}.

(** ** Lemmas *)

Lemma find_index_S l : forall i id, find_index (S i) l id = S <$> find_index i l id.
Proof.
  induction l as [|x l IH]; intros i id; [done|]. cbn [find_index].
  case_bool_decide; [done|]. by rewrite !IH.
Qed.

Lemma find_index_Some l id : forall i,
  find_index 0 l id = Some i <->
  exists pre x post, l = pre ++ x :: post /\ length pre = i /\ ID x = id /\ id ∉ ID <$> pre.
Proof.
  induction l as [|x l IH]; intros i; cbn [find_index].
  { split; [done|]. intros (pre & x & post & E & _). by destruct pre. }
  case_bool_decide as Hx.
  - split.
    + intros; simplify_eq. exists [], x, l. split_and!; [done..|]. set_solver.
    + intros ([|y pre] & x' & post & E & <- & Hx' & Hn); [done|]. simplify_eq/=. set_solver.
  - rewrite find_index_S, fmap_Some. split.
    + intros (j & Hj & ->). apply IH in Hj as (pre & x' & post & -> & <- & Hx' & Hn).
      exists (x :: pre), x', post. split_and!; [done..|]. set_solver.
    + intros ([|y pre] & x' & post & E & <- & Hx' & Hn); simplify_eq/=.
      exists (length pre). split; [|done]. apply IH. exists pre, x', post. set_solver.
Qed.

Lemma find_index_None l id : find_index 0 l id = None <-> id ∉ ID <$> l.
Proof.
  induction l as [|x l IH]; cbn [find_index]; [set_solver|].
  case_bool_decide as Hx; [set_solver|].
  rewrite find_index_S, fmap_None, IH. set_solver.
Qed.

Lemma remove_at_app pre x post : remove_at (length pre) (pre ++ x :: post) = pre ++ post.
Proof.
  unfold remove_at. rewrite take_app_length. f_equal.
  rewrite drop_app_ge by lia. by replace (S (length pre) - length pre)%nat with 1%nat by lia.
Qed.

Lemma filter_ne_id (l : list Item) id : id ∉ ID <$> l -> filter (fun item => ID item <> id) l = l.
Proof.
  intros Hn. induction l as [|x l IH]; [done|]. rewrite filter_cons. cbn in Hn.
  rewrite decide_True by set_solver. f_equal. apply IH. set_solver.
Qed.

Lemma list_to_set_remove pre x post :
  NoDup (ID <$> (pre ++ x :: post)) ->
  list_to_set (ID <$> (pre ++ x :: post)) ∖ {[ID x]} =@{gset gostring} list_to_set (ID <$> (pre ++ post)).
Proof.
  rewrite !fmap_app. cbn. intros Hnd. apply NoDup_app in Hnd as (_ & Hd & Hnd).
  apply NoDup_cons in Hnd as [Hx _].
  assert (ID x ∉ ID <$> pre) by (intros Hin; apply (Hd _ Hin); by left).
  set_solver.
Qed.

Lemma New_inv m : queue_inv (New m).
Proof.
  split; cbn; [done|constructor| |constructor]. rewrite (blen_nil (A:=Item)).
  destruct (Z.leb_spec m 0); lia.
Qed.

Lemma Enqueue_spec q item :
  queue_inv q ->
  (fst (Enqueue q item), items (snd (Enqueue q item))) = spec_Enqueue (maxSize q) (items q) item /\
  queue_inv (snd (Enqueue q item)) /\ maxSize (snd (Enqueue q item)) = maxSize q.
Proof.
  intros Hq. destruct (Hq) as [Hi Hn Hs Hf]. unfold Enqueue, spec_Enqueue.
  destruct (bool_decide (ID item = []) || _) eqn:E0; [by split_and!|].
  rewrite Hi. destruct (decide (ID item ∈ ID <$> items q)) as [Hd|Hd].
  { rewrite !bool_decide_true by set_solver. by split_and!. }
  rewrite !bool_decide_false by set_solver.
  destruct (Z.leb_spec (maxSize q) (blen (items q))) as [Hm|Hm]; [by split_and!|].
  apply orb_false_iff in E0 as [E0 E1]. apply bool_decide_eq_false in E0.
  destruct (Admit item) as [f|] eqn:Ea; [|done].
  set (item' := match Context_ item with None => _ | Some _ => item end).
  assert (Hitem : item' = mkItem (ID item) (Some (default Background (Context_ item))) (Some f)).
  { unfold item'. destruct item as [id [c|] a]; cbn in *; by simplify_eq. }
  rewrite Hitem. cbn [fst snd items maxSize ID]. split_and!; [|split|done]; cbn [items queued maxSize].
  - f_equal. f_equal. len.
  - rewrite fmap_app. cbn. rewrite list_to_set_app_L. set_solver.
  - rewrite fmap_app. cbn. apply NoDup_app. split_and!; [done| |apply NoDup_singleton]. set_solver.
  - len.
  - apply Forall_app. split; [done|]. apply Forall_singleton. cbn. eauto.
Qed.

Lemma Cancel_spec q id :
  queue_inv q ->
  (fst (Cancel q id), items (snd (Cancel q id))) = spec_Cancel (items q) id /\
  queue_inv (snd (Cancel q id)) /\ maxSize (snd (Cancel q id)) = maxSize q.
Proof.
  intros Hq. destruct (Hq) as [Hi Hn Hs Hf]. unfold Cancel, spec_Cancel.
  destruct (find_index 0 (items q) id) as [i|] eqn:E.
  - apply find_index_Some in E as (pre & x & post & Hl & <- & <- & Hp).
    rewrite Hl in *. rewrite remove_at_app. cbn [fst snd items maxSize].
    assert (Hpost : ID x ∉ ID <$> post).
    { rewrite fmap_app in Hn. cbn in Hn. apply NoDup_app in Hn as (_ & _ & Hn).
      by apply NoDup_cons in Hn as []. }
    split_and!; [|split|done]; cbn [items queued maxSize].
    + rewrite bool_decide_true by (rewrite fmap_app; set_solver). f_equal.
      rewrite filter_app, filter_cons, decide_False, !filter_ne_id by (done || naive_solver). done.
    + rewrite Hi. by apply list_to_set_remove.
    + rewrite fmap_app in *. eapply sublist_NoDup; [exact Hn|].
      apply sublist_app; [done|by apply sublist_cons].
    + unfold blen in *. rewrite length_app in *. cbn in *. lia.
    + rewrite Forall_app, Forall_cons in Hf. apply Forall_app. naive_solver.
  - apply find_index_None in E. rewrite bool_decide_false by done.
    rewrite filter_ne_id by done. by split_and!.
Qed.

Lemma Pop_spec q :
  queue_inv q ->
  (fst (Pop q), items (snd (Pop q))) = spec_Pop (items q) /\
  queue_inv (snd (Pop q)) /\ maxSize (snd (Pop q)) = maxSize q.
Proof.
  intros Hq. destruct (Hq) as [Hi Hn Hs Hf]. unfold Pop, spec_Pop. destruct (items q) as [|x l] eqn:El.
  { cbn. rewrite El. by split_and!. }
  pose proof (remove_at_app [] x l) as Hr. cbn [app length] in Hr. rewrite Hr.
  cbn [fst snd items maxSize]. split_and!; [done|split|done]; cbn [items queued maxSize].
  - rewrite Hi. by apply (list_to_set_remove []).
  - cbn in Hn. by apply NoDup_cons in Hn as [].
  - unfold blen in *. cbn in *. lia.
  - by inversion_clear Hf.
Qed.

Lemma run_qop_inv q o : queue_inv q -> queue_inv (snd (run_qop q o)).
Proof.
  intros Hq. destruct o; cbn [run_qop snd]; [by apply Enqueue_spec|by apply Cancel_spec|by apply Pop_spec].
Qed.

Lemma run_qops_inv os : forall q, queue_inv q -> queue_inv (snd (run_qops q os)).
Proof.
  induction os as [|o os IH]; intros q Hq; [done|]. cbn [run_qops].
  pose proof (run_qop_inv q o Hq) as Hq1. destruct (run_qop q o) as [p q1].
  specialize (IH q1 Hq1). by destruct (run_qops q1 os).
Qed.

Lemma Position_Some q id k :
  Queue_Position q id = Some k <->
  exists pre x post, items q = pre ++ x :: post /\ k = blen pre + 1 /\ ID x = id /\ id ∉ ID <$> pre.
Proof.
  unfold Queue_Position. destruct (find_index 0 (items q) id) as [i|] eqn:E.
  - apply find_index_Some in E as (pre & x & post & Hl & <- & Hx & Hp). split.
    + intros; simplify_eq. exists pre, x, post. split_and!; try done.
    + intros (pre' & x' & post' & Hl' & -> & Hx' & Hp'). f_equal. unfold blen.
      assert (Hf : find_index 0 (items q) id = Some (length pre')) by (apply find_index_Some; eauto 10).
      assert (Hf2 : find_index 0 (items q) id = Some (length pre)) by (apply find_index_Some; eauto 10).
      rewrite Hf in Hf2. simplify_eq. lia.
  - apply find_index_None in E. split; [done|].
    intros (pre & x & post & Hl & _ & Hx & _). exfalso. apply E. rewrite Hl, fmap_app. set_solver.
Qed.

(** One operation moves a queued item that is not cancelled at most forward,
    and a pop moves it by one; the item at the head is the one popped. *)
Lemma run_qop_position q o pre x post :
  queue_inv q -> items q = pre ++ x :: post -> o <> QCancel (ID x) ->
  (is_pop o = true /\ pre = [] /\ fst (run_qop q o) = Some x) \/
  (exists pre' post', items (snd (run_qop q o)) = pre' ++ x :: post' /\
     (is_pop o = false -> fst (run_qop q o) = None /\ (length pre' <= length pre)%nat) /\
     (is_pop o = true -> is_Some (fst (run_qop q o)) /\ (length pre' < length pre)%nat)).
Proof.
  intros Hq Hl Ho. destruct o as [item|id|]; cbn [run_qop is_pop fst snd].
  - right. destruct (Enqueue_spec q item Hq) as [He _].
    assert (Hi : exists tl, items (snd (Enqueue q item)) = items q ++ tl).
    { apply (f_equal snd) in He. cbn in He. rewrite He. unfold spec_Enqueue.
      repeat case_match; cbn; first [by exists []; rewrite app_nil_r|by eexists]. }
    destruct Hi as [tl Htl]. exists pre, (post ++ tl). rewrite Htl, Hl, <-app_assoc. done.
  - right. destruct (Cancel_spec q id Hq) as [He _]. apply (f_equal snd) in He. cbn in He.
    rewrite He, Hl, filter_app, filter_cons. rewrite decide_True by naive_solver.
    eexists _, _. split; [done|]. split; [|done]. intros _. split; [done|]. apply length_filter.
  - destruct (Pop_spec q Hq) as [He _]. rewrite Hl in He. destruct pre as [|y pre]; cbn in He.
    + left. by simplify_eq.
    + right. exists pre, post. destruct (Pop q) as [p q']. cbn in *. simplify_eq.
      split; [done|]. split; [done|]. intros _. split; [by eexists|lia].
Qed.

Lemma run_qops_wait os : forall q pre x post,
  queue_inv q -> items q = pre ++ x :: post -> Forall (fun o => o <> QCancel (ID x)) os ->
  (length pre < length (filter (fun o => is_pop o = true) os))%nat ->
  exists j, (j <= length pre)%nat /\ fst (run_qops q os) !! j = Some x.
Proof.
  induction os as [|o os IH]; intros q pre x post Hq Hl Ho Hn; [cbn in Hn; lia|].
  inversion_clear Ho as [|?? Ho1 Ho2]. rewrite filter_cons in Hn. cbn [run_qops].
  pose proof (run_qop_inv q o Hq) as Hq1.
  destruct (run_qop_position q o pre x post Hq Hl Ho1) as [(Hp & -> & Hx)|(pre' & post' & Hl' & Hf & Ht)].
  - exists 0%nat. destruct (run_qop q o) as [p q1]. cbn in Hx. subst p.
    by destruct (run_qops q1 os).
  - destruct (run_qop q o) as [p q1]. cbn [fst snd] in *.
    destruct (is_pop o) eqn:Ep.
    + destruct (Ht eq_refl) as [[y ->] Hlt]. rewrite decide_True in Hn by done. cbn in Hn.
      destruct (IH q1 pre' x post' Hq1 Hl' Ho2 ltac:(lia)) as (j & Hj & Hx).
      exists (S j). destruct (run_qops q1 os). cbn in *. split; [lia|done].
    + destruct (Hf eq_refl) as [-> Hle]. rewrite decide_False in Hn by done.
      destruct (IH q1 pre' x post' Hq1 Hl' Ho2 ltac:(lia)) as (j & Hj & Hx).
      exists j. destruct (run_qops q1 os). cbn in *. split; [lia|done].
Qed.

Lemma Scheduler_tick_pop env q :
  snd (Scheduler_tick env q) = snd (Pop q) /\
  (fun r => fst (fst r)) <$> fst (Scheduler_tick env q) = fst (Pop q).
Proof.
  unfold Scheduler_tick. destruct (Pop q) as [[item|] q']; [|done].
  repeat case_match; done.
Qed.

End queue.

Arguments Item : clear implicits.
Arguments FIFO : clear implicits.
Arguments qop : clear implicits.
Arguments SchedulerEnv : clear implicits.

(** ** Properties *)

(** C6: the queue refines its specification. After any sequence of operations on
    a new queue, each operation behaves as on a plain list of items with
    distinct ids: [Enqueue] appends and reports the new length, or rejects an
    invalid item, a queued id, or a full queue, leaving the list unchanged;
    [Cancel] removes the item with that id and says whether it was there; [Pop]
    takes the head; [Position] is the one-based index of the id. The length
    never exceeds the limit. *)
Theorem queue_refinement {C F} (bg : C) m (os : list (qop C F)) :
  let q := snd (run_qops bg (New m) os) in
  (forall item, (fst (Enqueue bg q item), items (snd (Enqueue bg q item))) =
     spec_Enqueue bg (maxSize q) (items q) item) /\
  (forall id, (fst (Cancel q id), items (snd (Cancel q id))) = spec_Cancel (items q) id) /\
  (fst (Pop q), items (snd (Pop q))) = spec_Pop (items q) /\
  (forall id k, Queue_Position q id = Some k <->
     1 <= k /\ exists x, items q !! Z.to_nat (k - 1) = Some x /\ ID x = id) /\
  Len q <= maxSize q.
Proof.
  cbn zeta. pose proof (run_qops_inv bg os (New m) (New_inv m)) as Hq.
  set (q := snd (run_qops bg (New m) os)) in *. split_and!.
  - intros item. by apply Enqueue_spec.
  - intros id. by apply Cancel_spec.
  - by apply Pop_spec.
  - intros id k. rewrite Position_Some. split.
    + intros (pre & x & post & Hl & -> & Hx & _). split; [pose proof (blen_nonneg pre); lia|].
      exists x. split; [|done]. rewrite Hl. rewrite lookup_app_r by (unfold blen; lia).
      by replace (_ - _)%nat with 0%nat by (unfold blen; lia).
    + intros (Hk & x & Hx & <-). apply list_elem_of_split_length in Hx as (pre & post & Hl & Hn).
      exists pre, x, post. split_and!; [done|unfold blen; lia|done|].
      destruct Hq as [_ Hnd _ _]. rewrite Hl, fmap_app in Hnd. apply NoDup_app in Hnd as (_ & Hd & _).
      intros Hin. apply (Hd _ Hin). set_solver.
  - apply Hq.
Qed.

(** C27: bounded waiting. An item at position [k] that is not cancelled is handed
    out by the [k]-th pop at the latest, whatever other items are queued or
    cancelled in between: among the items popped by a sequence of operations
    with at least [k] pops it is one of the first [k]. *)
Theorem queue_bounded_wait {C F} (bg : C) m (os0 os : list (qop C F)) id k :
  let q := snd (run_qops bg (New m) os0) in
  Queue_Position q id = Some k -> Forall (fun o => o <> QCancel id) os ->
  k <= blen (filter (fun o => is_pop o = true) os) ->
  exists j x, Z.of_nat j < k /\ fst (run_qops bg q os) !! j = Some x /\ ID x = id.
Proof.
  cbn zeta. pose proof (run_qops_inv bg os0 (New m) (New_inv m)) as Hq.
  set (q := snd (run_qops bg (New m) os0)) in *. intros Hp Ho Hk.
  apply Position_Some in Hp as (pre & x & post & Hl & -> & <- & _).
  destruct (run_qops_wait bg os q pre x post Hq Hl Ho) as (j & Hj & Hx); [unfold blen in *; lia|].
  exists j, x. split_and!; [unfold blen; lia|done..].
Qed.

Lemma queue_bounded_wait_witness :
  let q := snd (run_qops 0%nat (New 4)
     [QEnqueue (mkItem (str "a") None (Some 1%nat)); QEnqueue (mkItem (str "b") None (Some 2%nat))]) in
  exists j x, Z.of_nat j < 2 /\
    fst (run_qops 0%nat q [QPop; QEnqueue (mkItem (str "c") None (Some 3%nat)); QPop]) !! j = Some x /\ ID x = str "b".
Proof.
  apply (queue_bounded_wait 0%nat 4
     [QEnqueue (mkItem (str "a") None (Some 1%nat)); QEnqueue (mkItem (str "b") None (Some 2%nat))]
     [QPop; QEnqueue (mkItem (str "c") None (Some 3%nat)); QPop] (str "b") 2); [reflexivity| |done].
  repeat constructor; done.
Defined.

(** the scheduler admits in queue order. Over as many ticks as there are
    queued items, with no other use of the queue in between, [OnResult] sees
    every item once, in queue order; the Admit callback runs for exactly those
    whose context is still live at their tick, and the queue ends empty. *)
Theorem scheduler_in_order {C F} (bg : C) (env : SchedulerEnv C F) m (os : list (qop C F)) :
  let q := snd (run_qops bg (New m) os) in
  let '(results, q') := Scheduler_Run bg (replicate (length (items q)) (env, id)) q in
  (fun r => fst (fst r)) <$> results = items q /\ items q' = [] /\
  Forall (fun '(item, err, ran) =>
    let ctx := default bg (Context_ item) in
    ran = bool_decide (ctx_Err env ctx = None) /\
    err = match ctx_Err env ctx with Some e => Some e
          | None => match Admit item with Some f => call_Admit env f ctx | None => None end end) results.
Proof.
  cbn zeta. pose proof (run_qops_inv bg os (New m) (New_inv m)) as Hq.
  set (q := snd (run_qops bg (New m) os)) in *. clearbody q.
  remember (length (items q)) as n eqn:Hn. revert q Hq Hn.
  induction n as [|n IH]; intros q Hq Hn; cbn [replicate Scheduler_Run id].
  { destruct (items q); [done|discriminate]. }
  destruct (items q) as [|x l] eqn:El; [discriminate|]. injection Hn as Hn.
  destruct (Pop_spec q Hq) as (Hp & Hq1 & _). rewrite El in Hp. cbn in Hp.
  assert (Hx : is_Some (Admit x)).
  { destruct Hq as [_ _ _ Hf]. rewrite El in Hf. by inversion_clear Hf; naive_solver. }
  unfold Scheduler_tick. destruct (Pop q) as [p q1]. cbn in Hp, Hq1. injection Hp as -> Hl.
  subst l. specialize (IH q1 Hq1 Hn). destruct Hx as [f Hf]. rewrite Hf.
  destruct (ctx_Err env (default bg (Context_ x))) as [e|] eqn:Ec;
    destruct (Scheduler_Run bg (replicate n (env, id)) q1) as [rs q2];
    destruct IH as (IH1 & IH2 & IH3); cbn; (split_and!; [by rewrite IH1|done|]);
    (constructor; [|done]); by rewrite Ec, ?Hf.
Qed.
