(* ===== verification/Ratelimit.v ===== *)
(** * Login rate limiter (internal/ratelimit/limiter.go)

    A sliding-window log per key, pruned on use, with a sweep of idle keys every
    1024 requests. Times are nanoseconds. The specification is a limiter that
    remembers every allowed request forever. *)

From S2P Require Import Prelude.

Record Limiter := mkLimiter {
  limit : Z;
  window : Z;
  events : gmap gostring (list Z);
  requests : Z
}.

Definition second : Z := 1000000000.

Definition New (limit window : Z) : Limiter :=
  mkLimiter (if limit <=? 0 then 10 else limit)
            (if window <=? 0 then 10 * second else window) ∅ 0.

(** The loop that skips events not after the cutoff, and the reslice. *)
Fixpoint drop_expired (cutoff : Z) (events : list Z) : list Z :=
  match events with
  | [] => []
  | e :: events' => if negb (cutoff <? e) then drop_expired cutoff events' else events
  end.

(** [len(events) == 0 || !events[len(events)-1].After(cutoff)] *)
Definition stale (cutoff : Z) (events : list Z) : bool :=
  match last events with None => true | Some e => negb (cutoff <? e) end.

Definition cleanup (cutoff : Z) (events : gmap gostring (list Z)) : gmap gostring (list Z) :=
  filter (fun '(_, evs) => stale cutoff evs = false) events.

Definition Allow (l : Limiter) (key : gostring) (now : Z) : bool * Limiter :=
  let cutoff := now - window l in
  let evs := drop_expired cutoff (default [] (events l !! key)) in
  let allowed := blen evs <? limit l in
  let evs := if allowed then evs ++ [now] else evs in
  let m := if blen evs =? 0 then delete key (events l) else <[key := evs]> (events l) in
  let requests := uint64 (requests l + 1) in
  let m := if requests mod 1024 =? 0 then cleanup cutoff m else m in
  (allowed, mkLimiter (limit l) (window l) m requests).

(** Decisions for a sequence of requests. *)
Fixpoint Allow_all (l : Limiter) (reqs : list (gostring * Z)) : list bool * Limiter :=
  match reqs with
  | [] => ([], l)
  | (key, now) :: reqs' =>
    let '(d, l1) := Allow l key now in
    let '(ds, l2) := Allow_all l1 reqs' in (d :: ds, l2)
  end.

(** ** Specification *)

(** The allowed requests of [key] after [t]. *)
Definition recent (hist : list (gostring * Z)) (key : gostring) (t : Z) : list Z :=
  filter (fun e => t < e) (snd <$> filter (fun e => e.1 = key) hist).

(** Allow while fewer than [limit] requests of the key were allowed in the
    window ending now; [hist] is everything allowed before. *)
Fixpoint spec_allow_all (limit window : Z) (hist : list (gostring * Z)) (reqs : list (gostring * Z))
    : list bool * list (gostring * Z) :=
  match reqs with
  | [] => ([], hist)
  | (key, now) :: reqs' =>
    let d := blen (recent hist key (now - window)) <? limit in
    let '(ds, h) := spec_allow_all limit window (if d then hist ++ [(key, now)] else hist) reqs' in
    (d :: ds, h)
  end.

(** Requests in time order, none before [t]. *)
Fixpoint in_order (t : Z) (reqs : list (gostring * Z)) : Prop :=
  match reqs with
  | [] => True
  | (_, now) :: reqs' => t <= now /\ in_order now reqs'
  end.

#[global] Instance in_order_dec t reqs : Decision (in_order t reqs).
Proof. revert t. induction reqs as [|[k n] reqs IH]; intros t; cbn; apply _. Defined.

(** ** Lemmas *)

Lemma filter_filter_lt (a b : Z) (l : list Z) :
  a <= b -> filter (fun e => b < e) (filter (fun e => a < e) l) = filter (fun e => b < e) l.
Proof. intros Hab. apply list_filter_filter_l. lia. Qed.

Lemma drop_expired_sorted cutoff l :
  StronglySorted Z.le l -> drop_expired cutoff l = filter (fun e => cutoff < e) l.
Proof.
  induction 1 as [|e l Hs IH Hf]; [done|]. cbn [drop_expired]. rewrite filter_cons.
  destruct (Z.ltb_spec cutoff e) as [Hlt|Hge]; cbn [negb].
  - rewrite decide_True by done. f_equal. symmetry. apply filter_all.
    eapply Forall_impl; [exact Hf|]. lia.
  - by rewrite decide_False by lia.
Qed.

Lemma stale_sorted cutoff l :
  StronglySorted Z.le l -> stale cutoff l = true -> filter (fun e => cutoff < e) l = [].
Proof.
  intros Hs. unfold stale. destruct (last l) as [e|] eqn:El.
  2: { apply last_None in El as ->. done. }
  apply last_Some in El as [l' ->]. intros He. bool_facts. apply filter_none.
  apply Forall_forall. intros x Hx. apply elem_of_app in Hx as [Hx|Hx%list_elem_of_singleton]; [|lia].
  assert (x <= e); [|lia]. eapply (StronglySorted_app_1_elem_of Z.le); eauto. set_solver.
Qed.

Lemma recent_snoc hist k now key t :
  recent (hist ++ [(k, now)]) key t =
  recent hist key t ++ (if decide (k = key /\ t < now) then [now] else []).
Proof.
  unfold recent. rewrite filter_snoc. cbn. destruct (decide (k = key)) as [->|Hk].
  - rewrite fmap_app, filter_app. cbn. f_equal.
    destruct (decide (t < now)); [by rewrite decide_True|by rewrite decide_False by naive_solver].
  - rewrite (decide_False (P := k = key /\ _)) by naive_solver. by rewrite !app_nil_r.
Qed.

(** The limiter's log agrees with the full history inside the window. *)
Record limiter_inv (l : Limiter) (hist : list (gostring * Z)) (t : Z) : Prop := {
  li_window : 0 < window l;
  li_sorted : forall key, StronglySorted Z.le (default [] (events l !! key));
  li_past : forall key, Forall (fun e => e <= t) (default [] (events l !! key));
  li_recent : forall key,
    filter (fun e => t - window l < e) (default [] (events l !! key)) = recent hist key (t - window l)
}.

Lemma default_insert (key k : gostring) (evs : list Z) (m : gmap gostring (list Z)) :
  default [] (<[k := evs]> m !! key) = if decide (k = key) then evs else default [] (m !! key).
Proof. rewrite lookup_insert. by case_decide. Qed.

Lemma default_delete (key k : gostring) (m : gmap gostring (list Z)) :
  default [] (delete k m !! key) = if decide (k = key) then [] else default [] (m !! key).
Proof. rewrite lookup_delete. by case_decide. Qed.

(** Storing the log, which deletes the key when the log is empty. *)
Lemma default_store (key k : gostring) (evs : list Z) (m : gmap gostring (list Z)) :
  default [] ((if blen evs =? 0 then delete k m else <[k := evs]> m) !! key) =
  if decide (k = key) then evs else default [] (m !! key).
Proof.
  destruct (Z.eqb_spec (blen evs) 0) as [E|E]; [|apply default_insert].
  apply blen_0 in E as ->. apply default_delete.
Qed.

Lemma default_cleanup key cutoff m :
  default [] (cleanup cutoff m !! key) =
  (if stale cutoff (default [] (m !! key)) then [] else default [] (m !! key)).
Proof.
  unfold cleanup. rewrite map_lookup_filter. destruct (m !! key) as [evs|] eqn:E; cbn; [|done].
  destruct (stale cutoff evs) eqn:Es; cbn.
  - by rewrite option_guard_False by congruence.
  - by rewrite option_guard_True.
Qed.

Lemma limiter_inv_cleanup l hist t :
  limiter_inv l hist t ->
  limiter_inv (mkLimiter (limit l) (window l) (cleanup (t - window l) (events l)) (requests l)) hist t.
Proof.
  intros [Hw Hs Hp Hr]. split; [done|..]; intros key; cbn [events window]; rewrite default_cleanup;
    destruct (stale _ _) eqn:E; auto; try constructor.
  rewrite <-Hr, (stale_sorted _ _ (Hs key) E). done.
Qed.

(** One request: the decision of the specification, and the invariant at its time. *)
Lemma Allow_step l hist t key now :
  limiter_inv l hist t -> t <= now ->
  let d := blen (recent hist key (now - window l)) <? limit l in
  fst (Allow l key now) = d /\
  limiter_inv (snd (Allow l key now)) (if d then hist ++ [(key, now)] else hist) now /\
  limit (snd (Allow l key now)) = limit l /\ window (snd (Allow l key now)) = window l.
Proof.
  intros [Hw Hs Hp Hr] Ht. cbn zeta.
  assert (Hrec : forall k, filter (fun e => now - window l < e) (default [] (events l !! k))
     = recent hist k (now - window l)).
  { intros k. rewrite <-(filter_filter_lt (t - window l)), Hr by lia. unfold recent.
    by rewrite filter_filter_lt by lia. }
  unfold Allow. rewrite drop_expired_sorted, Hrec by auto.
  set (evs := recent hist key (now - window l)) in *. set (d := blen evs <? limit l).
  set (evs' := if d then evs ++ [now] else evs).
  assert (Hevs : StronglySorted Z.le evs /\ Forall (fun e => e <= t) evs).
  { unfold evs. rewrite <-Hrec, <-drop_expired_sorted by auto. clear -Hs Hp. specialize (Hs key). specialize (Hp key).
    revert Hs Hp. generalize (default [] (events l !! key)) as x. generalize (now - window l) as c.
    intros c x Hs Hp. induction Hs as [|e x Hs IH Hf]; [by split; constructor|]. cbn.
    inversion_clear Hp. destruct (c <? e); cbn; [split; [by constructor|by constructor]|auto]. }
  destruct Hevs as [Hes Hep].
  assert (Hevs' : StronglySorted Z.le evs' /\ Forall (fun e => e <= now) evs').
  { unfold evs'. assert (Forall (fun e => e <= now) evs) by (eapply Forall_impl; [exact Hep|]; cbn; lia).
    destruct d; [|done]. split; [|apply Forall_app; by split; [|apply Forall_singleton]].
    apply StronglySorted_app_2; [|done|repeat constructor].
    intros x y Hx Hy%list_elem_of_singleton. subst y. rewrite Forall_forall in H. auto. }
  destruct Hevs' as [Hes' Hep'].
  assert (Hinv : limiter_inv (mkLimiter (limit l) (window l)
     (if blen evs' =? 0 then delete key (events l) else <[key := evs']> (events l)) (uint64 (requests l + 1)))
     (if d then hist ++ [(key, now)] else hist) now).
  { split; [done|..]; intros k; cbn [events window]; rewrite default_store; case_decide as Hk; subst; auto.
    - eapply Forall_impl; [apply Hp|]. cbn. lia.
    - unfold evs'. assert (He : filter (fun e => now - window l < e) evs = evs).
      { unfold evs, recent. by rewrite filter_filter_lt. }
      destruct d; [|done]. rewrite recent_snoc, filter_snoc, He.
      by rewrite !decide_True by (try split; done || lia).
    - rewrite Hrec. destruct d; [|done]. rewrite recent_snoc, decide_False by naive_solver.
      by rewrite app_nil_r. }
  split_and!; [done| |done|done]. cbn [snd]. destruct (_ =? 0) eqn:Em in |- *; [|done].
  apply (limiter_inv_cleanup _ _ _ Hinv).
Qed.

Lemma Allow_all_spec reqs : forall l hist t,
  limiter_inv l hist t -> in_order t reqs ->
  fst (Allow_all l reqs) = fst (spec_allow_all (limit l) (window l) hist reqs).
Proof.
  induction reqs as [|[key now] reqs IH]; intros l hist t Hi Ho; [done|].
  destruct Ho as [Ht Ho]. cbn [Allow_all spec_allow_all].
  destruct (Allow_step l hist t key now Hi Ht) as (Hd & Hi' & Hl & Hw).
  destruct (Allow l key now) as [d l1]. cbn [fst snd] in *. subst d.
  specialize (IH l1 _ now Hi' Ho). rewrite Hl, Hw in IH.
  destruct (Allow_all l1 reqs), (spec_allow_all _ _ _ reqs). cbn in *. by f_equal.
Qed.

(** ** Lemmas: requests out of order *)

(** Concurrent callers read the clock before they take the lock, so requests may
    be handled out of order; [skewed d t reqs]: each by at most [d]. *)
Fixpoint skewed (d latest : Z) (reqs : list (gostring * Z)) : Prop :=
  match reqs with
  | [] => True
  | (_, now) :: reqs' => latest - d <= now /\ skewed d (Z.max latest now) reqs'
  end.

#[global] Instance skewed_dec d t reqs : Decision (skewed d t reqs).
Proof. revert t. induction reqs as [|[k n] reqs IH]; intros t; cbn; apply _. Defined.

Lemma drop_expired_filter c cutoff l :
  cutoff <= c -> filter (fun e => c < e) (drop_expired cutoff l) = filter (fun e => c < e) l.
Proof.
  intros Hc. induction l as [|e l IH]; [done|]. cbn [drop_expired].
  destruct (Z.ltb_spec cutoff e); cbn [negb]; [done|]. rewrite filter_cons, decide_False by lia. done.
Qed.

Lemma drop_expired_suffix cutoff l : exists pre, l = pre ++ drop_expired cutoff l.
Proof.
  induction l as [|e l [pre IH]]; [by exists []|]. cbn [drop_expired]. destruct (negb _); [|by exists []].
  exists (e :: pre). cbn. by f_equal.
Qed.

(** A log whose last entry has expired holds nothing that is more than the skew
    younger. *)
Lemma stale_skewed d cutoff l :
  StronglySorted (fun a b => a - d <= b) l -> 0 <= d -> stale cutoff l = true -> filter (fun e => cutoff + d < e) l = [].
Proof.
  intros Hs Hd. unfold stale. destruct (last l) as [e|] eqn:El; [|by apply last_None in El as ->].
  apply last_Some in El as [l' ->]. intros He. bool_facts. apply filter_none.
  apply Forall_forall. intros x Hx. apply elem_of_app in Hx as [Hx|Hx%list_elem_of_singleton]; [|lia].
  assert (x - d <= e); [|lia]. eapply (StronglySorted_app_1_elem_of (fun a b => a - d <= b)); eauto. set_solver.
Qed.

(** The log holds every allowed request that is young enough, up to the skew. *)
Record skew_inv (d : Z) (l : Limiter) (hist : list (gostring * Z)) (t : Z) : Prop := {
  sk_sorted : forall key, StronglySorted (fun a b => a - d <= b) (default [] (events l !! key));
  sk_past : forall key, Forall (fun e => e <= t) (default [] (events l !! key));
  sk_recent : forall key,
    filter (fun e => t - window l + d < e) (default [] (events l !! key)) = recent hist key (t - window l + d)
}.

Lemma recent_later hist key a b : a <= b -> filter (fun e => b < e) (recent hist key a) = recent hist key b.
Proof. intros H. unfold recent. by apply filter_filter_lt. Qed.

Lemma skew_inv_cleanup d l hist t cutoff :
  0 <= d -> cutoff <= t - window l -> skew_inv d l hist t ->
  skew_inv d (mkLimiter (limit l) (window l) (cleanup cutoff (events l)) (requests l)) hist t.
Proof.
  intros Hd Hc [Hs Hp Hr]. split; intros key; cbn [events window]; rewrite default_cleanup;
    destruct (stale _ _) eqn:E; auto; try constructor.
  rewrite <-Hr, <-(filter_filter_lt (cutoff + d) _ (default _ _)) by lia. by rewrite (stale_skewed d cutoff) by auto.
Qed.

Lemma Allow_skew d l hist t key now :
  0 <= d -> skew_inv d l hist t -> t - d <= now ->
  skew_inv d (snd (Allow l key now)) (if fst (Allow l key now) then hist ++ [(key, now)] else hist) (Z.max t now).
Proof.
  intros Hd [Hs Hp Hr] Ht. unfold Allow. cbn [fst snd].
  set (cutoff := now - window l). set (evs := drop_expired cutoff (default [] (events l !! key))).
  set (ok := blen evs <? limit l). set (evs' := if ok then evs ++ [now] else evs). set (c := Z.max t now - window l + d).
  destruct (drop_expired_suffix cutoff (default [] (events l !! key))) as [pre Hpre]. fold evs in Hpre.
  assert (Hes : StronglySorted (fun a b => a - d <= b) evs).
  { specialize (Hs key). rewrite Hpre in Hs. by apply StronglySorted_app_1_r in Hs. }
  assert (Hep : Forall (fun e => e <= t) evs).
  { specialize (Hp key). rewrite Hpre in Hp. by apply Forall_app in Hp as [_ Hp]. }
  assert (Hrec : forall k, filter (fun e => c < e) (default [] (events l !! k)) = recent hist k c).
  { intros k. rewrite <-(filter_filter_lt (t - window l + d)), Hr by (unfold c; lia). apply recent_later. unfold c; lia. }
  assert (Hinv : skew_inv d (mkLimiter (limit l) (window l)
     (if blen evs' =? 0 then delete key (events l) else <[key := evs']> (events l)) (uint64 (requests l + 1)))
     (if ok then hist ++ [(key, now)] else hist) (Z.max t now)).
  { split; intros k; cbn [events window]; rewrite default_store; case_decide as Hk; subst; auto.
    - unfold evs'. destruct ok; [|done]. apply StronglySorted_app_2; [|done|repeat constructor].
      intros x y Hx Hy%list_elem_of_singleton. subst y. rewrite Forall_forall in Hep. specialize (Hep x Hx). cbn in Hep. lia.
    - assert (He : Forall (fun e => e <= Z.max t now) evs) by (eapply Forall_impl; [exact Hep|]; cbn; lia).
      unfold evs'. destruct ok; [|done]. apply Forall_app. split; [done|]. apply Forall_singleton. lia.
    - eapply Forall_impl; [apply Hp|]. cbn. lia.
    - fold c. unfold evs'. assert (He : filter (fun e => c < e) evs = recent hist k c).
      { unfold evs. rewrite drop_expired_filter by (unfold c, cutoff; lia). apply Hrec. }
      destruct ok; [|done]. rewrite recent_snoc, filter_snoc, He. destruct (decide (c < now)); [by rewrite decide_True|].
      rewrite decide_False by naive_solver. done.
    - fold c. rewrite Hrec. destruct ok; [|done]. rewrite recent_snoc, decide_False by naive_solver. by rewrite app_nil_r. }
  destruct (_ =? 0) eqn:Em in |- *; [|done]. refine (skew_inv_cleanup _ _ _ _ cutoff Hd _ Hinv). unfold cutoff; cbn; lia.
Qed.

(** At most [lim] allowed requests of a key in the window before any time. *)
Definition window_bound (lim win : Z) (hist : list (gostring * Z)) : Prop :=
  forall key t, blen (filter (fun e => e <= t) (recent hist key (t - win))) <= lim.

Lemma Allow_window_bound d l hist t key now :
  0 <= d -> skew_inv d l hist t -> t - d <= now -> window_bound (limit l) (window l - 2 * d) hist ->
  window_bound (limit l) (window l - 2 * d) (if fst (Allow l key now) then hist ++ [(key, now)] else hist).
Proof.
  intros Hd [Hs Hp Hr] Ht Hb. unfold Allow. cbn [fst]. set (evs := drop_expired _ _).
  destruct (blen evs <? limit l) eqn:Eb; [|done]. bool_facts. intros k u. rewrite recent_snoc.
  destruct (decide (key = k /\ u - (window l - 2 * d) < now)) as [[<- Hu]|]; [|rewrite app_nil_r; apply Hb].
  rewrite filter_snoc. destruct (decide (now <= u)) as [Hn|]; [|rewrite app_nil_r; apply Hb].
  rewrite blen_app, blen_cons, (blen_nil (A:=Z)).
  assert (blen (filter (fun e => e <= u) (recent hist key (u - (window l - 2 * d)))) <= blen evs); [|lia].
  unfold blen. apply Nat2Z.inj_le. etransitivity; [apply length_filter|].
  rewrite <-(recent_later hist key (t - window l + d)), <-Hr, filter_filter_lt by lia.
  rewrite <-(drop_expired_filter _ (now - window l)) by lia. apply length_filter.
Qed.

(** The requests that were allowed. *)
Definition allowed_requests (reqs : list (gostring * Z)) (ds : list bool) : list (gostring * Z) :=
  fst <$> filter (fun p => p.2 = true) (zip reqs ds).

Lemma Allow_all_window_bound d reqs : forall l hist t,
  0 <= d -> skew_inv d l hist t -> skewed d t reqs -> window_bound (limit l) (window l - 2 * d) hist ->
  window_bound (limit l) (window l - 2 * d) (hist ++ allowed_requests reqs (fst (Allow_all l reqs))).
Proof.
  induction reqs as [|[key now] reqs IH]; intros l hist t Hd Hi Ho Hb; [by rewrite app_nil_r|].
  destruct Ho as [Ht Ho]. cbn [Allow_all].
  pose proof (Allow_skew d l hist t key now Hd Hi Ht) as Hi'. pose proof (Allow_window_bound d l hist t key now Hd Hi Ht Hb) as Hb'.
  assert (Hc : limit (snd (Allow l key now)) = limit l /\ window (snd (Allow l key now)) = window l) by done.
  destruct (Allow l key now) as [ok l1]. cbn [fst snd] in *. destruct Hc as [Hl Hw].
  specialize (IH l1 _ _ Hd Hi' Ho). rewrite Hl, Hw in IH. specialize (IH Hb').
  destruct (Allow_all l1 reqs) as [ds l2]. unfold allowed_requests in *. cbn in *. destruct ok; cbn; [by rewrite <-app_assoc in IH|done].
Qed.

Lemma Limiter_New_inv lim win t : limiter_inv (New lim win) [] t.
Proof.
  split; cbn; [unfold second; destruct (Z.leb_spec win 0); lia|..]; intros key;
    rewrite lookup_empty; cbn; by constructor.
Qed.

(** ** Properties *)

(** the limiter decides like a perfect sliding-window log: for requests
    arriving in time order, pruning expired events, deleting empty keys and the
    sweep every 1024 requests never change a decision. A request is allowed if
    and only if fewer than [limit] requests with its key were allowed in the
    window that ends at it. *)
Theorem limiter_sliding_window lim win t reqs :
  in_order t reqs ->
  fst (Allow_all (New lim win) reqs) =
  fst (spec_allow_all (limit (New lim win)) (window (New lim win)) [] reqs).
Proof. intros Ho. eapply Allow_all_spec; [apply Limiter_New_inv|done]. Qed.

Lemma limiter_sliding_window_witness :
  fst (Allow_all (New 2 10) [(str "a", 1); (str "a", 2); (str "b", 3); (str "a", 5); (str "a", 11)])
  = [true; true; true; false; true].
Proof.
  rewrite (limiter_sliding_window 2 10 0); [vm_compute; reflexivity|]. cbn. lia.
Defined.

(** C7: the guarantee to the backend. When requests are handled out of order by
    at most [d] (concurrent callers read the clock before they take the lock), at
    most [limit] login attempts of one key pass in any half-open time window that
    is shorter than the configured one by twice [d]; for requests handled in time
    order that is the configured window. *)
Theorem limiter_window_bound lim win d t reqs key u :
  0 <= d -> skewed d t reqs ->
  let l := New lim win in
  blen (filter (fun r => r.1 = key /\ u - (window l - 2 * d) < r.2 <= u)
          (allowed_requests reqs (fst (Allow_all l reqs)))) <= limit l.
Proof.
  intros Hd Ho. cbn zeta. assert (Hlim : 0 < limit (New lim win)) by (cbn; destruct (Z.leb_spec lim 0); lia).
  assert (Hi : skew_inv d (New lim win) [] t) by (split; intros k; cbn; rewrite lookup_empty; cbn; by constructor).
  assert (H0 : window_bound (limit (New lim win)) (window (New lim win) - 2 * d) []) by (intros k v; cbn -[New]; change (0 <= limit (New lim win)); lia).
  pose proof (Allow_all_window_bound d reqs _ [] t Hd Hi Ho H0 key u) as Hb. cbn [app] in Hb.
  etransitivity; [|exact Hb]. unfold blen, recent. rewrite list_filter_filter. set (l := New lim win). clearbody l.
  generalize (allowed_requests reqs (fst (Allow_all l reqs))) as h.
  intros h. apply Nat2Z.inj_le. induction h as [|[k n] h IH]; [done|].
  rewrite !filter_cons. cbn.
  destruct (decide (k = key /\ u - (window l - 2 * d) < n <= u)) as [[Hk Hn]|Hn].
  - rewrite (decide_True (P := k = key)) by done. cbn.
    rewrite decide_True by lia. apply le_n_S, IH.
  - destruct (decide (k = key)); [|done]. cbn. case_decide; [|done]. etransitivity; [exact IH|]. apply Nat.le_succ_diag_r.
Qed.

(** Four requests, the last one handled 2 too late: two of the three allowed ones
    are in any window of length 6. *)
Lemma limiter_window_bound_witness :
  fst (Allow_all (New 2 10) [(str "a", 1); (str "a", 12); (str "a", 13); (str "a", 11)]) = [true; true; true; false] /\
  blen (filter (fun r => r.1 = str "a" /\ 13 - (10 - 2 * 2) < r.2 <= 13)
    (allowed_requests [(str "a", 1); (str "a", 12); (str "a", 13); (str "a", 11)]
       (fst (Allow_all (New 2 10) [(str "a", 1); (str "a", 12); (str "a", 13); (str "a", 11)])))) <= 2.
Proof.
  split; [vm_compute; reflexivity|].
  apply (limiter_window_bound 2 10 2 0 [(str "a", 1); (str "a", 12); (str "a", 13); (str "a", 11)] (str "a") 13); [lia|]. cbn. lia.
Defined.

(** Out of order the full window does not hold: three requests within ten are
    allowed by a limiter for two. *)
Lemma out_of_order_exceeds_limit :
  let reqs := [(str "a", 15); (str "a", 16); (str "a", 30); (str "a", 17)] in
  filter (fun r => 7 < r.2 <= 17) (allowed_requests reqs (fst (Allow_all (New 2 10) reqs))) = [(str "a", 15); (str "a", 16); (str "a", 17)].
Proof. vm_compute. reflexivity. Qed.
