(* ===== verification/Handshake.v ===== *)
(** * The handshake packet (internal/protocol/handshake/handshake.go) *)

From S2P Require Import Prelude GoIO Varint Utf8 McString Frame Wire.

Definition ProtocolVersion : Z := 765.
Definition NextStatus : Z := 1.
Definition NextLogin : Z := 2.

Record Packet := mkPacket {
  hs_ProtocolVersion : Z;
  hs_ServerAddress : gostring;
  hs_ServerPort : Z;
  hs_NextState : Z
}.

Definition Payload (packet : Packet) : list byte :=
  let payload := AppendVarInt [] 0x00 in
  let payload := AppendVarInt payload (hs_ProtocolVersion packet) in
  let payload := AppendString payload (hs_ServerAddress packet) in
  let payload := payload ++ [mkbyte (Z.shiftr (hs_ServerPort packet) 8); mkbyte (hs_ServerPort packet)] in
  AppendVarInt payload (int32 (hs_NextState packet)).

(** The string and its encoded size. *)
Definition readString (data : list byte) (maxChars : Z) : res (gostring * Z) :=
  match ConsumeVarInt data with
  | Err _ => Err handshake_ErrMalformed
  | Ok (length, used) =>
    if (length <? 0) || (maxChars * 3 <? length) then Err handshake_ErrMalformed
    else
      let start := used in
      let end_ := start + length in
      if blen data <? end_ then Err handshake_ErrMalformed
      else
        let value := slice data (Z.to_nat start) (Z.to_nat end_) in
        if negb (utf8_Valid value) || (maxChars <? RuneCount value) then Err handshake_ErrMalformed
        else Ok (value, end_)
  end.

Definition Parse (payload : list byte) : res Packet :=
  let! (id, body) := PacketID payload else handshake_ErrMalformed in
  if negb (id =? 0x00) then Err handshake_ErrMalformed else
  let! (version, used) := ConsumeVarInt body else handshake_ErrMalformed in
  let body := drop (Z.to_nat used) body in
  let! (address, used) := readString body 255 else handshake_ErrMalformed in
  let body := drop (Z.to_nat used) body in
  if blen body <? 2 then Err handshake_ErrMalformed else
  let port := be_val (take 2 body) in
  let body := drop 2 body in
  let! (next, used) := ConsumeVarInt body else handshake_ErrMalformed in
  if negb (blen (drop (Z.to_nat used) body) =? 0) || (negb (next =? int32 NextStatus) && negb (next =? int32 NextLogin))
  then Err handshake_ErrMalformed
  else Ok (mkPacket version address port (uint32 next)).

Definition ValidateVersion (version : Z) : option error :=
  if negb (version =? ProtocolVersion) then Some (ErrUnsupportedVersion version) else None.

(** ** Specification *)

(** A packet the gateway accepts. *)
Definition handshake_ok (p : Packet) : Prop :=
  in_int32 (hs_ProtocolVersion p) /\ string_fits 255 (hs_ServerAddress p) = true /\
  in_uint16 (hs_ServerPort p) /\ (hs_NextState p = NextStatus \/ hs_NextState p = NextLogin).

(** The accepted encodings of a packet. *)
Definition handshake_wire (payload : list byte) (p : Packet) : Prop :=
  exists idb ver addr next, payload = idb ++ ver ++ addr ++ be_bytes 2 (hs_ServerPort p) ++ next /\
    enc_varint idb 0 /\ enc_varint ver (hs_ProtocolVersion p) /\
    enc_string 255 addr (hs_ServerAddress p) /\ enc_varint next (hs_NextState p).

(** ** Lemmas *)

(** The local reader is [codec.ConsumeString] with one error. *)
Lemma handshake_readString_eq data m :
  readString data m =
  match ConsumeString data m with Ok x => Ok x | Err _ => Err handshake_ErrMalformed end.
Proof.
  unfold readString, ConsumeString. destruct (ConsumeVarInt data) as [[len used]|]; [|done].
  by repeat case_match.
Qed.

Lemma be_bytes_port p : in_uint16 p -> [mkbyte (Z.shiftr p 8); mkbyte p] = be_bytes 2 p.
Proof. intros. rewrite !be_bytes_S. cbn. by rewrite Z.shiftr_0_r. Qed.

Lemma Payload_wire p : handshake_ok p -> handshake_wire (Payload p) p.
Proof.
  intros (Hv & Ha & Hp & Hn). unfold Payload. wire_norm.
  eexists (varint 0), (varint (hs_ProtocolVersion p)), (mcstring (hs_ServerAddress p)), (varint (int32 (hs_NextState p))).
  rewrite <-be_bytes_port by done. cbn [app]. split_and!; eauto with gate.
  - by apply enc_varint_varint.
  - assert (in_int32 (hs_NextState p)) by (unfold in_int32, NextStatus, NextLogin in *; lia).
    rewrite int32_small by done. by apply enc_varint_varint.
Qed.

Lemma Parse_wire payload p :
  handshake_ok p -> handshake_wire payload p -> Parse payload = Ok p.
Proof.
  intros (Hv & Ha & Hp & Hn) (idb & ver & addr & next & -> & Hi & He & Hs & Hx).
  unfold Parse. rewrite (PacketID_enc 0 _ (ver ++ addr ++ be_bytes 2 (hs_ServerPort p) ++ next)) by (by exists idb).
  cbn [negb Z.eqb]. rewrite (ConsumeVarInt_enc _ _ _ He). rewrite drop_app_blen by done.
  rewrite handshake_readString_eq, (ConsumeString_enc _ _ _ _ Hs), drop_app_blen by done.
  rewrite (proj2 (Z.ltb_ge _ _)) by (len; pose proof (blen_nonneg next); lia).
  rewrite take_be_bytes, drop_be_bytes, be_val_uint16 by done.
  rewrite (ConsumeVarInt_enc_nil _ _ Hx).
  replace (drop (Z.to_nat (blen next)) next) with (@nil byte) by (unfold blen; rewrite drop_ge; [done|lia]).
  cbn [blen length]. destruct p as [v a q nx]; cbn in *. destruct Hn as [-> | ->]; done.
Qed.

Lemma Parse_inv payload p : Parse payload = Ok p -> handshake_ok p /\ handshake_wire payload p.
Proof.
  unfold Parse. destruct (PacketID payload) as [[id body]|] eqn:Hid; [|done].
  case_match eqn:E1; [done|]. destruct (ConsumeVarInt body) as [[version used]|] eqn:Hv; [|done].
  rewrite handshake_readString_eq. destruct (ConsumeString _ 255) as [[address used']|] eqn:Hs; [|done].
  case_match eqn:E2; [done|].
  destruct (ConsumeVarInt (drop 2 _)) as [[next used'']|] eqn:Hn; [|done].
  case_match eqn:E3; [done|]. intros; simplify_eq. bool_facts. subst id.
  apply PacketID_inv in Hid as (idb & -> & Hi).
  apply ConsumeVarInt_inv in Hv as (ver & b1 & -> & Hv & ->). rewrite drop_app_blen in * by done.
  apply ConsumeString_inv in Hs as (addr & b2 & -> & Hs & ->). rewrite drop_app_blen in * by done.
  destruct b2 as [|p1 [|p0 b3]]; [done|done|]. cbn [take drop] in *. rewrite drop_0 in *.
  apply ConsumeVarInt_inv in Hn as (nx & b4 & -> & Hn & ->). rewrite drop_app_blen in * by done.
  apply blen_0 in H as ->. rewrite app_nil_r.
  assert (Hnext : next = 1 \/ next = 2).
  { apply andb_false_iff in H0 as [H0|H0]; bool_facts; [by left|by right]. }
  rewrite uint32_small by (unfold in_uint32; lia).
  split; [|exists idb, ver, addr, nx].
  - split_and!; cbn; [by eapply enc_varint_range|by eapply enc_string_fits| |done].
    pose proof (be_val_range [p1; p0]) as Hr. unfold in_uint16. exact Hr.
  - cbn [hs_ServerPort]. rewrite be_bytes_be_val by done. done.
Qed.

(** ** Properties *)

(** the handshake parser accepts exactly the grammar of the packet: a VarInt
    0, a VarInt version, an address of at most 255 characters, two port bytes, a
    VarInt 1 or 2 and nothing else; every other payload is [ErrMalformed].
    [Payload] writes an accepted encoding of every such packet, so it is parsed
    back. *)
Theorem handshake_parse_exact payload p :
  (Parse payload = Ok p <-> handshake_ok p /\ handshake_wire payload p) /\
  (handshake_ok p -> Parse (Payload p) = Ok p) /\
  ((forall q, Parse payload <> Ok q) -> Parse payload = Err handshake_ErrMalformed).
Proof.
  split_and!.
  - split; [apply Parse_inv|]. intros [Hp Hw]. by apply Parse_wire.
  - intros Hp. by apply Parse_wire, Payload_wire.
  - intros Hn. destruct (Parse payload) as [q|] eqn:E; [by destruct (Hn q)|].
    revert E. unfold Parse. repeat case_match; congruence.
Qed.

Lemma handshake_parse_exact_witness :
  Parse (Payload (mkPacket 765 (str "play.example.net") 25565 NextLogin)) =
  Ok (mkPacket 765 (str "play.example.net") 25565 NextLogin).
Proof.
  apply (handshake_parse_exact []). unfold handshake_ok. cbn.
  split_and!; [unfold in_int32; lia|done|unfold in_uint16; lia|by right].
Defined.
