(* ===== verification/Status.v ===== *)
(** * Server list status (internal/protocol/status/status.go)

    [encoding/json] is used on one fixed structure; [json_string] follows the
    encoder's string escaping (HTML characters included) and [json_Marshal] the
    field order of the struct tags. *)

From S2P Require Import Prelude GoIO Varint Utf8 McString Frame Wire.
From stdpp Require Import pretty.
Local Open Scope Z_scope.

Record Version := mkVersion { v_Name : gostring; v_Protocol : Z }.
Record Players := mkPlayers { pl_Max : Z; pl_Online : Z }.
Record Description := mkDescription { d_Text : gostring }.
Record Response := mkResponse {
  r_Version : Version;
  r_Players : Players;
  r_Description : Description
}.

(** ** encoding/json *)

(** The escape of a byte below 0x80 ([htmlSafeSet] and the switch after it). *)
Definition json_ascii (b : byte) : list byte :=
  let z := ubyte b in
  if (z =? 0x5c) || (z =? 0x22) then [x5c; b]
  else if z =? 0x08 then str "\b"
  else if z =? 0x0c then str "\f"
  else if z =? 0x0a then str "\n"
  else if z =? 0x0d then str "\r"
  else if z =? 0x09 then str "\t"
  else if (z <? 0x20) || (z =? 0x3c) || (z =? 0x3e) || (z =? 0x26)
  then str "\u00" ++ [hex_digit (Z.shiftr z 4); hex_digit z]
  else [b].

Fixpoint json_escape (fuel : nat) (s : list byte) : list byte :=
  match fuel, s with
  | S fuel', b :: s' =>
    if ubyte b <? 0x80 then json_ascii b ++ json_escape fuel' s'
    else match rune_width s with
         | None => str "\ufffd" ++ json_escape fuel' s'
         | Some n =>
           (if bool_decide (take n s = [xe2; x80; xa8]) then str "\u2028"
            else if bool_decide (take n s = [xe2; x80; xa9]) then str "\u2029"
            else take n s) ++ json_escape fuel' (drop n s)
         end
  | _, _ => []
  end.

Definition json_string (s : gostring) : list byte := [x22] ++ json_escape (length s) s ++ [x22].
Definition json_int (z : Z) : list byte := str (pretty z).

Definition json_key (k : string) : list byte := json_string (str k) ++ str ":".

Definition json_Marshal (r : Response) : list byte :=
  str "{" ++ json_key "version" ++ str "{" ++
    json_key "name" ++ json_string (v_Name (r_Version r)) ++ str "," ++
    json_key "protocol" ++ json_int (v_Protocol (r_Version r)) ++ str "}," ++
  json_key "players" ++ str "{" ++
    json_key "max" ++ json_int (pl_Max (r_Players r)) ++ str "," ++
    json_key "online" ++ json_int (pl_Online (r_Players r)) ++ str "}," ++
  json_key "description" ++ str "{" ++
    json_key "text" ++ json_string (d_Text (r_Description r)) ++ str "}}".

(** ** Packets *)

Definition ParseRequest (payload : list byte) : option error :=
  match PacketID payload with
  | Err _ => Some status_ErrMalformed
  | Ok (id, body) =>
    if negb (id =? 0x00) || negb (blen body =? 0) then Some status_ErrMalformed else None
  end.

Definition ParsePing (payload : list byte) : res Z :=
  let! (id, body) := PacketID payload else status_ErrMalformed in
  if negb (id =? 0x01) || negb (blen body =? 8) then Err status_ErrMalformed
  else Ok (int64 (be_val body)).

(** [json.Marshal] cannot fail on this structure. *)
Definition ResponsePayload (response : Response) : res (list byte) :=
  let data := json_Marshal response in
  let payload := AppendVarInt [] 0x00 in
  Ok (AppendString payload data).

Definition PongPayload (value : Z) : list byte :=
  let payload := AppendVarInt [] 0x01 in
  payload ++ be_bytes 8 (uint64 value).

(** ** Properties *)

Lemma ParsePing_iff payload v :
  ParsePing payload = Ok v <-> in_int64 v /\ enc_packet 1 payload (be_bytes 8 (uint64 v)).
Proof.
  unfold ParsePing. split.
  - destruct (PacketID payload) as [[id body]|] eqn:E; [|done]. case_match eqn:Ec; [done|].
    intros; simplify_eq. bool_facts. subst. split; [apply int64_range|].
    rewrite be_bytes_int64 by (unfold blen in *; lia). by apply PacketID_inv.
  - intros [Hv He]. rewrite (PacketID_enc _ _ _ He). by rewrite blen_be_bytes, int64_be_val.
Qed.

Example json_escaping :
  json_string (str "a<b>&\") = [x22] ++ str "a\u003cb\u003e\u0026\\" ++ [x22].
Proof. reflexivity. Qed.

(** the status exchange. A request is exactly packet 0 with an empty body; a
    ping is exactly packet 1 with eight bytes, read as a signed 64-bit value;
    the pong for that value carries the same eight bytes, so the client gets its
    payload back bit for bit; and the response is packet 0 holding one string,
    the JSON document, which a reader with a sufficient limit reads back. *)
Theorem status_exchange payload v response maxChars :
  (ParseRequest payload = None <-> enc_packet 0 payload []) /\
  (ParsePing payload = Ok v <-> in_int64 v /\ enc_packet 1 payload (be_bytes 8 (uint64 v))) /\
  (forall body, enc_packet 1 payload body -> length body = 8%nat ->
     exists w, ParsePing payload = Ok w /\ PacketID (PongPayload w) = Ok (1, body)) /\
  (string_fits maxChars (json_Marshal response) = true ->
   exists data body, ResponsePayload response = Ok data /\ PacketID data = Ok (0, body) /\
     ConsumeString body maxChars = Ok (json_Marshal response, blen body)).
Proof.
  split_and!.
  - unfold ParseRequest. split.
    + destruct (PacketID payload) as [[id body]|] eqn:E; [|done]. case_match eqn:Ec; [done|].
      intros _. bool_facts. subst. apply PacketID_inv in E. by apply blen_0 in H0 as ->.
    + intros He. by rewrite (PacketID_enc _ _ _ He).
  - apply ParsePing_iff.
  - intros body He Hl. exists (int64 (be_val body)). split.
    + apply ParsePing_iff. split; [apply int64_range|]. by rewrite be_bytes_int64.
    + unfold PongPayload. wire_norm. rewrite be_bytes_int64 by done. by rewrite PacketID_varint.
  - intros Hf. unfold ResponsePayload. wire_norm. eexists _, _. split; [done|].
    rewrite PacketID_varint by done. split; [done|].
    rewrite <-(app_nil_r (mcstring _)). rewrite (ConsumeString_mcstring _ [] maxChars) by done.
    by rewrite app_nil_r.
Qed.

Lemma status_exchange_witness :
  exists w, ParsePing [x01; x00; x00; x00; x00; x00; x00; x00; x2a] = Ok w /\
    PacketID (PongPayload w) = Ok (1, [x00; x00; x00; x00; x00; x00; x00; x2a]).
Proof.
  apply (status_exchange _ 0 (mkResponse (mkVersion [] 0) (mkPlayers 0 0) (mkDescription [])) 0);
    [|done]. by exists [x01].
Defined.
