(* ===== verification/Login.v ===== *)
(** * Login packets (internal/protocol/login/login.go) *)

From S2P Require Import Prelude GoIO Varint Utf8 McString Frame Wire Crypto.

Definition ServerboundLoginStartID : Z := 0x00.
Definition ServerboundEncryptionResponseID : Z := 0x01.
Definition ServerboundPluginResponseID : Z := 0x02.
Definition ServerboundLoginAckID : Z := 0x03.
Definition ClientboundEncryptionRequestID : Z := 0x01.
Definition ClientboundLoginSuccessID : Z := 0x02.
Definition ClientboundPluginRequestID : Z := 0x04.
Definition maxEncryptionFieldSize : Z := 1024.

Record Start := mkStart { st_Username : gostring; st_UUID : list byte }.
Record PluginRequest := mkPluginRequest { pr_MessageID : Z; pr_Channel : gostring; pr_Data : list byte }.
Record EncryptionRequest := mkEncryptionRequest {
  er_ServerID : gostring;
  er_PublicKey : list byte;
  er_VerifyToken : list byte;
  er_ShouldAuthenticate : bool
}.
Record EncryptionResponse := mkEncryptionResponse { es_SharedSecret : list byte; es_VerifyToken : list byte }.

(** The same struct in packages login, forwarding and auth; the server converts
    between them field by field. *)
Record Property := mkProperty { p_Name : gostring; p_Value : gostring; p_Signature : gostring }.

Definition appendByteArray (dst value : list byte) : list byte :=
  AppendVarInt dst (int32 (blen value)) ++ value.

(** The bytes and their encoded size. *)
Definition consumeByteArray (data : list byte) (limit : Z) : res (list byte * Z) :=
  let! (length, used) := ConsumeVarInt data else login_ErrMalformed in
  if (length <? 0) || (limit <? length) then Err login_ErrMalformed else
  let end_ := used + length in
  if blen data <? end_ then Err login_ErrMalformed
  else Ok (slice data (Z.to_nat used) (Z.to_nat end_), end_).

Definition readString (data : list byte) (maxChars : Z) : res (gostring * Z) :=
  match ConsumeVarInt data with
  | Err _ => Err login_ErrMalformed
  | Ok (length, used) =>
    if (length <? 0) || (maxChars * 3 <? length) then Err login_ErrMalformed
    else
      let start := used in
      let end_ := start + length in
      if blen data <? end_ then Err login_ErrMalformed
      else
        let value := slice data (Z.to_nat start) (Z.to_nat end_) in
        if negb (utf8_Valid value) || (maxChars <? RuneCount value) then Err login_ErrMalformed
        else Ok (value, end_)
  end.

(** ** Encryption handshake *)

Definition EncryptionRequestPayload (serverID : gostring) (publicKey verifyToken : list byte)
    (shouldAuthenticate : bool) : list byte :=
  let payload := AppendVarInt [] ClientboundEncryptionRequestID in
  let payload := AppendString payload serverID in
  let payload := appendByteArray payload publicKey in
  let payload := appendByteArray payload verifyToken in
  if shouldAuthenticate then payload ++ [x01] else payload ++ [x00].

Definition ParseEncryptionRequest (payload : list byte) : res EncryptionRequest :=
  let! (id, body) := PacketID payload else login_ErrMalformed in
  if negb (id =? ClientboundEncryptionRequestID) then Err login_ErrMalformed else
  let! (serverID, used) := readString body 20 else login_ErrMalformed in
  let body := drop (Z.to_nat used) body in
  let! (publicKey, used) := consumeByteArray body maxEncryptionFieldSize in
  let body := drop (Z.to_nat used) body in
  let! (verifyToken, used) := consumeByteArray body maxEncryptionFieldSize in
  let body := drop (Z.to_nat used) body in
  match body with
  | [b] => if 1 <? ubyte b then Err login_ErrMalformed
           else Ok (mkEncryptionRequest serverID publicKey verifyToken (ubyte b =? 1))
  | _ => Err login_ErrMalformed
  end.

Definition EncryptionResponsePayload (sharedSecret verifyToken : list byte) : list byte :=
  let payload := AppendVarInt [] ServerboundEncryptionResponseID in
  let payload := appendByteArray payload sharedSecret in
  appendByteArray payload verifyToken.

Definition ParseEncryptionResponse (payload : list byte) : res EncryptionResponse :=
  let! (id, body) := PacketID payload else login_ErrMalformed in
  if negb (id =? ServerboundEncryptionResponseID) then Err login_ErrMalformed else
  let! (sharedSecret, used) := consumeByteArray body maxEncryptionFieldSize in
  let body := drop (Z.to_nat used) body in
  let! (verifyToken, used) := consumeByteArray body maxEncryptionFieldSize else login_ErrMalformed in
  if negb (used =? blen body) then Err login_ErrMalformed
  else Ok (mkEncryptionResponse sharedSecret verifyToken).

(** ** Plugin messages *)

Definition ParsePluginRequest (payload : list byte) : res PluginRequest :=
  let! (id, body) := PacketID payload else login_ErrMalformed in
  if negb (id =? ClientboundPluginRequestID) then Err login_ErrMalformed else
  let! (messageID, used) := ConsumeVarInt body else login_ErrMalformed in
  if messageID <? 0 then Err login_ErrMalformed else
  let body := drop (Z.to_nat used) body in
  let! (channel, used) := ConsumeString body 32767 else login_ErrMalformed in
  Ok (mkPluginRequest messageID channel (drop (Z.to_nat used) body)).

(** [data] is [None] for a nil slice. *)
Definition PluginResponsePayload (messageID : Z) (data : option (list byte)) : list byte :=
  let payload := AppendVarInt [] ServerboundPluginResponseID in
  let payload := AppendVarInt payload messageID in
  match data with
  | None => payload ++ [x00]
  | Some data => payload ++ [x01] ++ data
  end.

(** ** Login start *)

Definition StartPayload (username : gostring) (uid : list byte) : list byte :=
  let payload := AppendVarInt [] ServerboundLoginStartID in
  let payload := AppendString payload username in
  payload ++ uid.

Definition username_char (b : byte) : bool :=
  let char := ubyte b in
  negb (((char <? 65) || (90 <? char)) && ((char <? 97) || (122 <? char)) &&
        ((char <? 48) || (57 <? char)) && negb (char =? 95)).

Definition validUsername (username : gostring) : bool :=
  if (blen username =? 0) || (16 <? blen username) then false
  else forallb username_char username.

Definition ParseStart (payload : list byte) : res Start :=
  let! (id, body) := PacketID payload else login_ErrMalformed in
  if negb (id =? ServerboundLoginStartID) then Err login_ErrMalformed else
  let! (username, used) := readString body 16 else login_ErrMalformed in
  if negb (blen body =? used + 16) then Err login_ErrMalformed
  else if negb (validUsername username) then Err login_ErrMalformed
  else Ok (mkStart username (drop (Z.to_nat used) body)).

Definition ParseAcknowledged (payload : list byte) : option error :=
  match PacketID payload with
  | Err _ => Some login_ErrMalformed
  | Ok (id, body) =>
    if negb (id =? ServerboundLoginAckID) || negb (blen body =? 0) then Some login_ErrMalformed else None
  end.

(** [json_text message] is the [text] field after [json.Unmarshal], [None] when
    that fails. *)
Definition ParseDisconnectReason (json_text : gostring -> option gostring) (payload : list byte) : gostring :=
  match PacketID payload with
  | Err _ => []
  | Ok (id, body) =>
    if negb (id =? 0x00) then []
    else match ConsumeString body 32767 with
         | Err _ => []
         | Ok (message, used) =>
           if negb (used =? blen body) then []
           else match json_text message with
                | Some text => if bool_decide (text = []) then message else text
                | None => message
                end
         end
  end.

(** ** Login success *)

Fixpoint append_properties (payload : list byte) (properties : list Property) : list byte :=
  match properties with
  | [] => payload
  | property :: properties' =>
    let payload := AppendString payload (p_Name property) in
    let payload := AppendString payload (p_Value property) in
    if bool_decide (p_Signature property = []) then append_properties (payload ++ [x00]) properties'
    else append_properties (AppendString (payload ++ [x01]) (p_Signature property)) properties'
  end.

Definition SuccessProfilePayload (uid : list byte) (username : gostring) (properties : list Property) : list byte :=
  let payload := AppendVarInt [] ClientboundLoginSuccessID in
  let payload := payload ++ uid in
  let payload := AppendString payload username in
  let payload := AppendVarInt payload (int32 (blen properties)) in
  append_properties payload properties.

Definition set_byte (i : nat) (f : Z -> Z) (l : list byte) : list byte :=
  alter (fun b => mkbyte (f (ubyte b))) i l.

Definition OfflineUUID (username : gostring) : list byte :=
  let digest := md5_Sum (str "OfflinePlayer:" ++ username) in
  let digest := set_byte 6 (fun b => Z.lor (Z.land b 0x0f) 0x30) digest in
  set_byte 8 (fun b => Z.lor (Z.land b 0x3f) 0x80) digest.

Definition SuccessPayload (username : gostring) : list byte :=
  SuccessProfilePayload (OfflineUUID username) username [].

(** UUID, username and error, as the code returns them. *)
Definition ReadUUID (payload : list byte) : list byte * gostring * option error :=
  let uid := replicate 16 x00 in
  match PacketID payload with
  | Err _ => (uid, [], Some login_ErrMalformed)
  | Ok (id, body) =>
    if negb (id =? ClientboundLoginSuccessID) || (blen body <? 16) then (uid, [], Some login_ErrMalformed)
    else
      let uid := take 16 body in
      match readString (drop 16 body) 16 with
      | Err _ => (uid, [], Some login_ErrMalformed)
      | Ok (username, used) =>
        let rest := drop (16 + Z.to_nat used) body in
        if blen rest =? 0 then (uid, [], Some login_ErrMalformed)
        else match ConsumeVarInt rest with
             | Err _ => (uid, [], Some login_ErrMalformed)
             | Ok (properties, usedProperties) =>
               if negb (properties =? 0) || negb (usedProperties =? blen rest)
               then (uid, [], Some login_ErrMalformed)
               else (uid, username, None)
             end
      end
  end.

(** [None] is the out-of-range panic. *)
Definition ReadPort (data : list byte) : option Z :=
  if blen data <? 2 then None else Some (be_val (take 2 data)).

(** ** Specification *)

(** A length-prefixed byte array of at most [limit] bytes. *)
Definition enc_bytes (limit : Z) (l v : list byte) : Prop :=
  exists p, l = p ++ v /\ enc_varint p (blen v) /\ blen v <= limit.

Definition start_ok (s : Start) : Prop := validUsername (st_Username s) = true /\ length (st_UUID s) = 16%nat.

Definition start_wire (payload : list byte) (s : Start) : Prop :=
  exists name, enc_packet ServerboundLoginStartID payload (name ++ st_UUID s) /\
    enc_string 16 name (st_Username s).

Definition request_wire (payload : list byte) (r : EncryptionRequest) : Prop :=
  exists sid key tok, enc_packet ClientboundEncryptionRequestID payload
      (sid ++ key ++ tok ++ [if er_ShouldAuthenticate r then x01 else x00]) /\
    enc_string 20 sid (er_ServerID r) /\
    enc_bytes maxEncryptionFieldSize key (er_PublicKey r) /\
    enc_bytes maxEncryptionFieldSize tok (er_VerifyToken r).

Definition response_wire (payload : list byte) (r : EncryptionResponse) : Prop :=
  exists sec tok, enc_packet ServerboundEncryptionResponseID payload (sec ++ tok) /\
    enc_bytes maxEncryptionFieldSize sec (es_SharedSecret r) /\
    enc_bytes maxEncryptionFieldSize tok (es_VerifyToken r).

(** What a client or backend does with a property list: [n] entries of name,
    value, a flag, and a signature if the flag is set. *)
Fixpoint read_properties (n : nat) (data : list byte) : res (list Property * list byte) :=
  match n with
  | O => Ok ([], data)
  | S n' =>
    let! (name, used) := ConsumeString data 32767 in
    let data := drop (Z.to_nat used) data in
    let! (value, used) := ConsumeString data 32767 in
    let data := drop (Z.to_nat used) data in
    match data with
    | [] => Err io_ErrUnexpectedEOF
    | flag :: data =>
      let! (sig, data) :=
        (if ubyte flag =? 0 then Ok ([], data)
         else let! (sig, used) := ConsumeString data 32767 in Ok (sig, drop (Z.to_nat used) data)) in
      let! (ps, data) := read_properties n' data in
      Ok (mkProperty name value sig :: ps, data)
    end
  end.

Definition property_ok (p : Property) : Prop :=
  string_fits 32767 (p_Name p) = true /\ string_fits 32767 (p_Value p) = true /\
  string_fits 32767 (p_Signature p) = true.

(** What a client does with Login Success. *)
Definition read_success (payload : list byte) : res (list byte * gostring * list Property) :=
  let! (id, body) := PacketID payload in
  if negb (id =? ClientboundLoginSuccessID) || (blen body <? 16) then Err login_ErrMalformed else
  let! (username, used) := ConsumeString (drop 16 body) 16 in
  let data := drop (Z.to_nat used) (drop 16 body) in
  let! (n, used) := ConsumeVarInt data in
  if n <? 0 then Err login_ErrMalformed else
  let! (ps, rest) := read_properties (Z.to_nat n) (drop (Z.to_nat used) data) in
  if bool_decide (rest = []) then Ok (take 16 body, username, ps) else Err login_ErrMalformed.

(** ** Lemmas: fields *)

Lemma login_readString_eq data m :
  readString data m = match ConsumeString data m with Ok x => Ok x | Err _ => Err login_ErrMalformed end.
Proof.
  unfold readString, ConsumeString. destruct (ConsumeVarInt data) as [[len used]|]; [|done].
  by repeat case_match.
Qed.

Lemma appendByteArray_app dst v : appendByteArray dst v = dst ++ varint (int32 (blen v)) ++ v.
Proof. unfold appendByteArray. by rewrite AppendVarInt_app, <-app_assoc. Qed.

Lemma enc_bytes_append limit v :
  blen v <= limit -> limit < 2 ^ 31 -> enc_bytes limit (varint (int32 (blen v)) ++ v) v.
Proof.
  intros Hv Hl. eexists. split; [done|]. split; [|done].
  rewrite blen_int32 by lia. apply enc_varint_varint. pose proof (blen_nonneg v). unfold in_int32. lia.
Qed.

Lemma consumeByteArray_enc limit l v rest :
  enc_bytes limit l v -> consumeByteArray (l ++ rest) limit = Ok (v, blen l).
Proof.
  intros (p & -> & Hp & Hv). unfold consumeByteArray. rewrite <-app_assoc, (ConsumeVarInt_enc _ _ _ Hp).
  pose proof (blen_nonneg v). pose proof (blen_nonneg rest). len.
  wire_tests. rewrite slice_app_Z by done. done.
Qed.

Lemma consumeByteArray_enc_nil limit l v :
  enc_bytes limit l v -> consumeByteArray l limit = Ok (v, blen l).
Proof. intros He. rewrite <-(app_nil_r l) at 1. by apply consumeByteArray_enc. Qed.

Lemma consumeByteArray_inv limit data v n :
  consumeByteArray data limit = Ok (v, n) ->
  exists l rest, data = l ++ rest /\ enc_bytes limit l v /\ n = blen l.
Proof.
  unfold consumeByteArray. destruct (ConsumeVarInt data) as [[len used]|] eqn:E; [|done].
  apply ConsumeVarInt_inv in E as (p & tail & -> & Hp & ->).
  case_match eqn:E1; [done|]. case_match eqn:E2; [done|]. intros; simplify_eq. bool_facts.
  rewrite blen_app in *.
  assert (Hs : slice (p ++ tail) (Z.to_nat (blen p)) (Z.to_nat (blen p + len)) = take (Z.to_nat len) tail).
  { unfold slice. rewrite drop_app_blen by done. f_equal. pose proof (blen_nonneg p). lia. }
  rewrite Hs.
  assert (Hl : blen (take (Z.to_nat len) tail) = len) by (unfold blen in *; rewrite length_take; lia).
  exists (p ++ take (Z.to_nat len) tail), (drop (Z.to_nat len) tail).
  rewrite <-app_assoc, take_drop, blen_app, Hl. split_and!; [done| |done].
  exists p. by rewrite Hl.
Qed.

Lemma validUsername_fits s : validUsername s = true -> string_fits 16 s = true.
Proof.
  unfold validUsername. case_match eqn:E; [done|]. intros Hf. bool_facts.
  assert (Hv : utf8_Valid s = true).
  { apply ascii_Valid, List.Forall_forall. intros b Hb. rewrite forallb_forall in Hf.
    specialize (Hf b Hb). clear -Hf. by destruct b. }
  unfold string_fits. rewrite Hv. pose proof (RuneCount_le s). cbn [andb].
  by wire_tests.
Qed.

(** ** Lemmas: packets *)

Lemma drop_blen_ge {A} (l : list A) : drop (Z.to_nat (blen l)) l = [].
Proof. unfold blen. rewrite drop_ge; [done|lia]. Qed.

Lemma ParseStart_iff payload s :
  ParseStart payload = Ok s <-> start_ok s /\ start_wire payload s.
Proof.
  unfold ParseStart. split.
  - destruct (PacketID payload) as [[id body]|] eqn:Hid; [|done]. case_match eqn:E1; [done|].
    rewrite login_readString_eq. destruct (ConsumeString body 16) as [[name used]|] eqn:Hs; [|done].
    case_match eqn:E2; [done|]. case_match eqn:E3; [done|]. intros; simplify_eq. bool_facts. subst id.
    apply PacketID_inv in Hid. apply ConsumeString_inv in Hs as (l & rest & -> & Hs & ->).
    rewrite drop_app_blen by done. split; [split; cbn; [done|]|by exists l]. len. unfold blen in *. lia.
  - destruct s as [name uid]. intros [[Hn Hu] (l & Hid & Hs)]. cbn in *. rewrite (PacketID_enc _ _ _ Hid).
    cbn [negb Z.eqb ServerboundLoginStartID]. rewrite login_readString_eq, (ConsumeString_enc _ _ _ _ Hs).
    rewrite blen_app. unfold blen at 2. rewrite Hu. wire_tests. cbn [negb].
    by rewrite Hn, drop_app_blen by done.
Qed.

Lemma ParseEncryptionRequest_iff payload r :
  ParseEncryptionRequest payload = Ok r <-> request_wire payload r.
Proof.
  unfold ParseEncryptionRequest. split.
  - destruct (PacketID payload) as [[id body]|] eqn:Hid; [|done]. case_match eqn:E1; [done|].
    rewrite login_readString_eq. destruct (ConsumeString body 20) as [[sid used]|] eqn:Hs; [|done].
    destruct (consumeByteArray (drop _ body) _) as [[key used1]|] eqn:Hk; [|done].
    destruct (consumeByteArray (drop _ (drop _ body)) _) as [[tok used2]|] eqn:Ht; [|done].
    bool_facts. subst id. apply PacketID_inv in Hid.
    apply ConsumeString_inv in Hs as (l1 & b1 & -> & Hs & ->). rewrite drop_app_blen in * by done.
    apply consumeByteArray_inv in Hk as (l2 & b2 & -> & Hk & ->). rewrite drop_app_blen in * by done.
    apply consumeByteArray_inv in Ht as (l3 & b3 & -> & Ht & ->). rewrite drop_app_blen in * by done.
    destruct b3 as [|b [|]]; [done| |done]. case_match eqn:E2; [done|]. intros; simplify_eq.
    exists l1, l2, l3. cbn. split_and!; try done.
    replace (if ubyte b =? 1 then x01 else x00) with b; [done|].
    bool_facts. clear -E2. by destruct b.
  - destruct r as [sid key tok auth]. intros (l1 & l2 & l3 & Hid & Hs & Hk & Ht). cbn in *.
    rewrite (PacketID_enc _ _ _ Hid). cbn [negb Z.eqb ClientboundEncryptionRequestID].
    rewrite login_readString_eq, (ConsumeString_enc _ _ _ _ Hs), drop_app_blen by done.
    rewrite (consumeByteArray_enc _ _ _ _ Hk), drop_app_blen by done.
    rewrite (consumeByteArray_enc _ _ _ _ Ht), drop_app_blen by done. by destruct auth.
Qed.

Lemma ParseEncryptionResponse_iff payload r :
  ParseEncryptionResponse payload = Ok r <-> response_wire payload r.
Proof.
  unfold ParseEncryptionResponse. split.
  - destruct (PacketID payload) as [[id body]|] eqn:Hid; [|done]. case_match eqn:E1; [done|].
    destruct (consumeByteArray body _) as [[sec used]|] eqn:Hk; [|done].
    destruct (consumeByteArray (drop _ body) _) as [[tok used2]|] eqn:Ht; [|done].
    case_match eqn:E2; [done|]. intros; simplify_eq. bool_facts. subst.
    apply PacketID_inv in Hid.
    apply consumeByteArray_inv in Hk as (l1 & b1 & -> & Hk & ->). rewrite drop_app_blen in * by done.
    apply consumeByteArray_inv in Ht as (l2 & b2 & -> & Ht & Hb).
    rewrite blen_app in Hb. assert (b2 = []) as -> by (apply blen_0; lia). rewrite app_nil_r in *.
    by exists l1, l2.
  - destruct r as [sec tok]. intros (l1 & l2 & Hid & Hk & Ht). cbn in *.
    rewrite (PacketID_enc _ _ _ Hid). cbn [negb Z.eqb ServerboundEncryptionResponseID].
    rewrite (consumeByteArray_enc _ _ _ _ Hk), drop_app_blen by done.
    rewrite (consumeByteArray_enc_nil _ _ _ Ht). by rewrite Z.eqb_refl.
Qed.

(** ** Lemmas: property lists *)

Definition property_bytes (p : Property) : list byte :=
  mcstring (p_Name p) ++ mcstring (p_Value p) ++
  (if bool_decide (p_Signature p = []) then [x00] else x01 :: mcstring (p_Signature p)).

Lemma append_properties_app ps : forall payload,
  append_properties payload ps = payload ++ concat (property_bytes <$> ps).
Proof.
  induction ps as [|p ps IH]; intros payload; cbn [append_properties fmap list_fmap concat].
  - by rewrite app_nil_r.
  - unfold property_bytes at 1. case_bool_decide; rewrite IH; rewrite !AppendString_app;
      by rewrite <-!app_assoc.
Qed.

Lemma read_properties_app ps rest :
  Forall property_ok ps ->
  read_properties (length ps) (concat (property_bytes <$> ps) ++ rest) = Ok (ps, rest).
Proof.
  induction 1 as [|p ps (Hn & Hv & Hs) _ IH]; [done|].
  cbn [read_properties length fmap list_fmap concat]. rewrite <-app_assoc.
  set (tail := concat (property_bytes <$> ps) ++ rest) in *. clearbody tail. unfold property_bytes.
  rewrite <-!app_assoc. rewrite ConsumeString_mcstring, drop_app_blen by done.
  rewrite ConsumeString_mcstring, drop_app_blen by done.
  destruct p as [n v s]; cbn in *. case_bool_decide as Hb; cbn [app].
  - subst s. change (ubyte x00 =? 0) with true. cbn iota. by rewrite IH.
  - change (ubyte x01 =? 0) with false. cbn iota.
    rewrite ConsumeString_mcstring, drop_app_blen by done. by rewrite IH.
Qed.

Lemma read_success_payload uid username ps :
  length uid = 16%nat -> string_fits 16 username = true -> Forall property_ok ps -> blen ps < 2 ^ 31 ->
  read_success (SuccessProfilePayload uid username ps) = Ok (uid, username, ps).
Proof.
  intros Hu Hn Hp Hl. unfold read_success, SuccessProfilePayload.
  rewrite append_properties_app. wire_norm.
  rewrite PacketID_varint by done. cbn [negb Z.eqb ClientboundLoginSuccessID orb].
  rewrite (proj2 (Z.ltb_ge _ _)).
  2: { len. unfold blen at 1. rewrite Hu. pose proof (blen_nonneg (mcstring username)).
       pose proof (varint_length (int32 (blen ps))). pose proof (blen_nonneg (concat (property_bytes <$> ps))). lia. }
  rewrite <-Hu, drop_app_length, take_app_length.
  rewrite ConsumeString_mcstring, drop_app_blen by done.
  rewrite ConsumeVarInt_varint, drop_app_blen by (done || apply int32_range).
  rewrite blen_int32 by done. pose proof (blen_nonneg ps). wire_tests.
  unfold blen. rewrite Nat2Z.id. rewrite <-(app_nil_r (concat _)), read_properties_app by done.
  by rewrite bool_decide_true.
Qed.

(** [ReadUUID] accepts a profile exactly when it has no properties. *)
Lemma ReadUUID_payload uid username ps :
  length uid = 16%nat -> string_fits 16 username = true -> blen ps < 2 ^ 31 ->
  ReadUUID (SuccessProfilePayload uid username ps) =
  if bool_decide (ps = []) then (uid, username, None) else (uid, [], Some login_ErrMalformed).
Proof.
  intros Hu Hn Hl. unfold ReadUUID, SuccessProfilePayload.
  rewrite append_properties_app. wire_norm.
  rewrite PacketID_varint by done. cbn [negb Z.eqb ClientboundLoginSuccessID orb].
  pose proof (varint_length (int32 (blen ps))) as Hlen. pose proof (blen_nonneg (concat (property_bytes <$> ps))).
  rewrite (proj2 (Z.ltb_ge _ _)).
  2: { len. unfold blen at 1. rewrite Hu. pose proof (blen_nonneg (mcstring username)). lia. }
  rewrite <-Hu, drop_app_length, take_app_length.
  rewrite login_readString_eq, ConsumeString_mcstring by done.
  rewrite <-drop_drop, drop_app_length, drop_app_blen by done.
  rewrite (proj2 (Z.eqb_neq _ _)) by (rewrite blen_app; lia).
  rewrite ConsumeVarInt_varint by apply int32_range.
  rewrite blen_int32 by done. pose proof (blen_nonneg ps). case_bool_decide as Hp.
  - subst ps. cbn [fmap list_fmap concat]. rewrite app_nil_r, Z.eqb_refl. done.
  - rewrite (proj2 (Z.eqb_neq _ _)) by (rewrite blen_0; done). done.
Qed.

(** ** Offline identities *)

Lemma length_OfflineUUID name : length (OfflineUUID name) = 16%nat.
Proof. unfold OfflineUUID, set_byte. by rewrite !length_alter, length_md5_Sum. Qed.

Lemma OfflineUUID_bits name :
  (exists b, OfflineUUID name !! 6%nat = Some b /\ Z.shiftr (ubyte b) 4 = 3) /\
  (exists b, OfflineUUID name !! 8%nat = Some b /\ Z.shiftr (ubyte b) 6 = 2).
Proof.
  unfold OfflineUUID, set_byte. pose proof (length_md5_Sum (str "OfflinePlayer:" ++ name)) as Hl.
  remember (md5_Sum (str "OfflinePlayer:" ++ name)) as d.
  destruct (lookup_lt_is_Some_2 d 6 ltac:(lia)) as [b6 H6].
  destruct (lookup_lt_is_Some_2 d 8 ltac:(lia)) as [b8 H8].
  rewrite list_lookup_alter_ne, list_lookup_alter_eq, list_lookup_alter_eq, H6 by done.
  rewrite list_lookup_alter_ne, H8 by done. cbn.
  split; (eexists; split; [done|]); clear; [by destruct b6|by destruct b8].
Qed.

(** ** Properties *)

(** Login Start. The parser accepts exactly packet 0 with a name of at most
    16 characters followed by exactly 16 UUID bytes, where the name is 1 to 16
    letters, digits or underscores; what [StartPayload] sends to a backend for
    such a player is parsed back. *)
Theorem login_start_exact payload s :
  (ParseStart payload = Ok s <-> start_ok s /\ start_wire payload s) /\
  (start_ok s -> ParseStart (StartPayload (st_Username s) (st_UUID s)) = Ok s) /\
  (validUsername (st_Username s) = true <->
   1 <= blen (st_Username s) <= 16 /\
   Forall (fun b => 65 <= ubyte b <= 90 \/ 97 <= ubyte b <= 122 \/ 48 <= ubyte b <= 57 \/ ubyte b = 95)
     (st_Username s)).
Proof.
  split_and!.
  - apply ParseStart_iff.
  - intros [Hn Hu]. apply ParseStart_iff. split; [done|]. exists (mcstring (st_Username s)).
    unfold StartPayload. wire_norm. split; [by apply enc_packet_varint|].
    by apply enc_string_mcstring, validUsername_fits.
  - unfold validUsername. pose proof (blen_nonneg (st_Username s)).
    assert (Hc : forall b, username_char b = true <->
      65 <= ubyte b <= 90 \/ 97 <= ubyte b <= 122 \/ 48 <= ubyte b <= 57 \/ ubyte b = 95).
    { intros b. unfold username_char.
      destruct (Z.ltb_spec (ubyte b) 65), (Z.ltb_spec 90 (ubyte b)), (Z.ltb_spec (ubyte b) 97),
        (Z.ltb_spec 122 (ubyte b)), (Z.ltb_spec (ubyte b) 48), (Z.ltb_spec 57 (ubyte b)),
        (Z.eqb_spec (ubyte b) 95); cbn; split; intros; try done; lia. }
    rewrite <-(Forall_iff _ _ _ Hc), List.Forall_forall, <-forallb_forall.
    case_match eqn:E; bool_facts; [|split; [intros; split; [lia|done]|by intros []]].
    apply orb_true_iff in E as [E|E]; bool_facts; split; [done|lia|done|lia].
Qed.

Lemma login_start_exact_witness :
  ParseStart (StartPayload (str "Steve_01") (replicate 16 x00)) = Ok (mkStart (str "Steve_01") (replicate 16 x00)).
Proof. by apply (login_start_exact [] (mkStart (str "Steve_01") (replicate 16 x00))). Defined.

(** the encryption exchange. Request and response parsers accept exactly
    their grammars: byte arrays of at most 1024 bytes, a boolean byte 0 or 1,
    nothing after the last field; and both payload builders produce packets
    that are parsed back. *)
Theorem encryption_exchange_exact payload req resp :
  (ParseEncryptionRequest payload = Ok req <-> request_wire payload req) /\
  (ParseEncryptionResponse payload = Ok resp <-> response_wire payload resp) /\
  (string_fits 20 (er_ServerID req) = true ->
   blen (er_PublicKey req) <= 1024 -> blen (er_VerifyToken req) <= 1024 ->
   ParseEncryptionRequest (EncryptionRequestPayload (er_ServerID req) (er_PublicKey req)
     (er_VerifyToken req) (er_ShouldAuthenticate req)) = Ok req) /\
  (blen (es_SharedSecret resp) <= 1024 -> blen (es_VerifyToken resp) <= 1024 ->
   ParseEncryptionResponse (EncryptionResponsePayload (es_SharedSecret resp) (es_VerifyToken resp)) = Ok resp).
Proof.
  split_and!.
  - apply ParseEncryptionRequest_iff.
  - apply ParseEncryptionResponse_iff.
  - intros Hs Hk Ht. apply ParseEncryptionRequest_iff.
    exists (mcstring (er_ServerID req)), (varint (int32 (blen (er_PublicKey req))) ++ er_PublicKey req),
      (varint (int32 (blen (er_VerifyToken req))) ++ er_VerifyToken req).
    split_and!; [|by apply enc_string_mcstring|by apply enc_bytes_append..].
    unfold EncryptionRequestPayload. rewrite !appendByteArray_app. wire_norm.
    destruct (er_ShouldAuthenticate req); rewrite ?mcstring_eq, <-?app_assoc; by apply enc_packet_varint.
  - intros Hs Ht. apply ParseEncryptionResponse_iff.
    exists (varint (int32 (blen (es_SharedSecret resp))) ++ es_SharedSecret resp),
      (varint (int32 (blen (es_VerifyToken resp))) ++ es_VerifyToken resp).
    split_and!; [|by apply enc_bytes_append..].
    unfold EncryptionResponsePayload. rewrite !appendByteArray_app. wire_norm. by apply enc_packet_varint.
Qed.

Lemma encryption_exchange_exact_witness :
  ParseEncryptionResponse (EncryptionResponsePayload [x01; x02] [x03]) = Ok (mkEncryptionResponse [x01; x02] [x03]).
Proof.
  by apply (encryption_exchange_exact [] (mkEncryptionRequest [] [] [] true)
    (mkEncryptionResponse [x01; x02] [x03])).
Defined.

(** Login Success carries the whole profile: a client reads back the UUID,
    the name and every property with its signature. The gateway's own reader
    [ReadUUID] accepts such a packet exactly when the profile has no properties.
    The offline identity is a 16-byte UUID of version 3 and the RFC variant, a
    function of the name alone. *)
Theorem login_success_profile uid username ps :
  length uid = 16%nat -> string_fits 16 username = true -> Forall property_ok ps -> blen ps < 2 ^ 31 ->
  read_success (SuccessProfilePayload uid username ps) = Ok (uid, username, ps) /\
  ReadUUID (SuccessProfilePayload uid username ps) =
    (if bool_decide (ps = []) then (uid, username, None) else (uid, [], Some login_ErrMalformed)) /\
  read_success (SuccessPayload username) = Ok (OfflineUUID username, username, []) /\
  (exists b6 b8, OfflineUUID username !! 6%nat = Some b6 /\ Z.shiftr (ubyte b6) 4 = 3 /\
     OfflineUUID username !! 8%nat = Some b8 /\ Z.shiftr (ubyte b8) 6 = 2).
Proof.
  intros Hu Hn Hp Hl. split_and!.
  - by apply read_success_payload.
  - by apply ReadUUID_payload.
  - apply read_success_payload; [apply length_OfflineUUID|done|done|done].
  - destruct (OfflineUUID_bits username) as [(b6 & ? & ?) (b8 & ? & ?)]. by exists b6, b8.
Qed.

Lemma login_success_profile_witness :
  read_success (SuccessProfilePayload (OfflineUUID (str "Notch")) (str "Notch")
    [mkProperty (str "textures") (str "ZQ==") (str "c2ln")]) =
  Ok (OfflineUUID (str "Notch"), str "Notch", [mkProperty (str "textures") (str "ZQ==") (str "c2ln")]).
Proof.
  apply login_success_profile; [apply length_OfflineUUID|done| |done].
  repeat constructor.
Defined.

(** The identity java.util.UUID.nameUUIDFromBytes gives the player Notch. *)
Example offline_notch : be_val (OfflineUUID (str "Notch")) = 0xb50ad385829d3141a2167e7d7539ba7f.
Proof. vm_compute. reflexivity. Qed.
