(* ===== verification/Configuration.v ===== *)
(** * Configuration packets (internal/protocol/configuration/configuration.go) *)

From S2P Require Import Prelude GoIO Varint Utf8 McString Frame Wire.

Definition ClientboundPluginMessageID : Z := 0x00.
Definition ClientboundDisconnectID : Z := 0x01.
Definition ClientboundFinishConfigurationID : Z := 0x02.
Definition ServerboundClientInformationID : Z := 0x00.
Definition ServerboundPluginMessageID : Z := 0x01.
Definition ServerboundFinishConfigurationID : Z := 0x02.
Definition ClientboundKeepAliveID : Z := 0x03.
Definition ServerboundKeepAliveID : Z := 0x03.
Definition ClientboundPingID : Z := 0x04.
Definition ServerboundPongID : Z := 0x04.

Record ClientInformation := mkClientInformation {
  ci_Locale : gostring;
  ci_ViewDistance : Z;
  ci_ChatMode : Z;
  ci_ChatColors : bool;
  ci_DisplayedSkinParts : byte;
  ci_MainHand : Z;
  ci_TextFiltering : bool;
  ci_AllowServerListings : bool
}.

Record PluginMessage := mkPluginMessage { pm_Channel : gostring; pm_Data : list byte }.

Definition FinishPayload : list byte := AppendVarInt [] ClientboundFinishConfigurationID.
Definition FinishAcknowledgedPayload : list byte := AppendVarInt [] ServerboundFinishConfigurationID.

Definition ParseFinishAcknowledged (payload : list byte) : option error :=
  match PacketID payload with
  | Err _ => Some configuration_ErrMalformed
  | Ok (id, body) =>
    if negb (id =? ServerboundFinishConfigurationID) || negb (blen body =? 0)
    then Some configuration_ErrMalformed else None
  end.

Definition parseBool (value : byte) : res bool :=
  if ubyte value =? 0 then Ok false
  else if ubyte value =? 1 then Ok true
  else Err configuration_ErrMalformed.

Definition ParseClientInformation (payload : list byte) : res ClientInformation :=
  let! (id, body) := PacketID payload else configuration_ErrMalformed in
  if negb (id =? ServerboundClientInformationID) then Err configuration_ErrMalformed else
  let! (locale, used) := ConsumeString body 16 else configuration_ErrMalformed in
  match drop (Z.to_nat used) body with
  | [] => Err configuration_ErrMalformed  (* used >= len(body) *)
  | viewDistance :: body =>
    let! (chatMode, used) := ConsumeVarInt body else configuration_ErrMalformed in
    if (chatMode <? 0) || (2 <? chatMode) then Err configuration_ErrMalformed else
    match drop (Z.to_nat used) body with
    | colors :: skin :: body =>
      let! chatColors := parseBool colors in
      let! (mainHand, used) := ConsumeVarInt body else configuration_ErrMalformed in
      if (mainHand <? 0) || (1 <? mainHand) then Err configuration_ErrMalformed else
      match drop (Z.to_nat used) body with
      | [filtering; listings] =>
        let! textFiltering := parseBool filtering in
        let! allowServerListings := parseBool listings in
        Ok (mkClientInformation locale (int8 (ubyte viewDistance)) chatMode chatColors skin
              mainHand textFiltering allowServerListings)
      | _ => Err configuration_ErrMalformed  (* len(body) != 2 *)
      end
    | _ => Err configuration_ErrMalformed    (* len(body) < 2 *)
    end
  end.

Definition ParsePluginMessage (payload : list byte) : res PluginMessage :=
  let! (id, body) := PacketID payload else configuration_ErrMalformed in
  if negb (id =? ServerboundPluginMessageID) then Err configuration_ErrMalformed else
  let! (channel, used) := ConsumeString body 32767 else configuration_ErrMalformed in
  if bool_decide (channel = []) then Err configuration_ErrMalformed
  else Ok (mkPluginMessage channel (drop (Z.to_nat used) body)).

Definition ParseClientSetup (payload : list byte) : option error :=
  match PacketID payload with
  | Err _ => Some configuration_ErrMalformed
  | Ok (id, _) =>
    if id =? ServerboundClientInformationID then
      match ParseClientInformation payload with Ok _ => None | Err e => Some e end
    else if id =? ServerboundPluginMessageID then
      match ParsePluginMessage payload with Ok _ => None | Err e => Some e end
    else Some configuration_ErrMalformed
  end.

(** ** Specification *)

Definition bool_byte (b : bool) : byte := if b then x01 else x00.

(** The accepted encodings of a client information packet. *)
Definition information_wire (payload : list byte) (i : ClientInformation) : Prop :=
  exists loc vd mode hand,
    enc_packet ServerboundClientInformationID payload
      (loc ++ [vd] ++ mode ++ [bool_byte (ci_ChatColors i); ci_DisplayedSkinParts i] ++ hand ++
       [bool_byte (ci_TextFiltering i); bool_byte (ci_AllowServerListings i)]) /\
    enc_string 16 loc (ci_Locale i) /\ int8 (ubyte vd) = ci_ViewDistance i /\
    enc_varint mode (ci_ChatMode i) /\ 0 <= ci_ChatMode i <= 2 /\
    enc_varint hand (ci_MainHand i) /\ 0 <= ci_MainHand i <= 1.

Definition message_wire (payload : list byte) (m : PluginMessage) : Prop :=
  exists chan, enc_packet ServerboundPluginMessageID payload (chan ++ pm_Data m) /\
    enc_string 32767 chan (pm_Channel m) /\ pm_Channel m <> [].

(** ** Lemmas *)

Lemma parseBool_iff b v : parseBool b = Ok v <-> b = bool_byte v.
Proof.
  unfold parseBool, bool_byte. split.
  - destruct (Z.eqb_spec (ubyte b) 0) as [E|]; [|destruct (Z.eqb_spec (ubyte b) 1) as [E|]]; intros; simplify_eq.
    + by apply ubyte_inj.
    + by apply ubyte_inj.
  - intros ->. by destruct v.
Qed.

Lemma parseBool_byte v : parseBool (bool_byte v) = Ok v.
Proof. by apply parseBool_iff. Qed.

Lemma ParseClientInformation_sound payload i :
  ParseClientInformation payload = Ok i -> information_wire payload i.
Proof.
  unfold ParseClientInformation. destruct (PacketID payload) as [[id body]|] eqn:Hid; [|done].
  case_match eqn:E1; [done|]. destruct (ConsumeString body 16) as [[loc used]|] eqn:Hs; [|done].
  apply ConsumeString_inv in Hs as (l1 & b1 & -> & Hs & ->). rewrite drop_app_blen by done.
  destruct b1 as [|vd b1]; [done|]. destruct (ConsumeVarInt b1) as [[mode used]|] eqn:Hm; [|done].
  apply ConsumeVarInt_inv in Hm as (l2 & b2 & -> & Hm & ->). rewrite drop_app_blen by done.
  case_match eqn:E2; [done|]. destruct b2 as [|cc [|skin b2]]; [done|done|].
  destruct (parseBool cc) as [colors|] eqn:Hcc; [|done].
  destruct (ConsumeVarInt b2) as [[hand used]|] eqn:Hh; [|done].
  apply ConsumeVarInt_inv in Hh as (l3 & b3 & -> & Hh & ->). rewrite drop_app_blen by done.
  case_match eqn:E3; [done|]. destruct b3 as [|tf [|asl [|]]]; [done|done| |done].
  destruct (parseBool tf) as [filt|] eqn:Htf; [|done]. destruct (parseBool asl) as [lst|] eqn:Hal; [|done].
  apply parseBool_iff in Hcc as ->, Htf as ->, Hal as ->.
  intros; simplify_eq. bool_facts. subst id. apply PacketID_inv in Hid.
  exists l1, vd, l2, l3. cbn. split_and!; done || lia.
Qed.

Lemma ParseClientInformation_complete payload i :
  information_wire payload i -> ParseClientInformation payload = Ok i.
Proof.
  intros (l1 & vd & l2 & l3 & Hid & Hs & Hv & Hm & Hm' & Hh & Hh').
  destruct i as [loc v mode cc skin hand tf asl]. cbn in *. subst v.
  unfold ParseClientInformation. rewrite (PacketID_enc _ _ _ Hid). cbn [negb Z.eqb ServerboundClientInformationID].
  rewrite (ConsumeString_enc _ _ _ _ Hs), drop_app_blen by done.
  rewrite (ConsumeVarInt_enc _ _ _ Hm), drop_app_blen by done. wire_tests.
  rewrite parseBool_byte, (ConsumeVarInt_enc _ _ _ Hh), drop_app_blen by done. wire_tests.
  by rewrite !parseBool_byte.
Qed.

Lemma ParsePluginMessage_iff payload m : ParsePluginMessage payload = Ok m <-> message_wire payload m.
Proof.
  unfold ParsePluginMessage. split.
  - destruct (PacketID payload) as [[id body]|] eqn:Hid; [|done]. case_match eqn:E1; [done|].
    destruct (ConsumeString body 32767) as [[chan used]|] eqn:Hs; [|done]. case_match eqn:E2; [done|].
    intros; simplify_eq. bool_facts. subst id. apply PacketID_inv in Hid.
    apply ConsumeString_inv in Hs as (l & rest & -> & Hs & ->). rewrite drop_app_blen by done. by exists l.
  - destruct m as [chan data]. intros (l & Hid & Hs & Hc). cbn in *. rewrite (PacketID_enc _ _ _ Hid).
    cbn [negb Z.eqb ServerboundPluginMessageID]. rewrite (ConsumeString_enc _ _ _ _ Hs), drop_app_blen by done.
    by rewrite bool_decide_false.
Qed.

Lemma ParseFinishAcknowledged_iff payload :
  ParseFinishAcknowledged payload = None <-> enc_packet ServerboundFinishConfigurationID payload [].
Proof.
  unfold ParseFinishAcknowledged. split.
  - destruct (PacketID payload) as [[id body]|] eqn:E; [|done]. case_match eqn:Ec; [done|].
    intros _. bool_facts. subst. apply PacketID_inv in E. by apply blen_0 in H0 as ->.
  - intros He. by rewrite (PacketID_enc _ _ _ He).
Qed.

(** ** Properties *)

(** what the gateway lets a client send while it is being configured.
    [ParseClientSetup] accepts a packet if and only if it is a well-formed client
    information packet (every field in range, exact length) or a plugin message
    with a non-empty channel; the finish acknowledgement is exactly packet 2 with
    an empty body, and the packet the gateway sends to a backend is one. *)
Theorem client_setup_exact payload :
  (ParseClientSetup payload = None <->
   (exists i, information_wire payload i) \/ (exists m, message_wire payload m)) /\
  (forall i, ParseClientInformation payload = Ok i <-> information_wire payload i) /\
  (ParseFinishAcknowledged payload = None <-> enc_packet ServerboundFinishConfigurationID payload []) /\
  ParseFinishAcknowledged FinishAcknowledgedPayload = None.
Proof.
  split_and!; [|split; [apply ParseClientInformation_sound|apply ParseClientInformation_complete]
               |apply ParseFinishAcknowledged_iff|done].
  unfold ParseClientSetup. split.
  - destruct (PacketID payload) as [[id body]|] eqn:E; [|done].
    case_match; [|case_match; [|done]].
    + destruct (ParseClientInformation payload) as [i|] eqn:Ei; [|done]. intros _. left. exists i.
      by apply ParseClientInformation_sound.
    + destruct (ParsePluginMessage payload) as [m|] eqn:Em; [|done]. intros _. right. exists m.
      by apply ParsePluginMessage_iff.
  - intros [[i Hi]|[m Hm]].
    + assert (Hi' := Hi). destruct Hi' as (? & ? & ? & ? & Hid & _). rewrite (PacketID_enc _ _ _ Hid).
      cbn [Z.eqb ServerboundClientInformationID]. by rewrite (ParseClientInformation_complete _ _ Hi).
    + assert (Hm' := Hm). destruct Hm' as (? & Hid & _). rewrite (PacketID_enc _ _ _ Hid).
      cbn [Z.eqb ServerboundClientInformationID ServerboundPluginMessageID Pos.eqb].
      by rewrite (proj2 (ParsePluginMessage_iff _ _) Hm).
Qed.
