(* ===== verification/Nbt.v ===== *)
(** * NBT documents and the Limbo registries
    (internal/protocol/configuration/nbt.go, registry.go)

    A [Compound] is built field by field; each field stores its tag kind and
    payload bytes. Floating-point arguments are given by their IEEE bits
    ([math.Float32bits], [math.Float64bits]). The specification is a decoder of
    the network NBT format and the relation [Denotes] between a built compound
    and the document it means. *)

From S2P Require Import Prelude GoIO Varint Utf8 McString Frame Wire.

#[local] Set Warnings "-register-all".

Definition nbtEnd : Z := 0.
Definition nbtByte : Z := 1.
Definition nbtString : Z := 8.
Definition nbtList : Z := 9.
Definition nbtCompound : Z := 10.
Definition nbtInt : Z := 3.
Definition nbtLong : Z := 4.
Definition nbtFloat : Z := 5.
Definition nbtDouble : Z := 6.

Record nbtField := mkField { f_name : gostring; f_data : list byte }.
Record Compound := mkCompound { fields : list nbtField }.

Definition NewCompound : Compound := mkCompound [].

Definition add (c : Compound) (kind : Z) (name : gostring) (data : list byte) : Compound :=
  mkCompound (fields c ++ [mkField name (mkbyte kind :: data)]).

Definition appendStringPayload (value : gostring) : list byte :=
  be_bytes 2 (uint16 (blen value)) ++ value.

(** [field.data[0]] exists: [add] puts the kind there. *)
Definition encodeField (field : nbtField) : list byte :=
  take 1 (f_data field) ++ appendStringPayload (f_name field) ++ drop 1 (f_data field).

Definition encodePayload (c : Compound) : list byte :=
  concat (map encodeField (fields c)) ++ [mkbyte nbtEnd].

Definition float32Bits (value : Z) : Z := value.
Definition float64Bits (value : Z) : Z := value.

Definition Byte (name : gostring) (value : byte) (c : Compound) : Compound := add c nbtByte name [value].
Definition Int (name : gostring) (value : Z) (c : Compound) : Compound :=
  add c nbtInt name (be_bytes 4 (uint32 value)).
Definition Long (name : gostring) (value : Z) (c : Compound) : Compound :=
  add c nbtLong name (be_bytes 8 (uint64 value)).
Definition Float (name : gostring) (value : Z) (c : Compound) : Compound :=
  add c nbtFloat name (be_bytes 4 (float32Bits value)).
Definition Double (name : gostring) (value : Z) (c : Compound) : Compound :=
  add c nbtDouble name (be_bytes 8 (float64Bits value)).
Definition String (name value : gostring) (c : Compound) : Compound :=
  add c nbtString name (appendStringPayload value).
Definition Compound_Compound (name : gostring) (value c : Compound) : Compound :=
  add c nbtCompound name (encodePayload value).
Definition ListOfCompounds (name : gostring) (values : list Compound) (c : Compound) : Compound :=
  let data := mkbyte nbtCompound :: be_bytes 4 (uint32 (blen values)) in
  add c nbtList name (data ++ concat (map encodePayload values)).
Definition ListOfStrings (name : gostring) (values : list gostring) (c : Compound) : Compound :=
  let data := mkbyte nbtString :: be_bytes 4 (uint32 (blen values)) in
  add c nbtList name (data ++ concat (map appendStringPayload values)).

Definition Encode (c : Compound) (maxSize : Z) : res (list byte) :=
  let data := mkbyte nbtCompound :: encodePayload c in
  if maxSize <? blen data then Err ErrNBTTooLarge else Ok data.

Definition RegistryDataPayload (registry : Compound) : res (list byte) :=
  let! nbt := Encode registry (Z.shiftl 2 20) in
  let payload := AppendVarInt [] 0x05 in
  Ok (payload ++ nbt).

(** ** registry.go *)

(** Method chaining: [c |> Byte "a" 0 |> Int "b" 1]. *)
Local Notation "c |> f" := (f c) (at level 50, left associativity, only parsing).

Definition sByte (name : string) (value : Z) := Byte (str name) (mkbyte value).
Definition sInt (name : string) (value : Z) := Int (str name) value.
Definition sFloat (name : string) (bits : Z) := Float (str name) bits.
Definition sDouble (name : string) (bits : Z) := Double (str name) bits.
Definition sString (name value : string) := String (str name) (str value).
Definition sCompound (name : string) (value : Compound) := Compound_Compound (str name) value.

Record damageType := mkDamageType {
  dt_name : string; dt_messageID : string; dt_scaling : string; dt_effects : string;
  dt_deathMessageType : string; dt_exhaustion : Z
}.

Definition damage_types : list damageType :=
  [
   mkDamageType "minecraft:arrow" "arrow" "when_caused_by_living_non_player" "" "" 0x3dcccccd;
   mkDamageType "minecraft:bad_respawn_point" "badRespawnPoint" "always" "" "intentional_game_design" 0x3dcccccd;
   mkDamageType "minecraft:cactus" "cactus" "when_caused_by_living_non_player" "" "" 0x3dcccccd;
   mkDamageType "minecraft:cramming" "cramming" "when_caused_by_living_non_player" "" "" 0;
   mkDamageType "minecraft:dragon_breath" "dragonBreath" "when_caused_by_living_non_player" "" "" 0;
   mkDamageType "minecraft:drown" "drown" "when_caused_by_living_non_player" "drowning" "" 0;
   mkDamageType "minecraft:dry_out" "dryout" "when_caused_by_living_non_player" "" "" 0x3dcccccd;
   mkDamageType "minecraft:explosion" "explosion" "always" "" "" 0x3dcccccd;
   mkDamageType "minecraft:fall" "fall" "when_caused_by_living_non_player" "" "fall_variants" 0;
   mkDamageType "minecraft:falling_anvil" "anvil" "when_caused_by_living_non_player" "" "" 0x3dcccccd;
   mkDamageType "minecraft:falling_block" "fallingBlock" "when_caused_by_living_non_player" "" "" 0x3dcccccd;
   mkDamageType "minecraft:falling_stalactite" "fallingStalactite" "when_caused_by_living_non_player" "" "" 0x3dcccccd;
   mkDamageType "minecraft:fireball" "fireball" "when_caused_by_living_non_player" "burning" "" 0x3dcccccd;
   mkDamageType "minecraft:fireworks" "fireworks" "when_caused_by_living_non_player" "" "" 0x3dcccccd;
   mkDamageType "minecraft:fly_into_wall" "flyIntoWall" "when_caused_by_living_non_player" "" "" 0;
   mkDamageType "minecraft:freeze" "freeze" "when_caused_by_living_non_player" "freezing" "" 0;
   mkDamageType "minecraft:generic" "generic" "when_caused_by_living_non_player" "" "" 0;
   mkDamageType "minecraft:generic_kill" "genericKill" "when_caused_by_living_non_player" "" "" 0;
   mkDamageType "minecraft:hot_floor" "hotFloor" "when_caused_by_living_non_player" "burning" "" 0x3dcccccd;
   mkDamageType "minecraft:in_fire" "inFire" "when_caused_by_living_non_player" "burning" "" 0x3dcccccd;
   mkDamageType "minecraft:in_wall" "inWall" "when_caused_by_living_non_player" "" "" 0;
   mkDamageType "minecraft:indirect_magic" "indirectMagic" "when_caused_by_living_non_player" "" "" 0;
   mkDamageType "minecraft:lava" "lava" "when_caused_by_living_non_player" "burning" "" 0x3dcccccd;
   mkDamageType "minecraft:lightning_bolt" "lightningBolt" "when_caused_by_living_non_player" "" "" 0x3dcccccd;
   mkDamageType "minecraft:magic" "magic" "when_caused_by_living_non_player" "" "" 0;
   mkDamageType "minecraft:mob_attack" "mob" "when_caused_by_living_non_player" "" "" 0x3dcccccd;
   mkDamageType "minecraft:mob_attack_no_aggro" "mob" "when_caused_by_living_non_player" "" "" 0x3dcccccd;
   mkDamageType "minecraft:mob_projectile" "mob" "when_caused_by_living_non_player" "" "" 0x3dcccccd;
   mkDamageType "minecraft:on_fire" "onFire" "when_caused_by_living_non_player" "burning" "" 0;
   mkDamageType "minecraft:out_of_world" "outOfWorld" "when_caused_by_living_non_player" "" "" 0;
   mkDamageType "minecraft:outside_border" "outsideBorder" "when_caused_by_living_non_player" "" "" 0;
   mkDamageType "minecraft:player_attack" "player" "when_caused_by_living_non_player" "" "" 0x3dcccccd;
   mkDamageType "minecraft:player_explosion" "explosion.player" "always" "" "" 0x3dcccccd;
   mkDamageType "minecraft:sonic_boom" "sonic_boom" "always" "" "" 0;
   mkDamageType "minecraft:stalagmite" "stalagmite" "when_caused_by_living_non_player" "" "" 0;
   mkDamageType "minecraft:starve" "starve" "when_caused_by_living_non_player" "" "" 0;
   mkDamageType "minecraft:sting" "sting" "when_caused_by_living_non_player" "" "" 0x3dcccccd;
   mkDamageType "minecraft:sweet_berry_bush" "sweetBerryBush" "when_caused_by_living_non_player" "poking" "" 0x3dcccccd;
   mkDamageType "minecraft:thorns" "thorns" "when_caused_by_living_non_player" "thorns" "" 0x3dcccccd;
   mkDamageType "minecraft:thrown" "thrown" "when_caused_by_living_non_player" "" "" 0x3dcccccd;
   mkDamageType "minecraft:trident" "trident" "when_caused_by_living_non_player" "" "" 0x3dcccccd;
   mkDamageType "minecraft:unattributed_fireball" "onFire" "when_caused_by_living_non_player" "burning" "" 0x3dcccccd;
   mkDamageType "minecraft:wither" "wither" "when_caused_by_living_non_player" "" "" 0;
   mkDamageType "minecraft:wither_skull" "witherSkull" "when_caused_by_living_non_player" "" "" 0x3dcccccd].

Definition damage_entry (id : nat) (typ : damageType) : Compound :=
  let element := NewCompound |> sString "message_id" (dt_messageID typ)
    |> sString "scaling" (dt_scaling typ) |> sFloat "exhaustion" (dt_exhaustion typ) in
  let element := if String.eqb (dt_effects typ) EmptyString then element
                 else element |> sString "effects" (dt_effects typ) in
  let element := if String.eqb (dt_deathMessageType typ) EmptyString then element
                 else element |> sString "death_message_type" (dt_deathMessageType typ) in
  NewCompound |> sString "name" (dt_name typ) |> sInt "id" (int32 (Z.of_nat id))
    |> sCompound "element" element.

Definition minimalDamageTypes : list Compound := imap damage_entry damage_types.

Definition MinimalRegistryData : Compound :=
  let dimension := NewCompound
    |> sByte "piglin_safe" 0
    |> sByte "natural" 1
    |> sFloat "ambient_light" 0
    |> sString "infiniburn" "#minecraft:infiniburn_overworld"
    |> sByte "respawn_anchor_works" 0
    |> sByte "has_skylight" 1
    |> sByte "bed_works" 1
    |> sString "effects" "minecraft:overworld"
    |> sByte "has_raids" 1
    |> sInt "min_y" (-64)
    |> sInt "height" 384
    |> sInt "logical_height" 384
    |> sDouble "coordinate_scale" 0x3ff0000000000000
    |> sByte "ultrawarm" 0
    |> sByte "has_ceiling" 0
    |> sInt "monster_spawn_block_light_limit" 0
    |> sInt "monster_spawn_light_level" 0 in
  let dimensionEntry := NewCompound
    |> sString "name" "minecraft:overworld"
    |> sInt "id" 0
    |> sCompound "element" dimension in
  let biomeEntry := NewCompound
    |> sString "name" "minecraft:plains"
    |> sInt "id" 0
    |> sCompound "element" (NewCompound
      |> sByte "has_precipitation" 1
      |> sFloat "temperature" 0x3f4ccccd
      |> sFloat "downfall" 0x3ecccccd
      |> sCompound "effects" (NewCompound
        |> sInt "sky_color" 7907327
        |> sInt "water_fog_color" 329011
        |> sInt "fog_color" 12638463
        |> sInt "water_color" 4159204)) in
  let chatEntry := NewCompound
    |> sString "name" "minecraft:chat"
    |> sInt "id" 0
    |> sCompound "element" (NewCompound
      |> sCompound "chat" (NewCompound
        |> sString "translation_key" "chat.type.text"
        |> ListOfStrings (str "parameters") [str "sender"; str "content"])
      |> sCompound "narration" (NewCompound
        |> sString "translation_key" "chat.type.text.narrate"
        |> ListOfStrings (str "parameters") [str "sender"; str "content"])) in
  NewCompound
    |> sCompound "minecraft:dimension_type" (NewCompound
      |> sString "type" "minecraft:dimension_type"
      |> ListOfCompounds (str "value") [dimensionEntry])
    |> sCompound "minecraft:worldgen/biome" (NewCompound
      |> sString "type" "minecraft:worldgen/biome"
      |> ListOfCompounds (str "value") [biomeEntry])
    |> sCompound "minecraft:chat_type" (NewCompound
      |> sString "type" "minecraft:chat_type"
      |> ListOfCompounds (str "value") [chatEntry])
    |> sCompound "minecraft:damage_type" (NewCompound
      |> sString "type" "minecraft:damage_type"
      |> ListOfCompounds (str "value") minimalDamageTypes).

(** ** Specification: reading NBT back *)

Inductive nbt : Type :=
| VByte (b : byte) | VInt (z : Z) | VLong (z : Z) | VFloat (bits : Z) | VDouble (bits : Z)
| VString (s : gostring) | VList (l : list nbt) | VCompound (fs : list (gostring * nbt)).

(** Exactly [n] bytes. *)
Definition read_n (n : nat) (data : list byte) : option (list byte * list byte) :=
  if (length data <? n)%nat then None else Some (take n data, drop n data).

Definition read_string (data : list byte) : option (gostring * list byte) :=
  match read_n 2 data with
  | None => None
  | Some (l, data) => read_n (Z.to_nat (be_val l)) data
  end.

(** The decoder; every call spends fuel, and a document needs no more than its
    length plus one ([read_fields_ok]). *)
Fixpoint read_fields (fuel : nat) (data : list byte) : option (list (gostring * nbt) * list byte) :=
  match fuel, data with
  | S fuel', kind :: data =>
    if ubyte kind =? nbtEnd then Some ([], data)
    else match read_string data with
         | None => None
         | Some (name, data) =>
           match read_value fuel' (ubyte kind) data with
           | None => None
           | Some (v, data) =>
             match read_fields fuel' data with
             | None => None
             | Some (fs, data) => Some ((name, v) :: fs, data)
             end
           end
         end
  | _, _ => None
  end
with read_value (fuel : nat) (kind : Z) (data : list byte) : option (nbt * list byte) :=
  match fuel with
  | O => None
  | S fuel' =>
    if kind =? nbtByte then match data with b :: data => Some (VByte b, data) | [] => None end
    else if kind =? nbtInt then
      match read_n 4 data with Some (l, data) => Some (VInt (int32 (be_val l)), data) | None => None end
    else if kind =? nbtLong then
      match read_n 8 data with Some (l, data) => Some (VLong (int64 (be_val l)), data) | None => None end
    else if kind =? nbtFloat then
      match read_n 4 data with Some (l, data) => Some (VFloat (be_val l), data) | None => None end
    else if kind =? nbtDouble then
      match read_n 8 data with Some (l, data) => Some (VDouble (be_val l), data) | None => None end
    else if kind =? nbtString then
      match read_string data with Some (s, data) => Some (VString s, data) | None => None end
    else if kind =? nbtCompound then
      match read_fields fuel' data with Some (fs, data) => Some (VCompound fs, data) | None => None end
    else if kind =? nbtList then
      match data with
      | [] => None
      | elem :: data =>
        match read_n 4 data with
        | None => None
        | Some (l, data) =>
          match read_elements fuel' (Z.to_nat (be_val l)) (ubyte elem) data with
          | Some (vs, data) => Some (VList vs, data)
          | None => None
          end
        end
      end
    else None
  end
with read_elements (fuel : nat) (n : nat) (kind : Z) (data : list byte) : option (list nbt * list byte) :=
  match n, fuel with
  | O, _ => Some ([], data)
  | S n', S fuel' =>
    match read_value fuel' kind data with
    | None => None
    | Some (v, data) =>
      match read_elements fuel' n' kind data with
      | None => None
      | Some (vs, data) => Some (v :: vs, data)
      end
    end
  | _, O => None
  end.

(** A whole document: an unnamed root compound and nothing after it. *)
Definition read_document (data : list byte) : option (list (gostring * nbt)) :=
  match data with
  | [] => None
  | kind :: body =>
    if negb (ubyte kind =? nbtCompound) then None
    else match read_fields (S (length body)) body with
         | Some (fs, []) => Some fs
         | _ => None
         end
  end.

(** A string whose length the 16-bit prefix can hold. *)
Definition short (s : gostring) : Prop := blen s < 2 ^ 16.

(** The document a sequence of builder calls means. *)
Inductive Denotes : Compound -> list (gostring * nbt) -> Prop :=
| D_New : Denotes NewCompound []
| D_Byte c fs name b : Denotes c fs -> short name -> Denotes (Byte name b c) (fs ++ [(name, VByte b)])
| D_Int c fs name z : Denotes c fs -> short name -> in_int32 z -> Denotes (Int name z c) (fs ++ [(name, VInt z)])
| D_Long c fs name z : Denotes c fs -> short name -> in_int64 z -> Denotes (Long name z c) (fs ++ [(name, VLong z)])
| D_Float c fs name z : Denotes c fs -> short name -> in_uint32 z -> Denotes (Float name z c) (fs ++ [(name, VFloat z)])
| D_Double c fs name z : Denotes c fs -> short name -> in_uint64 z -> Denotes (Double name z c) (fs ++ [(name, VDouble z)])
| D_String c fs name s : Denotes c fs -> short name -> short s -> Denotes (String name s c) (fs ++ [(name, VString s)])
| D_Compound c fs name v gs : Denotes c fs -> short name -> Denotes v gs ->
    Denotes (Compound_Compound name v c) (fs ++ [(name, VCompound gs)])
| D_Compounds c fs name vs gss : Denotes c fs -> short name -> DenotesAll vs gss -> blen vs < 2 ^ 32 ->
    Denotes (ListOfCompounds name vs c) (fs ++ [(name, VList (VCompound <$> gss))])
| D_Strings c fs name ss : Denotes c fs -> short name -> Forall short ss -> blen ss < 2 ^ 32 ->
    Denotes (ListOfStrings name ss c) (fs ++ [(name, VList (VString <$> ss))])
with DenotesAll : list Compound -> list (list (gostring * nbt)) -> Prop :=
| DA_nil : DenotesAll [] []
| DA_cons v gs vs gss : Denotes v gs -> DenotesAll vs gss -> DenotesAll (v :: vs) (gs :: gss).

Scheme Denotes_mut := Induction for Denotes Sort Prop
with DenotesAll_mut := Induction for DenotesAll Sort Prop.
Combined Scheme Denotes_both from Denotes_mut, DenotesAll_mut.

(** ** Lemmas *)

Lemma read_n_app n l rest : length l = n -> read_n n (l ++ rest) = Some (l, rest).
Proof.
  intros <-. unfold read_n. rewrite (proj2 (Nat.ltb_ge _ _)) by (rewrite length_app; lia).
  by rewrite take_app_length, drop_app_length.
Qed.

Lemma read_string_app s rest : short s -> read_string (appendStringPayload s ++ rest) = Some (s, rest).
Proof.
  unfold short. intros Hs. unfold read_string, appendStringPayload. rewrite <-app_assoc.
  pose proof (blen_nonneg s).
  rewrite read_n_app by apply length_be_bytes. rewrite uint16_small, be_val_uint16 by (unfold in_uint16; lia).
  apply read_n_app. unfold blen. lia.
Qed.

Lemma blen_appendStringPayload s : blen (appendStringPayload s) = 2 + blen s.
Proof. unfold appendStringPayload. len. Qed.

(** The fields of a compound, encoded, are read as [fs] when a decoder that
    reads the remaining fields follows. *)
Definition decodes_fields (c : Compound) (fs : list (gostring * nbt)) : Prop :=
  forall fuel rest gs rest',
    (length (concat (map encodeField (fields c))) + 1 <= fuel)%nat ->
    (forall fuel', (fuel' <= fuel)%nat -> (fuel - length (concat (map encodeField (fields c))) <= fuel')%nat ->
       read_fields fuel' rest = Some (gs, rest')) ->
    read_fields fuel (concat (map encodeField (fields c)) ++ rest) = Some (fs ++ gs, rest').

Definition decodes_value (kind : Z) (data : list byte) (v : nbt) : Prop :=
  forall fuel rest, (length data + 1 <= fuel)%nat -> read_value fuel kind (data ++ rest) = Some (v, rest).

Lemma decodes_add c fs kind name data v :
  decodes_fields c fs -> short name -> 1 <= kind < 256 -> decodes_value kind data v ->
  decodes_fields (add c kind name data) (fs ++ [(name, v)]).
Proof.
  intros Hc Hn Hk Hv fuel rest gs rest'. unfold add. cbn [fields]. rewrite map_app, concat_app. cbn [map concat].
  unfold encodeField at 2 4 6. cbn [f_data f_name take drop]. rewrite firstn_O, drop_0, app_nil_r.
  set (pre := concat (map encodeField (fields c))) in *.
  set (fld := [mkbyte kind] ++ appendStringPayload name ++ data).
  assert (Hl : length fld = (3 + length name + length data)%nat).
  { unfold fld. rewrite !length_app. pose proof (blen_appendStringPayload name). unfold blen in *. cbn. lia. }
  rewrite length_app, Hl. intros Hf Hr.
  rewrite <-app_assoc, <-app_assoc. apply Hc; [fold pre; lia|]. fold pre. intros fuel' H1 H2.
  destruct fuel' as [|fuel']; [lia|]. unfold fld. cbn [app read_fields].
  rewrite ubyte_mkbyte_small by lia. rewrite (proj2 (Z.eqb_neq _ _)) by (unfold nbtEnd; lia).
  rewrite <-app_assoc, read_string_app by done. rewrite Hv by lia. rewrite Hr by lia. done.
Qed.

Lemma encodePayload_read c fs fuel rest :
  decodes_fields c fs -> (length (encodePayload c) <= fuel)%nat ->
  read_fields fuel (encodePayload c ++ rest) = Some (fs, rest).
Proof.
  intros Hc. unfold encodePayload. rewrite length_app. cbn [length]. intros Hf.
  rewrite <-app_assoc. rewrite <-(app_nil_r fs). apply Hc; [lia|].
  intros fuel' H1 H2. destruct fuel' as [|fuel']; [lia|]. done.
Qed.

Definition decodes_all (vs : list Compound) (gss : list (list (gostring * nbt))) : Prop :=
  forall fuel rest, (length (concat (map encodePayload vs)) + 2 <= fuel)%nat ->
    read_elements fuel (length vs) nbtCompound (concat (map encodePayload vs) ++ rest) =
    Some (VCompound <$> gss, rest).

Lemma decodes_compound c fs : decodes_fields c fs -> decodes_value nbtCompound (encodePayload c) (VCompound fs).
Proof.
  intros Hc fuel rest Hf. destruct fuel as [|fuel]; [lia|]. cbn.
  by rewrite (encodePayload_read c fs) by (done || lia).
Qed.

Lemma encodePayload_nonempty c : (1 <= length (encodePayload c))%nat.
Proof. unfold encodePayload. rewrite length_app. cbn. lia. Qed.

Lemma decodes_all_cons v gs vs gss :
  decodes_fields v gs -> decodes_all vs gss -> decodes_all (v :: vs) (gs :: gss).
Proof.
  intros Hv Hvs fuel rest. cbn [map concat length]. rewrite length_app. intros Hf.
  destruct fuel as [|fuel]; [lia|]. cbn [read_elements]. rewrite <-app_assoc.
  pose proof (encodePayload_nonempty v).
  rewrite (decodes_compound v gs Hv) by lia. by rewrite Hvs by lia.
Qed.

Lemma decodes_string s : short s -> decodes_value nbtString (appendStringPayload s) (VString s).
Proof. intros Hs [|fuel] rest Hf; [lia|]. cbn. by rewrite read_string_app. Qed.

Lemma decodes_strings ss : forall fuel rest,
  Forall short ss -> (length (concat (map appendStringPayload ss)) + 2 <= fuel)%nat ->
  read_elements fuel (length ss) nbtString (concat (map appendStringPayload ss) ++ rest) =
  Some (VString <$> ss, rest).
Proof.
  induction ss as [|s ss IH]; intros fuel rest Hs; [by destruct fuel|].
  apply Forall_cons in Hs as [Hs Hss]. cbn [map concat length]. rewrite length_app.
  pose proof (blen_appendStringPayload s) as Hl. unfold blen in Hl. intros Hf.
  destruct fuel as [|fuel]; [lia|]. cbn [read_elements]. rewrite <-app_assoc.
  rewrite (decodes_string s) by (done || lia). by rewrite IH by (done || lia).
Qed.

(** A list value: element kind, count, elements. *)
Lemma decodes_list kind (n : nat) data vs :
  0 <= kind < 256 -> Z.of_nat n < 2 ^ 32 ->
  (forall fuel rest, (length data + 4 <= fuel)%nat -> read_elements fuel n kind (data ++ rest) = Some (vs, rest)) ->
  decodes_value nbtList ((mkbyte kind :: be_bytes 4 (uint32 (Z.of_nat n))) ++ data) (VList vs).
Proof.
  intros Hk Hn Hd fuel rest. rewrite length_app. cbn [length app]. rewrite length_be_bytes. intros Hf.
  destruct fuel as [|fuel]; [lia|]. cbn [read_value].
  change (nbtList =? nbtByte) with false. change (nbtList =? nbtInt) with false.
  change (nbtList =? nbtLong) with false. change (nbtList =? nbtFloat) with false.
  change (nbtList =? nbtDouble) with false. change (nbtList =? nbtString) with false.
  change (nbtList =? nbtCompound) with false. change (nbtList =? nbtList) with true. cbn iota.
  rewrite <-app_assoc, read_n_app by apply length_be_bytes.
  rewrite uint32_small, be_val_uint32, Nat2Z.id by (unfold in_uint32; lia).
  rewrite ubyte_mkbyte_small by done. by rewrite Hd by lia.
Qed.

Lemma Denotes_decodes :
  (forall c fs, Denotes c fs -> decodes_fields c fs) /\
  (forall vs gss, DenotesAll vs gss -> decodes_all vs gss).
Proof.
  apply Denotes_both.
  - intros fuel rest gs rest' Hf Hr. cbn in *. apply Hr; lia.
  - intros c fs name b _ IH Hn. apply decodes_add; [done..|].
    intros [|fuel] rest Hf; [cbn in Hf; lia|done].
  - intros c fs name z _ IH Hn Hz. apply decodes_add; [done..|].
    intros [|fuel] rest Hf; [lia|]. cbn -[read_n be_bytes]. rewrite read_n_app by apply length_be_bytes.
    rewrite be_val_uint32 by apply uint32_range. by rewrite int32_uint32, int32_small.
  - intros c fs name z _ IH Hn Hz. apply decodes_add; [done..|].
    intros [|fuel] rest Hf; [lia|]. cbn -[read_n be_bytes]. rewrite read_n_app by apply length_be_bytes.
    by rewrite int64_be_val.
  - intros c fs name z _ IH Hn Hz. apply decodes_add; [done..|].
    intros [|fuel] rest Hf; [lia|]. cbn -[read_n be_bytes]. rewrite read_n_app by apply length_be_bytes.
    by rewrite be_val_uint32.
  - intros c fs name z _ IH Hn Hz. apply decodes_add; [done..|].
    intros [|fuel] rest Hf; [lia|]. cbn -[read_n be_bytes]. rewrite read_n_app by apply length_be_bytes.
    by rewrite be_val_uint64.
  - intros c fs name s _ IH Hn Hs. apply decodes_add; [done..|].
    by apply decodes_string.
  - intros c fs name v gs _ IH Hn _ IHv. apply decodes_add; [done..|]. by apply decodes_compound.
  - intros c fs name vs gss _ IH Hn _ IHv Hl. apply decodes_add; [done..|].
    apply decodes_list; [done|done|]. intros fuel rest Hf. apply IHv.
    lia.
  - intros c fs name ss _ IH Hn Hs Hl. apply decodes_add; [done..|].
    apply decodes_list; [done|done|]. intros fuel rest Hf. apply decodes_strings; [done|lia].
  - intros fuel rest Hf. cbn. by destruct fuel.
  - intros v gs vs gss _ IHv _ IHvs. by apply decodes_all_cons.
Qed.

Lemma Encode_read c fs max data :
  Denotes c fs -> Encode c max = Ok data -> read_document data = Some fs.
Proof.
  intros Hc. unfold Encode. case_match; [done|]. intros; simplify_eq.
  unfold read_document. change (negb (ubyte (mkbyte nbtCompound) =? nbtCompound)) with false. cbn iota.
  rewrite <-(app_nil_r (encodePayload c)) at 2.
  by rewrite (encodePayload_read c fs) by (by apply Denotes_decodes || lia).
Qed.

(** ** The registries *)

Definition nbt_field (name : string) (fs : list (gostring * nbt)) : option nbt :=
  match filter (fun f => f.1 = str name) fs with [(_, v)] => Some v | _ => None end.

(** The (name, id) pairs of a registry's [value] list, [None] unless every entry
    has exactly one name, one id and an element. *)
Definition registry_entry (v : nbt) : option (gostring * Z) :=
  match v with
  | VCompound fs =>
    match nbt_field "name" fs, nbt_field "id" fs, nbt_field "element" fs with
    | Some (VString n), Some (VInt i), Some (VCompound _) => Some (n, i)
    | _, _, _ => None
    end
  | _ => None
  end.

Definition registry_entries (doc : list (gostring * nbt)) (registry : string) : option (list (gostring * Z)) :=
  match nbt_field registry doc with
  | Some (VCompound fs) =>
    match nbt_field "type" fs, nbt_field "value" fs with
    | Some (VString t), Some (VList vs) =>
      if bool_decide (t = str registry) then mapM registry_entry vs else None
    | _, _ => None
    end
  | _ => None
  end.

(** ** Properties *)

(** C39: NBT documents are read back. Whatever document a sequence of builder
    calls means (names and strings below 65536 bytes, the range of the length
    prefix), [Encode] either reports that it exceeds the limit, exactly when it
    does, or returns bytes which a decoder reads as that document, in order, with
    nothing left over. *)
Theorem nbt_roundtrip c fs maxSize :
  Denotes c fs ->
  match Encode c maxSize with
  | Ok data => blen data <= maxSize /\ read_document data = Some fs
  | Err e => e = ErrNBTTooLarge /\ maxSize < 1 + blen (encodePayload c)
  end.
Proof.
  intros Hc. destruct (Encode c maxSize) as [data|e] eqn:E.
  - split; [|by eapply Encode_read]. revert E. unfold Encode. case_match eqn:El; [done|].
    intros; simplify_eq. bool_facts. done.
  - revert E. unfold Encode. case_match eqn:El; [|done]. intros; simplify_eq. bool_facts.
    rewrite blen_cons in El. split; [done|lia].
Qed.

Lemma nbt_roundtrip_witness :
  match Encode (ListOfStrings (str "parameters") [str "sender"; str "content"] (Int (str "id") (-1) NewCompound)) 64 with
  | Ok data => blen data <= 64 /\
      read_document data = Some [(str "id", VInt (-1));
        (str "parameters", VList [VString (str "sender"); VString (str "content")])]
  | Err e => e = ErrNBTTooLarge /\ 64 < 1 + blen (encodePayload
      (ListOfStrings (str "parameters") [str "sender"; str "content"] (Int (str "id") (-1) NewCompound)))
  end.
Proof.
  apply (nbt_roundtrip _ [(str "id", VInt (-1)); (str "parameters", VList [VString (str "sender"); VString (str "content")])]).
  apply (D_Strings _ [(str "id", VInt (-1))]); [|done|by repeat constructor|done].
  apply (D_Int _ []); [constructor|done|unfold in_int32; lia].
Defined.

(** the registries sent to every client. The registry packet is within the
    limit and holds exactly the four registries a 1.20.4 client needs for the
    Limbo world, each under its own type; the entries of each have the
    consecutive ids from 0 in order and distinct names, 44 of them damage types. *)
Theorem minimal_registry_complete :
  exists data doc,
    RegistryDataPayload MinimalRegistryData = Ok (varint 5 ++ data) /\ read_document data = Some doc /\
    fst <$> doc = [str "minecraft:dimension_type"; str "minecraft:worldgen/biome";
                   str "minecraft:chat_type"; str "minecraft:damage_type"] /\
    registry_entries doc "minecraft:dimension_type" = Some [(str "minecraft:overworld", 0)] /\
    registry_entries doc "minecraft:worldgen/biome" = Some [(str "minecraft:plains", 0)] /\
    registry_entries doc "minecraft:chat_type" = Some [(str "minecraft:chat", 0)] /\
    exists ds, registry_entries doc "minecraft:damage_type" = Some ds /\
      ds.*2 = seqZ 0 44 /\ NoDup ds.*1.
Proof.
  unfold RegistryDataPayload. rewrite AppendVarInt_app. cbn [app].
  destruct (Encode MinimalRegistryData (Z.shiftl 2 20)) as [data|] eqn:E; [|vm_compute in E; discriminate E].
  exists data. vm_compute in E. injection E as <-. eexists. split; [done|].
  split; [vm_compute; reflexivity|].
  split_and!; [vm_compute; reflexivity..|].
  eexists. split; [vm_compute; reflexivity|]. split; [vm_compute; reflexivity|].
  apply (bool_decide_unpack _). vm_compute. exact I.
Qed.
