(* ===== verification/Play.v ===== *)
(** * Play packets (internal/protocol/play/play.go)

    Floating-point values are their IEEE 754 bit patterns, as they travel on the
    wire; the code only tests them for being finite. *)

From S2P Require Import Prelude GoIO Varint Utf8 McString Frame Wire Nbt.

Definition ClientboundChunkBatchFinishedID : Z := 0x0C.
Definition ClientboundChunkBatchStartID : Z := 0x0D.
Definition ClientboundJoinGameID : Z := 0x29.
Definition ClientboundKeepAliveID : Z := 0x24.
Definition ClientboundMapChunkID : Z := 0x25.
Definition ClientboundPositionLookID : Z := 0x3E.
Definition ClientboundSpawnPositionID : Z := 0x54.
Definition ClientboundStartConfigurationID : Z := 0x67.
Definition ClientboundActionBarID : Z := 0x4A.
Definition ServerboundConfigurationAcknowledgedID : Z := 0x0B.
Definition ServerboundTeleportConfirmID : Z := 0x00.
Definition ServerboundKeepAliveID : Z := 0x15.
Definition ServerboundPositionID : Z := 0x17.
Definition ServerboundPositionLookID : Z := 0x18.
Definition ServerboundPlayerCommandID : Z := 0x22.

Definition overworldSectionCount : Z := 24.
Definition overworldLightSectionMask : Z := Z.shiftl 1 (overworldSectionCount + 2) - 1.

Record JoinGameConfig := mkJoinGameConfig {
  jg_EntityID : Z;
  jg_Hardcore : bool;
  jg_WorldName : gostring;
  jg_MaxPlayers : Z;
  jg_ViewDistance : Z;
  jg_SimulationDistance : Z;
  jg_DimensionType : gostring;
  jg_DimensionName : gostring;
  jg_HashedSeed : Z;
  jg_GameMode : Z;
  jg_PreviousGameMode : Z;
  jg_ReducedDebugInfo : bool;
  jg_RespawnScreen : bool;
  jg_LimitedCrafting : bool;
  jg_Debug : bool;
  jg_Flat : bool;
  jg_PortalCooldown : Z
}.

Record Movement := mkMovement {
  m_X : Z; m_Y : Z; m_Z : Z; m_Yaw : Z; m_Pitch : Z; m_OnGround : bool; m_HasLook : bool
}.

Record PlayerCommand := mkPlayerCommand { c_EntityID : Z; c_ActionID : Z; c_Data : Z }.

Definition appendBool (dst : list byte) (value : bool) : list byte :=
  if value then dst ++ [x01] else dst ++ [x00].
Definition appendInt32 (dst : list byte) (value : Z) : list byte := dst ++ be_bytes 4 (uint32 value).
Definition appendLightMask (dst : list byte) (mask : Z) : list byte :=
  AppendVarInt dst 1 ++ be_bytes 8 mask.
Definition appendFloat32 (dst : list byte) (value : Z) : list byte := appendInt32 dst (int32 value).
Definition appendFloat64 (dst : list byte) (value : Z) : list byte := dst ++ be_bytes 8 value.

(** ** Clientbound packets *)

Definition JoinGamePayload (config : JoinGameConfig) : list byte :=
  let payload := AppendVarInt [] ClientboundJoinGameID in
  let payload := payload ++ be_bytes 4 (uint32 (jg_EntityID config)) in
  let payload := if jg_Hardcore config then payload ++ [x01] else payload ++ [x00] in
  let payload := AppendVarInt payload 1 in
  let payload := AppendString payload (jg_WorldName config) in
  let payload := AppendVarInt payload (jg_MaxPlayers config) in
  let payload := AppendVarInt payload (jg_ViewDistance config) in
  let payload := AppendVarInt payload (jg_SimulationDistance config) in
  let payload := appendBool payload (jg_ReducedDebugInfo config) in
  let payload := appendBool payload (jg_RespawnScreen config) in
  let payload := appendBool payload (jg_LimitedCrafting config) in
  let payload := AppendString payload (jg_DimensionType config) in
  let payload := AppendString payload (jg_DimensionName config) in
  let payload := payload ++ be_bytes 8 (uint64 (jg_HashedSeed config)) in
  let payload := payload ++ [mkbyte (jg_GameMode config); mkbyte (jg_PreviousGameMode config)] in
  let payload := appendBool payload (jg_Debug config) in
  let payload := appendBool payload (jg_Flat config) in
  let payload := appendBool payload false in
  AppendVarInt payload (jg_PortalCooldown config).

Definition KeepAlivePayload (id : Z) : list byte :=
  AppendVarInt [] ClientboundKeepAliveID ++ be_bytes 8 (uint64 id).

Definition ChunkBatchStartPayload : list byte := AppendVarInt [] ClientboundChunkBatchStartID.

Definition ChunkBatchFinishedPayload (size : Z) : list byte :=
  let payload := AppendVarInt [] ClientboundChunkBatchFinishedID in
  AppendVarInt payload size.

(** One section: block count, air palette, plains palette. *)
Definition void_section : list byte := [x00; x00] ++ [x00; x00; x00] ++ [x00; x00; x00].

Definition VoidChunkPayload (x z : Z) : list byte :=
  let payload := AppendVarInt [] ClientboundMapChunkID in
  let payload := appendInt32 payload x in
  let payload := appendInt32 payload z in
  let payload := payload ++ [x0a; x00] in
  let chunkData := concat (replicate (Z.to_nat overworldSectionCount) void_section) in
  let payload := AppendVarInt payload (int32 (blen chunkData)) in
  let payload := payload ++ chunkData in
  let payload := AppendVarInt payload 0 in
  let payload := AppendVarInt payload 0 in
  let payload := AppendVarInt payload 0 in
  let payload := appendLightMask payload overworldLightSectionMask in
  let payload := appendLightMask payload overworldLightSectionMask in
  let payload := AppendVarInt payload 0 in
  AppendVarInt payload 0.

(** The packed block position: 26 bits of x, 26 of z, 12 of y. *)
Definition packPosition (x y z : Z) : Z :=
  Z.lor (Z.lor (uint64 (Z.shiftl (Z.land (uint32 x) 0x3ffffff) 38))
               (uint64 (Z.shiftl (Z.land (uint32 z) 0x3ffffff) 12)))
        (Z.land (uint32 y) 0xfff).

Definition SpawnPositionPayload (x y z angle : Z) : list byte :=
  let payload := AppendVarInt [] ClientboundSpawnPositionID in
  let payload := payload ++ be_bytes 8 (packPosition x y z) in
  appendFloat32 payload angle.

Definition PositionLookPayload (x y z yaw pitch teleportID : Z) : list byte :=
  let payload := AppendVarInt [] ClientboundPositionLookID in
  let payload := appendFloat64 payload x in
  let payload := appendFloat64 payload y in
  let payload := appendFloat64 payload z in
  let payload := appendFloat32 payload yaw in
  let payload := appendFloat32 payload pitch in
  let payload := payload ++ [x00] in
  AppendVarInt payload teleportID.

Definition StartConfigurationPayload : list byte := AppendVarInt [] ClientboundStartConfigurationID.

Definition ActionBarPayload (text : gostring) : res (list byte) :=
  let! component := Encode (String (str "text") text NewCompound) (Z.shiftl 64 10) in
  let payload := AppendVarInt [] ClientboundActionBarID in
  Ok (payload ++ component).

(** ** Serverbound packets *)

Definition ParseConfigurationAcknowledged (payload : list byte) : option error :=
  match PacketID payload with
  | Err _ => Some play_ErrMalformed
  | Ok (id, body) =>
    if negb (id =? ServerboundConfigurationAcknowledgedID) || negb (blen body =? 0)
    then Some play_ErrMalformed else None
  end.

Definition ServerboundPositionPayload (x y z : Z) (onGround : bool) : list byte :=
  let payload := AppendVarInt [] ServerboundPositionID in
  let payload := appendFloat64 payload x in
  let payload := appendFloat64 payload y in
  let payload := appendFloat64 payload z in
  appendBool payload onGround.

Definition ServerboundPositionLookPayload (x y z yaw pitch : Z) (onGround : bool) : list byte :=
  let payload := AppendVarInt [] ServerboundPositionLookID in
  let payload := appendFloat64 payload x in
  let payload := appendFloat64 payload y in
  let payload := appendFloat64 payload z in
  let payload := appendFloat32 payload yaw in
  let payload := appendFloat32 payload pitch in
  appendBool payload onGround.

Definition PlayerCommandPayload (entityID actionID data : Z) : list byte :=
  let payload := AppendVarInt [] ServerboundPlayerCommandID in
  let payload := AppendVarInt payload entityID in
  let payload := AppendVarInt payload actionID in
  AppendVarInt payload data.

(** The loop over [values]: [n] VarInts and the rest of the body. *)
Fixpoint consume_values (n : nat) (body : list byte) : res (list Z * list byte) :=
  match n with
  | O => Ok ([], body)
  | S n' =>
    let! (value, used) := ConsumeVarInt body else play_ErrMalformed in
    let! (values, body) := consume_values n' (drop (Z.to_nat used) body) in
    Ok (value :: values, body)
  end.

Definition ParsePlayerCommand (payload : list byte) : res PlayerCommand :=
  let! (id, body) := PacketID payload else play_ErrMalformed in
  if negb (id =? ServerboundPlayerCommandID) then Err play_ErrMalformed else
  let! (values, body) := consume_values 3 body in
  match values with
  | [v0; v1; v2] =>
    if negb (blen body =? 0) || (v0 <? 0) || (v1 <? 0) || (8 <? v1) || (v2 <? 0)
    then Err play_ErrMalformed else Ok (mkPlayerCommand v0 v1 v2)
  | _ => Err play_ErrMalformed
  end.

Definition ParseTeleportConfirm (payload : list byte) : res Z :=
  let! (id, body) := PacketID payload else play_ErrMalformed in
  if negb (id =? ServerboundTeleportConfirmID) then Err play_ErrMalformed else
  let! (teleportID, used) := ConsumeVarInt body else play_ErrMalformed in
  if negb (used =? blen body) then Err play_ErrMalformed else Ok teleportID.

Definition ParseKeepAlive (payload : list byte) : res Z :=
  let! (id, body) := PacketID payload else play_ErrMalformed in
  if negb (id =? ServerboundKeepAliveID) || negb (blen body =? 8) then Err play_ErrMalformed
  else Ok (int64 (be_val body)).

(** [math.IsNaN] and [math.IsInf(v, 0)] on bit patterns: exponent all ones, and
    a mantissa that is not, or is, zero. The float32 tests convert to float64
    first, which keeps both classes. *)
Definition IsNaN64 (v : Z) : bool := (Z.land (Z.shiftr v 52) 0x7ff =? 0x7ff) && negb (Z.land v (Z.ones 52) =? 0).
Definition IsInf64 (v : Z) : bool := (Z.land (Z.shiftr v 52) 0x7ff =? 0x7ff) && (Z.land v (Z.ones 52) =? 0).
Definition IsNaN32 (v : Z) : bool := (Z.land (Z.shiftr v 23) 0xff =? 0xff) && negb (Z.land v (Z.ones 23) =? 0).
Definition IsInf32 (v : Z) : bool := (Z.land (Z.shiftr v 23) 0xff =? 0xff) && (Z.land v (Z.ones 23) =? 0).
Definition finite64 (v : Z) : bool := negb (IsNaN64 v) && negb (IsInf64 v).
Definition finite32 (v : Z) : bool := negb (IsNaN32 v) && negb (IsInf32 v).

Definition DecodeMovement (payload : list byte) : res Movement :=
  let! (id, body) := PacketID payload else play_ErrMalformed in
  if negb (id =? ServerboundPositionID) && negb (id =? ServerboundPositionLookID) then Err play_ErrMalformed
  else if (id =? ServerboundPositionID) && negb (blen body =? 25) then Err play_ErrMalformed
  else if (id =? ServerboundPositionLookID) && negb (blen body =? 33) then Err play_ErrMalformed
  else
    let X := be_val (slice body 0 8) in
    let Y := be_val (slice body 8 16) in
    let Z_ := be_val (slice body 16 24) in
    let HasLook := id =? ServerboundPositionLookID in
    let Yaw := if HasLook then be_val (slice body 24 28) else 0 in
    let Pitch := if HasLook then be_val (slice body 28 32) else 0 in
    let onGroundOffset := if HasLook then 32%nat else 24%nat in
    let ground := ubyte (default x00 (body !! onGroundOffset)) in
    if (1 <? ground) || negb (finite64 X) || negb (finite64 Y) || negb (finite64 Z_)
       || negb (finite32 Yaw) || negb (finite32 Pitch)
    then Err play_ErrMalformed
    else Ok (mkMovement X Y Z_ Yaw Pitch (ground =? 1) HasLook).

Definition ParseMovement (payload : list byte) : option error :=
  match DecodeMovement payload with Ok _ => None | Err e => Some e end.

(** ** Specification *)

Definition bool_byte (b : bool) : byte := if b then x01 else x00.

(** The body of a movement packet: three doubles, the look if there is one, the
    ground flag. *)
Definition movement_body (m : Movement) : list byte :=
  be_bytes 8 (m_X m) ++ be_bytes 8 (m_Y m) ++ be_bytes 8 (m_Z m) ++
  (if m_HasLook m then be_bytes 4 (m_Yaw m) ++ be_bytes 4 (m_Pitch m) else []) ++
  [bool_byte (m_OnGround m)].

Definition movement_ok (m : Movement) : Prop :=
  in_uint64 (m_X m) /\ in_uint64 (m_Y m) /\ in_uint64 (m_Z m) /\ in_uint32 (m_Yaw m) /\ in_uint32 (m_Pitch m) /\
  finite64 (m_X m) = true /\ finite64 (m_Y m) = true /\ finite64 (m_Z m) = true /\
  finite32 (m_Yaw m) = true /\ finite32 (m_Pitch m) = true /\
  (m_HasLook m = false -> m_Yaw m = 0 /\ m_Pitch m = 0).

Definition movement_id (m : Movement) : Z :=
  if m_HasLook m then ServerboundPositionLookID else ServerboundPositionID.

Definition movement_payload (m : Movement) : list byte :=
  if m_HasLook m
  then ServerboundPositionLookPayload (m_X m) (m_Y m) (m_Z m) (m_Yaw m) (m_Pitch m) (m_OnGround m)
  else ServerboundPositionPayload (m_X m) (m_Y m) (m_Z m) (m_OnGround m).

Definition command_ok (c : PlayerCommand) : Prop :=
  in_int32 (c_EntityID c) /\ 0 <= c_EntityID c /\ 0 <= c_ActionID c <= 8 /\ in_int32 (c_Data c) /\ 0 <= c_Data c.

Definition command_wire (payload : list byte) (c : PlayerCommand) : Prop :=
  exists e a d, enc_packet ServerboundPlayerCommandID payload (e ++ a ++ d) /\
    enc_varint e (c_EntityID c) /\ enc_varint a (c_ActionID c) /\ enc_varint d (c_Data c).

(** How a client unpacks a block position: arithmetic shifts of the signed
    64-bit value. *)
Definition unpackPosition (v : Z) : Z * Z * Z :=
  let s := int64 v in
  (Z.shiftr s 38, Z.shiftr (int64 (Z.shiftl s 52)) 52, Z.shiftr (int64 (Z.shiftl s 26)) 38).

(** ** Lemmas *)

Lemma appendBool_app dst b : appendBool dst b = dst ++ [bool_byte b].
Proof. by destruct b. Qed.

Lemma appendFloat32_app dst v : in_uint32 v -> appendFloat32 dst v = dst ++ be_bytes 4 v.
Proof. intros. unfold appendFloat32, appendInt32. by rewrite uint32_int32, uint32_small. Qed.

Lemma movement_payload_eq m :
  movement_ok m -> movement_payload m = varint (movement_id m) ++ movement_body m.
Proof.
  intros (_ & _ & _ & Hy & Hp & _). unfold movement_payload, movement_id, movement_body.
  destruct (m_HasLook m); unfold ServerboundPositionLookPayload, ServerboundPositionPayload, appendFloat64;
    rewrite appendBool_app, ?appendFloat32_app by done; wire_norm; done.
Qed.

Lemma slice_be (n a b : nat) pre z rest :
  length pre = a -> b = (a + n)%nat -> slice (pre ++ be_bytes n z ++ rest) a b = be_bytes n z.
Proof.
  intros <- ->. unfold slice. rewrite drop_app_length. replace (_ - _)%nat with n by lia. apply take_be_bytes.
Qed.

Lemma lookup_at {A} (pre : list A) x i : length pre = i -> (pre ++ [x]) !! i = Some x.
Proof. intros <-. by rewrite list_lookup_middle. Qed.

Lemma movement_body_fields m :
  movement_ok m ->
  let body := movement_body m in
  length body = (if m_HasLook m then 33 else 25)%nat /\
  be_val (slice body 0 8) = m_X m /\ be_val (slice body 8 16) = m_Y m /\ be_val (slice body 16 24) = m_Z m /\
  (m_HasLook m = true -> be_val (slice body 24 28) = m_Yaw m /\ be_val (slice body 28 32) = m_Pitch m) /\
  body !! (if m_HasLook m then 32 else 24)%nat = Some (bool_byte (m_OnGround m)).
Proof.
  intros (HX & HY & HZ & Hy & Hp & _). cbn zeta. unfold movement_body.
  split_and!.
  - destruct (m_HasLook m); rewrite !length_app, ?length_be_bytes; done.
  - rewrite <-(app_nil_l (be_bytes 8 (m_X m) ++ _)), (slice_be 8) by done. by apply be_val_uint64.
  - rewrite (slice_be 8) by (by rewrite ?length_be_bytes). by apply be_val_uint64.
  - rewrite app_assoc, (slice_be 8) by (by rewrite ?length_app, ?length_be_bytes). by apply be_val_uint64.
  - intros ->. split.
    + rewrite <-app_assoc. rewrite 2!app_assoc.
      rewrite (slice_be 4) by (by rewrite ?length_app, ?length_be_bytes). by apply be_val_uint32.
    + rewrite <-app_assoc. rewrite 3!app_assoc.
      rewrite (slice_be 4) by (by rewrite ?length_app, ?length_be_bytes). by apply be_val_uint32.
  - rewrite !app_assoc. apply lookup_at.
    destruct (m_HasLook m); rewrite !length_app, ?length_be_bytes; done.
Qed.

Lemma DecodeMovement_complete payload m :
  movement_ok m -> enc_packet (movement_id m) payload (movement_body m) -> DecodeMovement payload = Ok m.
Proof.
  intros Hm Hid. pose proof (movement_body_fields m Hm) as (Hl & HX & HY & HZ & Hlook & Hg).
  destruct Hm as (_ & _ & _ & _ & _ & FX & FY & FZ & Fy & Fp & Hno).
  unfold DecodeMovement. rewrite (PacketID_enc _ _ _ Hid). unfold blen. rewrite Hl, HX, HY, HZ.
  unfold movement_id in *. destruct m as [X Y Z' yaw pitch ground look]; cbn in *. destruct look; cbn in *.
  - destruct (Hlook eq_refl) as [-> ->]. rewrite Hg. cbn. rewrite FX, FY, FZ, Fy, Fp. by destruct ground.
  - destruct (Hno eq_refl) as [-> ->]. rewrite Hg. cbn. rewrite FX, FY, FZ. by destruct ground.
Qed.

#[local] Arguments slice : simpl never.

Lemma slice_cat {A} (l : list A) a b c :
  (a <= b)%nat -> (b <= c)%nat -> slice l a c = slice l a b ++ slice l b c.
Proof.
  intros H1 H2. unfold slice. rewrite <-(take_drop (b - a) (drop a l)) at 1.
  rewrite drop_drop. replace (a + (b - a))%nat with b by lia.
  rewrite take_app, take_take, length_take. f_equal; [f_equal; lia|].
  destruct (decide (b - a <= length (drop a l)))%nat.
  - f_equal. lia.
  - rewrite (drop_ge l b) by (rewrite length_drop in *; lia). by rewrite !take_nil.
Qed.

Lemma slice_all {A} (l : list A) n : length l = n -> slice l 0 n = l.
Proof. intros <-. unfold slice. rewrite drop_0, Nat.sub_0_r. apply firstn_all. Qed.

Lemma length_slice {A} (l : list A) a b : (b <= length l)%nat -> length (slice l a b) = (b - a)%nat.
Proof. intros. unfold slice. rewrite length_take, length_drop. lia. Qed.

Lemma slice_last {A} (l : list A) n x : length l = S n -> l !! n = Some x -> slice l n (S n) = [x].
Proof.
  intros Hl Hx. unfold slice. replace (S n - n)%nat with 1%nat by lia.
  rewrite (drop_S l x n Hx). cbn. by rewrite firstn_O.
Qed.

(** A slice of [n] bytes is the encoding of its value. *)
Lemma be_bytes_slice (l : list byte) n a b :
  (b <= length l)%nat -> (b - a)%nat = n -> be_bytes n (be_val (slice l a b)) = slice l a b.
Proof. intros Hb Hn. apply be_bytes_be_val. by rewrite length_slice. Qed.

Lemma be_val_slice (l : list byte) n a b :
  (b <= length l)%nat -> (b - a)%nat = n -> 0 <= be_val (slice l a b) < 2 ^ (8 * Z.of_nat n).
Proof.
  intros Hb Hn. pose proof (be_val_range (slice l a b)) as Hr. unfold blen in Hr.
  by rewrite length_slice, Hn in Hr.
Qed.

Lemma bool_byte_eq b : ubyte b <= 1 -> bool_byte (ubyte b =? 1) = b.
Proof. intros Hb. apply Z.leb_le in Hb. by destruct b. Qed.

Lemma DecodeMovement_sound payload m :
  DecodeMovement payload = Ok m -> movement_ok m /\ enc_packet (movement_id m) payload (movement_body m).
Proof.
  unfold DecodeMovement. destruct (PacketID payload) as [[id body]|] eqn:Hid; [|done].
  case_match eqn:E1; [done|]. case_match eqn:E2; [done|]. case_match eqn:E3; [done|].
  apply PacketID_inv in Hid.
  destruct (Z.eqb_spec id ServerboundPositionLookID) as [->|Hn].
  - cbn [andb negb] in E3. bool_facts. assert (Hl : length body = 33%nat) by (unfold blen in E3; lia). clear E1 E2 E3.
    case_match eqn:E; [done|]. intros ?; simplify_eq. bool_facts.
    destruct (lookup_lt_is_Some_2 body 32 ltac:(lia)) as [g Hg]. rewrite Hg in *. change (default x00 (Some g)) with g in *.
    split; [split_and!; cbn; try done; try (apply (be_val_slice body 8); lia); apply (be_val_slice body 4); lia|].
    unfold movement_id, movement_body. cbn.
    rewrite !be_bytes_slice, bool_byte_eq by (done || lia).
    rewrite <-(slice_last body 32 g Hl Hg), <-app_assoc, <-!slice_cat by lia. by rewrite slice_all.
  - destruct (Z.eqb_spec id ServerboundPositionID) as [->|]; [|done]. cbn [andb negb] in E2. bool_facts.
    assert (Hl : length body = 25%nat) by (unfold blen in E2; lia). clear E1 E2 E3.
    case_match eqn:E; [done|]. intros ?; simplify_eq. bool_facts.
    destruct (lookup_lt_is_Some_2 body 24 ltac:(lia)) as [g Hg]. rewrite Hg in *. change (default x00 (Some g)) with g in *.
    split; [split_and!; cbn; try done; apply (be_val_slice body 8); lia|].
    unfold movement_id, movement_body. cbn.
    rewrite !be_bytes_slice, bool_byte_eq by (done || lia).
    rewrite <-(slice_last body 24 g Hl Hg), <-!slice_cat by lia. by rewrite slice_all.
Qed.

Lemma int64_congr a b k : a = b + k * 2 ^ 64 -> in_int64 b -> int64 a = b.
Proof.
  intros -> Hb. rewrite <-(int64_small b Hb) at 2. unfold int64.
  replace (b + k * 2 ^ 64 + 2 ^ 63) with (b + 2 ^ 63 + k * 2 ^ 64) by lia. by rewrite Z.mod_add.
Qed.

Lemma land_ones_uint32 v n : 0 <= n <= 32 -> Z.land (uint32 v) (Z.ones n) = v mod 2 ^ n.
Proof.
  intros Hn. rewrite Z.land_ones by lia. unfold uint32.
  replace 32 with (n + (32 - n)) by lia. rewrite Z.pow_add_r by lia.
  rewrite Z.rem_mul_r by lia.
  rewrite Z.mul_comm, Z.mod_add by lia. by rewrite Z.mod_mod by lia.
Qed.

Lemma packPosition_eq x y z :
  packPosition x y z = (x mod 2 ^ 26) * 2 ^ 38 + (z mod 2 ^ 26) * 2 ^ 12 + y mod 2 ^ 12.
Proof.
  unfold packPosition. change 0x3ffffff with (Z.ones 26). change 0xfff with (Z.ones 12).
  rewrite !land_ones_uint32 by lia.
  pose proof (Z.mod_pos_bound x (2 ^ 26) ltac:(lia)). pose proof (Z.mod_pos_bound z (2 ^ 26) ltac:(lia)).
  pose proof (Z.mod_pos_bound y (2 ^ 12) ltac:(lia)).
  rewrite !Z.shiftl_mul_pow2 by lia. rewrite !uint64_small by (unfold in_uint64; lia).
  rewrite <-Z.lor_assoc. rewrite <-(Z.shiftl_mul_pow2 (z mod 2 ^ 26)) by lia.
  rewrite lor_shiftl_add by lia.
  rewrite <-(Z.shiftl_mul_pow2 (x mod 2 ^ 26)) by lia. rewrite lor_shiftl_add by lia.
  rewrite !Z.shiftl_mul_pow2 by lia. lia.
Qed.

Lemma unpack_pack x y z :
  - 2 ^ 25 <= x < 2 ^ 25 -> - 2 ^ 11 <= y < 2 ^ 11 -> - 2 ^ 25 <= z < 2 ^ 25 ->
  unpackPosition (packPosition x y z) = (x, y, z).
Proof.
  intros Hx Hy Hz. rewrite packPosition_eq.
  pose proof (Z.div_mod x (2 ^ 26) ltac:(lia)) as Dx. pose proof (Z.div_mod z (2 ^ 26) ltac:(lia)) as Dz.
  pose proof (Z.div_mod y (2 ^ 12) ltac:(lia)) as Dy.
  pose proof (Z.mod_pos_bound x (2 ^ 26) ltac:(lia)). pose proof (Z.mod_pos_bound z (2 ^ 26) ltac:(lia)).
  pose proof (Z.mod_pos_bound y (2 ^ 12) ltac:(lia)).
  set (xm := x mod 2 ^ 26) in *. set (zm := z mod 2 ^ 26) in *. set (ym := y mod 2 ^ 12) in *.
  set (kx := x / 2 ^ 26) in *. set (kz := z / 2 ^ 26) in *. set (ky := y / 2 ^ 12) in *.
  unfold unpackPosition.
  rewrite (int64_congr _ (x * 2 ^ 38 + zm * 2 ^ 12 + ym) (- kx)) by (unfold in_int64; lia).
  rewrite !Z.shiftl_mul_pow2 by lia.
  rewrite (int64_congr _ (y * 2 ^ 52) (x * 2 ^ 26 + zm - ky)) by (unfold in_int64; lia).
  rewrite (int64_congr _ (z * 2 ^ 38 + ym * 2 ^ 26) (x - kz)) by (unfold in_int64; lia).
  rewrite !Z.shiftr_div_pow2 by lia. f_equal; [f_equal|].
  - rewrite <-Z.add_assoc, Z.div_add_l by lia. rewrite (Z.div_small (zm * 2 ^ 12 + ym)) by lia. lia.
  - by rewrite Z.div_mul by lia.
  - rewrite Z.div_add_l by lia. rewrite (Z.div_small (ym * 2 ^ 26)) by lia. lia.
Qed.

Lemma ParsePlayerCommand_iff payload c :
  ParsePlayerCommand payload = Ok c <-> command_ok c /\ command_wire payload c.
Proof.
  unfold ParsePlayerCommand. split.
  - destruct (PacketID payload) as [[id body]|] eqn:Hid; [|done]. case_match eqn:E1; [done|]. cbn [consume_values].
    destruct (ConsumeVarInt body) as [[v0 n0]|] eqn:H0; [|done].
    apply ConsumeVarInt_inv in H0 as (l0 & b0 & -> & H0 & ->). rewrite drop_app_blen by done.
    destruct (ConsumeVarInt b0) as [[v1 n1]|] eqn:H1; [|done].
    apply ConsumeVarInt_inv in H1 as (l1 & b1 & -> & H1 & ->). rewrite drop_app_blen by done.
    destruct (ConsumeVarInt b1) as [[v2 n2]|] eqn:H2; [|done].
    apply ConsumeVarInt_inv in H2 as (l2 & b2 & -> & H2 & ->). rewrite drop_app_blen by done.
    case_match eqn:E2; [done|]. intros ?; simplify_eq. bool_facts. subst.
    apply PacketID_inv in Hid. apply blen_0 in H as ->. rewrite app_nil_r in Hid.
    split; [split_and!; cbn; try lia; by eapply enc_varint_range|by exists l0, l1, l2].
  - destruct c as [v0 v1 v2]. intros [(_ & ? & ? & _ & ?) (l0 & l1 & l2 & Hid & Ha & Hb & Hc)]. cbn in *.
    rewrite (PacketID_enc _ _ _ Hid). cbn [negb Z.eqb ServerboundPlayerCommandID consume_values Pos.eqb].
    rewrite (ConsumeVarInt_enc _ _ _ Ha), drop_app_blen by done.
    rewrite (ConsumeVarInt_enc _ _ _ Hb), drop_app_blen by done.
    rewrite (ConsumeVarInt_enc_nil _ _ Hc).
    replace (drop (Z.to_nat (blen l2)) l2) with (@nil byte) by (unfold blen; rewrite drop_ge; [done|lia]).
    change (blen (@nil byte)) with 0. by wire_tests.
Qed.

Lemma ParseKeepAlive_iff payload v :
  ParseKeepAlive payload = Ok v <->
  in_int64 v /\ enc_packet ServerboundKeepAliveID payload (be_bytes 8 (uint64 v)).
Proof.
  unfold ParseKeepAlive. split.
  - destruct (PacketID payload) as [[id body]|] eqn:E; [|done]. case_match eqn:Ec; [done|].
    intros; simplify_eq. bool_facts. subst. split; [apply int64_range|].
    rewrite be_bytes_int64 by (unfold blen in *; lia). by apply PacketID_inv.
  - intros [Hv He]. rewrite (PacketID_enc _ _ _ He). by rewrite blen_be_bytes, int64_be_val.
Qed.

Lemma ParseTeleportConfirm_iff payload v :
  ParseTeleportConfirm payload = Ok v <->
  exists l, enc_packet ServerboundTeleportConfirmID payload l /\ enc_varint l v.
Proof.
  unfold ParseTeleportConfirm. split.
  - destruct (PacketID payload) as [[id body]|] eqn:E; [|done]. case_match eqn:Ec; [done|].
    destruct (ConsumeVarInt body) as [[t n]|] eqn:Ht; [|done]. case_match eqn:Ec2; [done|].
    intros; simplify_eq. bool_facts. subst. apply PacketID_inv in E.
    apply ConsumeVarInt_inv in Ht as (l & r & -> & Ht & Hn). rewrite blen_app in Hn.
    assert (r = []) as -> by (apply blen_0; lia). rewrite app_nil_r in E. by exists l.
  - intros (l & Hid & Ht). rewrite (PacketID_enc _ _ _ Hid), (ConsumeVarInt_enc_nil _ _ Ht).
    by rewrite !Z.eqb_refl.
Qed.

Lemma ActionBar_denotes text : blen text < 2 ^ 16 -> Denotes (String (str "text") text NewCompound) [(str "text", VString text)].
Proof. intros. apply (D_String _ []); [constructor|done|done]. Qed.

Lemma ActionBar_size text :
  blen (mkbyte nbtCompound :: encodePayload (String (str "text") text NewCompound)) = blen text + 11.
Proof.
  rewrite blen_cons. unfold encodePayload. cbn [String add NewCompound fields app map concat].
  unfold encodeField. cbn [f_data f_name take drop]. rewrite firstn_O, drop_0, app_nil_r.
  rewrite !blen_app, !blen_appendStringPayload, !blen_cons, !(blen_nil (A:=byte)). change (blen (str "text")) with 4. lia.
Qed.

(** ** Properties *)

(** movement packets. [DecodeMovement] accepts a payload if and only if it is
    packet 0x17 with three finite doubles and a boolean, or packet 0x18 with a
    finite look direction as well, of exactly that size; NaN, infinities, other
    flag bytes and trailing data are refused. What the replay sends to a backend
    for a movement is decoded back to it. *)
Theorem movement_exact payload m :
  (DecodeMovement payload = Ok m <-> movement_ok m /\ enc_packet (movement_id m) payload (movement_body m)) /\
  (movement_ok m -> DecodeMovement (movement_payload m) = Ok m).
Proof.
  split; [split|].
  - apply DecodeMovement_sound.
  - intros [Hm Hid]. by apply DecodeMovement_complete.
  - intros Hm. apply DecodeMovement_complete; [done|]. rewrite movement_payload_eq by done.
    apply enc_packet_varint. unfold movement_id. by destruct (m_HasLook m).
Qed.

Lemma movement_exact_witness :
  DecodeMovement (ServerboundPositionLookPayload 0x3ff0000000000000 0x4050000000000000 0 0x42b40000 0 true) =
  Ok (mkMovement 0x3ff0000000000000 0x4050000000000000 0 0x42b40000 0 true true).
Proof.
  apply (movement_exact [] (mkMovement 0x3ff0000000000000 0x4050000000000000 0 0x42b40000 0 true true)).
  unfold movement_ok, in_uint64, in_uint32. cbn. split_and!; try done; lia.
Defined.

(** the other packets a client answers with. A player command is accepted
    exactly when it is packet 0x22 with three VarInts, a non-negative entity and
    data and an action from 0 to 8, and nothing else; the builder used for the
    replay produces such packets. A keep-alive answer is exactly packet 0x15 with
    eight bytes, a teleport confirmation packet 0 with one VarInt. *)
Theorem command_and_acknowledgements_exact payload c v :
  (ParsePlayerCommand payload = Ok c <-> command_ok c /\ command_wire payload c) /\
  (command_ok c ->
   ParsePlayerCommand (PlayerCommandPayload (c_EntityID c) (c_ActionID c) (c_Data c)) = Ok c) /\
  (ParseKeepAlive payload = Ok v <->
   in_int64 v /\ enc_packet ServerboundKeepAliveID payload (be_bytes 8 (uint64 v))) /\
  (ParseTeleportConfirm payload = Ok v <->
   exists l, enc_packet ServerboundTeleportConfirmID payload l /\ enc_varint l v).
Proof.
  split_and!; [apply ParsePlayerCommand_iff| |apply ParseKeepAlive_iff|apply ParseTeleportConfirm_iff].
  intros Hc. apply ParsePlayerCommand_iff. split; [done|]. destruct Hc as (He & _ & Ha & Hd & _).
  exists (varint (c_EntityID c)), (varint (c_ActionID c)), (varint (c_Data c)).
  unfold PlayerCommandPayload. wire_norm.
  split_and!; [by apply enc_packet_varint|apply enc_varint_varint; unfold in_int32 in *; lia..].
Qed.

Lemma command_and_acknowledgements_exact_witness :
  ParsePlayerCommand (PlayerCommandPayload 7 3 0) = Ok (mkPlayerCommand 7 3 0).
Proof.
  apply (command_and_acknowledgements_exact [] (mkPlayerCommand 7 3 0) 0).
  unfold command_ok, in_int32. cbn. lia.
Defined.

(** the spawn position fits its 64 bits: for every block position of the
    world (26-bit horizontal, 12-bit vertical signed coordinates) the packed value
    is unpacked to the same coordinates by the client's sign-extending shifts. *)
Theorem spawn_position_roundtrip x y z angle :
  - 2 ^ 25 <= x < 2 ^ 25 -> - 2 ^ 11 <= y < 2 ^ 11 -> - 2 ^ 25 <= z < 2 ^ 25 -> in_uint32 angle ->
  exists packed, SpawnPositionPayload x y z angle =
      varint ClientboundSpawnPositionID ++ be_bytes 8 packed ++ be_bytes 4 angle /\
    in_uint64 packed /\ unpackPosition packed = (x, y, z).
Proof.
  intros Hx Hy Hz Ha. exists (packPosition x y z). split_and!.
  - unfold SpawnPositionPayload. rewrite appendFloat32_app by done. wire_norm. done.
  - rewrite packPosition_eq.
    pose proof (Z.mod_pos_bound x (2 ^ 26) ltac:(lia)). pose proof (Z.mod_pos_bound z (2 ^ 26) ltac:(lia)).
    pose proof (Z.mod_pos_bound y (2 ^ 12) ltac:(lia)). unfold in_uint64. lia.
  - by apply unpack_pack.
Qed.

Lemma spawn_position_roundtrip_witness :
  exists packed, SpawnPositionPayload (-5) 64 12 0 =
      varint ClientboundSpawnPositionID ++ be_bytes 8 packed ++ be_bytes 4 0 /\
    in_uint64 packed /\ unpackPosition packed = (-5, 64, 12).
Proof. apply spawn_position_roundtrip; unfold in_uint32; lia. Defined.

(** the action bar shows exactly the given text or nothing is sent: a text of
    at most 65525 bytes becomes an NBT compound which reads back as the text, and
    a longer one is refused, so the 16-bit string length never wraps around. *)
Theorem action_bar_text text :
  (blen text <= 65525 ->
   exists data, ActionBarPayload text = Ok (varint ClientboundActionBarID ++ data) /\
     read_document data = Some [(str "text", VString text)]) /\
  (65525 < blen text -> ActionBarPayload text = Err ErrNBTTooLarge).
Proof.
  unfold ActionBarPayload. rewrite AppendVarInt_app. cbn [app].
  change (Z.shiftl 64 10) with 65536. split; intros Ht.
  - destruct (Encode (String (str "text") text NewCompound) 65536) as [data|e] eqn:E.
    + exists data. split; [done|]. eapply Encode_read; [|exact E]. apply ActionBar_denotes. lia.
    + revert E. unfold Encode. rewrite ActionBar_size. case_match eqn:El; [|done]. bool_facts. lia.
  - unfold Encode. rewrite ActionBar_size. by rewrite (proj2 (Z.ltb_lt _ _)) by lia.
Qed.
