(* ===== verification/Forwarding.v ===== *)
(** * Velocity modern forwarding (internal/forwarding/velocity.go) and the
    challenge hooks run before admission (internal/challenge/challenge.go)

    The gateway signs the player's identity for the backend. [read_forwarded] is
    the backend's side: it checks the HMAC with the shared secret and decodes
    the payload. *)

From S2P Require Import Prelude GoIO Varint Utf8 McString Frame Wire Crypto Login.

Definition VelocityChannel : gostring := str "velocity:player_info".
Definition ModernVersion : Z := 1.

Record PlayerIdentity := mkIdentity {
  id_Address : gostring;
  id_UUID : list byte;
  id_Username : gostring;
  id_Properties : list Property
}.

Record ModernForwarding := mkModernForwarding { secret : list byte }.

Definition NewModernForwarding (secret : list byte) : res ModernForwarding :=
  if blen secret =? 0 then Err ErrEmptySecret else Ok (mkModernForwarding secret).

(** The loop over the properties is the one of Login Success. *)
Definition forwarding_payload (identity : PlayerIdentity) : list byte :=
  let payload := AppendVarInt [] ModernVersion in
  let payload := AppendString payload (id_Address identity) in
  let payload := payload ++ id_UUID identity in
  let payload := AppendString payload (id_Username identity) in
  let payload := AppendVarInt payload (int32 (blen (id_Properties identity))) in
  append_properties payload (id_Properties identity).

Definition BuildResponse (f : ModernForwarding) (identity : PlayerIdentity) : res (list byte) :=
  if bool_decide (id_Address identity = []) || bool_decide (id_Username identity = [])
  then Err ErrInvalidIdentity
  else
    let payload := forwarding_payload identity in
    Ok (hmac_sha256 (secret f) payload ++ payload).

(** ** Challenge hooks *)

Section hooks.
Context {Ctx : Type}.

(** A hook's [Verify]; [None] in the chain is a nil hook. *)
Definition Hook : Type := Ctx -> PlayerIdentity -> option error.
Definition Chain : Type := list (option Hook).

Fixpoint Chain_Verify (c : Chain) (ctx : Ctx) (identity : PlayerIdentity) : option error :=
  match c with
  | [] => None
  | None :: c' => Chain_Verify c' ctx identity
  | Some hook :: c' =>
    match hook ctx identity with
    | Some err => Some err
    | None => Chain_Verify c' ctx identity
    end
  end.
End hooks.

(** ** Specification *)

(** What a backend with the same secret does with the response. *)
Definition read_forwarded (key response : list byte) : res PlayerIdentity :=
  let mac := take 32 response in
  let payload := drop 32 response in
  if negb (bool_decide (mac = hmac_sha256 key payload)) then Err (ErrOther 1) else
  let! (version, used) := ConsumeVarInt payload in
  if negb (version =? ModernVersion) then Err (ErrOther 2) else
  let data := drop (Z.to_nat used) payload in
  let! (address, used) := ConsumeString data 32767 in
  let data := drop (Z.to_nat used) data in
  if blen data <? 16 then Err io_ErrUnexpectedEOF else
  let uuid := take 16 data in
  let data := drop 16 data in
  let! (username, used) := ConsumeString data 16 in
  let data := drop (Z.to_nat used) data in
  let! (n, used) := ConsumeVarInt data in
  if n <? 0 then Err (ErrOther 3) else
  let! (properties, rest) := read_properties (Z.to_nat n) (drop (Z.to_nat used) data) in
  if bool_decide (rest = []) then Ok (mkIdentity address uuid username properties) else Err (ErrOther 4).

Definition identity_ok (i : PlayerIdentity) : Prop :=
  id_Address i <> [] /\ id_Username i <> [] /\ string_fits 32767 (id_Address i) = true /\
  length (id_UUID i) = 16%nat /\ string_fits 16 (id_Username i) = true /\
  Forall property_ok (id_Properties i) /\ blen (id_Properties i) < 2 ^ 31.

(** ** Lemmas *)

Lemma forwarding_payload_eq i :
  forwarding_payload i =
  varint ModernVersion ++ mcstring (id_Address i) ++ id_UUID i ++ mcstring (id_Username i) ++
  varint (int32 (blen (id_Properties i))) ++ concat (property_bytes <$> id_Properties i).
Proof. unfold forwarding_payload. rewrite append_properties_app. wire_norm. done. Qed.

Lemma read_forwarded_ok key i :
  identity_ok i ->
  read_forwarded key (hmac_sha256 key (forwarding_payload i) ++ forwarding_payload i) = Ok i.
Proof.
  intros (_ & _ & Ha & Hu & Hn & Hp & Hl). unfold read_forwarded.
  rewrite take_app_length', drop_app_length' by (symmetry; apply length_hmac_sha256).
  rewrite bool_decide_true by done. cbn [negb]. rewrite forwarding_payload_eq.
  rewrite ConsumeVarInt_varint by done. cbn [negb Z.eqb ModernVersion Pos.eqb].
  rewrite drop_app_blen by done. rewrite ConsumeString_mcstring, drop_app_blen by done.
  rewrite (proj2 (Z.ltb_ge _ _)).
  2: { rewrite blen_app. unfold blen at 1. rewrite Hu.
       pose proof (blen_nonneg (mcstring (id_Username i) ++ varint (int32 (blen (id_Properties i))) ++
         concat (property_bytes <$> id_Properties i))). lia. }
  rewrite <-Hu, take_app_length, drop_app_length.
  rewrite ConsumeString_mcstring, drop_app_blen by done.
  rewrite ConsumeVarInt_varint, drop_app_blen by (done || apply int32_range).
  rewrite blen_int32 by done. pose proof (blen_nonneg (id_Properties i)). wire_tests.
  unfold blen. rewrite Nat2Z.id. rewrite <-(app_nil_r (concat _)), read_properties_app by done.
  rewrite bool_decide_true by done. by destruct i.
Qed.

Lemma Chain_Verify_None {Ctx} (c : @Chain Ctx) ctx i :
  Chain_Verify c ctx i = None <-> Forall (fun h => forall f, h = Some f -> f ctx i = None) c.
Proof.
  induction c as [|[h|] c IH]; cbn; [by split; [constructor|]| |].
  - rewrite Forall_cons, <-IH. destruct (h ctx i) eqn:E.
    + split; [done|]. intros [Hh _]. specialize (Hh h eq_refl). congruence.
    + split; [intros; split; [by intros f [= <-]|done]|by intros []].
  - rewrite Forall_cons, <-IH. split; [intros; split; [by intros f [=]|done]|by intros []].
Qed.

(** ** Properties *)

(** C37: forwarding is authentic and complete. For an identity with an address and
    a name, the response starts with the HMAC-SHA-256 of the rest under the
    configured secret, and a backend with that secret reads back exactly the
    identity: address, UUID, name and every property with its signature. An
    identity without address or name is refused, as is an empty secret. *)
Theorem forwarding_roundtrip key i :
  match NewModernForwarding key with
  | Err e => e = ErrEmptySecret /\ key = []
  | Ok f =>
    (identity_ok i -> exists response, BuildResponse f i = Ok response /\ read_forwarded key response = Ok i) /\
    (BuildResponse f i = Err ErrInvalidIdentity <-> id_Address i = [] \/ id_Username i = [])
  end.
Proof.
  unfold NewModernForwarding. destruct (Z.eqb_spec (blen key) 0) as [H|H]; [split; [done|by apply blen_0]|].
  unfold BuildResponse. cbn [secret]. split.
  - intros Hi. assert (Hi' := Hi). destruct Hi' as (Ha & Hu & _).
    rewrite !bool_decide_false by done. cbn [orb]. eexists. split; [done|]. by apply read_forwarded_ok.
  - destruct (decide (id_Address i = [])); [rewrite bool_decide_true by done; cbn; split; auto|].
    rewrite (bool_decide_false (id_Address i = [])) by done. cbn [orb].
    destruct (decide (id_Username i = [])); [rewrite bool_decide_true by done; split; auto|].
    rewrite bool_decide_false by done. split; [done|tauto].
Qed.
