(* ===== verification/Auth.v ===== *)
(** * Online-mode authentication (internal/auth/challenge.go, session.go)

    RSA decryption, the HTTP exchange with Mojang's session server, JSON decoding
    and Unicode case folding are parameters of the definitions that use them. *)

From S2P Require Import Prelude GoIO Varint Utf8 McString Frame Wire Crypto Login.

Definition verifyTokenBytes : Z := 4.
Definition sharedSecretSize : Z := 16.
Definition maxSessionBody : Z := Z.shiftl 1 20.

Record Profile := mkProfile { pf_UUID : list byte; pf_Username : gostring; pf_Properties : list Property }.

(** ** ServerHash *)

(** The two's complement loop, from the last byte to the first; the carry that
    leaves the front is returned. *)
Fixpoint negate_loop (value : list byte) : list byte * Z :=
  match value with
  | [] => ([], 1)
  | v :: value' =>
    let '(out, carry) := negate_loop value' in
    let next := mkbyte (Z.lxor (ubyte v) 0xff + carry) in
    (next :: out, if (carry =? 1) && negb (ubyte next =? 0) then 0 else carry)
  end.

(** [strings.TrimLeft(s, "0")] *)
Fixpoint trim_zeros (s : gostring) : gostring :=
  match s with
  | b :: s' => if bool_decide (b = x30) then trim_zeros s' else s
  | [] => []
  end.

Definition ServerHash (serverID sharedSecret publicKey : list byte) : gostring :=
  let value := sha1_Sum (serverID ++ sharedSecret ++ publicKey) in
  let negative := negb (Z.land (ubyte (default x00 (value !! 0%nat))) 0x80 =? 0) in
  let value := if negative then fst (negate_loop value) else value in
  let encoded := trim_zeros (hex_encode value) in
  let encoded := if bool_decide (encoded = []) then str "0" else encoded in
  if negative then str "-" ++ encoded else encoded.

(** ** Challenge *)

Section challenge.
Context {Key : Type} (DecryptPKCS1v15 : Key -> list byte -> res (list byte)).

Record Challenge := mkChallenge { privateKey : Key; publicKey : list byte; verifyToken : list byte }.

(** Two slices are equal exactly when [subtle.ConstantTimeCompare] gives 1. *)
Definition Challenge_Decrypt (c : Challenge) (encryptedSecret encryptedToken : list byte) : res (list byte) :=
  let! secret := DecryptPKCS1v15 (privateKey c) encryptedSecret else ErrInvalidSharedSecret in
  if negb (blen secret =? sharedSecretSize) then Err ErrInvalidSharedSecret else
  let! token := DecryptPKCS1v15 (privateKey c) encryptedToken else ErrVerifyTokenMismatch in
  if negb (blen token =? blen (verifyToken c)) || negb (bool_decide (token = verifyToken c))
  then Err ErrVerifyTokenMismatch
  else Ok secret.

(** [a.verifier.HasJoined(ctx, username, hash, address)] *)
Context (HasJoined : gostring -> gostring -> gostring -> res Profile).

Definition Authenticate (challenge : Challenge) (username address : gostring)
    (encryptedSecret encryptedToken : list byte) : res (Profile * list byte) :=
  let! secret := Challenge_Decrypt challenge encryptedSecret encryptedToken in
  let! profile := HasJoined username (ServerHash [] secret (publicKey challenge)) address in
  Ok (profile, secret).

(** [Begin]: the authenticator's key pair and four random bytes, or the error of
    the random source. *)
Definition Begin (privateKey : Key) (publicKey : list byte) (random : reader) : res Challenge * reader :=
  match ReadFull random (Z.to_nat verifyTokenBytes) with
  | (Err err, random') => (Err err, random')
  | (Ok verifyToken, random') => (Ok (mkChallenge privateKey publicKey verifyToken), random')
  end.
End challenge.

(** ** Keys

    [rsa.GenerateKey(random, 1024)] draws from the random source;
    [x509.MarshalPKIXPublicKey] encodes the public half. *)

Definition Verifier : Type := gostring -> gostring -> gostring -> res Profile.

Record Authenticator (Key : Type) := mkAuthenticator {
  au_privateKey : Key;
  au_publicKey : list byte;
  au_verifier : Verifier
}.
Arguments mkAuthenticator {Key}.
Arguments au_privateKey {Key}.
Arguments au_publicKey {Key}.
Arguments au_verifier {Key}.

Section keys.
Context {Key : Type} (GenerateKey : reader -> res Key * reader) (MarshalPKIXPublicKey : Key -> res (list byte)).

(** [session] is the zero [SessionService], used when no verifier is given. *)
Definition NewAuthenticator (session : Verifier) (verifier : option Verifier) (random : reader)
    : res (Authenticator Key) * reader :=
  match GenerateKey random with
  | (Err err, random) => (Err err, random)
  | (Ok privateKey, random) =>
    (let! publicKey := MarshalPKIXPublicKey privateKey in
     Ok (mkAuthenticator privateKey publicKey (default session verifier)), random)
  end.

Definition newChallenge (random : reader) : res (Challenge (Key:=Key)) * reader :=
  match GenerateKey random with
  | (Err err, random) => (Err err, random)
  | (Ok privateKey, random) =>
    match MarshalPKIXPublicKey privateKey with
    | Err err => (Err err, random)
    | Ok publicKey =>
      match ReadFull random (Z.to_nat verifyTokenBytes) with
      | (Err err, random) => (Err err, random)
      | (Ok verifyToken, random) => (Ok (mkChallenge privateKey publicKey verifyToken), random)
      end
    end
  end.
End keys.

(** ** Session service *)

Definition parseUUID (value : gostring) : res (list byte) :=
  let value := List.filter (fun b => negb (bool_decide (b = x2d))) value in
  if negb (blen value =? 32) then Err ErrInvalidUUID
  else match hex_decode value with
       | None => Err ErrInvalidUUID
       | Some decoded => Ok decoded
       end.

Record document := mkDocument { doc_ID : gostring; doc_Name : gostring; doc_Properties : list Property }.
Record http_response := mkHttpResponse { StatusCode : Z; Status : gostring; Body : list byte }.

Section service.
(** [get endpoint username serverId ip] performs the GET request with these query
    values, [ip] absent when empty; [decode] and [decode_any] are a JSON decoder
    over a byte stream, with the bytes left after the value. *)
Context (get : gostring -> gostring -> gostring -> option gostring -> res http_response).
Context (decode : list byte -> res (document * list byte)) (decode_any : list byte -> option error).
Context (EqualFold : gostring -> gostring -> bool).
Context (defaultSessionURL : gostring).

Definition SessionService_HasJoined (URL username serverHash address : gostring) : res Profile :=
  let endpoint := if bool_decide (URL = []) then defaultSessionURL else URL in
  let! response := get endpoint username serverHash (if bool_decide (address = []) then None else Some address) in
  if (StatusCode response =? 204) || (StatusCode response =? 403) then Err ErrNotJoined
  else if negb (StatusCode response =? 200) then Err (ErrNew ("Mojang session server returned " +:+ String.string_of_list_byte (Status response)))
  else
    let limited := take (Z.to_nat (maxSessionBody + 1)) (Body response) in
    let! (doc, rest) := decode limited in
    if negb (match decode_any rest with Some e => errors_Is e io_EOF | None => false end)
    then Err (ErrNew "invalid Mojang session response")
    else if blen limited =? maxSessionBody + 1 then Err (ErrNew "Mojang session response exceeds limit")
    else if bool_decide (doc_Name doc = []) || negb (EqualFold (doc_Name doc) username) then Err ErrNotJoined
    else
      let! uuid := parseUUID (doc_ID doc) in
      Ok (mkProfile uuid (doc_Name doc) (doc_Properties doc)).
End service.

(** ** Specification *)

(** The digits of a non-negative number in base 16, without leading zeros. *)
Fixpoint hex_digits (fuel : nat) (z : Z) : gostring :=
  match fuel with
  | O => []
  | S fuel' => if z <? 16 then [hex_digit z] else hex_digits fuel' (z / 16) ++ [hex_digit z]
  end.

(** A number in base 16 with a sign, as Java's [BigInteger.toString(16)]; 40
    digits are enough for 160 bits. *)
Definition signed_hex (z : Z) : gostring :=
  if z <? 0 then str "-" ++ hex_digits 40 (- z) else hex_digits 40 z.

(** A 20-byte string as a two's complement number. *)
Definition int160 (l : list byte) : Z :=
  let v := be_val l in if v <? 2 ^ 159 then v else v - 2 ^ 160.

(** The canonical dashed form of a UUID. *)
Definition dashed (uuid : list byte) : gostring :=
  let h := hex_encode uuid in
  take 8 h ++ [x2d] ++ slice h 8 12 ++ [x2d] ++ slice h 12 16 ++ [x2d] ++ slice h 16 20 ++ [x2d] ++ drop 20 h.

(** ** Lemmas: two's complement *)

Lemma lxor_ff b : Z.lxor (ubyte b) 0xff = 255 - ubyte b.
Proof. by destruct b. Qed.

Lemma negate_loop_spec l :
  let '(o, c) := negate_loop l in
  length o = length l /\ (c = 0 \/ c = 1) /\ be_val o + be_val l = (1 - c) * 2 ^ (8 * blen l) /\
  (c = 1 -> be_val l = 0).
Proof.
  induction l as [|v l IH]; [cbn; split_and!; auto|]. cbn [negate_loop].
  destruct (negate_loop l) as [o c]. destruct IH as (Hl & Hc & Hs & Hz).
  pose proof (ubyte_range v) as Hv. pose proof (be_val_range l). pose proof (be_val_range o).
  rewrite lxor_ff, !be_val_cons. unfold blen in *. cbn [length]. rewrite pow2_byte_succ, Hl in *.
  destruct Hc as [-> | ->].
  - rewrite ubyte_mkbyte_small by lia. cbn [Z.eqb andb]. split_and!; [lia|by left|nia|done].
  - specialize (Hz eq_refl). rewrite ubyte_mkbyte.
    destruct (Z.eqb_spec (ubyte v) 0) as [E|E].
    + rewrite E. change ((255 - 0 + 1) mod 256) with 0. cbn [Z.eqb Pos.eqb andb negb]. split_and!; [lia|by right|lia|lia].
    + rewrite Z.mod_small by lia. rewrite (proj2 (Z.eqb_neq (255 - ubyte v + 1) 0)) by lia. cbn [Z.eqb andb negb Pos.eqb].
      split_and!; [lia|by left|nia|done].
Qed.

Lemma negate_loop_val l :
  be_val l <> 0 -> be_val (fst (negate_loop l)) = 2 ^ (8 * blen l) - be_val l /\
    length (fst (negate_loop l)) = length l.
Proof.
  intros Hn. pose proof (negate_loop_spec l) as Hs. destruct (negate_loop l) as [o c].
  destruct Hs as (Hl & [-> | ->] & Hs & Hz); [|by specialize (Hz eq_refl)]. cbn. split; [lia|done].
Qed.

(** ** Lemmas: hexadecimal numbers *)

Lemma be_val_snoc l b : be_val (l ++ [b]) = be_val l * 256 + ubyte b.
Proof.
  unfold be_val. assert (Ha : forall acc, be_val_acc acc (l ++ [b]) = Z.lor (Z.shiftl (be_val_acc acc l) 8) (ubyte b)).
  { induction l as [|x l IH]; intros acc; [done|]. cbn. apply IH. }
  rewrite Ha, lor_shiftl_add; [done|lia|apply ubyte_range].
Qed.

(** [n] base-16 digits, leading zeros included. *)
Fixpoint hex_pad (n : nat) (z : Z) : gostring :=
  match n with O => [] | S n' => hex_pad n' (z / 16) ++ [hex_digit z] end.

Lemma hex_digit_mod a b : a mod 16 = b mod 16 -> hex_digit a = hex_digit b.
Proof. unfold hex_digit. by intros ->. Qed.

Lemma hex_encode_pad l : hex_encode l = hex_pad (2 * length l) (be_val l).
Proof.
  induction l as [|b l IH] using rev_ind; [done|].
  unfold hex_encode in *. rewrite map_app, concat_app, IH, length_app, be_val_snoc. cbn [map concat length app].
  replace (2 * (length l + 1))%nat with (S (S (2 * length l))) by lia. cbn [hex_pad].
  pose proof (ubyte_range b). rewrite <-app_assoc. cbn [app].
  assert (E : (be_val l * 256 + ubyte b) / 16 = be_val l * 16 + ubyte b / 16).
  { replace (be_val l * 256 + ubyte b) with (be_val l * 16 * 16 + ubyte b) by lia.
    by rewrite Z.div_add_l by lia. }
  rewrite E. f_equal; [f_equal|f_equal; [|f_equal]].
  - rewrite Z.div_add_l by lia. rewrite Z.div_small; [lia|]. split; [apply Z.div_pos; lia|apply Z.div_lt_upper_bound; lia].
  - apply hex_digit_mod. rewrite Z.shiftr_div_pow2 by lia. change (2 ^ 4) with 16.
    by rewrite Z.add_comm, Z.mod_add by lia.
  - apply hex_digit_mod. replace (be_val l * 256) with (be_val l * 16 * 16) by lia.
    by rewrite Z.add_comm, Z.mod_add by lia.
Qed.

Lemma trim_zeros_snoc s d :
  trim_zeros (s ++ [d]) = if bool_decide (trim_zeros s = []) then trim_zeros [d] else trim_zeros s ++ [d].
Proof.
  induction s as [|b s IH]; [done|]. cbn [app trim_zeros]. destruct (decide (b = x30)).
  - by rewrite !(bool_decide_true (b = x30)) by done.
  - rewrite !(bool_decide_false (b = x30)) by done. by rewrite bool_decide_false.
Qed.

Lemma hex_digit_zero z : 0 <= z < 16 -> (hex_digit z = x30 <-> z = 0).
Proof.
  intros Hz. split; [|by intros ->].
  destruct z as [|p|p]; [done| |lia]. do 5 (try destruct p as [p|p|]; try lia); done.
Qed.

Lemma hex_digits_nonempty fuel z : (0 < fuel)%nat -> hex_digits fuel z <> [].
Proof. destruct fuel; [lia|]. cbn. case_match; [done|]. by destruct (hex_digits fuel (z / 16)). Qed.

Lemma trim_hex_pad n : forall fuel z, (n <= fuel)%nat -> 0 <= z < 16 ^ Z.of_nat n ->
  trim_zeros (hex_pad n z) = if z =? 0 then [] else hex_digits fuel z.
Proof.
  induction n as [|n IH]; intros fuel z Hf Hz.
  - cbn in *. by destruct (Z.eqb_spec z 0); [|lia].
  - destruct fuel as [|fuel]; [lia|]. cbn [hex_pad hex_digits]. rewrite trim_zeros_snoc.
    rewrite Nat2Z.inj_succ, Z.pow_succ_r in Hz by lia.
    rewrite (IH fuel) by (lia || (split; [apply Z.div_pos; lia|apply Z.div_lt_upper_bound; lia])).
    destruct (Z.ltb_spec z 16).
    + rewrite (Z.div_small z 16) by lia. cbn [Z.eqb trim_zeros]. rewrite (bool_decide_true ([] = [])) by done.
      destruct (Z.eqb_spec z 0) as [->|Hn]; [done|].
      by rewrite bool_decide_false by (rewrite hex_digit_zero; lia).
    + assert (1 <= z / 16) by (apply Z.div_le_lower_bound; lia).
      rewrite (proj2 (Z.eqb_neq (z / 16) 0)), (proj2 (Z.eqb_neq z 0)) by lia.
      rewrite bool_decide_false; [done|]. apply hex_digits_nonempty.
      destruct n; [cbn in Hz; lia|lia].
Qed.

Lemma encoded_hex l fuel :
  (2 * length l <= fuel)%nat -> (1 <= fuel)%nat ->
  (if bool_decide (trim_zeros (hex_encode l) = []) then str "0" else trim_zeros (hex_encode l)) =
  hex_digits fuel (be_val l).
Proof.
  intros Hf Hf1. rewrite hex_encode_pad, (trim_hex_pad _ fuel); [|done|].
  - destruct (Z.eqb_spec (be_val l) 0) as [->|].
    + by destruct fuel; [lia|].
    + by rewrite bool_decide_false by (apply hex_digits_nonempty; lia).
  - pose proof (be_val_range l). rewrite Nat2Z.inj_mul. change 16 with (2 ^ 4).
    rewrite <-Z.pow_mul_r by lia. replace (4 * (Z.of_nat 2 * Z.of_nat (length l))) with (8 * blen l) by (unfold blen; lia). done.
Qed.

Lemma first_bit l : length l = 20%nat ->
  negb (Z.land (ubyte (default x00 (l !! 0%nat))) 0x80 =? 0) = negb (be_val l <? 2 ^ 159).
Proof.
  destruct l as [|b l]; [done|]. intros Hl. cbn [lookup list_lookup default]. unfold id. f_equal.
  rewrite land_80, be_val_cons. pose proof (be_val_range l). pose proof (ubyte_range b).
  assert (Hb : 8 * blen l = 152) by (unfold blen in *; cbn in Hl; lia). rewrite Hb in *.
  destruct (Z.ltb_spec (ubyte b) 128), (Z.ltb_spec (ubyte b * 2 ^ 152 + be_val l) (2 ^ 159)); lia.
Qed.

Lemma ServerHash_spec serverID secret key :
  ServerHash serverID secret key = signed_hex (int160 (sha1_Sum (serverID ++ secret ++ key))).
Proof.
  unfold ServerHash. pose proof (length_sha1_Sum (serverID ++ secret ++ key)) as Hl.
  set (d := sha1_Sum _) in *. clearbody d. rewrite (first_bit d Hl). unfold int160, signed_hex.
  pose proof (be_val_range d) as Hr. replace (8 * blen d) with 160 in Hr by (unfold blen; lia).
  destruct (Z.ltb_spec (be_val d) (2 ^ 159)); cbn [negb].
  - rewrite (proj2 (Z.ltb_ge (be_val d) 0)) by lia. by apply encoded_hex; lia.
  - destruct (negate_loop_val d ltac:(lia)) as [Hv Hn].
    rewrite (proj2 (Z.ltb_lt (be_val d - 2 ^ 160) 0)) by lia. f_equal.
    rewrite (encoded_hex _ 40) by lia. f_equal. rewrite Hv. unfold blen. rewrite Hl. lia.
Qed.

(** ** Lemmas: UUIDs *)

Lemma hex_digit_not_dash z : hex_digit z <> x2d.
Proof.
  unfold hex_digit. pose proof (Z.mod_pos_bound z 16 ltac:(lia)) as Hr. generalize dependent (z mod 16).
  intros m Hm. destruct m as [|p|p]; [done| |lia]. do 5 (try destruct p as [p|p|]; try lia); done.
Qed.

Lemma hex_encode_no_dash l : Forall (fun b => b <> x2d) (hex_encode l).
Proof.
  unfold hex_encode. induction l as [|b l IH]; [constructor|]. cbn.
  repeat constructor; try apply hex_digit_not_dash. done.
Qed.

Lemma filter_dash_id s :
  Forall (fun b => b <> x2d) s -> List.filter (fun b => negb (bool_decide (b = x2d))) s = s.
Proof. induction 1 as [|b s Hb _ IH]; [done|]. cbn. rewrite bool_decide_false by done. cbn. by rewrite IH. Qed.

Lemma parseUUID_hex u s :
  length u = 16%nat -> List.filter (fun b => negb (bool_decide (b = x2d))) s = hex_encode u -> parseUUID s = Ok u.
Proof.
  intros Hu Hs. unfold parseUUID. rewrite Hs. unfold blen. rewrite length_hex_encode, Hu.
  by rewrite hex_decode_encode.
Qed.

Lemma filter_dashed u :
  length u = 16%nat -> List.filter (fun b => negb (bool_decide (b = x2d))) (dashed u) = hex_encode u.
Proof.
  intros Hu. unfold dashed. rewrite !List.filter_app.
  assert (Hf : forall s, Forall (fun b => b <> x2d) s -> List.filter (fun b => negb (bool_decide (b = x2d))) s = s)
    by apply filter_dash_id.
  pose proof (hex_encode_no_dash u) as Hn. set (h := hex_encode u) in *.
  change (List.filter _ [x2d]) with (@nil byte). cbn [app]. unfold slice.
  rewrite !Hf by (repeat (apply Forall_take || apply Forall_drop); done).
  replace (drop 20 h) with (drop 4 (drop 16 h)) by (by rewrite drop_drop).
  change (20 - 16)%nat with 4%nat. rewrite take_drop.
  replace (drop 16 h) with (drop 4 (drop 12 h)) by (by rewrite drop_drop).
  change (16 - 12)%nat with 4%nat. rewrite take_drop.
  replace (drop 12 h) with (drop 4 (drop 8 h)) by (by rewrite drop_drop).
  change (12 - 8)%nat with 4%nat. rewrite take_drop. apply take_drop.
Qed.

(** ** Properties *)

(** [ServerHash] is Minecraft's server id: the SHA-1 digest of server id,
    shared secret and public key read as a signed 160-bit number and written in
    base 16 with a minus sign and without leading zeros. The byte-wise negation
    with its carry, the hexadecimal encoding and the trimming never differ from
    that. *)
Theorem server_hash_signed serverID secret key :
  ServerHash serverID secret key = signed_hex (int160 (sha1_Sum (serverID ++ secret ++ key))).
Proof. apply ServerHash_spec. Qed.

(** The published values for the names Notch, jeb_ and simon. *)
Example server_hash_notch : ServerHash (str "Notch") [] [] = str "4ed1f46bbe04bc756bcb17c0c7ce3e4632f06a48".
Proof. vm_compute. reflexivity. Qed.
Example server_hash_jeb : ServerHash (str "jeb_") [] [] = str "-7c9d5b0044c130109a5d7b5fb5c317c02b4e28c1".
Proof. vm_compute. reflexivity. Qed.
Example server_hash_simon : ServerHash (str "simon") [] [] = str "88e16a1019277b15d58faf0541e11910eb756f6".
Proof. vm_compute. reflexivity. Qed.

(** C38: a login is authenticated exactly when the client proves knowledge of the
    verify token, offers a 16-byte secret, and the session service vouches for
    the name under the hash of that very secret and the gateway's public key;
    the secret returned, which becomes the encryption key of the connection, is
    that secret. Anything else is an error, and the session service is not asked
    before the token was checked. *)
Theorem authenticate_exact {Key} (rsa : Key -> list byte -> res (list byte)) verifier (c : Challenge)
    username address encryptedSecret encryptedToken profile secret :
  Authenticate rsa verifier c username address encryptedSecret encryptedToken = Ok (profile, secret) <->
  rsa (privateKey c) encryptedSecret = Ok secret /\ length secret = 16%nat /\
  rsa (privateKey c) encryptedToken = Ok (verifyToken c) /\
  verifier username (signed_hex (int160 (sha1_Sum (secret ++ publicKey c)))) address = Ok profile.
Proof.
  unfold Authenticate, Challenge_Decrypt. rewrite <-(app_nil_l (secret ++ publicKey c)), <-ServerHash_spec. split.
  - destruct (rsa (privateKey c) encryptedSecret) as [s|] eqn:Es; [|done].
    destruct (Z.eqb_spec (blen s) sharedSecretSize) as [Hl|]; [cbn [negb]|done].
    destruct (rsa (privateKey c) encryptedToken) as [t|] eqn:Et; [|done].
    destruct (negb (blen t =? _) || _) eqn:Ec; [done|].
    destruct (verifier _ _ _) as [p|] eqn:Ev; [|done]. intros; simplify_eq. bool_facts. subst t.
    split_and!; [done|unfold blen, sharedSecretSize in Hl; lia|done|done].
  - intros (-> & Hl & -> & Hv). unfold blen at 1. rewrite Hl.
    change (Z.of_nat 16 =? sharedSecretSize) with true. cbn [negb].
    rewrite Z.eqb_refl, bool_decide_true by done. cbn [negb orb]. by rewrite Hv.
Qed.

(** what the gateway believes of the session service. A profile is returned
    only for a complete response with status 200 of at most [maxSessionBody]
    bytes that holds one JSON document and nothing after it, names the player who
    is logging in up to case, and has a 32-digit UUID; 204 and 403 mean the
    player has not joined. The UUID is read back from both of its printed
    forms. *)
Theorem session_service_profile get decode decode_any EqualFold url URL username hash address profile uuid :
  let response := get (if bool_decide (URL = []) then url else URL) username hash
                    (if bool_decide (address = []) then None else Some address) in
  (SessionService_HasJoined get decode decode_any EqualFold url URL username hash address = Ok profile ->
   exists r doc rest, response = Ok r /\ StatusCode r = 200 /\ blen (Body r) <= maxSessionBody /\
     decode (Body r) = Ok (doc, rest) /\ (exists e, decode_any rest = Some e /\ errors_Is e io_EOF = true) /\
     doc_Name doc <> [] /\ EqualFold (doc_Name doc) username = true /\
     parseUUID (doc_ID doc) = Ok (pf_UUID profile) /\ pf_Username profile = doc_Name doc /\
     pf_Properties profile = doc_Properties doc) /\
  (forall r, response = Ok r -> StatusCode r = 204 \/ StatusCode r = 403 ->
   SessionService_HasJoined get decode decode_any EqualFold url URL username hash address = Err ErrNotJoined) /\
  (length uuid = 16%nat -> parseUUID (dashed uuid) = Ok uuid /\ parseUUID (hex_encode uuid) = Ok uuid).
Proof.
  cbn zeta. unfold SessionService_HasJoined. split_and!.
  - destruct (get _ _ _ _) as [r|]; [|done]. case_match eqn:E1; [done|]. case_match eqn:E2; [done|].
    set (limited := take _ _). destruct (decode limited) as [[doc rest]|] eqn:Ed; [|done].
    destruct (decode_any rest) as [e|] eqn:Ea; [|done]. destruct (errors_Is e io_EOF) eqn:Ee; [|done]. cbn [negb].
    destruct (blen limited =? maxSessionBody + 1) eqn:E4; [done|].
    destruct (bool_decide (doc_Name doc = []) || _) eqn:E5; [done|].
    destruct (parseUUID (doc_ID doc)) as [u|] eqn:Eu; [|done]. intros; simplify_eq. bool_facts.
    assert (Hlim : limited = Body r /\ blen (Body r) <= maxSessionBody).
    { unfold limited, blen in *. rewrite length_take in E4. unfold maxSessionBody in *.
      rewrite take_ge; [split; [done|]|]; change (Z.shiftl 1 20) with 1048576 in *; lia. }
    destruct Hlim as [Hlim Hsz]. rewrite Hlim in Ed.
    exists r, doc, rest. split_and!; try done. by exists e.
  - intros r -> Hs. destruct Hs as [-> | ->]; done.
  - intros Hu. split; [by apply parseUUID_hex, filter_dashed|].
    apply parseUUID_hex; [done|]. apply filter_dash_id, hex_encode_no_dash.
Qed.

(** ** An honest client *)

Section honest.
Context {Key : Type} (GenerateKey : reader -> res Key * reader) (MarshalPKIXPublicKey : Key -> res (list byte)).
Context (DecryptPKCS1v15 : Key -> list byte -> res (list byte)).

(** A client encrypts short messages to the public key it was sent, and the owner
    of the key decrypts them. *)
Context (EncryptPKCS1v15 : list byte -> list byte -> list byte).
Context (rsa_correct : forall key public m, MarshalPKIXPublicKey key = Ok public -> (length m <= 117)%nat ->
  DecryptPKCS1v15 key (EncryptPKCS1v15 public m) = Ok m).

(** an honest client is authenticated. Whatever key pair and token were drawn,
    a client that answers the challenge (its public key and token) with its
    secret and the token encrypted to that key, and whose session the verifier
    knows under the hash of that secret and key, gets its profile; both sides
    then hold the same secret. A challenge always carries a token of four bytes,
    and a failing random source or encoding is reported. *)
Theorem honest_client_authenticated session verifier random a random' random2 username address secret profile :
  NewAuthenticator GenerateKey MarshalPKIXPublicKey session verifier random = (Ok a, random') ->
  length secret = 16%nat ->
  au_verifier a username (ServerHash [] secret (au_publicKey a)) address = Ok profile ->
  match Begin (au_privateKey a) (au_publicKey a) random2 with
  | (Err e, _) => (length (rd_data random2) < 4)%nat
  | (Ok c, rest) =>
    length (verifyToken c) = 4%nat /\ rd_data random2 = verifyToken c ++ rd_data rest /\
    Authenticate DecryptPKCS1v15 (au_verifier a) c username address
      (EncryptPKCS1v15 (publicKey c) secret) (EncryptPKCS1v15 (publicKey c) (verifyToken c)) = Ok (profile, secret)
  end.
Proof.
  unfold NewAuthenticator. destruct (GenerateKey random) as [[key|] r1]; [|done].
  destruct (MarshalPKIXPublicKey key) as [public|] eqn:Em; [|done]. intros [= <- <-] Hs Hv. cbn in Hv |- *.
  unfold Begin. destruct (ReadFull random2 _) as [[token|e] rest] eqn:Er.
  - apply ReadFull_Ok in Er as (Hl & Hd & _). change (Z.to_nat verifyTokenBytes) with 4%nat in Hl. cbn. split_and!; [done|done|].
    unfold Authenticate, Challenge_Decrypt. cbn.
    rewrite !(rsa_correct key public) by (done || lia).
    unfold blen. rewrite Hs, Hl. rewrite bool_decide_true by done.
    change (Z.of_nat 16 =? sharedSecretSize) with true. change (Z.of_nat 4 =? Z.of_nat 4) with true. cbn [negb orb]. by rewrite Hv.
  - unfold ReadFull in Er. case_bool_decide as Hn; [done|]. change (Z.to_nat verifyTokenBytes) with 4%nat in Hn. lia.
Qed.
End honest.

(** A toy key: the message is its own ciphertext. *)
Lemma honest_client_authenticated_witness :
  let a := mkAuthenticator tt [x01] (fun _ _ _ => Ok (mkProfile (replicate 16 x07) (str "Steve") [])) in
  match Begin (au_privateKey a) (au_publicKey a) (Reader [x01; x02; x03; x04; x05] io_EOF) with
  | (Err e, _) => (5 < 4)%nat
  | (Ok c, rest) =>
    length (verifyToken c) = 4%nat /\ [x01; x02; x03; x04; x05] = verifyToken c ++ rd_data rest /\
    Authenticate (fun _ m => Ok m) (au_verifier a) c (str "Steve") [] (replicate 16 x09) (verifyToken c) =
      Ok (mkProfile (replicate 16 x07) (str "Steve") [], replicate 16 x09)
  end.
Proof.
  apply (honest_client_authenticated (fun r => (Ok tt, r)) (fun _ => Ok [x01]) (fun _ m => Ok m) (fun _ m => m)
    (fun _ _ _ _ _ => eq_refl) (fun _ _ _ => Err io_EOF)
    (Some (fun _ _ _ => Ok (mkProfile (replicate 16 x07) (str "Steve") []))) (Reader [] io_EOF) _ (Reader [] io_EOF)
    (Reader [x01; x02; x03; x04; x05] io_EOF)); reflexivity.
Defined.
