(* ===== verification/Botfilter.v ===== *)
(** * The bot filter (internal/botfilter/filter.go)

    Instants are nanoseconds in [Z]; the zero [time.Time] of a reputation that was
    never blocked is [None]. The clock, os.Stat and the YAML loader are arguments.
    Every operation runs under the manager's mutex, so a run is a sequence of
    operations. *)

From S2P Require Import Prelude Crypto Login Forwarding.

Definition ns_second : Z := 1000000000.

Inductive Verdict : Type := Allow | Observe | Deny.

#[global] Instance Verdict_eq_dec : EqDecision Verdict.
Proof. solve_decision. Defined.

Record Evidence := mkEvidence {
  ev_Identity : PlayerIdentity;
  ev_OnlineMode : bool;
  ev_RemoteIP : gostring;
  ev_ActiveFromIP : Z;
  ev_RecentAttempts : Z;
  ev_UsernameChurn : Z;
  ev_ValidKeepAlives : Z;
  ev_ProtocolViolation : bool
}.

Record FilterDecision := mkDecision { dc_Verdict : Verdict; dc_ObserveFor : Z; dc_RuleID : string }.

Record Event := mkEvent { e_IP : gostring; e_Username : gostring; e_At : Z; e_Violation : bool }.

Record Observation := mkObservation { Hold : Z; ob_KeepAliveInterval : Z; ob_RequiredKeepAlives : Z }.
Record Reputation := mkReputation { Window : Z; ViolationLimit : Z; DenyTTL : Z }.
Record Signals := mkSignals { SoftLoginBurst : Z; BurstWindow : Z; UsernameChurn : Z; ChurnWindow : Z }.
Record FilterPolicy := mkFilterPolicy {
  Enabled : bool; fp_Observation : Observation; fp_Reputation : Reputation; fp_Signals : Signals
}.
Record Policy := mkPolicy { po_Version : Z; BotFilter : FilterPolicy }.

Definition DefaultPolicy : Policy :=
  mkPolicy 1 (mkFilterPolicy false
    (mkObservation (10 * ns_second) (3 * ns_second) 2)
    (mkReputation (5 * 60 * ns_second) 3 (10 * 60 * ns_second))
    (mkSignals 4 (10 * ns_second) 6 (60 * ns_second))).

Definition Validate (p : Policy) : option error :=
  let b := BotFilter p in
  if negb (po_Version p =? 0) && negb (po_Version p =? 1) then Some (ErrPolicyVersion (po_Version p))
  else if negb (Enabled b) then None
  else if (Hold (fp_Observation b) <=? 0) || (ob_KeepAliveInterval (fp_Observation b) <=? 0)
          || (ob_RequiredKeepAlives (fp_Observation b) <=? 0) then Some ErrPolicyObservation
  else if (Window (fp_Reputation b) <=? 0) || (ViolationLimit (fp_Reputation b) <=? 0)
          || (DenyTTL (fp_Reputation b) <=? 0) then Some ErrPolicyReputation
  else if (SoftLoginBurst (fp_Signals b) <=? 0) || (BurstWindow (fp_Signals b) <=? 0)
          || (UsernameChurn (fp_Signals b) <=? 0) || (ChurnWindow (fp_Signals b) <=? 0) then Some ErrPolicySignals
  else None.

(** [file] is the result of os.ReadFile, [unmarshal] decodes YAML over the
    defaults. *)
Definition LoadFile (file : res (list byte)) (unmarshal : list byte -> Policy -> res Policy) : res Policy :=
  let! data := file in
  match unmarshal data DefaultPolicy with
  | Err err => Err (ErrWrap "parse bot filter policy" err)
  | Ok policy => match Validate policy with Some err => Err err | None => Ok policy end
  end.

Record reputation := mkRep {
  BurstAttempts : list Z;
  Usernames : gmap gostring Z;
  Violations : list Z;
  BlockedUntil : option Z
}.

Definition new_reputation : reputation := mkRep [] ∅ [] None.

Record Metrics := mkMetrics {
  mt_Allowed : Z; mt_Observed : Z; mt_Denied : Z; mt_ActiveObservations : Z; mt_ReputationEntries : Z;
  mt_ReloadFailures : Z
}.

Record Manager := mkManager {
  policy : Policy;
  entries : gmap gostring reputation;
  path : gostring;
  modTime : option Z;   (* None: the zero time *)
  allowed : Z; observed : Z; denied : Z; reloads : Z; active : Z
}.

Definition New (policy : Policy) (path : gostring) : Manager := mkManager policy ∅ path None 0 0 0 0 0.

Definition set_entries (m : Manager) (e : gmap gostring reputation) : Manager :=
  mkManager (policy m) e (path m) (modTime m) (allowed m) (observed m) (denied m) (reloads m) (active m).
Definition add_allowed (m : Manager) : Manager :=
  mkManager (policy m) (entries m) (path m) (modTime m) (uint64 (allowed m + 1)) (observed m) (denied m) (reloads m) (active m).
Definition add_observed (m : Manager) : Manager :=
  mkManager (policy m) (entries m) (path m) (modTime m) (allowed m) (uint64 (observed m + 1)) (denied m) (reloads m) (active m).
Definition add_denied (m : Manager) : Manager :=
  mkManager (policy m) (entries m) (path m) (modTime m) (allowed m) (observed m) (uint64 (denied m + 1)) (reloads m) (active m).
Definition add_reloads (m : Manager) : Manager :=
  mkManager (policy m) (entries m) (path m) (modTime m) (allowed m) (observed m) (denied m) (uint64 (reloads m + 1)) (active m).
Definition add_active (d : Z) (m : Manager) : Manager :=
  mkManager (policy m) (entries m) (path m) (modTime m) (allowed m) (observed m) (denied m) (reloads m) (uint64 (active m + d)).
Definition set_policy (m : Manager) (p : Policy) (t : Z) : Manager :=
  mkManager p (entries m) (path m) (Some t) (allowed m) (observed m) (denied m) (reloads m) (active m).

(** [entry.BlockedUntil.After(now)] *)
Definition blocked_after (b : option Z) (now : Z) : bool :=
  match b with Some t => now <? t | None => false end.

Fixpoint keepTimes (values : list Z) (cutoff : Z) : list Z :=
  match values with
  | v :: values' => if v <? cutoff then keepTimes values' cutoff else values
  | [] => []
  end.

Definition prune (entry : reputation) (now : Z) (policy : FilterPolicy) : reputation :=
  mkRep (keepTimes (BurstAttempts entry) (now - BurstWindow (fp_Signals policy)))
        (filter (fun ua : gostring * Z => ~ ua.2 < now - ChurnWindow (fp_Signals policy)) (Usernames entry))
        (keepTimes (Violations entry) (now - Window (fp_Reputation policy)))
        (BlockedUntil entry).

Definition recordViolation (entry : reputation) (now : Z) (policy : FilterPolicy) : reputation :=
  let violations := Violations entry ++ [now] in
  mkRep (BurstAttempts entry) (Usernames entry) violations
        (if ViolationLimit (fp_Reputation policy) <=? blen violations
         then Some (now + DenyTTL (fp_Reputation policy)) else BlockedUntil entry).

Definition idle (entry : reputation) (now : Z) : bool :=
  (blen (BurstAttempts entry) =? 0) && (Z.of_nat (size (Usernames entry)) =? 0)
  && (blen (Violations entry) =? 0) && negb (blocked_after (BlockedUntil entry) now).

Definition cleanup (m : Manager) (now : Z) : Manager :=
  let policy := BotFilter (policy m) in
  set_entries m
    (omap (fun entry =>
       if negb (Enabled policy) then None
       else let entry := prune entry now policy in
            if idle entry now then None else Some entry) (entries m)).

(** [stat] is the modification time os.Stat reports, [load] the result of
    [LoadFile]. *)
Definition reload (m : Manager) (stat : res Z) (load : res Policy) : Manager :=
  match stat with
  | Err _ => add_reloads m
  | Ok time =>
    if match modTime m with Some t => negb (t <? time) | None => false end then m
    else match load with
         | Err _ => add_reloads m
         | Ok p => set_policy m p time
         end
  end.

(** One tick of the goroutine [Start] runs. *)
Definition Start_tick (m : Manager) (now : Z) (stat : res Z) (load : res Policy) : Manager :=
  let m := cleanup m now in
  if bool_decide (path m = []) then m else reload m stat load.

Definition Evaluate (m : Manager) (now : Z) (evidence : Evidence) : FilterDecision * Manager :=
  let policy := BotFilter (policy m) in
  if negb (Enabled policy) then (mkDecision Allow 0 "disabled", add_allowed m)
  else
    let entry := default new_reputation (entries m !! ev_RemoteIP evidence) in
    let store e := set_entries m (<[ev_RemoteIP evidence := e]> (entries m)) in
    let entry := prune entry now policy in
    if blocked_after (BlockedUntil entry) now then
      (mkDecision Deny 0 "reputation_deny", add_denied (store entry))
    else if ev_ProtocolViolation evidence then
      (mkDecision Deny 0 "protocol_violation", add_denied (store (recordViolation entry now policy)))
    else
      let name := id_Username (ev_Identity evidence) in
      let entry := mkRep (BurstAttempts entry ++ [now])
        (if bool_decide (name = []) then Usernames entry else <[name := now]> (Usernames entry))
        (Violations entry) (BlockedUntil entry) in
      if (SoftLoginBurst (fp_Signals policy) <=? blen (BurstAttempts entry))
         || (UsernameChurn (fp_Signals policy) <=? Z.of_nat (size (Usernames entry)))
      then (mkDecision Observe (Hold (fp_Observation policy)) "soft_burst",
            add_active 1 (add_observed (store entry)))
      else (mkDecision Allow 0 "allow", add_allowed (store entry)).

Definition Record_ (m : Manager) (event : Event) : Manager :=
  let entry := default new_reputation (entries m !! e_IP event) in
  let entry := if e_Violation event then recordViolation entry (e_At event) (BotFilter (policy m)) else entry in
  set_entries m (<[e_IP event := entry]> (entries m)).

Definition Manager_Metrics (m : Manager) : Metrics :=
  mkMetrics (allowed m) (observed m) (denied m) (active m) (uint64 (Z.of_nat (size (entries m)))) (reloads m).

(** [wait] is what happens to the manager until the select returns, and the
    context's error if that came before the timer. *)
Definition Verify (m : Manager) (now : Z) (identity : PlayerIdentity)
    (wait : Z -> Manager -> option error * Manager) : option error * Manager :=
  let '(decision, m) := Evaluate m now (mkEvidence identity false (id_Address identity) 0 0 0 0 false) in
  match dc_Verdict decision with
  | Deny => (Some ErrVerificationFailed, m)
  | Observe =>
    let '(err, m) := wait (dc_ObserveFor decision) m in
    (err, add_active (-1) m)
  | Allow => (None, m)
  end.

Definition RequiredKeepAlives (m : Manager) : Z :=
  if negb (Enabled (BotFilter (policy m))) then 1
  else ob_RequiredKeepAlives (fp_Observation (BotFilter (policy m))).

Definition KeepAliveInterval (m : Manager) : Z :=
  if negb (Enabled (BotFilter (policy m))) then 0
  else ob_KeepAliveInterval (fp_Observation (BotFilter (policy m))).

(** ** Sequences of operations under one policy *)

Inductive bop : Type :=
| BEvaluate (now : Z) (evidence : Evidence)
| BRecord (event : Event)
| BCleanup (now : Z).

Definition bop_time (o : bop) : Z :=
  match o with BEvaluate now _ => now | BRecord e => e_At e | BCleanup now => now end.

Definition run_bop (m : Manager) (o : bop) : option FilterDecision * Manager :=
  match o with
  | BEvaluate now ev => let '(d, m') := Evaluate m now ev in (Some d, m')
  | BRecord e => (None, Record_ m e)
  | BCleanup now => (None, cleanup m now)
  end.

Fixpoint run_bops (m : Manager) (os : list bop) : list FilterDecision * Manager :=
  match os with
  | [] => ([], m)
  | o :: os' =>
    let '(d, m1) := run_bop m o in
    let '(ds, m2) := run_bops m1 os' in
    (match d with Some d => d :: ds | None => ds end, m2)
  end.

(** Operations in time order, none before [t]. *)
Fixpoint bops_in_order (t : Z) (os : list bop) : Prop :=
  match os with
  | [] => True
  | o :: os' => t <= bop_time o /\ bops_in_order (bop_time o) os'
  end.

(** ** Specification

    The specification keeps everything that ever happened: the login attempts that
    were not denied, the violations, when the record of an address was looked at
    (by a login from it, or by a sweep of all records), and until when an address
    was blocked. [hist] lists login attempts: address, name, instant. *)

Definition attempt : Type := gostring * gostring * Z.

Definition times (hist : list attempt) (ip : gostring) : list Z :=
  snd <$> filter (fun a => a.1.1 = ip) hist.

(** The last attempt of each non-empty name from [ip]. *)
Definition last_seen (hist : list attempt) (ip : gostring) : gmap gostring Z :=
  foldl (fun seen (a : attempt) =>
    if bool_decide (a.1.1 = ip) && negb (bool_decide (a.1.2 = [])) then <[a.1.2 := a.2]> seen else seen) ∅ hist.

(** The names last used at [w] or later. *)
Definition in_window (w : Z) (seen : gmap gostring Z) : gmap gostring Z :=
  filter (fun ua : gostring * Z => w <= ua.2) seen.

(** An attempt is held back when, counting itself, [SoftLoginBurst] attempts of
    its address lie in the burst window or [UsernameChurn] names of its address
    were last used in the churn window. *)
Definition spec_verdict (p : FilterPolicy) (hist : list attempt) (a : attempt) : Verdict :=
  let hist := hist ++ [a] in
  if (SoftLoginBurst (fp_Signals p) <=? blen (filter (fun t => a.2 - BurstWindow (fp_Signals p) <= t) (times hist a.1.1)))
     || (UsernameChurn (fp_Signals p) <=?
         Z.of_nat (size (in_window (a.2 - ChurnWindow (fp_Signals p)) (last_seen hist a.1.1))))
  then Observe else Allow.

Record ledger := mkLedger {
  lg_attempts : list attempt;
  lg_violations : list (gostring * Z);
  lg_looks : list (option gostring * Z);   (* None: a sweep *)
  lg_blocks : list (gostring * Z)
}.

Definition of_ip (l : list (gostring * Z)) (ip : gostring) : list Z := snd <$> filter (fun x => x.1 = ip) l.
Definition looks (lg : ledger) (ip : gostring) : list Z :=
  snd <$> filter (fun x => x.1 = None \/ x.1 = Some ip) (lg_looks lg).

(** The violations of [ip] that count: those in the reputation window each time
    the record of [ip] was looked at. *)
Definition counted (p : FilterPolicy) (lg : ledger) (ip : gostring) : list Z :=
  filter (fun v => Forall (fun t => t - Window (fp_Reputation p) <= v) (looks lg ip)) (of_ip (lg_violations lg) ip).

Definition blocked (lg : ledger) (ip : gostring) (now : Z) : bool := existsb (fun u => now <? u) (of_ip (lg_blocks lg) ip).

Definition look (who : option gostring) (now : Z) (lg : ledger) : ledger :=
  mkLedger (lg_attempts lg) (lg_violations lg) (lg_looks lg ++ [(who, now)]) (lg_blocks lg).

(** A violation: with the last one that completes the limit the address is blocked
    for [DenyTTL]. *)
Definition violate (p : FilterPolicy) (ip : gostring) (t : Z) (lg : ledger) : ledger :=
  let lg := mkLedger (lg_attempts lg) (lg_violations lg ++ [(ip, t)]) (lg_looks lg) (lg_blocks lg) in
  if ViolationLimit (fp_Reputation p) <=? blen (counted p lg ip)
  then mkLedger (lg_attempts lg) (lg_violations lg) (lg_looks lg) (lg_blocks lg ++ [(ip, t + DenyTTL (fp_Reputation p))])
  else lg.

(** A login is denied when its address is blocked or it violates the protocol;
    otherwise it is an attempt. *)
Definition spec_step (p : FilterPolicy) (lg : ledger) (o : bop) : option Verdict * ledger :=
  match o with
  | BEvaluate now ev =>
    let ip := ev_RemoteIP ev in
    let lg := look (Some ip) now lg in
    if blocked lg ip now then (Some Deny, lg)
    else if ev_ProtocolViolation ev then (Some Deny, violate p ip now lg)
    else
      let a := (ip, id_Username (ev_Identity ev), now) in
      (Some (spec_verdict p (lg_attempts lg) a),
       mkLedger (lg_attempts lg ++ [a]) (lg_violations lg) (lg_looks lg) (lg_blocks lg))
  | BRecord e => (None, if e_Violation e then violate p (e_IP e) (e_At e) lg else lg)
  | BCleanup now => (None, look None now lg)
  end.

Fixpoint spec_verdicts (p : FilterPolicy) (lg : ledger) (os : list bop) : list Verdict :=
  match os with
  | [] => []
  | o :: os' =>
    let '(v, lg) := spec_step p lg o in
    match v with Some v => v :: spec_verdicts p lg os' | None => spec_verdicts p lg os' end
  end.

Definition empty_ledger : ledger := mkLedger [] [] [] [].

(** ** Lemmas *)

Lemma keepTimes_keepTimes l c1 c2 : c1 <= c2 -> keepTimes (keepTimes l c1) c2 = keepTimes l c2.
Proof.
  intros Hc. induction l as [|v l IH]; [done|]. cbn. destruct (Z.ltb_spec v c1).
  - rewrite IH. by rewrite (proj2 (Z.ltb_lt v c2)) by lia.
  - done.
Qed.

Lemma keepTimes_sorted l c : StronglySorted Z.le l -> keepTimes l c = filter (fun t => c <= t) l.
Proof.
  induction 1 as [|v l Hs IH Hf]; [done|]. cbn [keepTimes]. rewrite filter_cons.
  destruct (Z.ltb_spec v c).
  - by rewrite decide_False by lia.
  - rewrite decide_True by lia. f_equal. symmetry. apply filter_all.
    eapply Forall_impl; [exact Hf|]. cbn. lia.
Qed.

Lemma filter_le_le (a b : Z) (l : list Z) :
  a <= b -> filter (fun t => b <= t) (filter (fun t => a <= t) l) = filter (fun t => b <= t) l.
Proof. intros Hab. apply list_filter_filter_l. lia. Qed.

Lemma StronglySorted_filter (P : Z -> Prop) `{forall x, Decision (P x)} l :
  StronglySorted Z.le l -> StronglySorted Z.le (filter P l).
Proof.
  induction 1 as [|v l Hs IH Hf]; [constructor|]. rewrite filter_cons. case_decide; [|done].
  constructor; [done|]. apply Forall_forall. intros x Hx. apply list_elem_of_filter in Hx as [_ Hx].
  by eapply Forall_forall in Hf.
Qed.

Lemma StronglySorted_snoc l (t : Z) :
  StronglySorted Z.le l -> Forall (fun x => x <= t) l -> StronglySorted Z.le (l ++ [t]).
Proof.
  induction 1 as [|v l Hs IH Hf]; intros Ht; [repeat constructor|]. apply Forall_cons in Ht as [Hv Ht].
  constructor; [by apply IH|]. apply Forall_app. split; [done|]. by repeat constructor.
Qed.

Lemma prune_names (m : gmap gostring Z) w :
  filter (fun ua : gostring * Z => ~ ua.2 < w) m = in_window w m.
Proof. apply map_filter_ext. intros u a _. cbn. lia. Qed.

Lemma in_window_in_window (w1 w2 : Z) (m : gmap gostring Z) : w1 <= w2 -> in_window w2 (in_window w1 m) = in_window w2 m.
Proof. intros. unfold in_window. apply map_filter_filter_l. intros u a _. cbn. lia. Qed.

Lemma times_snoc hist a ip :
  times (hist ++ [a]) ip = times hist ip ++ (if decide (a.1.1 = ip) then [a.2] else []).
Proof. unfold times. rewrite filter_snoc, fmap_app. by case_decide. Qed.

Lemma last_seen_snoc hist a ip :
  last_seen (hist ++ [a]) ip =
  if bool_decide (a.1.1 = ip) && negb (bool_decide (a.1.2 = [])) then <[a.1.2 := a.2]> (last_seen hist ip) else last_seen hist ip.
Proof. unfold last_seen. by rewrite foldl_app. Qed.

(** The entry of an address agrees with the history inside the windows, at every
    instant from [t] on. *)
Record entry_inv (p : FilterPolicy) (e : reputation) (hist : list attempt) (ip : gostring) (t : Z) : Prop := {
  inv_attempts : forall now, t <= now ->
    keepTimes (BurstAttempts e) (now - BurstWindow (fp_Signals p)) =
    filter (fun x => now - BurstWindow (fp_Signals p) <= x) (times hist ip);
  inv_names : forall now, t <= now ->
    in_window (now - ChurnWindow (fp_Signals p)) (Usernames e) =
    in_window (now - ChurnWindow (fp_Signals p)) (last_seen hist ip)
}.

(** Its violations and its block agree with the ledger. *)
Record record_inv (p : FilterPolicy) (e : reputation) (lg : ledger) (ip : gostring) (t : Z) : Prop := {
  rv_violations : Violations e = counted p lg ip;
  rv_blocked : forall now, t <= now -> blocked_after (BlockedUntil e) now = blocked lg ip now
}.

(** Everything in the ledger of [ip] happened in order, up to [t]. *)
Record ledger_at (p : FilterPolicy) (lg : ledger) (ip : gostring) (t : Z) : Prop := {
  la_attempts : StronglySorted Z.le (times (lg_attempts lg) ip) /\ Forall (fun x => x <= t) (times (lg_attempts lg) ip);
  la_violations : StronglySorted Z.le (of_ip (lg_violations lg) ip) /\ Forall (fun x => x <= t) (of_ip (lg_violations lg) ip);
  la_looks : Forall (fun x => x <= t) (looks lg ip);
  la_blocks : Forall (fun u => u <= t + DenyTTL (fp_Reputation p)) (of_ip (lg_blocks lg) ip)
}.

(** The record of one address. *)
Record address_inv (p : FilterPolicy) (e : reputation) (lg : ledger) (ip : gostring) (t : Z) : Prop := {
  ai_entry : entry_inv p e (lg_attempts lg) ip t;
  ai_record : record_inv p e lg ip t;
  ai_ledger : ledger_at p lg ip t
}.

Record manager_inv (m : Manager) (lg : ledger) (t : Z) : Prop := {
  inv_enabled : Enabled (BotFilter (policy m)) = true;
  inv_entries : forall ip, address_inv (BotFilter (policy m)) (default new_reputation (entries m !! ip)) lg ip t
}.

Lemma entry_inv_later p e hist ip t t' : t <= t' -> entry_inv p e hist ip t -> entry_inv p e hist ip t'.
Proof. intros Ht [H1 H2]. split; intros now Hn; [apply H1|apply H2]; lia. Qed.

Lemma prune_inv p e hist ip t now :
  t <= now -> entry_inv p e hist ip t -> entry_inv p (prune e now p) hist ip now.
Proof.
  intros Ht [H1 H2]. split; cbn.
  - intros now' Hn. rewrite keepTimes_keepTimes by lia. apply H1. lia.
  - intros now' Hn. rewrite prune_names, in_window_in_window by lia. apply H2. lia.
Qed.

Lemma in_window_insert w (u : gostring) (t : Z) m1 m2 :
  in_window w m1 = in_window w m2 -> in_window w (<[u := t]> m1) = in_window w (<[u := t]> m2).
Proof.
  unfold in_window. intros E. apply map_eq. intros i.
  assert (Ei := f_equal (lookup i) E). rewrite !map_lookup_filter in Ei |- *.
  destruct (decide (u = i)) as [->|Hn]; [by rewrite !lookup_insert_eq|]. by rewrite !lookup_insert_ne by done.
Qed.

(** An attempt of [a]'s address. *)
Lemma attempt_inv p e hist a t :
  t <= a.2 -> StronglySorted Z.le (times hist a.1.1) -> Forall (fun x => x <= t) (times hist a.1.1) ->
  0 <= ChurnWindow (fp_Signals p) -> 0 <= BurstWindow (fp_Signals p) ->
  entry_inv p e hist a.1.1 t ->
  let e1 := prune e a.2 p in
  let e2 := mkRep (BurstAttempts e1 ++ [a.2])
    (if bool_decide (a.1.2 = []) then Usernames e1 else <[a.1.2 := a.2]> (Usernames e1)) (Violations e1) (BlockedUntil e1) in
  entry_inv p e2 (hist ++ [a]) a.1.1 a.2 /\
  BurstAttempts e2 = filter (fun x => a.2 - BurstWindow (fp_Signals p) <= x) (times (hist ++ [a]) a.1.1) /\
  Usernames e2 = in_window (a.2 - ChurnWindow (fp_Signals p)) (last_seen (hist ++ [a]) a.1.1).
Proof.
  intros Ht Hs Hp Hcw Hbw Hinv. cbn zeta. destruct a as [[ip name] now]. cbn [fst snd] in *.
  pose proof (prune_inv p e hist ip t now Ht Hinv) as Hpr.
  destruct Hinv as [H1 H2].
  assert (Hb : BurstAttempts (prune e now p) ++ [now] =
     filter (fun x => now - BurstWindow (fp_Signals p) <= x) (times (hist ++ [(ip, name, now)]) ip)).
  { rewrite times_snoc. cbn. rewrite decide_True, filter_app by done. rewrite H1 by done. f_equal.
    rewrite filter_cons, decide_True by lia. done. }
  assert (Hn : (if bool_decide (name = []) then Usernames (prune e now p) else <[name := now]> (Usernames (prune e now p))) =
     in_window (now - ChurnWindow (fp_Signals p)) (last_seen (hist ++ [(ip, name, now)]) ip)).
  { rewrite last_seen_snoc. cbn [fst snd]. rewrite (bool_decide_true (ip = ip)) by done. cbn [andb prune Usernames].
    rewrite prune_names, H2 by done. case_bool_decide; [done|]. cbn [negb].
    unfold in_window. rewrite map_filter_insert_True by (cbn; lia). done. }
  split; [|done]. split; cbn [BurstAttempts Usernames Violations BlockedUntil].
  - intros now' Hn'. rewrite Hb, keepTimes_sorted.
    + apply filter_le_le. lia.
    + apply StronglySorted_filter. rewrite times_snoc. cbn. rewrite decide_True by done.
      apply StronglySorted_snoc; [done|]. eapply Forall_impl; [exact Hp|]. cbn. lia.
  - intros now' Hn'. rewrite Hn. apply in_window_in_window. lia.
Qed.

(** *** The ledger *)

Lemma of_ip_snoc l x ip : of_ip (l ++ [x]) ip = of_ip l ip ++ (if decide (x.1 = ip) then [x.2] else []).
Proof. unfold of_ip. rewrite filter_snoc, fmap_app. by case_decide. Qed.

Lemma looks_look who now lg ip :
  looks (look who now lg) ip = looks lg ip ++ (if decide (who = None \/ who = Some ip) then [now] else []).
Proof. unfold looks, look. cbn [lg_looks]. rewrite filter_snoc, fmap_app. f_equal. cbn [fst]. by case_decide. Qed.

Lemma counted_look p who now lg ip :
  who = None \/ who = Some ip ->
  counted p (look who now lg) ip = filter (fun v => now - Window (fp_Reputation p) <= v) (counted p lg ip).
Proof.
  intros Hw. unfold counted. cbn [lg_violations look]. rewrite looks_look, decide_True by done.
  rewrite list_filter_filter. apply list_filter_iff. intros v. rewrite Forall_app, Forall_singleton. tauto.
Qed.

Lemma ledger_at_later p lg ip t t' : t <= t' -> ledger_at p lg ip t -> ledger_at p lg ip t'.
Proof.
  intros Ht [[A1 A2] [V1 V2] L B]. split; [split|split|..]; try done; (eapply Forall_impl; [eassumption|]); cbn; lia.
Qed.

Lemma blocks_later lg ip now now' : now <= now' -> blocked lg ip now = false -> blocked lg ip now' = false.
Proof.
  unfold blocked. intros Hn. induction (of_ip (lg_blocks lg) ip) as [|u us IH]; [done|]. cbn.
  intros [Hu Hus]%orb_false_iff. rewrite IH by done. apply Z.ltb_ge in Hu. by rewrite (proj2 (Z.ltb_ge now' u)) by lia.
Qed.

(** Looking at a record. *)
Lemma address_look p e lg who ip t now :
  t <= now -> who = None \/ who = Some ip -> address_inv p e lg ip t ->
  address_inv p (prune e now p) (look who now lg) ip now.
Proof.
  intros Ht Hw [He [Rv Rb] Hl]. pose proof (ledger_at_later _ _ _ _ _ Ht Hl) as [A V L B]. split; [by eapply prune_inv| |].
  - split; cbn [prune Violations BlockedUntil].
    + rewrite counted_look by done. rewrite Rv. apply keepTimes_sorted, StronglySorted_filter, V.
    + intros now' Hn. rewrite (Rb now') by lia. done.
  - split; [done|done| |done]. rewrite looks_look, decide_True by done. apply Forall_app. split; [done|]. by repeat constructor.
Qed.

(** A record that is not concerned. *)
Lemma address_other p e lg lg' ip t now :
  t <= now -> times (lg_attempts lg') ip = times (lg_attempts lg) ip -> last_seen (lg_attempts lg') ip = last_seen (lg_attempts lg) ip ->
  of_ip (lg_violations lg') ip = of_ip (lg_violations lg) ip -> looks lg' ip = looks lg ip -> of_ip (lg_blocks lg') ip = of_ip (lg_blocks lg) ip ->
  address_inv p e lg ip t -> address_inv p e lg' ip now.
Proof.
  intros Ht E1 E2 E3 E4 E5 [He [Rv Rb] Hl]. split.
  - apply (entry_inv_later _ _ _ _ t); [done|]. destruct He as [H1 H2]. split; rewrite ?E1, ?E2; done.
  - split; [unfold counted; by rewrite E3, E4|]. intros now' Hn. unfold blocked. rewrite E5. apply Rb. lia.
  - pose proof (ledger_at_later _ _ _ _ _ Ht Hl) as [A V L B]. split; rewrite ?E1, ?E3, ?E4, ?E5; done.
Qed.

(** Recording a violation. *)
Lemma address_violate p e lg ip t now :
  t <= now -> 0 <= Window (fp_Reputation p) -> address_inv p e lg ip t ->
  address_inv p (recordViolation e now p) (violate p ip now lg) ip now.
Proof.
  intros Ht Hw [He [Rv Rb] Hl]. pose proof (ledger_at_later _ _ _ _ _ Ht Hl) as [A [V1 V2] L B].
  set (lg1 := mkLedger (lg_attempts lg) (lg_violations lg ++ [(ip, now)]) (lg_looks lg) (lg_blocks lg)).
  assert (Ec : counted p lg1 ip = counted p lg ip ++ [now]).
  { unfold counted. cbn [lg_violations lg1]. change (looks lg1 ip) with (looks lg ip).
    rewrite of_ip_snoc. cbn. rewrite decide_True by done. rewrite filter_app, filter_cons, decide_True; [done|].
    eapply Forall_impl; [exact L|]. cbn. lia. }
  assert (Hsorted : StronglySorted Z.le (of_ip (lg_violations lg1) ip) /\ Forall (fun x => x <= now) (of_ip (lg_violations lg1) ip)).
  { cbn [lg1 lg_violations]. rewrite of_ip_snoc. cbn. rewrite decide_True by done. split; [by apply StronglySorted_snoc|].
    apply Forall_app. by repeat constructor. }
  assert (Hcnt : blen (Violations e ++ [now]) = blen (counted p lg1 ip)) by (by rewrite Ec, Rv).
  assert (He' : forall vs b, entry_inv p (mkRep (BurstAttempts e) (Usernames e) vs b) (lg_attempts lg) ip now).
  { destruct (entry_inv_later _ _ _ _ _ now Ht He) as [I1 I2]. by split. }
  unfold violate, recordViolation. fold lg1. rewrite Hcnt. destruct (_ <=? _).
  - split; [apply He'| |].
    + split; cbn [Violations BlockedUntil]; [by rewrite Rv, <-Ec|]. intros now' Hn. unfold blocked. cbn [lg_blocks].
      rewrite of_ip_snoc. cbn. rewrite decide_True, existsb_app by done. cbn. rewrite orb_false_r.
      destruct (Z.ltb_spec now' (now + DenyTTL (fp_Reputation p))) as [|Hge]; [by rewrite orb_true_r|]. rewrite orb_false_r. symmetry.
      change (lg_blocks lg1) with (lg_blocks lg). clear -B Hge. fold (of_ip (lg_blocks lg) ip). induction (of_ip (lg_blocks lg) ip) as [|u us IH]; [done|]. apply Forall_cons in B as [Bu B]. cbn.
      rewrite IH by done. by rewrite (proj2 (Z.ltb_ge now' u)) by lia.
    + split; [done|done|done|]. cbn [lg_blocks]. rewrite of_ip_snoc. cbn. rewrite decide_True by done. apply Forall_app. split; [done|].
      repeat constructor. lia.
  - split; [apply He'| |by split].
    split; cbn [Violations BlockedUntil]; [by rewrite Rv, <-Ec|]. intros now' Hn. rewrite (Rb now') by lia. done.
Qed.

Lemma violate_other p ip t lg ip' :
  ip <> ip' ->
  lg_attempts (violate p ip t lg) = lg_attempts lg /\ lg_looks (violate p ip t lg) = lg_looks lg /\
  of_ip (lg_violations (violate p ip t lg)) ip' = of_ip (lg_violations lg) ip' /\ of_ip (lg_blocks (violate p ip t lg)) ip' = of_ip (lg_blocks lg) ip'.
Proof.
  intros Hn. unfold violate. destruct (_ <=? _); cbn [lg_attempts lg_violations lg_looks lg_blocks]; rewrite ?of_ip_snoc; cbn [fst snd]; rewrite ?decide_False by done; by rewrite ?app_nil_r.
Qed.

Lemma address_inv_other p e lg lg' ip t now :
  t <= now -> lg_attempts lg' = lg_attempts lg -> looks lg' ip = looks lg ip ->
  of_ip (lg_violations lg') ip = of_ip (lg_violations lg) ip -> of_ip (lg_blocks lg') ip = of_ip (lg_blocks lg) ip ->
  address_inv p e lg ip t -> address_inv p e lg' ip now.
Proof. intros Ht E1 E2 E3 E4. apply address_other; by rewrite ?E1. Qed.

(** One record changes. *)
Lemma manager_inv_at m m' lg lg' ip e t now :
  t <= now -> manager_inv m lg t -> policy m' = policy m -> entries m' = <[ip := e]> (entries m) ->
  address_inv (BotFilter (policy m)) e lg' ip now ->
  (forall ip' e', ip <> ip' -> address_inv (BotFilter (policy m)) e' lg ip' t -> address_inv (BotFilter (policy m)) e' lg' ip' now) ->
  manager_inv m' lg' now.
Proof.
  intros Ht [He Hi] Epol Eent Hent Hother. split; [by rewrite Epol|].
  intros ip'. rewrite Epol, Eent. destruct (decide (ip = ip')) as [<-|Hn]; [by rewrite lookup_insert_eq|].
  rewrite lookup_insert_ne by done. auto.
Qed.

Definition windows_ok (p : FilterPolicy) : Prop :=
  0 <= BurstWindow (fp_Signals p) /\ 0 <= ChurnWindow (fp_Signals p) /\ 0 <= Window (fp_Reputation p).

Lemma look_other p e lg ip ip' t now :
  t <= now -> ip <> ip' -> address_inv p e lg ip' t -> address_inv p e (look (Some ip) now lg) ip' now.
Proof.
  intros Ht Hn. apply address_inv_other; try done. rewrite looks_look, decide_False by (intros [|]; congruence). by rewrite app_nil_r.
Qed.

(** A login attempt from [ip], its record pruned. *)
Lemma address_attempt p e lg ip name now :
  windows_ok p -> (exists e0, e = prune e0 now p) -> address_inv p e lg ip now ->
  let a := (ip, name, now) in
  let e' := mkRep (BurstAttempts e ++ [now]) (if bool_decide (name = []) then Usernames e else <[name := now]> (Usernames e))
              (Violations e) (BlockedUntil e) in
  address_inv p e' (mkLedger (lg_attempts lg ++ [a]) (lg_violations lg) (lg_looks lg) (lg_blocks lg)) ip now /\
  spec_verdict p (lg_attempts lg) a =
    if (SoftLoginBurst (fp_Signals p) <=? blen (BurstAttempts e')) || (UsernameChurn (fp_Signals p) <=? Z.of_nat (size (Usernames e')))
    then Observe else Allow.
Proof.
  intros (Hbw & Hcw & _) [e0 E0] [He Hr [[As Ap] V L B]]. cbn zeta.
  assert (Epr : prune e now p = e).
  { subst e. unfold prune. cbn. f_equal; [by apply keepTimes_keepTimes| |by apply keepTimes_keepTimes].
    rewrite !prune_names. by apply in_window_in_window. }
  pose proof (attempt_inv p e (lg_attempts lg) (ip, name, now) now ltac:(cbn; lia) As Ap Hcw Hbw He) as (Hent & Hb & Hn).
  cbn [fst snd] in *. rewrite Epr in *. split.
  - split; [exact Hent|by destruct Hr|]. split; try done. cbn [lg_attempts]. rewrite times_snoc. cbn. rewrite decide_True by done.
    split; [by apply StronglySorted_snoc|]. apply Forall_app. by repeat constructor.
  - cbn [BurstAttempts Usernames] in Hb, Hn |- *. rewrite Hb, Hn. done.
Qed.

Lemma Evaluate_step m lg t now ev :
  t <= now -> manager_inv m lg t -> windows_ok (BotFilter (policy m)) ->
  let '(d, m') := Evaluate m now ev in
  let '(v, lg') := spec_step (BotFilter (policy m)) lg (BEvaluate now ev) in
  v = Some (dc_Verdict d) /\ manager_inv m' lg' now /\ policy m' = policy m.
Proof.
  intros Ht Hm Hw. set (p := BotFilter (policy m)) in *. set (ip := ev_RemoteIP ev). set (lg1 := look (Some ip) now lg).
  pose proof (address_look p _ lg (Some ip) ip t now Ht (or_intror eq_refl) (inv_entries _ _ _ Hm ip)) as Ha.
  unfold Evaluate. rewrite (inv_enabled _ _ _ Hm). cbn [negb]. fold p ip. set (e1 := prune _ now p) in *.
  cbn [spec_step]. fold ip lg1. fold lg1 in Ha.
  rewrite <-(rv_blocked _ _ _ _ _ (ai_record _ _ _ _ _ Ha) now) by lia.
  destruct (blocked_after (BlockedUntil e1) now).
  { split; [done|]. split; [|done]. eapply (manager_inv_at m _ lg lg1 ip e1); try done. intros ip' e' Hn. by apply look_other. }
  destruct (ev_ProtocolViolation ev).
  { split; [done|]. split; [|done]. eapply (manager_inv_at m _ lg _ ip); try done.
    - apply (address_violate p e1 lg1 ip now now); [done|apply Hw|done].
    - intros ip' e' Hn Hx. destruct (violate_other p ip now lg1 ip' Hn) as (E1 & E2 & E3 & E4).
      apply (address_inv_other _ _ lg1 _ _ now); [done|done|unfold looks; by rewrite E2|done|done|]. by apply (look_other p e' lg ip ip' t). }
  set (name := id_Username (ev_Identity ev)).
  destruct (address_attempt p e1 lg1 ip name now Hw ltac:(by eexists) Ha) as [Ha' Hv]. cbn zeta in Ha', Hv.
  rewrite Hv. set (e2 := mkRep _ _ _ _) in *.
  assert (Hfin : forall m', policy m' = policy m -> entries m' = <[ip := e2]> (entries m) ->
    manager_inv m' (mkLedger (lg_attempts lg1 ++ [(ip, name, now)]) (lg_violations lg1) (lg_looks lg1) (lg_blocks lg1)) now).
  { intros m' E1 E2. eapply (manager_inv_at m _ lg _ ip e2 t); try done. intros ip' e' Hn Hx.
    apply (address_other _ _ lg1 _ _ now); [done| | |done|done|done|by apply (look_other p e' lg ip ip' t)]; cbn [lg_attempts].
    - rewrite times_snoc. cbn. rewrite decide_False by done. by rewrite app_nil_r.
    - rewrite last_seen_snoc. cbn. by rewrite bool_decide_false. }
  destruct (_ || _); (split; [done|split; [|done]]); by apply Hfin.
Qed.

Lemma Record_step m lg t e :
  t <= e_At e -> manager_inv m lg t -> windows_ok (BotFilter (policy m)) ->
  manager_inv (Record_ m e) (snd (spec_step (BotFilter (policy m)) lg (BRecord e))) (e_At e) /\ policy (Record_ m e) = policy m.
Proof.
  intros Ht Hm Hw. split; [|done]. unfold Record_. cbn [spec_step snd]. destruct (e_Violation e).
  - eapply (manager_inv_at m _ lg _ (e_IP e) _ t); try done.
    + apply address_violate with t; [done|apply Hw|apply Hm].
    + intros ip' e' Hn. destruct (violate_other (BotFilter (policy m)) (e_IP e) (e_At e) lg ip' Hn) as (E1 & E2 & E3 & E4).
      apply address_inv_other; try done. unfold looks. by rewrite E2.
  - eapply (manager_inv_at m _ lg _ (e_IP e) _ t); try done.
    + eapply address_inv_other; [exact Ht|done..|]. apply Hm.
    + intros ip' e' _. by apply address_inv_other.
Qed.

Lemma idle_inv p e lg ip now : idle e now = true -> address_inv p e lg ip now -> address_inv p new_reputation lg ip now.
Proof.
  unfold idle. intros Hi [[I1 I2] [Rv Rb] Hl]. bool_facts.
  match goal with H : blen (BurstAttempts e) = 0 |- _ => apply blen_0 in H as Hb end.
  match goal with H : Z.of_nat (size (Usernames e)) = 0 |- _ => apply (Nat2Z.inj _ 0), map_size_empty_iff in H as Hu end.
  match goal with H : blen (Violations e) = 0 |- _ => apply blen_0 in H as Hv end.
  match goal with H : blocked_after _ _ = false |- _ => rename H into Hbl end.
  split; [split|split|done].
  - intros now' Hn. rewrite <-I1 by done. by rewrite Hb.
  - intros now' Hn. rewrite <-I2 by done. by rewrite Hu.
  - by rewrite <-Rv, Hv.
  - intros now' Hn. cbn. symmetry. apply (blocks_later lg ip now); [done|]. by rewrite <-(Rb now).
Qed.

Lemma cleanup_step m lg t now :
  t <= now -> manager_inv m lg t -> manager_inv (cleanup m now) (look None now lg) now /\ policy (cleanup m now) = policy m.
Proof.
  intros Ht [He Hi]. split; [|done]. split; cbn; [done|].
  intros ip. rewrite lookup_omap. pose proof (address_look _ _ _ None ip t now Ht (or_introl eq_refl) (Hi ip)) as Ha. rewrite He. cbn [negb].
  destruct (entries m !! ip) as [e|]; cbn in *; [case_match eqn:E; [by eapply idle_inv|done]|].
  unfold prune in Ha. cbn in Ha. by rewrite map_filter_empty in Ha.
Qed.

Lemma run_bops_spec os : forall m lg t,
  manager_inv m lg t -> windows_ok (BotFilter (policy m)) -> bops_in_order t os ->
  dc_Verdict <$> fst (run_bops m os) = spec_verdicts (BotFilter (policy m)) lg os.
Proof.
  induction os as [|o os IH]; intros m lg t Hm Hw Ho; [done|]. cbn in Ho. destruct Ho as [Ht Ho].
  cbn [run_bops spec_verdicts]. destruct o as [now ev|e|now]; cbn [run_bop bop_time] in *.
  - pose proof (Evaluate_step m lg t now ev Ht Hm Hw) as Hs.
    destruct (Evaluate m now ev) as [d m']. destruct (spec_step _ lg _) as [v lg']. destruct Hs as (-> & Hm' & Hpol).
    specialize (IH m' _ now Hm' ltac:(by rewrite Hpol) Ho). destruct (run_bops m' os) as [ds m2].
    cbn in *. by rewrite IH, Hpol.
  - destruct (Record_step m lg t e Ht Hm Hw) as [Hm' Hpol].
    specialize (IH _ _ _ Hm' ltac:(by rewrite Hpol) Ho). destruct (run_bops (Record_ m e) os). cbn in *. exact IH.
  - destruct (cleanup_step m lg t now Ht Hm) as [Hm' Hpol].
    specialize (IH _ _ _ Hm' ltac:(by rewrite Hpol) Ho). destruct (run_bops (cleanup m now) os). cbn in *. exact IH.
Qed.

Lemma Botfilter_New_inv p path t : Enabled (BotFilter p) = true -> manager_inv (New p path) empty_ledger t.
Proof.
  intros He. split; [done|]. intros ip. cbn. rewrite lookup_empty. cbn. split; [by split|by split|]. split; [split|split|..]; constructor.
Qed.

Lemma Validate_windows p : Validate p = None -> Enabled (BotFilter p) = true -> windows_ok (BotFilter p).
Proof.
  unfold Validate. intros Hv He. rewrite He in Hv. cbn [negb] in Hv. repeat (case_match; [done|]).
  bool_facts. split; lia.
Qed.

(** ** Lemmas: blocked addresses *)

Definition blocked_till (m : Manager) (ip : gostring) (u : Z) : Prop :=
  Enabled (BotFilter (policy m)) = true /\ 0 <= DenyTTL (fp_Reputation (BotFilter (policy m))) /\
  exists b, BlockedUntil (default new_reputation (entries m !! ip)) = Some b /\ u <= b.

Lemma Evaluate_blocked m ip u now ev :
  blocked_till m ip u -> now < u ->
  (ev_RemoteIP ev = ip -> dc_Verdict (fst (Evaluate m now ev)) = Deny) /\
  blocked_till (snd (Evaluate m now ev)) ip u.
Proof.
  intros (He & Hd & b & Hb & Hu) Hn. destruct (decide (ev_RemoteIP ev = ip)) as [Hip|Hip].
  - assert (Ha : forall p, blocked_after (BlockedUntil (prune (default new_reputation (entries m !! ip)) now p)) now = true).
    { intros p. cbn [prune BlockedUntil]. rewrite Hb. apply Z.ltb_lt. lia. }
    unfold Evaluate. rewrite He, Hip. cbn [negb]. rewrite !Ha.
    split; [done|]. unfold blocked_till. cbn. rewrite lookup_insert_eq. cbn. split_and!; [done|done|by exists b].
  - split; [done|]. unfold Evaluate. rewrite He. cbn [negb].
    unfold blocked_till. repeat case_match; cbn; rewrite lookup_insert_ne by done; split_and!; try done; by exists b.
Qed.

Lemma Record_blocked m ip u e :
  blocked_till m ip u -> u <= e_At e + DenyTTL (fp_Reputation (BotFilter (policy m))) ->
  blocked_till (Record_ m e) ip u.
Proof.
  intros (He & Hd & b & Hb & Hu) Ht. split; [done|]. split; [done|]. unfold Record_. cbn.
  destruct (decide (e_IP e = ip)) as [<-|Hn]; [|exists b; by rewrite lookup_insert_ne].
  rewrite lookup_insert_eq. cbn. case_match; [|by exists b]. unfold recordViolation. cbn.
  case_match; [eexists; split; [done|lia]|by exists b].
Qed.

Lemma cleanup_blocked m ip u now : blocked_till m ip u -> now < u -> blocked_till (cleanup m now) ip u.
Proof.
  intros (He & Hd & b & Hb & Hu) Hn. split; [done|]. split; [done|]. exists b. cbn. rewrite lookup_omap.
  destruct (entries m !! ip) as [e|]; [|done]. cbn in *. rewrite He. cbn [negb].
  assert (Hi : idle (prune e now (BotFilter (policy m))) now = false).
  { unfold idle, prune. cbn [BlockedUntil]. rewrite Hb. cbn [blocked_after].
    rewrite (proj2 (Z.ltb_lt now b)) by lia. by rewrite andb_false_r. }
  by rewrite Hi.
Qed.

Lemma run_bops_blocked os : forall m ip t u,
  blocked_till m ip u -> bops_in_order t os -> u <= t + DenyTTL (fp_Reputation (BotFilter (policy m))) ->
  Forall (fun o => bop_time o < u) os ->
  blocked_till (snd (run_bops m os)) ip u.
Proof.
  induction os as [|o os IH]; intros m ip t u Hb Ho Hu Hf; [done|]. cbn in Ho. destruct Ho as [Ht Ho].
  apply Forall_cons in Hf as [Ho' Hf]. cbn [run_bops].
  assert (Hs : blocked_till (snd (run_bop m o)) ip u /\ policy (snd (run_bop m o)) = policy m).
  { destruct o as [now ev|e|now]; cbn [run_bop bop_time] in *.
    - destruct (Evaluate_blocked m ip u now ev Hb Ho') as [_ H].
      destruct (Evaluate m now ev) as [d m'] eqn:E. split; [done|]. cbn.
      revert E. unfold Evaluate. repeat case_match; intros; by simplify_eq.
    - split; [|done]. apply Record_blocked; [done|lia].
    - split; [|done]. by apply cleanup_blocked. }
  destruct (run_bop m o) as [d m1]. cbn in Hs. destruct Hs as [Hm Hp].
  specialize (IH m1 ip (bop_time o) u Hm Ho). rewrite Hp in IH. specialize (IH ltac:(lia) Hf).
  by destruct (run_bops m1 os).
Qed.

(** ** Properties *)

(** C30: the bot filter decides as its specification, which never forgets anything.
    For a valid enabled policy and any sequence of logins, reports and sweeps in
    time order: a login is denied exactly when its address is blocked or it violates
    the protocol; an address is blocked for [DenyTTL] by a violation that completes
    the violation limit, counting the violations that lay in the reputation window
    each time its record was looked at; a login that is not denied is held back
    exactly when, counting itself, the configured number of attempts of its address
    lies in the burst window or the configured number of distinct names of its
    address was last used in the churn window, and is allowed otherwise. So pruning
    on access and the sweep, which deletes idle records, never change a decision. *)
Theorem bot_filter_sliding_windows p file t os :
  Validate p = None -> Enabled (BotFilter p) = true -> bops_in_order t os ->
  dc_Verdict <$> fst (run_bops (New p file) os) = spec_verdicts (BotFilter p) empty_ledger os.
Proof.
  intros Hv He Ho. apply (run_bops_spec os (New p file) empty_ledger t); [by apply Botfilter_New_inv| |done].
  by apply Validate_windows.
Qed.

Definition demo_policy : Policy :=
  mkPolicy 1 (mkFilterPolicy true (mkObservation 5 1 2) (mkReputation 100 2 50) (mkSignals 3 10 3 60)).
Definition demo_attempt (ip name : string) : Evidence :=
  mkEvidence (mkIdentity (str ip) [] (str name) []) false (str ip) 0 0 0 0 false.
Definition demo_violation (ip : string) : Evidence :=
  mkEvidence (mkIdentity (str ip) [] [] []) false (str ip) 0 0 0 0 true.
Definition demo_ops : list bop :=
  [BEvaluate 0 (demo_attempt "a" "x"); BEvaluate 1 (demo_attempt "a" "x"); BEvaluate 2 (demo_attempt "b" "x");
   BEvaluate 3 (demo_attempt "a" "x"); BCleanup 30; BEvaluate 40 (demo_attempt "a" "y"); BEvaluate 41 (demo_attempt "a" "z");
   BRecord (mkEvent (str "b") [] 42 true); BEvaluate 50 (demo_attempt "b" "x"); BEvaluate 60 (demo_violation "b");
   BEvaluate 109 (demo_attempt "b" "x"); BEvaluate 110 (demo_attempt "b" "x")].

Lemma bot_filter_sliding_windows_witness :
  dc_Verdict <$> fst (run_bops (New demo_policy []) demo_ops) =
  [Allow; Allow; Allow; Observe; Allow; Observe; Allow; Deny; Deny; Allow].
Proof.
  rewrite (bot_filter_sliding_windows demo_policy [] 0 demo_ops eq_refl eq_refl); [vm_compute; reflexivity|].
  cbn. lia.
Defined.

(** a blocked address stays blocked. When a reported violation brings an
    address to the violation limit, every login from it before the end of
    [DenyTTL] is denied, whatever happens in between: attempts from this and other
    addresses, further reports, sweeps. *)
Theorem bot_filter_block_lasts m e os now ev :
  Enabled (BotFilter (policy m)) = true -> 0 <= DenyTTL (fp_Reputation (BotFilter (policy m))) ->
  e_Violation e = true ->
  ViolationLimit (fp_Reputation (BotFilter (policy m))) <=
    blen (Violations (default new_reputation (entries m !! e_IP e))) + 1 ->
  let until := e_At e + DenyTTL (fp_Reputation (BotFilter (policy m))) in
  bops_in_order (e_At e) os -> Forall (fun o => bop_time o < until) os ->
  now < until -> ev_RemoteIP ev = e_IP e ->
  dc_Verdict (fst (Evaluate (snd (run_bops (Record_ m e) os)) now ev)) = Deny.
Proof.
  intros He Hd Hv Hlim until Ho Hf Hn Hip.
  assert (Hb : blocked_till (Record_ m e) (e_IP e) until).
  { split; [done|]. split; [done|]. unfold Record_. cbn. rewrite lookup_insert_eq, Hv. cbn.
    rewrite (proj2 (Z.leb_le _ _)) by len. by eexists. }
  apply (run_bops_blocked os _ _ (e_At e)) in Hb; [|done|cbn; unfold until; lia|done].
  by eapply Evaluate_blocked.
Qed.

Lemma bot_filter_block_lasts_witness :
  let m := Record_ (New demo_policy []) (mkEvent (str "a") [] 5 true) in
  dc_Verdict (fst (Evaluate (snd (run_bops (Record_ m (mkEvent (str "a") [] 6 true)) [BCleanup 20])) 55 (demo_attempt "a" "x"))) = Deny.
Proof.
  apply bot_filter_block_lasts; [reflexivity|vm_compute; discriminate|reflexivity|vm_compute; discriminate| | | |reflexivity].
  - cbn. lia.
  - repeat constructor.
  - reflexivity.
Defined.
