(* ===== verification/Link.v ===== *)
(** * A connection as a sequence of frames

    The parts of the gateway above package transport only read and write whole
    frames. [link] is that view of a [*transport.Transport]: the frames and
    errors its reads will still return, the frames written so far, and how many
    more writes the peer accepts. A read past the script returns [lk_end]: the
    caller has always set a deadline or owns a closable connection, so a blocked
    read ends with an error. *)

From S2P Require Import Prelude GoIO Varint Frame.

Record link := mkLink {
  lk_in : list (res (list byte));
  lk_end : error;
  lk_out : list (list byte);
  lk_room : option nat;       (* None: every write succeeds *)
  lk_werr : error;
  lk_closed : bool;
  lk_threshold : option Z;    (* compression *)
  lk_maxPacketSize : Z
}.

Definition lk_set_in (l : link) (ins : list (res (list byte))) : link :=
  mkLink ins (lk_end l) (lk_out l) (lk_room l) (lk_werr l) (lk_closed l) (lk_threshold l) (lk_maxPacketSize l).

(** [t.ReadFrame()] *)
Definition link_ReadFrame (l : link) : res (list byte) * link :=
  if lk_closed l then (Err net_ErrClosed, l)
  else match lk_in l with
       | [] => (Err (lk_end l), l)
       | r :: ins => (r, lk_set_in l ins)
       end.

(** [t.WriteFrame(payload)]; the limits are those of [codec.Framer]. *)
Definition link_WriteFrame (l : link) (payload : list byte) : option error * link :=
  let limit := maxPacketSize (NewFramer (lk_maxPacketSize l)) in
  if lk_closed l then (Some transport_ErrClosed, l)
  else if blen payload =? 0 then (Some ErrEmptyPacket, l)
  else if limit <? blen payload then (Some (PacketTooLargeError (blen payload) limit), l)
  else match lk_room l with
       | Some O => (Some (lk_werr l), l)
       | room => (None, mkLink (lk_in l) (lk_end l) (lk_out l ++ [payload]) (pred <$> room) (lk_werr l)
                           (lk_closed l) (lk_threshold l) (lk_maxPacketSize l))
       end.

Definition link_EnableCompression (l : link) (threshold : Z) : option error * link :=
  match NewCompressionState threshold (lk_maxPacketSize l) with
  | Err err => (Some err, l)
  | Ok _ => (None, mkLink (lk_in l) (lk_end l) (lk_out l) (lk_room l) (lk_werr l) (lk_closed l)
                     (Some threshold) (lk_maxPacketSize l))
  end.

Definition link_Close (l : link) : link :=
  mkLink (lk_in l) (lk_end l) (lk_out l) (lk_room l) (lk_werr l) true (lk_threshold l) (lk_maxPacketSize l).

(** Write frames in order, stopping at the first error. *)
Fixpoint link_WriteAll (l : link) (ps : list (list byte)) : option error * link :=
  match ps with
  | [] => (None, l)
  | p :: ps' =>
    match link_WriteFrame l p with
    | (Some err, l') => (Some err, l')
    | (None, l') => link_WriteAll l' ps'
    end
  end.

(** ** Lemmas *)

Definition frame_fits (l : link) (p : list byte) : Prop :=
  p <> [] /\ blen p <= maxPacketSize (NewFramer (lk_maxPacketSize l)).

#[global] Instance frame_fits_dec l p : Decision (frame_fits l p).
Proof. unfold frame_fits. apply _. Defined.

Lemma link_WriteFrame_out l p e l' :
  link_WriteFrame l p = (e, l') ->
  lk_out l' = lk_out l ++ match e with Some _ => [] | None => [p] end /\ lk_in l' = lk_in l /\ lk_closed l' = lk_closed l /\
  lk_threshold l' = lk_threshold l /\ lk_end l' = lk_end l /\ lk_maxPacketSize l' = lk_maxPacketSize l.
Proof.
  unfold link_WriteFrame. repeat case_match; intros; simplify_eq/=; rewrite ?app_nil_r; done.
Qed.

Lemma link_WriteFrame_ok l p :
  lk_closed l = false -> lk_room l = None -> frame_fits l p ->
  link_WriteFrame l p =
  (None, mkLink (lk_in l) (lk_end l) (lk_out l ++ [p]) None (lk_werr l) false (lk_threshold l) (lk_maxPacketSize l)).
Proof.
  intros Hc Hr [Hn Hb]. unfold link_WriteFrame. rewrite Hc, Hr.
  rewrite (proj2 (Z.eqb_neq _ _)) by (by rewrite blen_0).
  by rewrite (proj2 (Z.ltb_ge _ _)).
Qed.

(** Frames reach the peer in order, and all of them unless an error is reported. *)
Lemma link_WriteAll_out ps : forall l e l',
  link_WriteAll l ps = (e, l') ->
  exists k, lk_out l' = lk_out l ++ take k ps /\ (e = None -> lk_out l' = lk_out l ++ ps) /\
    lk_in l' = lk_in l /\ lk_closed l' = lk_closed l.
Proof.
  induction ps as [|p ps IH]; intros l e l'; cbn.
  - intros; simplify_eq. exists 0%nat. by rewrite !app_nil_r.
  - destruct (link_WriteFrame l p) as [[err|] l1] eqn:E; apply link_WriteFrame_out in E as (Ho & Hi & Hc & _).
    + intros; simplify_eq. exists 0%nat. by rewrite Ho.
    + intros H. apply IH in H as (k & Hk & Hall & Hi' & Hc'). exists (S k). cbn.
      rewrite Hk, Ho, Hi', Hc', Hi, Hc, <-app_assoc. split; [done|]. split; [|done].
      intros He. specialize (Hall He). rewrite Hk, Ho, <-!app_assoc in Hall. exact Hall.
Qed.

Definition writable (l : link) : Prop := lk_closed l = false /\ lk_room l = None.

Lemma writable_WriteFrame l p :
  writable l -> frame_fits l p ->
  exists l', link_WriteFrame l p = (None, l') /\ writable l' /\ lk_in l' = lk_in l /\
    lk_maxPacketSize l' = lk_maxPacketSize l.
Proof. intros [Hc Hr] Hf. rewrite link_WriteFrame_ok by done. eexists. by split_and!. Qed.

Lemma link_ReadFrame_cons l f ins :
  lk_closed l = false -> lk_in l = Ok f :: ins -> link_ReadFrame l = (Ok f, lk_set_in l ins).
Proof. intros Hc Hi. unfold link_ReadFrame. by rewrite Hc, Hi. Qed.
