(* ===== verification/Backend.v ===== *)
(** * Backend connections (internal/backend: health.go, dialer.go, login.go,
    configuration.go)

    The TCP dial, the clock, the state of the operation's context and the text of
    errors are arguments; [interruptOnDone] (context.go) only turns the end of the
    context into a failing read, which is the error a [link] read may return. *)

From S2P Require Import Prelude GoIO Varint Utf8 McString Frame Wire Crypto.
From S2P Require Import Session Errors Handshake Login Configuration Forwarding Link.

(** ** Health *)

Inductive HealthState : Type := HealthUnknown | HealthHealthy | HealthUnhealthy.

#[global] Instance HealthState_eq_dec : EqDecision HealthState.
Proof. solve_decision. Defined.

Record HealthSnapshot := mkHealth { hl_State : HealthState; hl_ChangedAt : Z; hl_LastError : gostring }.

Definition initial_health : HealthSnapshot := mkHealth HealthUnknown 0 [].

Section backend.
(** The texts of errors of code outside the repository. *)
Context (foreign : error -> string).

Definition health_set (h : HealthSnapshot) (now : Z) (state : HealthState) (err : option error) : HealthSnapshot :=
  let lastError := match err with Some e => Error foreign e | None => [] end in
  if bool_decide (hl_State h = state) && bool_decide (hl_LastError h = lastError) then h
  else mkHealth state now lastError.

(** ** Dialer *)

Record Config := mkConfig {
  cf_Address : gostring;
  cf_Host : gostring;
  cf_Port : Z;
  cf_MaxPacketSize : Z;
  cf_ConnectTimeout : Z
}.

Record Dialer := mkDialer { dl_config : Config; dl_health : HealthSnapshot }.

Definition NewDialer (config : Config) : Dialer :=
  let timeout := if cf_ConnectTimeout config <=? 0 then 10 * 1000000000 else cf_ConnectTimeout config in
  mkDialer (mkConfig (cf_Address config) (cf_Host config) (cf_Port config) (cf_MaxPacketSize config) timeout)
           initial_health.

Definition MarkHealthy (d : Dialer) (now : Z) : Dialer :=
  mkDialer (dl_config d) (health_set (dl_health d) now HealthHealthy None).

Definition MarkUnhealthy (d : Dialer) (now : Z) (err : option error) : Dialer :=
  match err with
  | Some _ => mkDialer (dl_config d) (health_set (dl_health d) now HealthUnhealthy err)
  | None => d
  end.

(** [dial] is the result of net.Dialer.DialContext. The last result is the
    connection that was opened and closed again, if there is one. *)
Definition Dial (d : Dialer) (now : Z) (dial : res link) (username : gostring) (uid : list byte)
    : res link * Dialer * option link :=
  let fail err dropped :=
    (Err err, mkDialer (dl_config d) (health_set (dl_health d) now HealthUnhealthy (Some err)), dropped) in
  if bool_decide (cf_Address (dl_config d) = []) then fail ErrBackendAddressEmpty None
  else match dial with
  | Err err => fail (ErrWrap ("dial backend " +:+ String.string_of_list_byte (cf_Address (dl_config d))) err) None
  | Ok t =>
    match link_WriteFrame t (Payload (mkPacket ProtocolVersion (cf_Host (dl_config d)) (cf_Port (dl_config d)) NextLogin)) with
    | (Some err, t) => fail (ErrWrap "write backend handshake" err) (Some (link_Close t))
    | (None, t) =>
      match link_WriteFrame t (StartPayload username uid) with
      | (Some err, t) => fail (ErrWrap "write backend login start" err) (Some (link_Close t))
      | (None, t) => (Ok t, d, None)
      end
    end
  end.

(** ** Login *)

Definition clientboundDisconnectID : Z := 0x00.
Definition clientboundEncryptionRequestID : Z := 0x01.
Definition clientboundSetCompressionID : Z := 0x03.

Record LoginResult := mkLoginResult { lr_UUID : list byte; lr_Username : gostring }.

Context (json_text : gostring -> option gostring).

(** The loop of [CompleteLogin]; [ctxErr] is the error of the login context when
    a read fails. Every round consumes one frame, so one more round than there
    are frames suffices ([login_loop_fuel]). *)
Fixpoint login_loop (fuel : nat) (ctxErr : option error) (forwarder : option ModernForwarding)
    (identity : PlayerIdentity) (backend : link) : res LoginResult * link :=
  match fuel with
  | O => (Err (ErrOther 0), backend)
  | S fuel' =>
    match link_ReadFrame backend with
    | (Err err, backend) =>
      (Err (match ctxErr with Some e => e | None => ErrWrap "read backend login packet" err end), backend)
    | (Ok frame, backend) =>
      match PacketID frame with
      | Err _ => (Err ErrUnexpectedLoginPacket, backend)
      | Ok (id, body) =>
        if id =? ClientboundPluginRequestID then
          match ParsePluginRequest frame, forwarder with
          | Ok request, Some forwarder' =>
            if negb (bool_decide (pr_Channel request = VelocityChannel)) then (Err ErrUnexpectedPlugin, backend)
            else match BuildResponse forwarder' identity with
                 | Err err => (Err (ErrWrap "build velocity forwarding response" err), backend)
                 | Ok response =>
                   match link_WriteFrame backend (PluginResponsePayload (pr_MessageID request) (Some response)) with
                   | (Some err, backend) => (Err (ErrWrap "write velocity forwarding response" err), backend)
                   | (None, backend) => login_loop fuel' ctxErr forwarder identity backend
                   end
                 end
          | _, _ => (Err ErrUnexpectedPlugin, backend)
          end
        else if id =? ClientboundLoginSuccessID then
          match ReadUUID frame with
          | (_, _, Some _) => (Err ErrUnexpectedLoginPacket, backend)
          | (uid, username, None) =>
            match link_WriteFrame backend (AppendVarInt [] ServerboundLoginAckID) with
            | (Some err, backend) => (Err (ErrWrap "write backend login acknowledgement" err), backend)
            | (None, backend) => (Ok (mkLoginResult uid username), backend)
            end
          end
        else if id =? clientboundDisconnectID then
          let reason := ParseDisconnectReason json_text frame in
          (Err (if bool_decide (reason = []) then ErrBackendDisconnected
                else ErrText ErrBackendDisconnected (String.string_of_list_byte reason)), backend)
        else if id =? clientboundEncryptionRequestID then (Err ErrUnsupportedEncryption, backend)
        else if id =? clientboundSetCompressionID then
          match ConsumeVarInt body with
          | Err _ => (Err ErrUnexpectedLoginPacket, backend)
          | Ok (threshold, used) =>
            if (threshold <? 0) || negb (used =? blen body) then (Err ErrUnexpectedLoginPacket, backend)
            else match link_EnableCompression backend threshold with
                 | (Some err, backend) => (Err (ErrWrap "enable backend compression" err), backend)
                 | (None, backend) => login_loop fuel' ctxErr forwarder identity backend
                 end
          end
        else (Err ErrUnexpectedLoginPacket, backend)
      end
    end
  end.

Definition CompleteLogin (ctxErr : option error) (backend : link) (forwarder : option ModernForwarding)
    (identity : PlayerIdentity) : res LoginResult * link :=
  login_loop (S (length (lk_in backend))) ctxErr forwarder identity backend.

(** ** Configuration *)

Record ConfigurationConfig := mkConfigurationConfig { cc_Timeout : Z; cc_MaxPackets : Z; cc_MaxBytes : Z }.

(** The loop of [CompleteConfiguration]; [packets] and [bytesBuffered] are the
    result so far. *)
Fixpoint configuration_loop (fuel : nat) (ctxErr : option error) (maxPackets maxBytes : Z)
    (packets : list (list byte)) (bytesBuffered : Z) (backend : link) : res (list (list byte)) * link :=
  match fuel with
  | O => (Err (ErrOther 0), backend)
  | S fuel' =>
    match link_ReadFrame backend with
    | (Err err, backend) =>
      (Err (match ctxErr with
            | Some e => e
            | None => ErrDetail ErrBackendConfigurationDisconnected err
            end), backend)
    | (Ok frame, backend) =>
      match PacketID frame with
      | Err _ => (Err ErrBackendConfigurationPacket, backend)
      | Ok (id, body) =>
        if id =? ClientboundFinishConfigurationID then
          if negb (blen body =? 0) then (Err ErrBackendConfigurationPacket, backend)
          else match link_WriteFrame backend FinishAcknowledgedPayload with
               | (Some err, backend) => (Err (ErrWrap "write backend configuration acknowledgement" err), backend)
               | (None, backend) => (Ok packets, backend)
               end
        else if id =? ClientboundKeepAliveID then
          if negb (blen body =? 8) then (Err ErrBackendConfigurationPacket, backend)
          else match link_WriteFrame backend (AppendVarInt [] ServerboundKeepAliveID ++ body) with
               | (Some err, backend) => (Err (ErrWrap "write backend configuration keepalive" err), backend)
               | (None, backend) => configuration_loop fuel' ctxErr maxPackets maxBytes packets bytesBuffered backend
               end
        else if id =? ClientboundPingID then
          if negb (blen body =? 4) then (Err ErrBackendConfigurationPacket, backend)
          else match link_WriteFrame backend (AppendVarInt [] ServerboundPongID ++ body) with
               | (Some err, backend) => (Err (ErrWrap "write backend configuration pong" err), backend)
               | (None, backend) => configuration_loop fuel' ctxErr maxPackets maxBytes packets bytesBuffered backend
               end
        else if id =? ClientboundDisconnectID then (Err ErrBackendConfigurationDisconnected, backend)
        else if (maxPackets <=? blen packets) || (maxBytes <? bytesBuffered + blen frame)
        then (Err ErrBackendConfigurationTooLarge, backend)
        else configuration_loop fuel' ctxErr maxPackets maxBytes (packets ++ [frame]) (bytesBuffered + blen frame) backend
      end
    end
  end.

Definition effective_MaxPackets (config : ConfigurationConfig) : Z :=
  if cc_MaxPackets config <=? 0 then 128 else cc_MaxPackets config.
Definition effective_MaxBytes (config : ConfigurationConfig) : Z :=
  if cc_MaxBytes config <=? 0 then Z.shiftl 8 20 else cc_MaxBytes config.

Definition CompleteConfiguration (ctxErr : option error) (backend : link) (config : ConfigurationConfig)
    : res (list (list byte)) * link :=
  configuration_loop (S (length (lk_in backend))) ctxErr (effective_MaxPackets config)
    (effective_MaxBytes config) [] 0 backend.
End backend.

(** ** Specification of the login dialogue *)

(** The frames written in answer to a frame that does not end the dialogue. *)
Definition login_reply (forwarder : option ModernForwarding) (identity : PlayerIdentity) (frame : list byte)
    : option (list (list byte)) :=
  match PacketID frame with
  | Err _ => None
  | Ok (id, body) =>
    if id =? ClientboundPluginRequestID then
      match ParsePluginRequest frame, forwarder with
      | Ok request, Some f =>
        if bool_decide (pr_Channel request = VelocityChannel) then
          match BuildResponse f identity with
          | Ok response => Some [PluginResponsePayload (pr_MessageID request) (Some response)]
          | Err _ => None
          end
        else None
      | _, _ => None
      end
    else if id =? clientboundSetCompressionID then
      match ConsumeVarInt body with
      | Ok (threshold, used) => if (threshold <? 0) || negb (used =? blen body) then None else Some []
      | Err _ => None
      end
    else None
  end.

(** A well-formed Login Success. *)
Definition login_success (frame : list byte) : option LoginResult :=
  match PacketID frame with
  | Ok (id, _) =>
    if id =? ClientboundLoginSuccessID then
      match ReadUUID frame with
      | (uid, username, None) => Some (mkLoginResult uid username)
      | _ => None
      end
    else None
  | Err _ => None
  end.

(** The compression threshold a frame announces, and the one in effect after
    some frames. *)
Definition announced (frame : list byte) : option Z :=
  match PacketID frame with
  | Ok (id, body) =>
    if id =? clientboundSetCompressionID then match ConsumeVarInt body with Ok (threshold, _) => Some threshold | Err _ => None end
    else None
  | Err _ => None
  end.

Definition compression_after (threshold : option Z) (frames : list (list byte)) : option Z :=
  foldl (fun th f => match announced f with Some t => Some t | None => th end) threshold frames.

Definition login_ack : list byte := AppendVarInt [] ServerboundLoginAckID.

Definition answered {A} (reply : list byte -> option A) (pre : list (list byte)) (replies : list A) : Prop :=
  Forall2 (fun f o => reply f = Some o) pre replies.

(** ** Lemmas: login *)

Lemma link_ReadFrame_inv l r l' :
  link_ReadFrame l = (r, l') ->
  (exists f, r = Ok f /\ lk_in l = Ok f :: lk_in l' /\ lk_out l' = lk_out l /\ lk_closed l' = lk_closed l /\
     lk_threshold l' = lk_threshold l) \/
  (exists e, r = Err e /\ lk_out l' = lk_out l /\ lk_threshold l' = lk_threshold l).
Proof.
  unfold link_ReadFrame. destruct (lk_closed l) eqn:E; [intros; simplify_eq; right; by eexists|].
  destruct (lk_in l) as [|[f|e] ins] eqn:Ei; intros; simplify_eq; cbn; [right; by eexists| |right; by eexists].
  left. exists f. split_and!; done.
Qed.

Definition login_outcome (forwarder : option ModernForwarding) (identity : PlayerIdentity)
    (l : link) (r : res LoginResult) (l' : link) : Prop :=
  exists pre replies rest, lk_in l = map Ok pre ++ rest /\
    answered (login_reply forwarder identity) pre replies /\ lk_threshold l' = compression_after (lk_threshold l) pre /\
    match r with
    | Ok result => exists frame, rest = Ok frame :: lk_in l' /\ login_success frame = Some result /\
        lk_out l' = lk_out l ++ concat replies ++ [login_ack]
    | Err _ => lk_out l' = lk_out l ++ concat replies
    end.

Lemma login_outcome_err fwd idy l e l' :
  lk_out l' = lk_out l -> lk_threshold l' = lk_threshold l -> login_outcome fwd idy l (Err e) l'.
Proof. intros Ho Ht. exists [], [], (lk_in l). split; [done|]. split; [constructor|]. split; [done|]. by rewrite Ho, app_nil_r. Qed.

Lemma login_outcome_cons fwd idy l f o l1 r l' :
  lk_in l = Ok f :: lk_in l1 -> login_reply fwd idy f = Some o -> lk_out l1 = lk_out l ++ o ->
  lk_threshold l1 = compression_after (lk_threshold l) [f] -> login_outcome fwd idy l1 r l' -> login_outcome fwd idy l r l'.
Proof.
  intros Hi Hr Ho Ht (pre & replies & rest & Hi' & Ha & Ht' & Hres). exists (f :: pre), (o :: replies), rest. cbn [map app concat].
  rewrite Hi, Hi'. split; [done|]. split; [by constructor|]. split; [by rewrite Ht', Ht|]. rewrite Ho in Hres. rewrite <-!app_assoc in *.
  destruct r; [|exact Hres]. exact Hres.
Qed.

Lemma login_loop_inv json fuel : forall ctxErr fwd idy l r l',
  login_loop json fuel ctxErr fwd idy l = (r, l') -> login_outcome fwd idy l r l'.
Proof.
  induction fuel as [|fuel IH]; intros ctxErr fwd idy l r l'; cbn [login_loop];
    [by intros [= <- <-]; apply login_outcome_err|].
  destruct (link_ReadFrame l) as [[frame|err] l1] eqn:Hr; apply link_ReadFrame_inv in Hr as [(f & ? & Hi & Ho & _ & Ht)|(e & ? & Ho & Ht)];
    simplify_eq; [|by intros [= <- <-]; apply login_outcome_err].
  destruct (PacketID f) as [[id body]|] eqn:Hid; [|by intros [= <- <-]; apply login_outcome_err].
  destruct (Z.eqb_spec id ClientboundPluginRequestID) as [->|Hn1].
  { destruct (ParsePluginRequest f) as [req|] eqn:Hp; [|by intros [= <- <-]; apply login_outcome_err].
    destruct fwd as [fw|]; [|by intros [= <- <-]; apply login_outcome_err].
    case_bool_decide as Hc; cbn [negb]; [|by intros [= <- <-]; apply login_outcome_err].
    destruct (BuildResponse fw idy) as [resp|] eqn:Hb; [|by intros [= <- <-]; apply login_outcome_err].
    destruct (link_WriteFrame l1 _) as [[err|] l2] eqn:Hw; apply link_WriteFrame_out in Hw as (Ho2 & Hi2 & _ & Ht2 & _).
    - intros [= <- <-]. apply login_outcome_err; [by rewrite Ho2, Ho, app_nil_r|congruence].
    - intros Hl. apply IH in Hl. eapply (login_outcome_cons _ _ _ f); [by rewrite Hi2| |by rewrite Ho2, Ho| |exact Hl].
      2: { cbn. unfold announced. by rewrite Hid, Ht2. }
      unfold login_reply. rewrite Hid, Z.eqb_refl, Hp, bool_decide_true, Hb by done. done. }
  destruct (Z.eqb_spec id ClientboundLoginSuccessID) as [->|Hn2].
  { destruct (ReadUUID f) as [[uid name] [err|]] eqn:Hu; [by intros [= <- <-]; apply login_outcome_err|].
    destruct (link_WriteFrame l1 _) as [[err|] l2] eqn:Hw; apply link_WriteFrame_out in Hw as (Ho2 & Hi2 & _ & Ht2 & _).
    - intros [= <- <-]. apply login_outcome_err; [by rewrite Ho2, Ho, app_nil_r|congruence].
    - intros [= <- <-]. exists [], [], (lk_in l). split; [done|]. split; [constructor|]. split; [cbn; congruence|]. exists f.
      split_and!; [by rewrite Hi2| |by rewrite Ho2, Ho]. unfold login_success. by rewrite Hid, Z.eqb_refl, Hu. }
  destruct (id =? clientboundDisconnectID) eqn:E0; [by intros [= <- <-]; apply login_outcome_err|].
  destruct (id =? clientboundEncryptionRequestID) eqn:E1; [by intros [= <- <-]; apply login_outcome_err|].
  destruct (Z.eqb_spec id clientboundSetCompressionID) as [->|Hn3]; [|by intros [= <- <-]; apply login_outcome_err].
  destruct (ConsumeVarInt body) as [[th used]|] eqn:Hv; [|by intros [= <- <-]; apply login_outcome_err].
  destruct ((th <? 0) || _) eqn:Et; [by intros [= <- <-]; apply login_outcome_err|].
  destruct (link_EnableCompression l1 th) as [[err|] l2] eqn:Hc.
  - intros [= <- <-]. revert Hc. unfold link_EnableCompression.
    case_match; [done|]. intros; simplify_eq. by apply login_outcome_err.
  - intros Hl. apply IH in Hl.
    assert (lk_in l2 = lk_in l1 /\ lk_out l2 = lk_out l1 /\ lk_threshold l2 = Some th) as (Hi2 & Ho2 & Ht2).
    { revert Hc. unfold link_EnableCompression. case_match; [|done]. intros; by simplify_eq. }
    eapply (login_outcome_cons _ _ _ f); [by rewrite Hi2| |by rewrite Ho2, Ho, app_nil_r| |exact Hl].
    2: { cbn. unfold announced. by rewrite Hid, Z.eqb_refl, Hv. }
    unfold login_reply. rewrite Hid. cbn -[Z.ltb]. by rewrite Hv, Et.
Qed.

Lemma link_EnableCompression_inv l th e l' :
  link_EnableCompression l th = (e, l') ->
  lk_in l' = lk_in l /\ lk_out l' = lk_out l /\ lk_closed l' = lk_closed l /\ lk_room l' = lk_room l /\
  lk_maxPacketSize l' = lk_maxPacketSize l /\ (0 <= th -> e = None).
Proof.
  unfold link_EnableCompression, NewCompressionState. destruct (Z.ltb_spec th 0); intros; simplify_eq; split_and!; try done; lia.
Qed.

(** The fuel of [CompleteLogin] is enough: more changes nothing. *)
Lemma login_loop_fuel json n : forall m ctxErr fwd idy l,
  (length (lk_in l) < n)%nat -> (length (lk_in l) < m)%nat ->
  login_loop json n ctxErr fwd idy l = login_loop json m ctxErr fwd idy l.
Proof.
  induction n as [|n IH]; intros m ctxErr fwd idy l Hn Hm; [lia|]. destruct m as [|m]; [lia|]. cbn [login_loop].
  destruct (link_ReadFrame l) as [[frame|err] l1] eqn:Hr; [|done].
  apply link_ReadFrame_inv in Hr as [(f & ? & Hi & _)|(e & ? & _)]; simplify_eq.
  rewrite Hi in Hn, Hm. cbn in Hn, Hm.
  destruct (PacketID f) as [[id body]|]; [|done]. repeat (case_match; try done).
  - match goal with H : link_WriteFrame _ _ = _ |- _ => apply link_WriteFrame_out in H as (_ & Hi2 & _) end.
    apply IH; rewrite Hi2; lia.
  - match goal with H : link_EnableCompression _ _ = _ |- _ => apply link_EnableCompression_inv in H as (Hi2 & _) end.
    apply IH; rewrite Hi2; lia.
Qed.

Lemma login_loop_complete json ctxErr fwd idy frame result post pre : forall replies n l,
  lk_in l = map Ok pre ++ Ok frame :: post -> answered (login_reply fwd idy) pre replies ->
  login_success frame = Some result -> writable l ->
  Forall (frame_fits l) (concat replies ++ [login_ack]) -> (length pre < n)%nat ->
  exists l', login_loop json n ctxErr fwd idy l = (Ok result, l').
Proof.
  induction pre as [|f pre IH]; intros replies n l Hi Ha Hs Hw Hf Hn;
    inversion Ha as [|? o ? replies' Hr Ha']; subst; destruct n as [|n]; try lia; cbn [map app length concat] in Hi, Hn, Hf; cbn [login_loop];
    rewrite (link_ReadFrame_cons _ _ _ (proj1 Hw) Hi).
  - unfold login_success in Hs. destruct (PacketID frame) as [[id body]|]; [|done].
    destruct (Z.eqb_spec id ClientboundLoginSuccessID) as [->|]; [|done].
    change (ClientboundLoginSuccessID =? ClientboundPluginRequestID) with false. cbn iota.
    destruct (ReadUUID frame) as [[uid name] [|]]; [done|]. simplify_eq.
    apply Forall_cons in Hf as [Hf _].
    destruct (writable_WriteFrame (lk_set_in l post) _ Hw Hf) as (l' & E & _). unfold login_ack in E. rewrite E. by eexists.
  - unfold login_reply in Hr. destruct (PacketID f) as [[id body]|]; [|done].
    destruct (Z.eqb_spec id ClientboundPluginRequestID) as [->|Hn1].
    + destruct (ParsePluginRequest f) as [req|]; [|done]. destruct fwd as [fw|]; [|done].
      case_bool_decide; [|done]. cbn [negb]. destruct (BuildResponse fw idy) as [resp|]; [|done]. simplify_eq.
      cbn [concat app] in Hf. apply Forall_cons in Hf as [Hf1 Hf2].
      destruct (writable_WriteFrame (lk_set_in l (map Ok pre ++ Ok frame :: post)) _ Hw Hf1) as (l' & E & Hw' & Hi' & Hm').
      rewrite E. eapply IH; [by rewrite Hi'|done|done|done| |lia].
      eapply Forall_impl; [exact Hf2|]. intros p. unfold frame_fits. by rewrite Hm'.
    + destruct (Z.eqb_spec id clientboundSetCompressionID) as [->|]; [|done].
      destruct (ConsumeVarInt body) as [[th used]|]; [|done].
      destruct ((th <? 0) || _) eqn:Et; [done|]. simplify_eq.
      change (clientboundSetCompressionID =? ClientboundPluginRequestID) with false.
      change (clientboundSetCompressionID =? ClientboundLoginSuccessID) with false.
      change (clientboundSetCompressionID =? clientboundDisconnectID) with false.
      change (clientboundSetCompressionID =? clientboundEncryptionRequestID) with false.
      change (clientboundSetCompressionID =? clientboundSetCompressionID) with true. cbn iota.
      cbn [concat app] in Hf.
      destruct (link_EnableCompression _ th) as [e l'] eqn:Ec.
      apply link_EnableCompression_inv in Ec as (Hi' & _ & Hc' & Hr' & Hm' & He). bool_facts.
      rewrite He by lia. eapply IH; [by rewrite Hi'|done|done| | |lia].
      * destruct Hw as [Hw1 Hw2]. split; [by rewrite Hc'|by rewrite Hr'].
      * eapply Forall_impl; [exact Hf|]. intros p. unfold frame_fits. by rewrite Hm'.
Qed.

(** ** Specification of the configuration dialogue *)

(** The frames written in answer to a frame that does not end the dialogue, and
    those kept for the client. *)
Definition configuration_reply (frame : list byte) : option (list (list byte) * list (list byte)) :=
  match PacketID frame with
  | Err _ => None
  | Ok (id, body) =>
    if id =? ClientboundFinishConfigurationID then None
    else if id =? ClientboundKeepAliveID then
      if blen body =? 8 then Some ([AppendVarInt [] ServerboundKeepAliveID ++ body], []) else None
    else if id =? ClientboundPingID then
      if blen body =? 4 then Some ([AppendVarInt [] ServerboundPongID ++ body], []) else None
    else if id =? ClientboundDisconnectID then None
    else Some ([], [frame])
  end.

Definition configuration_finish (frame : list byte) : bool :=
  match PacketID frame with
  | Ok (id, body) => (id =? ClientboundFinishConfigurationID) && (blen body =? 0)
  | Err _ => false
  end.

Definition total_bytes (ps : list (list byte)) : Z := foldr (fun p acc => blen p + acc) 0 ps.

Definition within (maxPackets maxBytes : Z) (ps : list (list byte)) : Prop :=
  blen ps <= maxPackets /\ total_bytes ps <= maxBytes.

Definition configuration_outcome (maxPackets maxBytes : Z) (kept : list (list byte))
    (l : link) (r : res (list (list byte))) (l' : link) : Prop :=
  exists pre replies rest, lk_in l = map Ok pre ++ rest /\ answered configuration_reply pre replies /\
    within maxPackets maxBytes (kept ++ concat (snd <$> replies)) /\
    match r with
    | Ok packets => packets = kept ++ concat (snd <$> replies) /\
        exists frame, rest = Ok frame :: lk_in l' /\ configuration_finish frame = true /\
          lk_out l' = lk_out l ++ concat (fst <$> replies) ++ [FinishAcknowledgedPayload]
    | Err _ => lk_out l' = lk_out l ++ concat (fst <$> replies)
    end.

(** ** Lemmas: configuration *)

Lemma total_bytes_app a b : total_bytes (a ++ b) = total_bytes a + total_bytes b.
Proof. unfold total_bytes. induction a as [|p a IH]; [done|]. cbn [app foldr]. rewrite IH. lia. Qed.

Lemma configuration_outcome_err mp mb kept l e l' :
  within mp mb kept -> lk_out l' = lk_out l -> configuration_outcome mp mb kept l (Err e) l'.
Proof.
  intros Hk Ho. exists [], [], (lk_in l). split; [done|]. split; [constructor|]. cbn.
  by rewrite Ho, !app_nil_r.
Qed.

Lemma configuration_outcome_cons mp mb kept l f o k l1 r l' :
  lk_in l = Ok f :: lk_in l1 -> configuration_reply f = Some (o, k) -> lk_out l1 = lk_out l ++ o ->
  configuration_outcome mp mb (kept ++ k) l1 r l' -> configuration_outcome mp mb kept l r l'.
Proof.
  intros Hi Hr Ho (pre & replies & rest & Hi' & Ha & Hk & Hres).
  exists (f :: pre), ((o, k) :: replies), rest. cbn [map fmap list_fmap concat fst snd app].
  rewrite Hi, Hi'. rewrite Ho in Hres. rewrite <-!app_assoc in *.
  split; [done|]. split; [by constructor|]. split; [done|]. exact Hres.
Qed.

Lemma configuration_loop_inv fuel : forall ctxErr mp mb kept l r l',
  within mp mb kept -> configuration_loop fuel ctxErr mp mb kept (total_bytes kept) l = (r, l') ->
  configuration_outcome mp mb kept l r l'.
Proof.
  induction fuel as [|fuel IH]; intros ctxErr mp mb kept l r l' Hk; cbn [configuration_loop];
    [by intros [= <- <-]; apply configuration_outcome_err|].
  destruct (link_ReadFrame l) as [[frame|er] l1] eqn:Hr; apply link_ReadFrame_inv in Hr as [(f & ? & Hi & Ho & _)|(e & ? & Ho & _)];
    simplify_eq; [|by intros [= <- <-]; apply configuration_outcome_err].
  destruct (PacketID f) as [[id body]|] eqn:Hid; [|by intros [= <- <-]; apply configuration_outcome_err].
  destruct (id =? ClientboundFinishConfigurationID) eqn:E1.
  { destruct (blen body =? 0) eqn:Eb; cbn [negb]; [|by intros [= <- <-]; apply configuration_outcome_err].
    destruct (link_WriteFrame l1 _) as [[er|] l2] eqn:Hw; apply link_WriteFrame_out in Hw as (Ho2 & Hi2 & _); intros [= <- <-].
    - apply configuration_outcome_err; [done|]. by rewrite Ho2, Ho, app_nil_r.
    - exists [], [], (lk_in l). split; [done|]. split; [constructor|]. cbn [fmap list_fmap concat]. rewrite app_nil_r.
      split; [done|]. split; [done|]. exists f. split_and!; [by rewrite Hi2| |by rewrite Ho2, Ho]. unfold configuration_finish. by rewrite Hid, E1, Eb. }
  destruct (id =? ClientboundKeepAliveID) eqn:E2.
  { destruct (blen body =? 8) eqn:Eb; cbn [negb]; [|by intros [= <- <-]; apply configuration_outcome_err].
    destruct (link_WriteFrame l1 _) as [[er|] l2] eqn:Hw; apply link_WriteFrame_out in Hw as (Ho2 & Hi2 & _).
    - intros [= <- <-]. apply configuration_outcome_err; [done|]. by rewrite Ho2, Ho, app_nil_r.
    - intros Hl. apply IH in Hl; [|done].
      eapply (configuration_outcome_cons _ _ _ _ f _ []); [by rewrite Hi2| |by rewrite Ho2, Ho|by rewrite app_nil_r].
      unfold configuration_reply. by rewrite Hid, E1, E2, Eb. }
  destruct (id =? ClientboundPingID) eqn:E3.
  { destruct (blen body =? 4) eqn:Eb; cbn [negb]; [|by intros [= <- <-]; apply configuration_outcome_err].
    destruct (link_WriteFrame l1 _) as [[er|] l2] eqn:Hw; apply link_WriteFrame_out in Hw as (Ho2 & Hi2 & _).
    - intros [= <- <-]. apply configuration_outcome_err; [done|]. by rewrite Ho2, Ho, app_nil_r.
    - intros Hl. apply IH in Hl; [|done].
      eapply (configuration_outcome_cons _ _ _ _ f _ []); [by rewrite Hi2| |by rewrite Ho2, Ho|by rewrite app_nil_r].
      unfold configuration_reply. by rewrite Hid, E1, E2, E3, Eb. }
  destruct (id =? ClientboundDisconnectID) eqn:E4; [by intros [= <- <-]; apply configuration_outcome_err|].
  destruct ((mp <=? blen kept) || _) eqn:E5; [by intros [= <- <-]; apply configuration_outcome_err|].
  apply orb_false_iff in E5 as [E5 E6]. apply Z.leb_gt in E5. apply Z.ltb_ge in E6.
  replace (total_bytes kept + blen f) with (total_bytes (kept ++ [f])) by (rewrite total_bytes_app; cbn; lia).
  intros Hl. apply IH in Hl.
  - eapply (configuration_outcome_cons _ _ _ _ f [] [f]); [done| |by rewrite Ho, app_nil_r|exact Hl].
    unfold configuration_reply. by rewrite Hid, E1, E2, E3, E4.
  - split; [len|]. rewrite total_bytes_app. cbn. lia.
Qed.

Lemma total_bytes_nonneg ps : 0 <= total_bytes ps.
Proof. unfold total_bytes. induction ps as [|p ps IH]; [done|]. cbn [foldr]. pose proof (blen_nonneg p). lia. Qed.

Lemma configuration_loop_fuel n : forall m ctxErr mp mb kept bytes l,
  (length (lk_in l) < n)%nat -> (length (lk_in l) < m)%nat ->
  configuration_loop n ctxErr mp mb kept bytes l = configuration_loop m ctxErr mp mb kept bytes l.
Proof.
  induction n as [|n IH]; intros m ctxErr mp mb kept bytes l Hn Hm; [lia|]. destruct m as [|m]; [lia|].
  cbn [configuration_loop]. destruct (link_ReadFrame l) as [[frame|er] l1] eqn:Hr; [|done].
  apply link_ReadFrame_inv in Hr as [(f & ? & Hi & _)|(e & ? & _)]; simplify_eq.
  rewrite Hi in Hn, Hm. cbn in Hn, Hm.
  destruct (PacketID f) as [[id body]|]; [|done]. repeat (case_match; try done);
    try (apply IH; lia);
    match goal with H : link_WriteFrame _ _ = _ |- _ => apply link_WriteFrame_out in H as (_ & Hi2 & _) end;
    apply IH; rewrite Hi2; lia.
Qed.

Lemma configuration_loop_complete ctxErr mp mb frame post pre : forall replies kept n l,
  lk_in l = map Ok pre ++ Ok frame :: post -> answered configuration_reply pre replies ->
  configuration_finish frame = true -> writable l ->
  Forall (frame_fits l) (concat (fst <$> replies) ++ [FinishAcknowledgedPayload]) ->
  within mp mb (kept ++ concat (snd <$> replies)) -> (length pre < n)%nat ->
  exists l', configuration_loop n ctxErr mp mb kept (total_bytes kept) l =
    (Ok (kept ++ concat (snd <$> replies)), l').
Proof.
  induction pre as [|f pre IH]; intros replies kept n l Hi Ha Hs Hw Hf Hk Hn;
    inversion Ha as [|? [o k] ? replies' Hr Ha']; subst; destruct n as [|n]; try lia;
    cbn [map app length fmap list_fmap concat fst snd] in *; cbn [configuration_loop];
    rewrite (link_ReadFrame_cons _ _ _ (proj1 Hw) Hi).
  - unfold configuration_finish in Hs. destruct (PacketID frame) as [[id body]|]; [|done].
    apply andb_true_iff in Hs as [-> ->]. cbn [negb]. apply Forall_cons in Hf as [Hf _].
    destruct (writable_WriteFrame (lk_set_in l post) _ Hw Hf) as (l' & E & _). rewrite E, app_nil_r. by eexists.
  - unfold configuration_reply in Hr. destruct (PacketID f) as [[id body]|]; [|done].
    set (l1 := lk_set_in l (map Ok pre ++ Ok frame :: post)) in *.
    assert (Hcont : forall l', writable l' -> lk_in l' = lk_in l1 -> lk_maxPacketSize l' = lk_maxPacketSize l ->
      Forall (frame_fits l) (concat (fst <$> replies') ++ [FinishAcknowledgedPayload]) ->
      exists l'', configuration_loop n ctxErr mp mb (kept ++ k) (total_bytes (kept ++ k)) l' =
        (Ok (kept ++ k ++ concat (snd <$> replies')), l'')).
    { intros l' Hw' Hi' Hm' Hf'. rewrite !app_assoc. rewrite app_assoc in Hk. eapply IH; try done; [|lia].
      eapply Forall_impl; [exact Hf'|]. intros p. unfold frame_fits. by rewrite Hm'. }
    destruct (id =? ClientboundFinishConfigurationID); [done|].
    destruct (id =? ClientboundKeepAliveID); [|destruct (id =? ClientboundPingID)];
      [destruct (blen body =? 8); [|done]|destruct (blen body =? 4); [|done]|]; simplify_eq; cbn [negb].
    + rewrite <-app_assoc in Hf. apply Forall_app in Hf as [Hf1 Hf2]. apply Forall_cons in Hf1 as [Hf1 _].
      destruct (writable_WriteFrame l1 _ Hw Hf1) as (l' & E & Hw' & Hi' & Hm').
      rewrite E. rewrite app_nil_r in Hcont. by apply Hcont.
    + rewrite <-app_assoc in Hf. apply Forall_app in Hf as [Hf1 Hf2]. apply Forall_cons in Hf1 as [Hf1 _].
      destruct (writable_WriteFrame l1 _ Hw Hf1) as (l' & E & Hw' & Hi' & Hm').
      rewrite E. rewrite app_nil_r in Hcont. by apply Hcont.
    + destruct (id =? ClientboundDisconnectID); [done|]. simplify_eq.
      destruct Hk as [Hk1 Hk2]. rewrite !total_bytes_app in Hk2. rewrite !blen_app in Hk1.
      pose proof (blen_nonneg (concat (snd <$> replies'))). pose proof (total_bytes_nonneg (concat (snd <$> replies'))).
      change (blen [f]) with 1 in Hk1. assert (total_bytes [f] = blen f) by (unfold total_bytes; cbn; lia).
      rewrite (proj2 (Z.leb_gt _ _)), (proj2 (Z.ltb_ge _ _)) by lia. cbn [orb].
      replace (total_bytes kept + blen f) with (total_bytes (kept ++ [f])) by (rewrite total_bytes_app; lia).
      by apply Hcont.
Qed.

(** ** Properties *)

(** C28: the backend login dialogue. Whatever the backend sends and whenever a
    write fails, [CompleteLogin] writes exactly one signed identity answer per
    velocity:player_info request, in order; a compression announcement is answered
    with nothing and puts its threshold into effect, so the connection is left with
    the threshold announced last; it succeeds only on a well-formed Login Success, after
    acknowledging it, and leaves everything after that frame unread; any other
    packet ends it with an error and without an acknowledgement. Conversely, on a
    connection that accepts the answers, such a sequence of frames does lead to
    success. *)
Theorem backend_login_dialogue json ctxErr l fwd idy r l' :
  CompleteLogin json ctxErr l fwd idy = (r, l') ->
  (exists pre replies rest, lk_in l = map Ok pre ++ rest /\ answered (login_reply fwd idy) pre replies /\
    lk_threshold l' = compression_after (lk_threshold l) pre /\
    match r with
    | Ok result => exists frame, rest = Ok frame :: lk_in l' /\ login_success frame = Some result /\
        lk_out l' = lk_out l ++ concat replies ++ [login_ack]
    | Err _ => lk_out l' = lk_out l ++ concat replies
    end) /\
  (forall pre replies frame post result,
    lk_in l = map Ok pre ++ Ok frame :: post -> answered (login_reply fwd idy) pre replies ->
    login_success frame = Some result -> writable l -> Forall (frame_fits l) (concat replies ++ [login_ack]) ->
    r = Ok result).
Proof.
  unfold CompleteLogin. intros Hl. split; [by eapply login_loop_inv|].
  intros pre replies frame post result Hi Ha Hs Hw Hf.
  destruct (login_loop_complete json ctxErr fwd idy frame result post pre replies (S (length (lk_in l))) l)
    as [l'' E]; try done.
  - rewrite Hi, length_app, length_map. cbn. lia.
  - rewrite E in Hl. by simplify_eq.
Qed.

Definition demo_identity : PlayerIdentity := mkIdentity (str "203.0.113.9") (replicate 16 x07) (str "Steve") [].
Definition demo_forwarder : ModernForwarding := mkModernForwarding (str "secret").
Definition demo_backend (ins : list (list byte)) : link :=
  mkLink (Ok <$> ins) os_ErrDeadlineExceeded [] None net_ErrClosed false None 0.
Definition demo_login_frames : list (list byte) :=
  [varint 3 ++ varint 256; varint 4 ++ varint 9 ++ mcstring VelocityChannel ++ [x01];
   SuccessProfilePayload (replicate 16 x07) (str "Steve") []].

Definition demo_login_replies : list (list (list byte)) :=
  Eval vm_compute in
    [[]; [PluginResponsePayload 9 (match BuildResponse demo_forwarder demo_identity with Ok r => Some r | _ => None end)]].

Lemma backend_login_dialogue_witness :
  fst (CompleteLogin (fun _ => None) None (demo_backend demo_login_frames) (Some demo_forwarder) demo_identity) =
  Ok (mkLoginResult (replicate 16 x07) (str "Steve")).
Proof.
  destruct (CompleteLogin (fun _ => None) None (demo_backend demo_login_frames) (Some demo_forwarder) demo_identity)
    as [r l'] eqn:E.
  apply backend_login_dialogue in E as [_ Hc]. cbn [fst].
  apply (Hc (take 2 demo_login_frames) demo_login_replies (SuccessProfilePayload (replicate 16 x07) (str "Steve") []) []).
  - vm_compute. reflexivity.
  - do 2 (apply List.Forall2_cons; [vm_compute; reflexivity|]). apply List.Forall2_nil.
  - vm_compute. reflexivity.
  - split; reflexivity.
  - apply (bool_decide_unpack _). vm_compute. exact I.
Defined.

(** C29: the backend configuration dialogue. Keep-alives and pings are answered with
    their own payload, in order; every other frame is kept for the client, in
    order and unchanged, within the packet and byte limits; only an empty Finish
    Configuration, which is acknowledged, completes it. Conversely a dialogue of
    such frames within the limits completes, and the kept frames are the
    result. *)
Theorem backend_configuration_dialogue ctxErr l config r l' :
  CompleteConfiguration ctxErr l config = (r, l') ->
  (exists pre replies rest, lk_in l = map Ok pre ++ rest /\ answered configuration_reply pre replies /\
    within (effective_MaxPackets config) (effective_MaxBytes config) (concat (snd <$> replies)) /\
    match r with
    | Ok packets => packets = concat (snd <$> replies) /\
        exists frame, rest = Ok frame :: lk_in l' /\ configuration_finish frame = true /\
          lk_out l' = lk_out l ++ concat (fst <$> replies) ++ [FinishAcknowledgedPayload]
    | Err _ => lk_out l' = lk_out l ++ concat (fst <$> replies)
    end) /\
  (forall pre replies frame post,
    lk_in l = map Ok pre ++ Ok frame :: post -> answered configuration_reply pre replies ->
    configuration_finish frame = true -> writable l ->
    Forall (frame_fits l) (concat (fst <$> replies) ++ [FinishAcknowledgedPayload]) ->
    within (effective_MaxPackets config) (effective_MaxBytes config) (concat (snd <$> replies)) ->
    r = Ok (concat (snd <$> replies))).
Proof.
  unfold CompleteConfiguration. intros Hl. split.
  - apply (configuration_loop_inv _ ctxErr _ _ []) in Hl; [exact Hl|].
    unfold within, effective_MaxPackets, effective_MaxBytes. change (total_bytes []) with 0.
    change (blen (@nil (list byte))) with 0. change (Z.shiftl 8 20) with 8388608. split; case_match; bool_facts; lia.
  - intros pre replies frame post Hi Ha Hs Hw Hf Hk.
    destruct (configuration_loop_complete ctxErr (effective_MaxPackets config) (effective_MaxBytes config) frame post
      pre replies [] (S (length (lk_in l))) l) as [l'' E]; try done.
    + rewrite Hi, length_app, length_map. cbn. lia.
    + change (total_bytes []) with 0 in E. rewrite E in Hl. by simplify_eq.
Qed.

Lemma backend_configuration_dialogue_witness :
  fst (CompleteConfiguration None
         (demo_backend [varint 5 ++ [x0a; x00]; varint 4 ++ [x00; x00; x00; x01]; varint 2]) (mkConfigurationConfig 0 0 0)) =
  Ok [varint 5 ++ [x0a; x00]].
Proof.
  destruct (CompleteConfiguration None
    (demo_backend [varint 5 ++ [x0a; x00]; varint 4 ++ [x00; x00; x00; x01]; varint 2]) (mkConfigurationConfig 0 0 0)) as [r l'] eqn:E.
  apply (proj2 (backend_configuration_dialogue _ _ _ _ _ E) [varint 5 ++ [x0a; x00]; varint 4 ++ [x00; x00; x00; x01]]
    [([], [varint 5 ++ [x0a; x00]]); ([varint 4 ++ [x00; x00; x00; x01]], [])] (varint 2) []);
    [reflexivity| |reflexivity|done| |].
  - repeat constructor.
  - repeat constructor; vm_compute; congruence.
  - split; vm_compute; congruence.
Defined.

(** opening a backend connection. A successful dial has written exactly a
    handshake for login and a Login Start that the backend parses back to the
    configured host and port and to the player's name and UUID, and does not touch
    the health; every failure marks the backend unhealthy with that error. *)
Theorem dial_announces_player foreign d now dial username uid r d' dropped :
  Dial foreign d now dial username uid = (r, d', dropped) ->
  string_fits 255 (cf_Host (dl_config d)) = true -> in_uint16 (cf_Port (dl_config d)) ->
  validUsername username = true -> length uid = 16%nat ->
  match r with
  | Ok t => d' = d /\ dropped = None /\ exists t0 h s, dial = Ok t0 /\ lk_out t = lk_out t0 ++ [h; s] /\
      Parse h = Ok (mkPacket ProtocolVersion (cf_Host (dl_config d)) (cf_Port (dl_config d)) NextLogin) /\
      ParseStart s = Ok (mkStart username uid)
  | Err e => hl_State (dl_health d') = HealthUnhealthy /\ hl_LastError (dl_health d') = Error foreign e /\
      (forall l, dropped = Some l -> lk_closed l = true)
  end.
Proof.
  intros Hd Hh Hp Hu Hl.
  assert (Hset : forall h st e, hl_State (health_set foreign h now st (Some e)) = st /\
    hl_LastError (health_set foreign h now st (Some e)) = Error foreign e).
  { intros h st e. unfold health_set. case_match eqn:E; [|done]. by bool_facts. }
  revert Hd. unfold Dial. case_bool_decide; [intros [= <- <- <-]; split_and!; try apply Hset; done|].
  destruct dial as [t0|e]; [|intros [= <- <- <-]; split_and!; try apply Hset; done].
  set (h := Payload _). set (s := StartPayload username uid).
  destruct (link_WriteFrame t0 h) as [[e|] t1] eqn:E1; [intros [= <- <- <-]; split_and!; try apply Hset; by intros l [= <-]|].
  destruct (link_WriteFrame t1 s) as [[e|] t2] eqn:E2; [intros [= <- <- <-]; split_and!; try apply Hset; by intros l [= <-]|].
  apply link_WriteFrame_out in E1 as (Ho1 & _), E2 as (Ho2 & _). intros [= <- <- <-].
  split; [done|]. split; [done|]. exists t0, h, s. rewrite Ho2, Ho1, <-app_assoc. split; [done|]. split; [done|]. split.
  - apply Parse_wire; [|apply Payload_wire]; (split_and!; cbn; [unfold in_int32; vm_compute; intuition congruence|done|done|by right]).
  - apply ParseStart_iff. split; [done|]. exists (mcstring username). unfold s, StartPayload. wire_norm.
    split; [by apply enc_packet_varint|]. by apply enc_string_mcstring, validUsername_fits.
Qed.

Lemma dial_announces_player_witness :
  let d := NewDialer (mkConfig (str "10.0.0.2:25565") (str "lobby") 25565 0 0) in
  match Dial (fun _ => EmptyString) d 5 (Ok (demo_backend [])) (str "Steve") (replicate 16 x07) with
  | (Ok t, d', dropped) => d' = d /\ dropped = None /\ exists t0 h s, Ok (demo_backend []) = Ok t0 /\ lk_out t = lk_out t0 ++ [h; s] /\
      Parse h = Ok (mkPacket ProtocolVersion (str "lobby") 25565 NextLogin) /\
      ParseStart s = Ok (mkStart (str "Steve") (replicate 16 x07))
  | (Err e, d', dropped) => hl_State (dl_health d') = HealthUnhealthy /\ hl_LastError (dl_health d') = Error (fun _ => EmptyString) e /\
      (forall l, dropped = Some l -> lk_closed l = true)
  end.
Proof.
  cbn zeta. destruct (Dial _ _ _ _ _ _) as [[r d'] dropped] eqn:E.
  apply (dial_announces_player _ _ _ _ _ _ _ _ _ E); [reflexivity|unfold in_uint16; cbn; lia|reflexivity|reflexivity].
Defined.
