(* ===== verification/Bridge.v ===== *)
(** * The play bridge (internal/bridge/play.go)

    [RunPlay] joins two frame streams. The two reader goroutines deliver each
    stream in order; the select of the main loop makes any interleaving of them
    one sequence of events, which is what [bridge_run] consumes. The links here
    are the write sides. The goroutines themselves are in PlayStreams.v. *)

From S2P Require Import Prelude GoIO Varint Utf8 McString Frame Wire Nbt Play Link.

Inductive bridge_event : Type :=
| FromBackend (frame : res (list byte))
| FromClient (frame : res (list byte))
| ContextDone (err : error).

Record bridge_state := mkBridge {
  pendingKeepAlives : gset Z;
  br_client : link;
  br_backend : link
}.

Definition effective_MaxPending (maxPendingKeepAlives : Z) : Z :=
  if maxPendingKeepAlives <=? 0 then 16 else maxPendingKeepAlives.

(** One round of the loop: the error [RunPlay] returns, or the next state.
    [ctxErr] is the context's error at that moment. *)
Definition bridge_step (maxPending : Z) (ctxErr : option error) (st : bridge_state) (ev : bridge_event)
    : option error * bridge_state :=
  match ev with
  | ContextDone err => (Some err, st)
  | FromBackend (Err err) =>
    (Some (match ctxErr with Some e => e | None => ErrWrap "read backend play packet" err end), st)
  | FromBackend (Ok payload) =>
    match PacketID payload with
    | Err err => (Some err, st)
    | Ok (id, body) =>
      if (id =? ClientboundKeepAliveID) &&
         (negb (blen body =? 8) || (maxPending <=? Z.of_nat (size (pendingKeepAlives st))))
      then (Some ErrKeepAliveLimit, st)
      else
        let pending := if id =? ClientboundKeepAliveID then {[int64 (be_val body)]} ∪ pendingKeepAlives st
                       else pendingKeepAlives st in
        match link_WriteFrame (br_client st) payload with
        | (Some err, c) => (Some (ErrWrap "write client play packet" err), mkBridge pending c (br_backend st))
        | (None, c) => (None, mkBridge pending c (br_backend st))
        end
    end
  | FromClient (Err err) =>
    (Some (match ctxErr with Some e => e | None => ErrWrap "read client play packet" err end), st)
  | FromClient (Ok payload) =>
    match PacketID payload with
    | Err err => (Some err, st)
    | Ok (id, _) =>
      let forward pending :=
        match link_WriteFrame (br_backend st) payload with
        | (Some err, b) => (Some (ErrWrap "write backend play packet" err), mkBridge pending (br_client st) b)
        | (None, b) => (None, mkBridge pending (br_client st) b)
        end in
      if id =? ServerboundKeepAliveID then
        match ParseKeepAlive payload with
        | Err err => (Some err, st)
        | Ok keepAliveID =>
          if bool_decide (keepAliveID ∉ pendingKeepAlives st) then (Some ErrUnexpectedBackendKeepAlive, st)
          else forward (pendingKeepAlives st ∖ {[keepAliveID]})
        end
      else forward (pendingKeepAlives st)
    end
  end.

(** The loop over a sequence of events: [None] while the bridge is running. *)
Fixpoint bridge_run (maxPending : Z) (ctxErr : option error) (st : bridge_state) (evs : list bridge_event)
    : option error * bridge_state :=
  match evs with
  | [] => (None, st)
  | ev :: evs' =>
    match bridge_step maxPending ctxErr st ev with
    | (Some err, st') => (Some err, st')
    | (None, st') => bridge_run maxPending ctxErr st' evs'
    end
  end.

Definition RunPlay (maxPendingKeepAlives : Z) (ctxErr : option error) (client backend : link)
    (evs : list bridge_event) : option error * bridge_state :=
  bridge_run (effective_MaxPending maxPendingKeepAlives) ctxErr (mkBridge ∅ client backend) evs.

(** ** Specification *)

Definition to_client (evs : list bridge_event) : list (list byte) :=
  omap (fun ev => match ev with FromBackend (Ok p) => Some p | _ => None end) evs.
Definition to_backend (evs : list bridge_event) : list (list byte) :=
  omap (fun ev => match ev with FromClient (Ok p) => Some p | _ => None end) evs.

(** The keep-alive a backend frame asks for, the one a client frame answers. *)
Definition asks (payload : list byte) : option Z :=
  match PacketID payload with
  | Ok (id, body) => if (id =? ClientboundKeepAliveID) && (blen body =? 8) then Some (int64 (be_val body)) else None
  | Err _ => None
  end.
Definition answers (payload : list byte) : option Z :=
  match ParseKeepAlive payload with Ok v => Some v | Err _ => None end.

(** The keep-alives asked and not yet answered. *)
Definition outstanding1 (out : gset Z) (ev : bridge_event) : gset Z :=
  match ev with
  | FromBackend (Ok p) => match asks p with Some v => {[v]} ∪ out | None => out end
  | FromClient (Ok p) => match answers p with Some v => out ∖ {[v]} | None => out end
  | _ => out
  end.
Definition outstanding (evs : list bridge_event) : gset Z := foldl outstanding1 ∅ evs.

(** An event the bridge passes on when [out] is outstanding. *)
Definition passes (maxPending : Z) (out : gset Z) (ev : bridge_event) : Prop :=
  match ev with
  | FromBackend (Ok p) => is_ok (PacketID p) = true /\
      (forall body, PacketID p = Ok (ClientboundKeepAliveID, body) ->
        blen body = 8 /\ Z.of_nat (size out) < maxPending)
  | FromClient (Ok p) => is_ok (PacketID p) = true /\
      (forall body, PacketID p = Ok (ServerboundKeepAliveID, body) ->
        exists v, answers p = Some v /\ v ∈ out)
  | _ => False
  end.

Fixpoint all_pass (maxPending : Z) (out : gset Z) (evs : list bridge_event) : Prop :=
  match evs with
  | [] => True
  | ev :: evs' => passes maxPending out ev /\ all_pass maxPending (outstanding1 out ev) evs'
  end.

(** ** Lemmas *)

Lemma answers_Some p v : answers p = Some v -> exists body, PacketID p = Ok (ServerboundKeepAliveID, body).
Proof.
  unfold answers, ParseKeepAlive. destruct (PacketID p) as [[id body]|]; [|done].
  destruct (Z.eqb_spec id ServerboundKeepAliveID) as [->|]; [|done]. by eexists.
Qed.

Lemma bridge_step_None mp ctxErr st ev st' :
  bridge_step mp ctxErr st ev = (None, st') ->
  passes mp (pendingKeepAlives st) ev /\ pendingKeepAlives st' = outstanding1 (pendingKeepAlives st) ev /\
  lk_out (br_client st') = lk_out (br_client st) ++ to_client [ev] /\
  lk_out (br_backend st') = lk_out (br_backend st) ++ to_backend [ev].
Proof.
  destruct ev as [[p|e]|[p|e]|e]; cbn [bridge_step]; try done.
  - destruct (PacketID p) as [[id body]|] eqn:Hid; [|done].
    destruct ((id =? ClientboundKeepAliveID) && _) eqn:Ec; [done|].
    destruct (link_WriteFrame (br_client st) p) as [[e|] c] eqn:Hw; [done|]. intros [= <-].
    apply link_WriteFrame_out in Hw as (Ho & _). cbn. rewrite Ho, app_nil_r. unfold asks. rewrite Hid.
    destruct (Z.eqb_spec id ClientboundKeepAliveID) as [->|Hn]; cbn [andb] in Ec |- *.
    + bool_facts. rewrite (proj2 (Z.eqb_eq _ _)) by done. split_and!; try done.
      intros b [= ->]. split; [done|lia].
    + split_and!; try done. intros b [= -> _]. done.
  - destruct (PacketID p) as [[id body]|] eqn:Hid; [|done].
    assert (Hans : id <> ServerboundKeepAliveID -> answers p = None).
    { intros Hn. destruct (answers p) eqn:Ea; [|done]. apply answers_Some in Ea as [b Ha]. congruence. }
    destruct (Z.eqb_spec id ServerboundKeepAliveID) as [->|Hn].
    + destruct (ParseKeepAlive p) as [v|] eqn:Hp; [|done]. case_bool_decide as Hv; [done|].
      destruct (link_WriteFrame (br_backend st) p) as [[e|] b] eqn:Hw; [done|]. intros [= <-].
      apply link_WriteFrame_out in Hw as (Ho & _). cbn. rewrite Ho, app_nil_r. unfold answers. rewrite Hp, Hid.
      split_and!; try done. intros b' _. exists v. split; [done|]. by destruct (decide (v ∈ pendingKeepAlives st)).
    + destruct (link_WriteFrame (br_backend st) p) as [[e|] b] eqn:Hw; [done|]. intros [= <-].
      apply link_WriteFrame_out in Hw as (Ho & _). cbn. rewrite Ho, app_nil_r, (Hans Hn), Hid.
      split_and!; try done. intros b' [= -> _]. done.
Qed.

Lemma bridge_step_Some mp ctxErr st ev e st' :
  bridge_step mp ctxErr st ev = (Some e, st') ->
  lk_out (br_client st') = lk_out (br_client st) /\ lk_out (br_backend st') = lk_out (br_backend st).
Proof.
  destruct ev as [[p|er]|[p|er]|er]; cbn [bridge_step]; repeat case_match; intros; simplify_eq; try done;
    match goal with H : link_WriteFrame _ _ = _ |- _ => apply link_WriteFrame_out in H as (Ho & _); cbn; by rewrite Ho, app_nil_r end.
Qed.

Lemma to_client_cons ev evs : to_client (ev :: evs) = to_client [ev] ++ to_client evs.
Proof. unfold to_client. by rewrite <-(omap_app _ [ev] evs). Qed.
Lemma to_backend_cons ev evs : to_backend (ev :: evs) = to_backend [ev] ++ to_backend evs.
Proof. unfold to_backend. by rewrite <-(omap_app _ [ev] evs). Qed.

Lemma bridge_run_prefix mp ctxErr evs : forall st r st',
  bridge_run mp ctxErr st evs = (r, st') ->
  exists done_ rest, evs = done_ ++ rest /\ all_pass mp (pendingKeepAlives st) done_ /\
    lk_out (br_client st') = lk_out (br_client st) ++ to_client done_ /\
    lk_out (br_backend st') = lk_out (br_backend st) ++ to_backend done_ /\
    (r = None -> rest = [] /\ pendingKeepAlives st' = foldl outstanding1 (pendingKeepAlives st) done_).
Proof.
  induction evs as [|ev evs IH]; intros st r st'; cbn [bridge_run].
  - intros; simplify_eq. exists [], []. cbn. rewrite !app_nil_r. done.
  - destruct (bridge_step mp ctxErr st ev) as [[e|] st1] eqn:Es.
    + intros; simplify_eq. apply bridge_step_Some in Es as [Hc Hb]. exists [], (ev :: evs). cbn.
      rewrite Hc, Hb, !app_nil_r. done.
    + apply bridge_step_None in Es as (Hp & Hk & Hc & Hb). intros Hr. apply IH in Hr as (d & rest & -> & Ha & Hc' & Hb' & Hn).
      exists (ev :: d), rest. rewrite to_client_cons, to_backend_cons, !app_assoc, <-Hc, <-Hb. cbn. rewrite <-Hk.
      split_and!; try done.
Qed.

Lemma bridge_step_complete mp ctxErr st ev :
  passes mp (pendingKeepAlives st) ev ->
  writable (br_client st) -> writable (br_backend st) ->
  Forall (frame_fits (br_client st)) (to_client [ev]) -> Forall (frame_fits (br_backend st)) (to_backend [ev]) ->
  exists st', bridge_step mp ctxErr st ev = (None, st') /\ writable (br_client st') /\ writable (br_backend st') /\
    lk_maxPacketSize (br_client st') = lk_maxPacketSize (br_client st) /\
    lk_maxPacketSize (br_backend st') = lk_maxPacketSize (br_backend st).
Proof.
  intros Hp Hc Hb Hfc Hfb. destruct ev as [[p|e]|[p|e]|e]; try done; cbn [bridge_step]; destruct Hp as [Hok Hk].
  - apply Forall_cons in Hfc as [Hf _]. destruct (PacketID p) as [[id body]|] eqn:Hid; [|done].
    destruct (writable_WriteFrame _ _ Hc Hf) as (c & E & Hw & _ & Hm). rewrite E.
    destruct (Z.eqb_spec id ClientboundKeepAliveID) as [->|]; cbn [andb]; [|eexists; by split_and!].
    destruct (Hk body eq_refl) as [H8 Hs]. rewrite (proj2 (Z.eqb_eq _ _) H8), (proj2 (Z.leb_gt _ _)) by lia.
    eexists. by split_and!.
  - apply Forall_cons in Hfb as [Hf _]. destruct (PacketID p) as [[id body]|] eqn:Hid; [|done].
    destruct (writable_WriteFrame _ _ Hb Hf) as (b & E & Hw & _ & Hm). rewrite E.
    destruct (Z.eqb_spec id ServerboundKeepAliveID) as [->|]; [|eexists; by split_and!].
    destruct (Hk body eq_refl) as (v & Ha & Hv). unfold answers in Ha. destruct (ParseKeepAlive p) as [v'|]; [|done].
    simplify_eq. rewrite bool_decide_false by auto. eexists. by split_and!.
Qed.

Lemma bridge_run_complete mp ctxErr evs : forall st,
  all_pass mp (pendingKeepAlives st) evs -> writable (br_client st) -> writable (br_backend st) ->
  Forall (frame_fits (br_client st)) (to_client evs) -> Forall (frame_fits (br_backend st)) (to_backend evs) ->
  fst (bridge_run mp ctxErr st evs) = None.
Proof.
  induction evs as [|ev evs IH]; intros st Ha Hc Hb Hfc Hfb; [done|]. destruct Ha as [Hp Ha]. cbn [bridge_run].
  rewrite to_client_cons in Hfc. rewrite to_backend_cons in Hfb.
  apply Forall_app in Hfc as [Hfc1 Hfc2], Hfb as [Hfb1 Hfb2].
  destruct (bridge_step_complete mp ctxErr st ev Hp Hc Hb Hfc1 Hfb1) as (st' & E & Hc' & Hb' & Hmc & Hmb).
  rewrite E. apply bridge_step_None in E as (_ & Hk & _). apply IH; [by rewrite Hk|done|done| |].
  - eapply Forall_impl; [exact Hfc2|]. intros p. unfold frame_fits. by rewrite Hmc.
  - eapply Forall_impl; [exact Hfb2|]. intros p. unfold frame_fits. by rewrite Hmb.
Qed.

Lemma outstanding1_size mp out ev :
  passes mp out ev -> Z.of_nat (size out) <= mp -> Z.of_nat (size (outstanding1 out ev)) <= mp.
Proof.
  intros Hp Hs. destruct ev as [[p|e]|[p|e]|e]; cbn; try done.
  - unfold asks. destruct Hp as [_ Hk]. destruct (PacketID p) as [[id body]|]; [|done].
    destruct (Z.eqb_spec id ClientboundKeepAliveID) as [->|]; [|done]. cbn [andb].
    destruct (Hk body eq_refl) as [H8 Hlt]. rewrite H8. cbn.
    assert (size ({[int64 (be_val body)]} ∪ out) <= 1 + size out)%nat; [|lia].
    rewrite size_union_alt, size_singleton.
    pose proof (subseteq_size (out ∖ {[int64 (be_val body)]}) out ltac:(set_solver)). lia.
  - destruct (answers p) as [v|]; [|done].
    pose proof (subseteq_size (out ∖ {[v]}) out ltac:(set_solver)). lia.
Qed.

Lemma outstanding_size mp evs : forall out,
  all_pass mp out evs -> Z.of_nat (size out) <= mp -> Z.of_nat (size (foldl outstanding1 out evs)) <= mp.
Proof.
  induction evs as [|ev evs IH]; intros out Ha Hs; [done|]. destruct Ha as [Hp Ha]. cbn.
  apply IH; [done|]. by apply outstanding1_size.
Qed.

(** ** Properties *)

(** C10: the bridge is transparent and isolates keep-alives. Whatever the
    interleaving of the two streams, the frames written to each side are exactly
    those received from the other, unchanged and in order, up to the event that
    ends the bridge. While it runs, every keep-alive answer it passed on answers
    a keep-alive of this backend that was outstanding, so answers to Limbo's
    keep-alives never reach the backend, and never more than the configured
    number is outstanding. Conversely, well-formed traffic of this kind on
    connections that accept it keeps the bridge running. *)
Theorem bridge_transparent maxPendingKeepAlives ctxErr client backend evs r st :
  RunPlay maxPendingKeepAlives ctxErr client backend evs = (r, st) ->
  let mp := effective_MaxPending maxPendingKeepAlives in
  (exists done_ rest, evs = done_ ++ rest /\ all_pass mp ∅ done_ /\
    lk_out (br_client st) = lk_out client ++ to_client done_ /\
    lk_out (br_backend st) = lk_out backend ++ to_backend done_ /\
    (r = None -> rest = [] /\ pendingKeepAlives st = outstanding evs /\
       Z.of_nat (size (pendingKeepAlives st)) <= mp)) /\
  (all_pass mp ∅ evs -> writable client -> writable backend ->
   Forall (frame_fits client) (to_client evs) -> Forall (frame_fits backend) (to_backend evs) -> r = None).
Proof.
  intros Hr. cbn zeta. unfold RunPlay in Hr. split.
  - assert (Hr' := Hr). apply bridge_run_prefix in Hr' as (d & rest & -> & Ha & Hc & Hb & Hn).
    exists d, rest. split_and!; try done. intros ->. destruct (Hn eq_refl) as [-> Hk]. cbn in Hk.
    rewrite app_nil_r. split_and!; [done|done|]. rewrite Hk. apply outstanding_size; [done|].
    rewrite size_empty. unfold effective_MaxPending. case_match; bool_facts; lia.
  - intros Ha Hc Hb Hfc Hfb.
    pose proof (bridge_run_complete _ ctxErr evs (mkBridge ∅ client backend) Ha Hc Hb Hfc Hfb) as E.
    by rewrite Hr in E.
Qed.

Definition demo_link : link := mkLink [] net_ErrClosed [] None net_ErrClosed false None 0.

Lemma bridge_transparent_witness :
  fst (RunPlay 0 None demo_link demo_link
    [FromBackend (Ok (KeepAlivePayload 7)); FromClient (Ok (varint 0x15 ++ be_bytes 8 7)); FromClient (Ok (varint 3))]) = None.
Proof.
  destruct (RunPlay _ _ _ _ _) as [r st] eqn:E. apply bridge_transparent in E as [_ Hc]. cbn [fst].
  apply Hc; [|done|done| |].
  - cbn. split_and!; try done.
    + intros body [= <-]. split; [done|]. vm_compute. done.
    + intros body [= <-]. exists 7. split; [done|]. vm_compute. set_solver.
  - repeat constructor; vm_compute; congruence.
  - repeat constructor; vm_compute; congruence.
Defined.
