(* ===== verification/Transfer.v ===== *)
(** * Transfer coordinator (internal/transfer: coordinator.go, replay.go)

    [Prepare] runs in its own goroutine while the session's reader keeps feeding
    client packets to the barrier; the inputs that arrive meanwhile are the lists
    of [prepare_env]. What happens to a prepared transfer afterwards is a run of
    atomic steps of the goroutines that share it: the barrier timer, the session
    loop, the canceller. Two methods unlock the mutex while they write to the
    client; they take the steps of the other goroutines in that gap as an
    argument. [None] is a panic (closing a closed or nil channel). *)

From S2P Require Import Prelude GoIO Varint Utf8 McString Frame Wire Crypto.
From S2P Require Import Configuration Play Forwarding Link Session Errors Backend.

(** A Go [chan struct{}] that is only ever closed. *)
Inductive signal : Type := SigNil | SigOpen | SigClosed.

Definition close_signal (c : signal) : option signal :=
  match c with SigOpen => Some SigClosed | SigNil | SigClosed => None end.

Record TransferConfig := mkTransferConfig {
  tc_MaxPendingCommands : Z;
  tc_BarrierTimeout : Z;
  tc_LoginTimeout : Z;
  tc_Configuration : ConfigurationConfig
}.

Record Coordinator := mkCoordinator {
  co_dialer : option Dialer;
  co_forwarder : option ModernForwarding;
  co_config : TransferConfig
}.

Definition NewCoordinator (dialer : option Dialer) (forwarder : option ModernForwarding) (config : TransferConfig)
    : Coordinator := mkCoordinator dialer forwarder config.

Definition BackendHealth (c : option Coordinator) : HealthSnapshot :=
  match c with
  | Some (mkCoordinator (Some d) _ _) => dl_health d
  | _ => initial_health
  end.

(** [backend] is the pointer to the backend transport, which lives in the world
    below: [false] is nil. The session pointer is the world's session. *)
Record Prepared := mkPrepared {
  pp_backend : bool;
  pp_packets : list (list byte);
  pp_finalized : bool;
  pp_done : signal;
  pp_finalErr : option error
}.

(** What the environment does during one [Prepare]: the clock, the TCP dial, the
    state of the context, and the client inputs handled while the backend is
    dialled and logged in, configured, and before the last phase. *)
Record prepare_env := mkPrepareEnv {
  pe_now : Z;
  pe_dial : res link;
  pe_loginErr : option error;
  pe_configErr : option error;
  pe_inputs1 : list Input;
  pe_inputs2 : list Input;
  pe_inputs3 : list Input
}.

Definition barrier_inputs (s : Session) (ins : list Input) : Session :=
  foldl (fun s i => snd (HandleBarrierInput s i)) s ins.

Section prepare.
Context (foreign : error -> string) (json_text : gostring -> option gostring).

Definition set_dialer (c : Coordinator) (d : Dialer) : Coordinator :=
  mkCoordinator (Some d) (co_forwarder c) (co_config c).

(** The result, the session, the coordinator and the dialled connection. *)
Definition Prepare (c : Coordinator) (env : prepare_env) (state : Session) (identity : PlayerIdentity)
    (oldKeepAlives : list Z) : res Prepared * Session * Coordinator * option link :=
  match co_dialer c, co_forwarder c with
  | Some dialer, Some forwarder =>
    match BeginTransfer state (pe_now env) oldKeepAlives (tc_MaxPendingCommands (co_config c)) with
    | (Some err, state) => (Err err, state, c, None)
    | (None, state) =>
      let rollback err state dialer backendConn :=
        (Err err, snd (RollbackTransfer state), set_dialer c dialer, link_Close <$> backendConn) in
      let mark dialer err :=
        if errors_Is err context_Canceled then dialer else MarkUnhealthy foreign dialer (pe_now env) (Some err) in
      match AdvanceBarrier state BarrierBackendLogin with
      | (Some err, state) => rollback err state dialer None
      | (None, state) =>
        match Dial foreign dialer (pe_now env) (pe_dial env) (id_Username identity) (id_UUID identity) with
        | (Err err, dialer, dropped) => rollback err (barrier_inputs state (pe_inputs1 env)) dialer dropped
        | (Ok backendConn, dialer, _) =>
          match CompleteLogin json_text (pe_loginErr env) backendConn (Some forwarder) identity with
          | (Err err, backendConn) =>
            rollback err (barrier_inputs state (pe_inputs1 env)) (mark dialer err) (Some backendConn)
          | (Ok _, backendConn) =>
            match AdvanceBarrier (barrier_inputs state (pe_inputs1 env)) BarrierBackendConfiguration with
            | (Some err, state) => rollback err state dialer (Some backendConn)
            | (None, state) =>
              match CompleteConfiguration (pe_configErr env) backendConn (tc_Configuration (co_config c)) with
              | (Err err, backendConn) =>
                rollback err (barrier_inputs state (pe_inputs2 env)) (mark dialer err) (Some backendConn)
              | (Ok packets, backendConn) =>
                let dialer := MarkHealthy foreign dialer (pe_now env) in
                match AdvanceBarrier (barrier_inputs (barrier_inputs state (pe_inputs2 env)) (pe_inputs3 env))
                        BarrierAwaitingClientConfigurationStart with
                | (Some err, state) => rollback err state dialer (Some backendConn)
                | (None, state) =>
                  (Ok (mkPrepared true packets false SigOpen None), state, set_dialer c dialer, Some backendConn)
                end
              end
            end
          end
        end
      end
    end
  | _, _ => (Err ErrTransferNotConfigured, state, c, None)
  end.

End prepare.

(** ** A prepared transfer *)

(** What a step did, for the history of a run. *)
Inductive event : Type :=
| EvTimeout (fired : bool)
| EvInput (i : Input) (err : option error)
| EvAdvance (phase : BarrierPhase) (err : option error)
| EvRelease (r : res (Replay * bool))
| EvRollback (err : option error)
| EvBegin (err : option error)
| EvWrite (err : option error).

(** The objects the goroutines share, with the history of the steps so far. *)
Record tworld := mkWorld {
  tw_session : Session;
  tw_conn : link;          (* the backend transport *)
  tw_prepared : Prepared;
  tw_client : link;
  tw_log : list event
}.

Definition tw_set_session (w : tworld) (s : Session) : tworld := mkWorld s (tw_conn w) (tw_prepared w) (tw_client w) (tw_log w).
Definition tw_set_client (w : tworld) (l : link) : tworld := mkWorld (tw_session w) (tw_conn w) (tw_prepared w) l (tw_log w).
Definition logged (ev : event) (w : tworld) : tworld :=
  mkWorld (tw_session w) (tw_conn w) (tw_prepared w) (tw_client w) (tw_log w ++ [ev]).

(** [if p.backend != nil { p.backend.Close(); p.backend = nil }] on the connection. *)
Definition close_backend (w : tworld) : link :=
  if pp_backend (tw_prepared w) then link_Close (tw_conn w) else tw_conn w.

(** The timer case of [timeout]; [true] when it finalised the transfer. *)
Definition Prepared_timeout (w : tworld) : option (bool * tworld) :=
  let p := tw_prepared w in
  if pp_finalized p then Some (false, w)
  else
    let session := snd (RollbackTransfer (tw_session w)) in
    match close_signal (pp_done p) with
    | None => None
    | Some done' =>
      Some (true, mkWorld session (close_backend w)
        (mkPrepared false (pp_packets p) true done' (Some ErrTransferTimedOut)) (tw_client w) (tw_log w))
    end.

(** The check both writers make before and after writing. *)
Definition phase_check (w : tworld) (want : BarrierPhase) : option error :=
  if pp_finalized (tw_prepared w) then Some ErrTransferAlreadyFinalized
  else match Session_BarrierPhase (tw_session w) with
       | Err err => Some err
       | Ok phase => if negb (phase =? want) then Some ErrBarrierNotReady else None
       end.

Definition BeginClientConfiguration (between : tworld -> option tworld) (w : tworld) : option (option error * tworld) :=
  match phase_check w BarrierAwaitingClientConfigurationStart with
  | Some err => Some (Some err, w)
  | None =>
    match link_WriteFrame (tw_client w) StartConfigurationPayload with
    | (Some err, client) => Some (Some err, tw_set_client w client)
    | (None, client) =>
      match between (tw_set_client w client) with
      | None => None
      | Some w => Some (phase_check w BarrierAwaitingClientConfigurationStart, w)
      end
    end
  end.

Definition WriteClientConfiguration (between : tworld -> option tworld) (w : tworld) : option (option error * tworld) :=
  match phase_check w BarrierClientConfiguration with
  | Some err => Some (Some err, w)
  | None =>
    match link_WriteAll (tw_client w) (pp_packets (tw_prepared w) ++ [FinishPayload]) with
    | (Some err, client) => Some (Some err, tw_set_client w client)
    | (None, client) =>
      match between (tw_set_client w client) with
      | None => None
      | Some w =>
        match phase_check w BarrierClientConfiguration with
        | Some err => Some (Some err, w)
        | None =>
          let '(err, session) := AdvanceBarrier (tw_session w) BarrierAwaitingClientConfigurationFinish in
          Some (err, tw_set_session w session)
        end
      end
    end
  end.

Definition advance_unless_finalized (w : tworld) (phase : BarrierPhase) : option error * tworld :=
  if pp_finalized (tw_prepared w) then (Some ErrTransferAlreadyFinalized, w)
  else let '(err, session) := AdvanceBarrier (tw_session w) phase in (err, tw_set_session w session).

Definition AcknowledgeClientStart (w : tworld) : option error * tworld :=
  advance_unless_finalized w BarrierClientConfiguration.

Definition AcknowledgeClientConfiguration (w : tworld) : option error * tworld :=
  advance_unless_finalized w BarrierReady.

(** [if p.done != nil { close(p.done) }] *)
Definition close_done (c : signal) : option signal :=
  match c with SigNil => Some SigNil | _ => close_signal c end.

(** The replay and whether a backend pointer was handed over. *)
Definition Release (w : tworld) : option (res (Replay * bool) * tworld) :=
  let p := tw_prepared w in
  if pp_finalized p then Some (Err ErrTransferAlreadyFinalized, w)
  else match ReleaseTransfer (tw_session w) with
  | (Err err, session) => Some (Err err, tw_set_session w session)
  | (Ok replay, session) =>
    match close_done (pp_done p) with
    | None => None
    | Some done' =>
      Some (Ok (replay, pp_backend p),
            mkWorld session (tw_conn w) (mkPrepared false (pp_packets p) true done' (pp_finalErr p)) (tw_client w) (tw_log w))
    end
  end.

Definition Rollback (w : tworld) : option (option error * tworld) :=
  let p := tw_prepared w in
  if pp_finalized p then Some (Some ErrTransferAlreadyFinalized, w)
  else match close_done (pp_done p) with
  | None => None
  | Some done' =>
    let '(err, session) := RollbackTransfer (tw_session w) in
    Some (err, mkWorld session (close_backend w) (mkPrepared false (pp_packets p) true done' (pp_finalErr p)) (tw_client w) (tw_log w))
  end.

(** ** replay.go *)

Definition ReplayPayloads (replay : Replay) : list (list byte) :=
  match re_Position replay with
  | Some position =>
    [ServerboundPositionLookPayload (pos_X position) (pos_Y position) (pos_Z position) (pos_Yaw position)
       (pos_Pitch position) (pos_OnGround position)]
  | None => []
  end ++
  map (fun command => PlayerCommandPayload (EntityID command) (ActionID command) (Data command)) (re_Commands replay).

(** ** Runs of a prepared transfer *)

(** Steps of the goroutines that share a prepared transfer: the barrier timer
    fires; the session loop hands a client packet to the barrier or records a
    configuration acknowledgement directly on the session; the methods of
    [Prepared]. The session loop ends when the barrier refuses a packet, and then
    the timer is left to decide; runs in which other steps follow a refused packet
    are more than the program has. *)
Inductive atomic : Type :=
| ATimeout
| AInput (i : Input)
| AAdvanceStart
| AAdvanceReady
| AAckStart
| AAckFinish
| ARelease
| ARollback.

(** The two methods that release the mutex, with the steps of others meanwhile. *)
Inductive top : Type :=
| TAtomic (a : atomic)
| TBegin (between : list atomic)
| TWrite (between : list atomic).

Definition run_atomic (w : tworld) (a : atomic) : option tworld :=
  match a with
  | ATimeout => '(fired, w) ← Prepared_timeout w; Some (logged (EvTimeout fired) w)
  | AInput i =>
    let '(_, err, s) := HandleBarrierInput (tw_session w) i in
    Some (logged (EvInput i err) (tw_set_session w s))
  | AAdvanceStart =>
    let '(e, s) := AdvanceBarrier (tw_session w) BarrierClientConfiguration in
    Some (logged (EvAdvance BarrierClientConfiguration e) (tw_set_session w s))
  | AAdvanceReady =>
    let '(e, s) := AdvanceBarrier (tw_session w) BarrierReady in
    Some (logged (EvAdvance BarrierReady e) (tw_set_session w s))
  | AAckStart => let '(e, w) := AcknowledgeClientStart w in Some (logged (EvAdvance BarrierClientConfiguration e) w)
  | AAckFinish => let '(e, w) := AcknowledgeClientConfiguration w in Some (logged (EvAdvance BarrierReady e) w)
  | ARelease => '(r, w) ← Release w; Some (logged (EvRelease r) w)
  | ARollback => '(e, w) ← Rollback w; Some (logged (EvRollback e) w)
  end.

Fixpoint run_atomics (l : list atomic) (w : tworld) : option tworld :=
  match l with
  | [] => Some w
  | a :: l => w ← run_atomic w a; run_atomics l w
  end.

Definition run_top (w : tworld) (t : top) : option tworld :=
  match t with
  | TAtomic a => run_atomic w a
  | TBegin l => '(e, w) ← BeginClientConfiguration (run_atomics l) w; Some (logged (EvBegin e) w)
  | TWrite l => '(e, w) ← WriteClientConfiguration (run_atomics l) w; Some (logged (EvWrite e) w)
  end.

Fixpoint run_tops (l : list top) (w : tworld) : option tworld :=
  match l with
  | [] => Some w
  | t :: l => w ← run_top w t; run_tops l w
  end.

(** The world right after a successful [Prepare]. *)
Definition prepared_world (s : Session) (conn : link) (p : Prepared) (client : link) : tworld :=
  mkWorld s conn p client [].

(** ** Vocabulary of the properties *)

(** The steps that decide a transfer. *)
Definition decides (ev : event) : bool :=
  match ev with
  | EvRelease (Ok _) | EvRollback None | EvTimeout true => true
  | _ => false
  end.

Definition log_inputs (evs : list event) : list Input :=
  omap (fun ev => match ev with EvInput i _ => Some i | _ => None end) evs.

Definition env_inputs (env : prepare_env) : list Input := pe_inputs1 env ++ pe_inputs2 env ++ pe_inputs3 env.

(** ** Lemmas: preparing *)

Lemma barrier_inputs_active ins : forall b,
  barrier_inputs (mkSession StateTransferBarrier (Some b)) ins =
  mkSession StateTransferBarrier (Some (handle_all b ins)).
Proof.
  induction ins as [|i ins IH]; intros b; [done|]. cbn. rewrite HandleBarrierInput_active. apply IH.
Qed.

Lemma handle_all_app b l1 l2 : handle_all b (l1 ++ l2) = handle_all (handle_all b l1) l2.
Proof. unfold handle_all. by rewrite foldl_app. Qed.

Lemma handle_all_set_phase p ins : forall b, handle_all (set_phase p b) ins = set_phase p (handle_all b ins).
Proof.
  induction ins as [|i ins IH]; intros b; [done|]. unfold handle_all in *. cbn. by rewrite handle_set_phase, IH.
Qed.

Lemma set_phase_twice p q b : set_phase p (set_phase q b) = set_phase p b.
Proof. done. Qed.

(** Between [AdvanceBarrier]s of [Prepare] only inputs arrive, so the next phase
    is always accepted. *)
Lemma advance_after_inputs k b ins :
  0 <= k < 255 ->
  AdvanceBarrier (barrier_inputs (mkSession StateTransferBarrier (Some (set_phase k b))) ins) (k + 1) =
  (None, mkSession StateTransferBarrier (Some (set_phase (k + 1) (handle_all b ins)))).
Proof.
  intros Hk. rewrite barrier_inputs_active, AdvanceBarrier_active, handle_all_set_phase. cbn [phase set_phase].
  unfold uint8. rewrite Z.mod_small by lia. by rewrite Z.eqb_refl, set_phase_twice.
Qed.

Lemma rollback_after_inputs k b ins :
  snd (RollbackTransfer (barrier_inputs (mkSession StateTransferBarrier (Some (set_phase k b))) ins)) =
  mkSession StateLimboPlay None.
Proof. by rewrite barrier_inputs_active. Qed.

(** What a successful begin leads to, with the three advances resolved: the
    outcome depends on the dial and the two dialogues alone. *)
Definition prepare_spec (foreign : error -> string) (json_text : gostring -> option gostring) (c : Coordinator)
    (env : prepare_env) (dialer : Dialer) (forwarder : ModernForwarding) (identity : PlayerIdentity)
    (oldKeepAlives : list Z) : res Prepared * Session * Coordinator * option link :=
  let limbo := mkSession StateLimboPlay None in
  let mark dialer err :=
    if errors_Is err context_Canceled then dialer else MarkUnhealthy foreign dialer (pe_now env) (Some err) in
  let b := newBarrier (pe_now env) oldKeepAlives (tc_MaxPendingCommands (co_config c)) in
  match Dial foreign dialer (pe_now env) (pe_dial env) (id_Username identity) (id_UUID identity) with
  | (Err err, dialer, dropped) => (Err err, limbo, set_dialer c dialer, link_Close <$> dropped)
  | (Ok conn, dialer, _) =>
    match CompleteLogin json_text (pe_loginErr env) conn (Some forwarder) identity with
    | (Err err, conn) => (Err err, limbo, set_dialer c (mark dialer err), Some (link_Close conn))
    | (Ok _, conn) =>
      match CompleteConfiguration (pe_configErr env) conn (tc_Configuration (co_config c)) with
      | (Err err, conn) => (Err err, limbo, set_dialer c (mark dialer err), Some (link_Close conn))
      | (Ok packets, conn) =>
        (Ok (mkPrepared true packets false SigOpen None),
         mkSession StateTransferBarrier (Some (set_phase BarrierAwaitingClientConfigurationStart (handle_all b (env_inputs env)))),
         set_dialer c (MarkHealthy foreign dialer (pe_now env)), Some conn)
      end
    end
  end.

Lemma Prepare_spec foreign json c env s identity olds dialer forwarder s1 :
  co_dialer c = Some dialer -> co_forwarder c = Some forwarder ->
  BeginTransfer s (pe_now env) olds (tc_MaxPendingCommands (co_config c)) = (None, s1) ->
  Prepare foreign json c env s identity olds = prepare_spec foreign json c env dialer forwarder identity olds.
Proof.
  intros Hd Hf Hb. unfold Prepare, prepare_spec. rewrite Hd, Hf, Hb.
  apply BeginTransfer_None in Hb as [_ ->]. set (b := newBarrier _ _ _).
  change (mkSession StateTransferBarrier (Some b))
    with (barrier_inputs (mkSession StateTransferBarrier (Some (set_phase 0 b))) []).
  change BarrierBackendLogin with (0 + 1). rewrite advance_after_inputs by lia. cbn [handle_all foldl].
  destruct (Dial _ _ _ _ _ _) as [[[conn|err] dialer'] dropped]; [|by rewrite rollback_after_inputs].
  destruct (CompleteLogin _ _ _ _ _) as [[lr|err] conn']; [|by rewrite rollback_after_inputs].
  change BarrierBackendConfiguration with (0 + 1 + 1). rewrite advance_after_inputs by lia.
  destruct (CompleteConfiguration _ _ _) as [[packets|err] conn'']; [|by rewrite rollback_after_inputs].
  rewrite barrier_inputs_active, handle_all_set_phase.
  change BarrierAwaitingClientConfigurationStart with (0 + 1 + 1 + 1). rewrite advance_after_inputs by lia.
  unfold env_inputs. by rewrite !handle_all_app.
Qed.

(** ** Lemmas: a prepared transfer *)

Definition undecided (ev : event) : Prop := decides ev = false.

(** A prepared transfer is open, was released, or was undone. [b0] is the barrier
    with the inputs of [Prepare]. *)
Inductive transfer_inv (b0 : barrierState) (packets : list (list byte)) (w : tworld) : Prop :=
| tinv_open k :
    3 <= k <= 6 ->
    tw_session w = mkSession StateTransferBarrier (Some (set_phase k (handle_all b0 (log_inputs (tw_log w))))) ->
    tw_prepared w = mkPrepared true packets false SigOpen None ->
    lk_closed (tw_conn w) = false -> Forall undecided (tw_log w) ->
    transfer_inv b0 packets w
| tinv_released pre post :
    tw_log w = pre ++ EvRelease (Ok (replay (handle_all b0 (log_inputs pre)), true)) :: post ->
    Forall undecided pre -> Forall undecided post ->
    tw_session w = mkSession StateBackendPlay None ->
    tw_prepared w = mkPrepared false packets true SigClosed None ->
    lk_closed (tw_conn w) = false -> transfer_inv b0 packets w
| tinv_undone pre ev post fe :
    tw_log w = pre ++ ev :: post ->
    Forall undecided pre -> Forall undecided post ->
    (ev = EvRollback None /\ fe = None \/ ev = EvTimeout true /\ fe = Some ErrTransferTimedOut) ->
    tw_session w = mkSession StateLimboPlay None ->
    tw_prepared w = mkPrepared false packets true SigClosed fe ->
    lk_closed (tw_conn w) = true -> transfer_inv b0 packets w.

Lemma log_inputs_snoc evs ev :
  log_inputs (evs ++ [ev]) = log_inputs evs ++ match ev with EvInput i _ => [i] | _ => [] end.
Proof. unfold log_inputs. rewrite omap_app. by destruct ev. Qed.

(** A decided transfer stays decided: its session has no barrier. *)
Lemma transfer_inv_decided b0 packets w ev :
  transfer_inv b0 packets w -> pp_finalized (tw_prepared w) = true -> undecided ev ->
  active_barrier (tw_session w) = None /\ transfer_inv b0 packets (logged ev w).
Proof.
  intros [k ? Hs Hp|pre post Hl H1 H2 Hs Hp|pre e post fe Hl H1 H2 He Hs Hp] Hf Hu; rewrite Hp in Hf; try done;
    (split; [by rewrite Hs|]).
  - apply (tinv_released _ _ _ pre (post ++ [ev])); try done; cbn; [by rewrite Hl, <-app_assoc|].
    apply Forall_app. by split; [|constructor].
  - apply (tinv_undone _ _ _ pre e (post ++ [ev]) fe); try done; cbn; [by rewrite Hl, <-app_assoc|].
    apply Forall_app. by split; [|constructor].
Qed.

Lemma tw_set_session_id w : tw_set_session w (tw_session w) = w.
Proof. by destruct w. Qed.

(** An open transfer: the step changes the barrier only. *)
Lemma transfer_inv_open_step b0 packets w k ev s :
  transfer_inv b0 packets w -> pp_finalized (tw_prepared w) = false -> 3 <= k <= 6 -> undecided ev ->
  s = mkSession StateTransferBarrier (Some (set_phase k (handle_all b0 (log_inputs (tw_log w ++ [ev]))))) ->
  transfer_inv b0 packets (logged ev (tw_set_session w s)).
Proof.
  intros [k' ? Hs Hp Hc Hl|pre post Hl H1 H2 Hs Hp|pre e post fe Hl H1 H2 He Hs Hp] Hf Hk Hu Es; rewrite Hp in Hf; try done.
  apply (tinv_open _ _ _ k); try done. apply Forall_app. by split; [|constructor].
Qed.

Lemma transfer_inv_open b0 packets w :
  transfer_inv b0 packets w -> pp_finalized (tw_prepared w) = false ->
  exists k, 3 <= k <= 6 /\
    tw_session w = mkSession StateTransferBarrier (Some (set_phase k (handle_all b0 (log_inputs (tw_log w))))) /\
    tw_prepared w = mkPrepared true packets false SigOpen None /\
    lk_closed (tw_conn w) = false /\ Forall undecided (tw_log w).
Proof.
  intros [k ? Hs Hp|pre post Hl H1 H2 Hs Hp|pre e post fe Hl H1 H2 He Hs Hp] Hf; rewrite Hp in Hf; try done. by exists k.
Qed.

(** Advancing the phase, from either side. *)
Lemma transfer_inv_advance b0 packets w p e s mk :
  transfer_inv b0 packets w -> 3 < p <= 6 -> undecided (mk e) ->
  (forall e', match mk e' with EvInput _ _ => False | _ => True end) ->
  AdvanceBarrier (tw_session w) p = (e, s) -> transfer_inv b0 packets (logged (mk e) (tw_set_session w s)).
Proof.
  intros Hi Hp Hu Hm Ha. destruct (pp_finalized (tw_prepared w)) eqn:Hf.
  - destruct (transfer_inv_decided _ _ _ (mk e) Hi Hf Hu) as [Hn Hi'].
    unfold AdvanceBarrier in Ha. rewrite Hn in Ha. simplify_eq. by rewrite tw_set_session_id.
  - destruct (transfer_inv_open _ _ _ Hi Hf) as (k & Hk & Hs & _). rewrite Hs, AdvanceBarrier_active in Ha.
    cbn [phase set_phase] in Ha. unfold uint8 in Ha. rewrite Z.mod_small in Ha by lia.
    assert (El : log_inputs (tw_log w ++ [mk e]) = log_inputs (tw_log w)).
    { rewrite log_inputs_snoc. specialize (Hm e). destruct (mk e); try done; by rewrite app_nil_r. }
    destruct (Z.eqb_spec p (k + 1)); simplify_eq.
    + apply (transfer_inv_open_step _ _ _ (k + 1)); try done; try lia. by rewrite El.
    + apply (transfer_inv_open_step _ _ _ k); try done. by rewrite El.
Qed.

Lemma transfer_inv_timeout b0 packets w :
  transfer_inv b0 packets w ->
  exists b w', Prepared_timeout w = Some (b, w') /\ transfer_inv b0 packets (logged (EvTimeout b) w') /\ tw_client w' = tw_client w.
Proof.
  intros Hi. unfold Prepared_timeout. destruct (pp_finalized (tw_prepared w)) eqn:Hf.
  - exists false, w. split_and!; [done| |done]. by apply transfer_inv_decided.
  - destruct (transfer_inv_open _ _ _ Hi Hf) as (k & Hk & Hs & Hp & Hc & Hl). rewrite Hp, Hs. unfold close_backend.
    rewrite Hp. cbn. eexists _, _. split_and!; [done| |done].
    eapply (tinv_undone _ _ _ (tw_log w) (EvTimeout true) []); try done. by right.
Qed.

Lemma transfer_inv_rollback b0 packets w :
  transfer_inv b0 packets w ->
  exists e w', Rollback w = Some (e, w') /\ transfer_inv b0 packets (logged (EvRollback e) w') /\ tw_client w' = tw_client w.
Proof.
  intros Hi. unfold Rollback. destruct (pp_finalized (tw_prepared w)) eqn:Hf.
  - eexists _, w. split_and!; [done| |done]. by apply transfer_inv_decided.
  - destruct (transfer_inv_open _ _ _ Hi Hf) as (k & Hk & Hs & Hp & Hc & Hl). rewrite Hp, Hs. unfold close_backend.
    rewrite Hp. cbn. eexists _, _. split_and!; [done| |done].
    eapply (tinv_undone _ _ _ (tw_log w) (EvRollback None) []); try done. by left.
Qed.

Lemma transfer_inv_release b0 packets w :
  transfer_inv b0 packets w ->
  exists r w', Release w = Some (r, w') /\ transfer_inv b0 packets (logged (EvRelease r) w') /\ tw_client w' = tw_client w.
Proof.
  intros Hi. unfold Release. destruct (pp_finalized (tw_prepared w)) eqn:Hf.
  - eexists _, w. split_and!; [done| |done]. by apply transfer_inv_decided.
  - destruct (transfer_inv_open _ _ _ Hi Hf) as (k & Hk & Hs & Hp & Hc & Hl).
    rewrite Hs, ReleaseTransfer_active. cbn [phase set_phase]. destruct (Z.eqb_spec k BarrierReady).
    + rewrite Hp. cbn [pp_done close_done close_signal]. eexists _, _. split_and!; [done| |done].
      rewrite replay_set_phase. by eapply (tinv_released _ _ _ (tw_log w) []).
    + eexists _, _. split_and!; [done| |done]. apply (transfer_inv_open_step _ _ _ k); try done.
      by rewrite log_inputs_snoc, app_nil_r.
Qed.

Lemma transfer_inv_input b0 packets w i e :
  transfer_inv b0 packets w ->
  transfer_inv b0 packets (logged (EvInput i e) (tw_set_session w (snd (HandleBarrierInput (tw_session w) i)))).
Proof.
  intros Hi. destruct (pp_finalized (tw_prepared w)) eqn:Hf.
  - destruct (transfer_inv_decided _ _ _ (EvInput i e) Hi Hf eq_refl) as [Hn Hi'].
    unfold HandleBarrierInput. rewrite Hn. cbn [snd]. by rewrite tw_set_session_id.
  - destruct (transfer_inv_open _ _ _ Hi Hf) as (k & Hk & Hs & _).
    apply (transfer_inv_open_step _ _ _ k); try done.
    by rewrite Hs, HandleBarrierInput_active, handle_set_phase, log_inputs_snoc, handle_all_snoc.
Qed.

(** No atomic step panics, and each keeps the invariant. *)
Lemma transfer_inv_atomic b0 packets w a :
  transfer_inv b0 packets w -> exists w', run_atomic w a = Some w' /\ transfer_inv b0 packets w' /\ tw_client w' = tw_client w.
Proof.
  intros Hi. assert (Hadv : forall p, 3 < p <= 6 -> exists e s, AdvanceBarrier (tw_session w) p = (e, s) /\
    transfer_inv b0 packets (logged (EvAdvance p e) (tw_set_session w s))).
  { intros p Hp. destruct (AdvanceBarrier (tw_session w) p) as [e s] eqn:E. eexists _, _. split; [done|].
    by eapply (transfer_inv_advance _ _ _ p). }
  assert (Hack : forall p, 3 < p <= 6 -> exists e w', advance_unless_finalized w p = (e, w') /\
    transfer_inv b0 packets (logged (EvAdvance p e) w') /\ tw_client w' = tw_client w).
  { intros p Hp. unfold advance_unless_finalized. destruct (pp_finalized (tw_prepared w)) eqn:Hf.
    - eexists _, _. split_and!; [done| |done]. by apply transfer_inv_decided.
    - destruct (Hadv p Hp) as (e & s & -> & H). by eexists _, _. }
  destruct a; cbn [run_atomic].
  - destruct (transfer_inv_timeout _ _ _ Hi) as (r & w' & -> & H & Hc). by eexists.
  - pose proof (fun e => transfer_inv_input _ _ _ i e Hi) as H. destruct (HandleBarrierInput (tw_session w) i) as [[r e] s].
    eexists. split_and!; [done|apply H|done].
  - destruct (Hadv BarrierClientConfiguration ltac:(by vm_compute)) as (e & s & -> & H). by eexists.
  - destruct (Hadv BarrierReady ltac:(by vm_compute)) as (e & s & -> & H). by eexists.
  - destruct (Hack BarrierClientConfiguration ltac:(by vm_compute)) as (e & w' & H0 & H & Hc).
    unfold AcknowledgeClientStart. rewrite H0. by eexists.
  - destruct (Hack BarrierReady ltac:(by vm_compute)) as (e & w' & H0 & H & Hc).
    unfold AcknowledgeClientConfiguration. rewrite H0. by eexists.
  - destruct (transfer_inv_release _ _ _ Hi) as (r & w' & -> & H & Hc). by eexists.
  - destruct (transfer_inv_rollback _ _ _ Hi) as (r & w' & -> & H & Hc). by eexists.
Qed.

Lemma transfer_inv_atomics b0 packets l : forall w,
  transfer_inv b0 packets w ->
  exists w', run_atomics l w = Some w' /\ transfer_inv b0 packets w' /\ tw_client w' = tw_client w.
Proof.
  induction l as [|a l IH]; intros w Hi; [by exists w|]. cbn [run_atomics].
  destruct (transfer_inv_atomic _ _ _ a Hi) as (w1 & -> & Hi1 & Hc1). cbn [mbind option_bind].
  destruct (IH w1 Hi1) as (w' & E & H & Hc). exists w'. by rewrite Hc.
Qed.

Lemma transfer_inv_client b0 packets w l : transfer_inv b0 packets w -> transfer_inv b0 packets (tw_set_client w l).
Proof. intros [k|pre post|pre e post fe]; [by eapply tinv_open|by eapply tinv_released|by eapply tinv_undone]. Qed.

(** Events that neither decide nor bring input. *)
Lemma transfer_inv_note b0 packets w ev :
  transfer_inv b0 packets w -> undecided ev -> match ev with EvInput _ _ => False | _ => True end ->
  transfer_inv b0 packets (logged ev w).
Proof.
  intros Hi Hu He. destruct (pp_finalized (tw_prepared w)) eqn:Hf; [by apply transfer_inv_decided|].
  destruct (transfer_inv_open _ _ _ Hi Hf) as (k & Hk & Hs & _). rewrite <-(tw_set_session_id w) at 1.
  apply (transfer_inv_open_step _ _ _ k); try done. rewrite Hs, log_inputs_snoc.
  destruct ev; try done; by rewrite app_nil_r.
Qed.

Lemma transfer_inv_top b0 packets w t :
  transfer_inv b0 packets w -> exists w', run_top w t = Some w' /\ transfer_inv b0 packets w'.
Proof.
  intros Hi. destruct t as [a|l|l]; cbn [run_top].
  - destruct (transfer_inv_atomic _ _ _ a Hi) as (w' & ? & ? & _). by exists w'.
  - unfold BeginClientConfiguration.
    destruct (phase_check w _) as [err|]; [cbn; eexists; split; [done|by apply transfer_inv_note]|].
    destruct (link_WriteFrame _ _) as [[err|] client];
      [cbn; eexists; split; [done|apply transfer_inv_note; [by apply transfer_inv_client|done|done]]|].
    destruct (transfer_inv_atomics _ _ l _ (transfer_inv_client _ _ _ client Hi)) as (w' & -> & Hi' & _).
    cbn. eexists. split; [done|]. by apply transfer_inv_note.
  - unfold WriteClientConfiguration.
    destruct (phase_check w _) as [err|]; [cbn; eexists; split; [done|by apply transfer_inv_note]|].
    destruct (link_WriteAll _ _) as [[err|] client];
      [cbn; eexists; split; [done|apply transfer_inv_note; [by apply transfer_inv_client|done|done]]|].
    destruct (transfer_inv_atomics _ _ l _ (transfer_inv_client _ _ _ client Hi)) as (w' & -> & Hi' & _).
    cbn. destruct (phase_check w' _) as [err|]; [cbn; eexists; split; [done|by apply transfer_inv_note]|].
    destruct (AdvanceBarrier (tw_session w') _) as [e s] eqn:Ha. cbn. eexists. split; [done|].
    by apply (transfer_inv_advance _ _ _ _ _ _ EvWrite Hi') in Ha.
Qed.

Lemma transfer_inv_tops b0 packets l : forall w,
  transfer_inv b0 packets w -> exists w', run_tops l w = Some w' /\ transfer_inv b0 packets w'.
Proof.
  induction l as [|t l IH]; intros w Hi; [by exists w|]. cbn [run_tops].
  destruct (transfer_inv_top _ _ _ t Hi) as (w1 & -> & Hi1). cbn. by apply IH.
Qed.

Lemma link_WriteFrame_open l p l' : link_WriteFrame l p = (None, l') -> lk_closed l' = false.
Proof. unfold link_WriteFrame. repeat case_match; intros; by simplify_eq/=. Qed.

(** A dialogue that completed left the connection open. *)
Lemma configuration_loop_open fuel : forall ctxErr mp mb packets n l r l',
  configuration_loop fuel ctxErr mp mb packets n l = (Ok r, l') -> lk_closed l' = false.
Proof.
  induction fuel as [|fuel IH]; intros ctxErr mp mb packets n l r l'; cbn [configuration_loop]; [done|].
  destruct (link_ReadFrame l) as [[frame|err] l1]; [|done]. destruct (PacketID frame) as [[id body]|]; [|done].
  repeat (case_match; simplify_eq; try done); intros; simplify_eq; try (by eapply IH); by eapply link_WriteFrame_open.
Qed.

Lemma health_set_err foreign h now st e :
  hl_State (health_set foreign h now st (Some e)) = st /\ hl_LastError (health_set foreign h now st (Some e)) = Error foreign e.
Proof. unfold health_set. case_match eqn:E; [|done]. by bool_facts. Qed.

Lemma health_set_ok foreign h now st : hl_State (health_set foreign h now st None) = st.
Proof. unfold health_set. case_match eqn:E; [|done]. by bool_facts. Qed.

Lemma Dial_err_health foreign d now dial u uid e d' dropped :
  Dial foreign d now dial u uid = (Err e, d', dropped) ->
  hl_State (dl_health d') = HealthUnhealthy /\ hl_LastError (dl_health d') = Error foreign e.
Proof. unfold Dial. repeat case_match; intros; simplify_eq; apply health_set_err. Qed.

Lemma BeginTransfer_Some s now ids m e s' : BeginTransfer s now ids m = (Some e, s') -> s' = s.
Proof. unfold BeginTransfer, transitionLocked. repeat case_match; intros; by simplify_eq. Qed.

(** The shape of a successful [Prepare]. *)
Lemma Prepare_Ok_inv foreign json c env s identity olds p s' c' conn :
  Prepare foreign json c env s identity olds = (Ok p, s', c', Some conn) ->
  lk_closed conn = false /\ p = mkPrepared true (pp_packets p) false SigOpen None /\
  s' = mkSession StateTransferBarrier (Some (set_phase BarrierAwaitingClientConfigurationStart
         (handle_all (newBarrier (pe_now env) olds (tc_MaxPendingCommands (co_config c))) (env_inputs env)))).
Proof.
  destruct (co_dialer c) as [dialer|] eqn:Hd; [|unfold Prepare; by rewrite Hd].
  destruct (co_forwarder c) as [forwarder|] eqn:Hf; [|unfold Prepare; by rewrite Hd, Hf].
  destruct (BeginTransfer s (pe_now env) olds (tc_MaxPendingCommands (co_config c))) as [[err|] s1] eqn:Hb;
    [unfold Prepare; by rewrite Hd, Hf, Hb|].
  rewrite (Prepare_spec _ _ _ _ _ _ _ dialer forwarder s1) by done. unfold prepare_spec.
  repeat (case_match; try done); intros; simplify_eq. split_and!; [by eapply configuration_loop_open|done..].
Qed.

Lemma Dial_dropped foreign d now dial u uid r d' dropped :
  Dial foreign d now dial u uid = (r, d', dropped) ->
  match r with
  | Ok _ => dropped = None
  | Err _ => (forall l, dropped = Some l -> lk_closed l = true) /\
      (is_Some dropped <-> exists t, dial = Ok t /\ cf_Address (dl_config d) <> [])
  end.
Proof.
  unfold Dial. case_bool_decide as Ha.
  { intros; simplify_eq. split; [done|]. split; [by intros []|]. by intros (t & _ & ?). }
  destruct dial as [t|e].
  2: { intros; simplify_eq. split; [done|]. split; [by intros []|]. by intros (t & ? & _). }
  repeat case_match; intros; simplify_eq; try done; (split; [by intros ? [= <-]|]; split; [|done]; intros _; by exists t).
Qed.

Lemma Prepare_Ok_stages foreign json c env s identity olds p s' c' conn :
  Prepare foreign json c env s identity olds = (Ok p, s', c', conn) ->
  exists dialer forwarder s1 conn0 dialer' lr conn1 l, co_dialer c = Some dialer /\ co_forwarder c = Some forwarder /\
    BeginTransfer s (pe_now env) olds (tc_MaxPendingCommands (co_config c)) = (None, s1) /\
    Dial foreign dialer (pe_now env) (pe_dial env) (id_Username identity) (id_UUID identity) = (Ok conn0, dialer', None) /\
    CompleteLogin json (pe_loginErr env) conn0 (Some forwarder) identity = (Ok lr, conn1) /\
    CompleteConfiguration (pe_configErr env) conn1 (tc_Configuration (co_config c)) = (Ok (pp_packets p), l) /\
    conn = Some l /\ lk_closed l = false /\ p = mkPrepared true (pp_packets p) false SigOpen None /\
    hl_State (BackendHealth (Some c')) = HealthHealthy /\
    s' = mkSession StateTransferBarrier (Some (set_phase BarrierAwaitingClientConfigurationStart
           (handle_all (newBarrier (pe_now env) olds (tc_MaxPendingCommands (co_config c))) (env_inputs env)))).
Proof.
  destruct (co_dialer c) as [dialer|] eqn:Hd; [|unfold Prepare; by rewrite Hd].
  destruct (co_forwarder c) as [forwarder|] eqn:Hf; [|unfold Prepare; by rewrite Hd, Hf].
  destruct (BeginTransfer s (pe_now env) olds (tc_MaxPendingCommands (co_config c))) as [[err|] s1] eqn:Hb;
    [unfold Prepare; by rewrite Hd, Hf, Hb|].
  rewrite (Prepare_spec _ _ _ _ _ _ _ dialer forwarder s1) by done. unfold prepare_spec.
  destruct (Dial _ _ _ _ _ _) as [[[conn0|err] dialer'] dropped] eqn:HD; [|done]. pose proof (Dial_dropped _ _ _ _ _ _ _ _ _ HD) as ->.
  destruct (CompleteLogin _ _ _ _ _) as [[lr|err] conn1] eqn:HL; [|done].
  destruct (CompleteConfiguration _ _ _) as [[packets|err] l] eqn:HC; [|done].
  intros; simplify_eq. exists dialer, forwarder, s1, conn0, dialer', lr, conn1, l.
  split_and!; try done; [by eapply configuration_loop_open|apply health_set_ok].
Qed.

Lemma prepared_world_inv foreign json c env s identity olds p s' c' conn client :
  Prepare foreign json c env s identity olds = (Ok p, s', c', Some conn) ->
  transfer_inv (handle_all (newBarrier (pe_now env) olds (tc_MaxPendingCommands (co_config c))) (env_inputs env))
    (pp_packets p) (prepared_world s' conn p client).
Proof.
  intros (Hc & Hp & ->)%Prepare_Ok_inv. by apply (tinv_open _ _ _ 3).
Qed.

(** *** The cooperative run *)

(** An open transfer in phase [k] whose barrier has seen [ins] on top of [b0]. *)
Definition open_world (b0 : barrierState) (conn : link) (packets : list (list byte)) (k : Z) (ins : list Input)
    (client : link) (log : list event) : tworld :=
  mkWorld (mkSession StateTransferBarrier (Some (set_phase k (handle_all b0 ins)))) conn
    (mkPrepared true packets false SigOpen None) client log.

Lemma run_tops_app l1 l2 w : run_tops (l1 ++ l2) w = (w ← run_tops l1 w; run_tops l2 w).
Proof. revert w. induction l1 as [|t l1 IH]; intros w; [done|]. cbn. destruct (run_top w t); [apply IH|done]. Qed.

Lemma run_tops_cons t l w : run_tops ([t] ++ l) w = (w ← run_top w t; run_tops l w).
Proof. done. Qed.

(** The barrier takes every input without an error. *)
Fixpoint accepted (b : barrierState) (ins : list Input) : bool :=
  match ins with
  | [] => true
  | i :: ins => match handle b i with (_, None, b') => accepted b' ins | (_, Some _, _) => false end
  end.

Definition taken (xs : list Input) : list event := (fun i => EvInput i None) <$> xs.

Lemma accepted_app l1 l2 : forall b, accepted b (l1 ++ l2) = accepted b l1 && accepted (handle_all b l1) l2.
Proof.
  induction l1 as [|i l1 IH]; intros b; [done|]. cbn. change (handle_all b (i :: l1)) with (handle_all (snd (handle b i)) l1).
  destruct (handle b i) as [[d [e|]] b'] eqn:E; [done|]. by rewrite IH.
Qed.

Lemma handle_error_set_phase p b i : snd (fst (handle (set_phase p b) i)) = snd (fst (handle b i)).
Proof.
  unfold handle. destruct (in_Kind i); cbn -[bool_decide]; try done; [case_bool_decide|destruct (_ <=? _)]; done.
Qed.

Lemma run_atomics_inputs b0 conn packets k client xs : forall ins log,
  accepted (handle_all b0 ins) xs = true ->
  run_atomics (AInput <$> xs) (open_world b0 conn packets k ins client log) =
  Some (open_world b0 conn packets k (ins ++ xs) client (log ++ taken xs)).
Proof.
  induction xs as [|i xs IH]; intros ins log Ha; [cbn; by rewrite !app_nil_r|].
  cbn in Ha. destruct (handle (handle_all b0 ins) i) as [[d [e|]] b'] eqn:Eh; [done|].
  assert (E : run_atomic (open_world b0 conn packets k ins client log) (AInput i) =
    Some (open_world b0 conn packets k (ins ++ [i]) client (log ++ [EvInput i None]))).
  { unfold run_atomic, open_world, logged, tw_set_session. cbn [tw_session tw_conn tw_prepared tw_client tw_log].
    rewrite HandleBarrierInput_active, handle_set_phase, handle_all_snoc.
    pose proof (handle_error_set_phase k (handle_all b0 ins) i) as He. rewrite Eh in He.
    destruct (fst (handle (set_phase k (handle_all b0 ins)) i)) as [d' e']. cbn in He. by subst e'. }
  cbn [fmap list_fmap run_atomics]. rewrite E. cbn [mbind option_bind].
  assert (Ha' : accepted (handle_all b0 (ins ++ [i])) xs = true) by (by rewrite handle_all_snoc, Eh).
  transitivity (run_atomics (AInput <$> xs) (open_world b0 conn packets k (ins ++ [i]) client (log ++ [EvInput i None]))); [done|].
  rewrite IH by done. by rewrite <-!app_assoc.
Qed.

Lemma run_tops_inputs b0 conn packets k client xs ins log :
  accepted (handle_all b0 ins) xs = true ->
  run_tops ((fun i => TAtomic (AInput i)) <$> xs) (open_world b0 conn packets k ins client log) =
  Some (open_world b0 conn packets k (ins ++ xs) client (log ++ taken xs)).
Proof.
  intros Ha. rewrite <-run_atomics_inputs by done. generalize (open_world b0 conn packets k ins client log). clear Ha.
  induction xs as [|i xs IH]; intros w; [done|]. cbn. destruct (HandleBarrierInput _ _) as [[d e] s0]. cbn. apply IH.
Qed.

Lemma phase_check_open b0 conn packets k ins client log want :
  phase_check (open_world b0 conn packets k ins client log) want =
  if negb (k =? want) then Some ErrBarrierNotReady else None.
Proof. done. Qed.

Lemma advance_open b0 conn packets k ins client log :
  0 <= k < 255 ->
  AdvanceBarrier (tw_session (open_world b0 conn packets k ins client log)) (k + 1) =
  (None, tw_session (open_world b0 conn packets (k + 1) ins client log)).
Proof.
  intros Hk. unfold open_world. cbn [tw_session]. rewrite AdvanceBarrier_active. cbn [phase set_phase].
  unfold uint8. rewrite Z.mod_small by lia. by rewrite Z.eqb_refl.
Qed.

Lemma link_WriteAll_ok ps : forall l,
  writable l -> Forall (frame_fits l) ps ->
  link_WriteAll l ps = (None, mkLink (lk_in l) (lk_end l) (lk_out l ++ ps) None (lk_werr l) false (lk_threshold l) (lk_maxPacketSize l)).
Proof.
  induction ps as [|p ps IH]; intros l Hw Hf; cbn.
  - rewrite app_nil_r. destruct Hw as [Hc Hr]. destruct l; cbn in *; by subst.
  - inversion_clear Hf as [|? ? Hf1 Hf2]. destruct Hw as [Hc Hr]. rewrite link_WriteFrame_ok by done.
    rewrite IH; [cbn; by rewrite <-app_assoc|done|exact Hf2].
Qed.

(** The client after receiving [ps]. *)
Definition received (l : link) (ps : list (list byte)) : link :=
  mkLink (lk_in l) (lk_end l) (lk_out l ++ ps) None (lk_werr l) false (lk_threshold l) (lk_maxPacketSize l).

Lemma run_begin b0 conn packets ins client log xs :
  writable client -> frame_fits client StartConfigurationPayload -> accepted (handle_all b0 ins) xs = true ->
  run_top (open_world b0 conn packets 3 ins client log) (TBegin (AInput <$> xs)) =
  Some (open_world b0 conn packets 3 (ins ++ xs) (received client [StartConfigurationPayload])
          (log ++ taken xs ++ [EvBegin None])).
Proof.
  intros [Hc Hr] Hf Ha. cbn [run_top]. unfold BeginClientConfiguration. rewrite phase_check_open.
  cbn [negb Z.eqb tw_client open_world]. change (negb (3 =? BarrierAwaitingClientConfigurationStart)) with false.
  rewrite link_WriteFrame_ok by done.
  change (tw_set_client _ _) with (open_world b0 conn packets 3 ins (received client [StartConfigurationPayload]) log).
  rewrite run_atomics_inputs, phase_check_open by done. cbn. unfold logged, open_world. cbn. by rewrite <-app_assoc.
Qed.

Lemma run_write b0 conn packets ins client log xs :
  writable client -> Forall (frame_fits client) (packets ++ [FinishPayload]) -> accepted (handle_all b0 ins) xs = true ->
  run_top (open_world b0 conn packets 4 ins client log) (TWrite (AInput <$> xs)) =
  Some (open_world b0 conn packets 5 (ins ++ xs) (received client (packets ++ [FinishPayload]))
          (log ++ taken xs ++ [EvWrite None])).
Proof.
  intros Hw Hf Ha. cbn [run_top]. unfold WriteClientConfiguration. rewrite phase_check_open.
  cbn [tw_client tw_prepared pp_packets open_world]. change (negb (4 =? BarrierClientConfiguration)) with false.
  rewrite link_WriteAll_ok by done.
  change (tw_set_client _ _) with (open_world b0 conn packets 4 ins (received client (packets ++ [FinishPayload])) log).
  rewrite run_atomics_inputs, phase_check_open by done. change (negb (4 =? BarrierClientConfiguration)) with false. cbn [negb].
  change BarrierAwaitingClientConfigurationFinish with (4 + 1). rewrite advance_open by lia.
  cbn. unfold logged, open_world. cbn. by rewrite <-app_assoc.
Qed.

Lemma run_advance b0 conn packets k ins client log a :
  k = 3 /\ a = AAdvanceStart \/ k = 5 /\ a = AAdvanceReady ->
  run_top (open_world b0 conn packets k ins client log) (TAtomic a) =
  Some (open_world b0 conn packets (k + 1) ins client (log ++ [EvAdvance (k + 1) None])).
Proof.
  intros [[-> ->]|[-> ->]]; cbn [run_top run_atomic];
    [change BarrierClientConfiguration with (3 + 1)|change BarrierReady with (5 + 1)]; by rewrite advance_open by lia.
Qed.

Lemma run_release b0 conn packets ins client log :
  run_top (open_world b0 conn packets 6 ins client log) (TAtomic ARelease) =
  Some (mkWorld (mkSession StateBackendPlay None) conn (mkPrepared false packets true SigClosed None) client
          (log ++ [EvRelease (Ok (replay (handle_all b0 ins), true))])).
Proof. done. Qed.

Definition inputs_top (xs : list Input) : list top := (fun i => TAtomic (AInput i)) <$> xs.

(** Steps that went through. *)
Definition went_through (ev : event) : Prop :=
  match ev with EvInput _ e | EvAdvance _ e | EvBegin e | EvWrite e => e = None | _ => False end.

(** What the session loop does with a prepared transfer. *)
Definition loop_calls : list top :=
  [TBegin []; TAtomic AAdvanceStart; TWrite []; TAtomic AAdvanceReady; TAtomic ARelease].

Lemma taken_succeeded xs : Forall went_through (taken xs).
Proof. apply Forall_fmap, Forall_true. done. Qed.

Lemma cooperative_run b0 conn packets client x1 x2 x3 x4 x5 x6 :
  writable client -> frame_fits client StartConfigurationPayload -> Forall (frame_fits client) (packets ++ [FinishPayload]) ->
  accepted b0 (x1 ++ x2 ++ x3 ++ x4 ++ x5 ++ x6) = true ->
  exists w log,
    run_tops (inputs_top x1 ++ [TBegin (AInput <$> x2)] ++ inputs_top x3 ++ [TAtomic AAdvanceStart] ++
              [TWrite (AInput <$> x4)] ++ inputs_top x5 ++ [TAtomic AAdvanceReady] ++ inputs_top x6 ++ [TAtomic ARelease])
      (open_world b0 conn packets 3 [] client []) = Some w /\
    tw_log w = log ++ [EvRelease (Ok (replay (handle_all b0 (x1 ++ x2 ++ x3 ++ x4 ++ x5 ++ x6)), true))] /\
    Forall went_through log /\ tw_session w = mkSession StateBackendPlay None /\ tw_conn w = conn /\
    lk_out (tw_client w) = lk_out client ++ StartConfigurationPayload :: packets ++ [FinishPayload].
Proof.
  intros Hw Hf1 Hf2 Ha. rewrite !accepted_app, <-!handle_all_app, !andb_true_iff in Ha. destruct Ha as (A1 & A2 & A3 & A4 & A5 & A6).
  unfold inputs_top. rewrite run_tops_app, run_tops_inputs by done. cbn [mbind option_bind]. rewrite !app_nil_l.
  rewrite run_tops_cons, run_begin by done. cbn [mbind option_bind].
  rewrite run_tops_app, run_tops_inputs by done. cbn [mbind option_bind].
  rewrite run_tops_cons, run_advance by (by left). cbn [mbind option_bind].
  rewrite run_tops_cons, run_write by done. cbn [mbind option_bind].
  rewrite run_tops_app, run_tops_inputs by done. cbn [mbind option_bind].
  rewrite run_tops_cons, run_advance by (by right). cbn [mbind option_bind].
  rewrite run_tops_app, run_tops_inputs by done. cbn [mbind option_bind].
  cbn [run_tops]. rewrite run_release. cbn [mbind option_bind]. eexists _, _. split; [reflexivity|]. split.
  { cbn [tw_log]. apply f_equal2; [reflexivity|]. by rewrite <-!app_assoc. }
  split; [|split; [done|split; [done|cbn; by rewrite <-app_assoc]]].
  repeat (apply Forall_app; split); try apply taken_succeeded; repeat constructor.
Qed.

(** The client was told to reconfigure. *)
Definition begun (log : list event) : bool :=
  existsb (fun ev => match ev with EvBegin None => true | _ => false end) log.

(** An undecided transfer is completed by the calls of the loop that are left. *)
Lemma undecided_completes b0 packets w :
  transfer_inv b0 packets w -> Forall undecided (tw_log w) -> writable (tw_client w) ->
  Forall (frame_fits (tw_client w)) (StartConfigurationPayload :: packets ++ [FinishPayload]) ->
  exists calls w' log, calls `suffix_of` loop_calls /\
    (Session_BarrierPhase (tw_session w) = Ok BarrierAwaitingClientConfigurationStart -> begun (tw_log w) = false -> calls = loop_calls) /\
    run_tops calls w = Some w' /\ Forall went_through log /\
    tw_log w' = tw_log w ++ log ++ [EvRelease (Ok (replay (handle_all b0 (log_inputs (tw_log w))), true))] /\
    tw_session w' = mkSession StateBackendPlay None /\ lk_closed (tw_conn w') = false.
Proof.
  intros Hi Hu Hw Hf.
  assert (Hdec : forall ev pre post, tw_log w = pre ++ ev :: post -> decides ev = false).
  { intros ev pre post E. rewrite E in Hu. by apply Forall_app in Hu as [_ [? _]%Forall_cons]. }
  destruct Hi as [k Hk Hs Hp Hc Hl|pre post Hl ? ? ? ? ?|pre e post fe Hl ? ? He ? ? ?]; [|by apply Hdec in Hl|].
  2: { apply Hdec in Hl. by destruct He as [[-> _]|[-> _]]. }
  inversion_clear Hf as [|? ? Hf1 Hf2]. set (ins := log_inputs (tw_log w)) in *.
  assert (E : w = open_world b0 (tw_conn w) packets k ins (tw_client w) (tw_log w)).
  { destruct w as [ws wc wp wcl wl]. cbn in *. unfold open_world. by subst ws wp. }
  set (conn := tw_conn w) in *. set (client := tw_client w) in *. set (log := tw_log w) in *. clearbody ins conn client log. subst w.
  assert (H6 : forall cl lg, run_tops [TAtomic ARelease] (open_world b0 conn packets 6 ins cl lg) =
    Some (mkWorld (mkSession StateBackendPlay None) conn (mkPrepared false packets true SigClosed None) cl
            (lg ++ [EvRelease (Ok (replay (handle_all b0 ins), true))]))) by done.
  assert (H5 : forall cl lg, run_tops [TAtomic AAdvanceReady; TAtomic ARelease] (open_world b0 conn packets 5 ins cl lg) =
    run_tops [TAtomic ARelease] (open_world b0 conn packets 6 ins cl (lg ++ [EvAdvance 6 None]))).
  { intros cl lg. cbn [run_tops]. rewrite run_advance by (by right). done. }
  assert (H4 : forall client lg, writable client -> Forall (frame_fits client) (packets ++ [FinishPayload]) -> exists cl,
    run_tops [TWrite []; TAtomic AAdvanceReady; TAtomic ARelease] (open_world b0 conn packets 4 ins client lg) =
    run_tops [TAtomic AAdvanceReady; TAtomic ARelease] (open_world b0 conn packets 5 ins cl (lg ++ [EvWrite None]))).
  { intros cl lg Hw' Hf'. eexists. pose proof (run_write b0 conn packets ins cl lg [] Hw' Hf' eq_refl) as E. rewrite app_nil_r in E. cbn [fmap list_fmap] in E. cbn [run_tops]. by rewrite E. }
  assert (H3 : forall cl lg, run_tops [TAtomic AAdvanceStart; TWrite []; TAtomic AAdvanceReady; TAtomic ARelease] (open_world b0 conn packets 3 ins cl lg) =
    run_tops [TWrite []; TAtomic AAdvanceReady; TAtomic ARelease] (open_world b0 conn packets 4 ins cl (lg ++ [EvAdvance 4 None]))).
  { intros cl lg. change (TAtomic AAdvanceStart :: ?l) with ([TAtomic AAdvanceStart] ++ l). rewrite run_tops_cons, run_advance by (by left). done. }
  assert (Hk' : k = 3 \/ k = 4 \/ k = 5 \/ k = 6) by lia. destruct Hk' as [->|[->|[->| ->]]].
  - destruct (begun log) eqn:Hb.
    + destruct (H4 client (log ++ [EvAdvance 4 None]) Hw Hf2) as [cl E4].
      exists (drop 1 loop_calls). eexists _, [EvAdvance 4 None; EvWrite None; EvAdvance 6 None].
      split; [by eexists [_]|]. split; [done|]. split.
      { unfold loop_calls. cbn [drop]. rewrite H3, E4, H5, H6. reflexivity. }
      split; [repeat constructor|]. cbn. by rewrite <-!app_assoc.
    + destruct (H4 (received client [StartConfigurationPayload]) ((log ++ [EvBegin None]) ++ [EvAdvance 4 None])) as [cl E4]; [done..|].
      exists loop_calls. eexists _, [EvBegin None; EvAdvance 4 None; EvWrite None; EvAdvance 6 None].
      split; [done|]. split; [done|]. split.
      { unfold loop_calls. pose proof (run_begin b0 conn packets ins client log [] Hw Hf1 eq_refl) as E.
        rewrite app_nil_r in E. cbn [fmap list_fmap taken app] in E. change (TBegin [] :: ?l) with ([TBegin []] ++ l).
        rewrite run_tops_cons. cbn [fmap list_fmap]. setoid_rewrite E. cbn [mbind option_bind].
        rewrite H3, E4, H5, H6. reflexivity. }
      split; [repeat constructor|]. cbn. by rewrite <-!app_assoc.
  - destruct (H4 client log Hw Hf2) as [cl E4]. exists (drop 2 loop_calls). eexists _, [EvWrite None; EvAdvance 6 None].
    split; [by eexists [_; _]|]. split; [done|]. split.
    { unfold loop_calls. cbn [drop]. rewrite E4, H5, H6. reflexivity. }
    split; [repeat constructor|]. cbn. by rewrite <-!app_assoc.
  - exists (drop 3 loop_calls). eexists _, [EvAdvance 6 None]. split; [by eexists [_; _; _]|]. split; [done|]. split.
    { unfold loop_calls. cbn [drop]. rewrite H5, H6. reflexivity. }
    split; [repeat constructor|]. cbn. by rewrite <-!app_assoc.
  - exists (drop 4 loop_calls). eexists _, []. split; [by eexists [_; _; _; _]|]. split; [done|]. split.
    { unfold loop_calls. cbn [drop]. rewrite H6. reflexivity. }
    split; [constructor|]. done.
Qed.

(** ** Properties *)

(** Why a preparation failed, and what it leaves behind. *)
Inductive prepare_failure (foreign : error -> string) (json : gostring -> option gostring) (c : Coordinator) (env : prepare_env)
    (s : Session) (identity : PlayerIdentity) (olds : list Z) : error -> Session -> Coordinator -> option link -> Prop :=
| fail_configured :
    co_dialer c = None \/ co_forwarder c = None ->
    prepare_failure foreign json c env s identity olds ErrTransferNotConfigured s c None
| fail_begin dialer forwarder e :
    co_dialer c = Some dialer -> co_forwarder c = Some forwarder ->
    fst (BeginTransfer s (pe_now env) olds (tc_MaxPendingCommands (co_config c))) = Some e ->
    prepare_failure foreign json c env s identity olds e s c None
| fail_dial dialer forwarder e dialer' dropped conn :
    co_dialer c = Some dialer -> co_forwarder c = Some forwarder ->
    fst (BeginTransfer s (pe_now env) olds (tc_MaxPendingCommands (co_config c))) = None ->
    Dial foreign dialer (pe_now env) (pe_dial env) (id_Username identity) (id_UUID identity) = (Err e, dialer', dropped) ->
    (forall l, conn = Some l -> lk_closed l = true) ->
    (is_Some conn <-> exists t, pe_dial env = Ok t /\ cf_Address (dl_config dialer) <> []) ->
    hl_State (dl_health dialer') = HealthUnhealthy /\ hl_LastError (dl_health dialer') = Error foreign e ->
    prepare_failure foreign json c env s identity olds e (mkSession StateLimboPlay None) (set_dialer c dialer') conn
| fail_dialogue dialer forwarder e dialer' dialer'' conn0 conn1 conn :
    co_dialer c = Some dialer -> co_forwarder c = Some forwarder ->
    fst (BeginTransfer s (pe_now env) olds (tc_MaxPendingCommands (co_config c))) = None ->
    Dial foreign dialer (pe_now env) (pe_dial env) (id_Username identity) (id_UUID identity) = (Ok conn0, dialer', None) ->
    (CompleteLogin json (pe_loginErr env) conn0 (Some forwarder) identity = (Err e, conn1) \/
     exists lr conn2, CompleteLogin json (pe_loginErr env) conn0 (Some forwarder) identity = (Ok lr, conn2) /\
       CompleteConfiguration (pe_configErr env) conn2 (tc_Configuration (co_config c)) = (Err e, conn1)) ->
    lk_closed conn = true ->
    (if errors_Is e context_Canceled then dialer'' = dialer'
     else hl_State (dl_health dialer'') = HealthUnhealthy /\ hl_LastError (dl_health dialer'') = Error foreign e) ->
    prepare_failure foreign json c env s identity olds e (mkSession StateLimboPlay None) (set_dialer c dialer'') (Some conn).

Lemma Prepare_Err_stages foreign json c env s identity olds e s' c' conn :
  Prepare foreign json c env s identity olds = (Err e, s', c', conn) ->
  prepare_failure foreign json c env s identity olds e s' c' conn.
Proof.
  destruct (co_dialer c) as [dialer|] eqn:Hd.
  2: { unfold Prepare. rewrite Hd. intros; simplify_eq. constructor; by left. }
  destruct (co_forwarder c) as [forwarder|] eqn:Hf.
  2: { unfold Prepare. rewrite Hd, Hf. intros; simplify_eq. constructor; by right. }
  destruct (BeginTransfer s (pe_now env) olds (tc_MaxPendingCommands (co_config c))) as [[err|] s1] eqn:Hb.
  { unfold Prepare. rewrite Hd, Hf, Hb. pose proof (BeginTransfer_Some _ _ _ _ _ _ Hb) as ->. intros; simplify_eq.
    eapply fail_begin; [done|done|by rewrite Hb]. }
  rewrite (Prepare_spec _ _ _ _ _ _ _ dialer forwarder s1) by done. unfold prepare_spec.
  assert (Hmark : forall d err,
    let d' := if errors_Is err context_Canceled then d else MarkUnhealthy foreign d (pe_now env) (Some err) in
    if errors_Is err context_Canceled then d' = d
    else hl_State (dl_health d') = HealthUnhealthy /\ hl_LastError (dl_health d') = Error foreign err).
  { intros d err. cbn zeta. destruct (errors_Is err context_Canceled); [done|apply health_set_err]. }
  destruct (Dial _ _ _ _ _ _) as [[[conn0|err] dialer'] dropped] eqn:HD; pose proof (Dial_dropped _ _ _ _ _ _ _ _ _ HD) as Hdr; cbn in Hdr.
  2: { intros; simplify_eq. destruct Hdr as [_ Hdr].
    eapply fail_dial; [done|done|by rewrite Hb|done| |by rewrite fmap_is_Some|by eapply Dial_err_health].
    intros l Hl. apply fmap_Some in Hl as (l0 & _ & ->). done. }
  subst dropped. destruct (CompleteLogin _ _ _ _ _) as [[lr|err] conn1] eqn:HL.
  2: { intros; simplify_eq. eapply fail_dialogue; [done|done|by rewrite Hb|done|by left|done|apply Hmark]. }
  destruct (CompleteConfiguration _ _ _) as [[packets|err] l] eqn:HC; [done|].
  intros; simplify_eq. eapply fail_dialogue; [done|done|by rewrite Hb|done| |done|apply Hmark]. right. eauto.
Qed.


(** C3: a prepared transfer is decided exactly once. From any successful
    [Prepare] and for any interleaving of client inputs, acknowledgements,
    configuration writes, releases, rollbacks and the barrier timer, nothing
    panics, and either nobody has decided it (the session is in the barrier, the
    backend connection open and owned by the transfer), or exactly one step did:
    a release, which handed over the open connection with the specified replay of
    every input since the transfer began and put the session in backend play; or
    a rollback or the timer, which closed the connection and put the session back
    in Limbo. Every later attempt finds the transfer finalized. *)
Theorem transfer_decided_once foreign json c env s identity olds p s' c' conn client ops :
  Prepare foreign json c env s identity olds = (Ok p, s', c', Some conn) ->
  exists w, run_tops ops (prepared_world s' conn p client) = Some w /\
    let m := tc_MaxPendingCommands (co_config c) in
    (Forall undecided (tw_log w) /\ state (tw_session w) = StateTransferBarrier /\ lk_closed (tw_conn w) = false /\
       pp_backend (tw_prepared w) = true /\ pp_finalized (tw_prepared w) = false \/
     exists pre ev post, tw_log w = pre ++ ev :: post /\ Forall undecided pre /\ Forall undecided post /\
       pp_backend (tw_prepared w) = false /\ pp_finalized (tw_prepared w) = true /\ pp_done (tw_prepared w) = SigClosed /\
       (ev = EvRelease (Ok (spec_replay m (env_inputs env ++ log_inputs pre), true)) /\
          tw_session w = mkSession StateBackendPlay None /\ lk_closed (tw_conn w) = false \/
        (ev = EvRollback None \/ ev = EvTimeout true /\ pp_finalErr (tw_prepared w) = Some ErrTransferTimedOut) /\
          tw_session w = mkSession StateLimboPlay None /\ lk_closed (tw_conn w) = true)).
Proof.
  intros HP. cbn zeta. set (m := tc_MaxPendingCommands (co_config c)).
  pose proof (prepared_world_inv _ _ _ _ _ _ _ _ _ _ _ client HP) as Hi. set (b0 := handle_all _ _) in Hi.
  destruct (transfer_inv_tops _ _ ops _ Hi) as (w & Hw & Hi'). exists w. split; [done|].
  destruct Hi' as [k Hk Hs' Hp' Hc' Hl|pre post Hl H1 H2 Hs' Hp' Hc'|pre ev post fe Hl H1 H2 He Hs' Hp' Hc'].
  - left. rewrite Hs', Hp'. done.
  - right. unfold b0 in Hl. rewrite <-handle_all_app, handle_all_replay in Hl. eexists pre, _, post.
    rewrite Hp'. split_and!; [exact Hl|done..|]. left. done.
  - right. exists pre, ev, post. rewrite Hp'. split_and!; [exact Hl|done..|]. right. split; [|done].
    destruct He as [[-> ->]|[-> ->]]; auto.
Qed.

(** C12: a prepared transfer completes with a cooperative client, unless the
    barrier timer or a rollback decides it first. First, when the client accepts
    the frames and acknowledges in order, and the inputs arriving at any point in
    between are ones the barrier takes, no step fails, the release succeeds with the
    specified replay of all of them, and the client has received exactly the start
    of configuration, the backend's configuration packets in order, and the end of
    configuration. Second, after any interleaving of steps that has not decided the
    transfer, what is left of the calls of the session loop completes it, all of
    them when the client has not been told to reconfigure, with the replay of every
    input handled. *)
Theorem transfer_completes foreign json c env s identity olds p s' c' conn client :
  Prepare foreign json c env s identity olds = (Ok p, s', c', Some conn) ->
  let m := tc_MaxPendingCommands (co_config c) in
  let fits l := writable l /\ Forall (frame_fits l) (StartConfigurationPayload :: pp_packets p ++ [FinishPayload]) in
  (forall x1 x2 x3 x4 x5 x6,
    fits client -> accepted (newBarrier (pe_now env) olds m) (env_inputs env ++ x1 ++ x2 ++ x3 ++ x4 ++ x5 ++ x6) = true ->
    exists w log,
      run_tops (inputs_top x1 ++ [TBegin (AInput <$> x2)] ++ inputs_top x3 ++ [TAtomic AAdvanceStart] ++
                [TWrite (AInput <$> x4)] ++ inputs_top x5 ++ [TAtomic AAdvanceReady] ++ inputs_top x6 ++ [TAtomic ARelease])
        (prepared_world s' conn p client) = Some w /\
      tw_log w = log ++ [EvRelease (Ok (spec_replay m (env_inputs env ++ x1 ++ x2 ++ x3 ++ x4 ++ x5 ++ x6), true))] /\
      Forall went_through log /\
      tw_session w = mkSession StateBackendPlay None /\ tw_conn w = conn /\ lk_closed conn = false /\
      lk_out (tw_client w) = lk_out client ++ StartConfigurationPayload :: pp_packets p ++ [FinishPayload]) /\
  (forall ops w, run_tops ops (prepared_world s' conn p client) = Some w -> Forall undecided (tw_log w) -> fits (tw_client w) ->
    exists calls w' log, calls `suffix_of` loop_calls /\
      (Session_BarrierPhase (tw_session w) = Ok BarrierAwaitingClientConfigurationStart -> begun (tw_log w) = false -> calls = loop_calls) /\
      run_tops calls w = Some w' /\ Forall went_through log /\
      tw_log w' = tw_log w ++ log ++ [EvRelease (Ok (spec_replay m (env_inputs env ++ log_inputs (tw_log w)), true))] /\
      tw_session w' = mkSession StateBackendPlay None /\ lk_closed (tw_conn w') = false).
Proof.
  intros HP. cbn zeta. set (m := tc_MaxPendingCommands (co_config c)). split.
  - intros x1 x2 x3 x4 x5 x6 [Hw Hf] Ha. apply Prepare_Ok_inv in HP as (Hc & Hp & ->). inversion_clear Hf as [|? ? Hf1 Hf2].
    fold m. set (b0 := handle_all _ (env_inputs env)).
    assert (E : prepared_world (mkSession StateTransferBarrier (Some (set_phase BarrierAwaitingClientConfigurationStart b0))) conn p client
      = open_world b0 conn (pp_packets p) 3 [] client []) by (unfold prepared_world, open_world; by rewrite Hp).
    rewrite E. clear E. rewrite accepted_app in Ha. apply andb_true_iff in Ha as [_ Ha]. fold b0 in Ha.
    destruct (cooperative_run b0 conn (pp_packets p) client x1 x2 x3 x4 x5 x6 Hw Hf1 Hf2 Ha) as (w & log & Hrun & Hlog & Hs & rest).
    exists w, log. split; [exact Hrun|]. split; [|split_and!; try done; apply rest].
    rewrite Hlog. unfold b0. by rewrite <-handle_all_app, handle_all_replay.
  - intros ops w Hrun Hu [Hw Hf]. pose proof (prepared_world_inv _ _ _ _ _ _ _ _ _ _ _ client HP) as Hi. fold m in Hi.
    set (b0 := handle_all _ _) in Hi. destruct (transfer_inv_tops _ _ ops _ Hi) as (w1 & Hw1 & Hi1). rewrite Hrun in Hw1. injection Hw1 as <-.
    destruct (undecided_completes _ _ _ Hi1 Hu Hw Hf) as (calls & w' & log & Hsuf & Hcalls & Hr & Hs & Hl & rest).
    exists calls, w', log. split_and!; try done; try apply rest. rewrite Hl. unfold b0. by rewrite <-handle_all_app, handle_all_replay.
Qed.

(** A backend that asks for the identity, sends one registry packet and finishes. *)
Definition demo_coordinator : Coordinator :=
  mkCoordinator (Some (NewDialer (Backend.mkConfig (str "10.0.0.2:25565") (str "lobby") 25565 0 0))) (Some demo_forwarder)
    (mkTransferConfig 2 0 0 (mkConfigurationConfig 0 0 0)).
Definition demo_move (x : Z) : Input := mkInput InputMovement 0 (mkPosition x 2 3 4 5 true) true zero_command.
Definition demo_env : prepare_env :=
  mkPrepareEnv 7 (Ok (demo_backend (demo_login_frames ++ [varint 5 ++ [x0a; x00]; varint 2]))) None None [demo_move 1] [] [].
Definition demo_prepare : res Prepared * Session * Coordinator * option link :=
  Eval vm_compute in Prepare (fun _ => EmptyString) (fun _ => None) demo_coordinator demo_env demo_limbo demo_identity [9].
Definition demo_prepared : Prepared :=
  Eval vm_compute in match demo_prepare with (Ok p, _, _, _) => p | _ => mkPrepared false [] false SigNil None end.
Definition demo_conn : link :=
  Eval vm_compute in match demo_prepare with (_, _, _, Some l) => l | _ => demo_backend [] end.
Definition demo_session : Session := Eval vm_compute in snd (fst (fst demo_prepare)).
Definition demo_client : link := demo_backend [].

Lemma demo_prepare_ok :
  Prepare (fun _ => EmptyString) (fun _ => None) demo_coordinator demo_env demo_limbo demo_identity [9] =
  (Ok demo_prepared, demo_session, snd (fst demo_prepare), Some demo_conn).
Proof. vm_compute. reflexivity. Qed.


Lemma transfer_decided_once_witness :
  exists w, run_tops [TAtomic (AInput (demo_move 4)); TBegin [ATimeout; ARollback]; TAtomic ARelease]
              (prepared_world demo_session demo_conn demo_prepared demo_client) = Some w /\
    tw_session w = mkSession StateLimboPlay None.
Proof.
  destruct (transfer_decided_once _ _ _ _ _ _ _ _ _ _ _ demo_client
    [TAtomic (AInput (demo_move 4)); TBegin [ATimeout; ARollback]; TAtomic ARelease] demo_prepare_ok) as (w & Hw & _).
  exists w. split; [exact Hw|]. vm_compute in Hw. injection Hw as <-. reflexivity.
Defined.

Lemma transfer_completes_witness :
  exists w log,
    run_tops (inputs_top [] ++ [TBegin (AInput <$> [])] ++ inputs_top [demo_move 4] ++ [TAtomic AAdvanceStart] ++
              [TWrite (AInput <$> [])] ++ inputs_top [] ++ [TAtomic AAdvanceReady] ++ inputs_top [] ++ [TAtomic ARelease])
      (prepared_world demo_session demo_conn demo_prepared demo_client) = Some w /\
    tw_log w = log ++ [EvRelease (Ok (mkReplay (Some (mkPosition 4 2 3 4 5 true)) [], true))].
Proof.
  destruct (transfer_completes _ _ _ _ _ _ _ _ _ _ _ demo_client demo_prepare_ok) as [H _].
  destruct (H [] [] [demo_move 4] [] [] []) as (w & log & Hw & Hl & _).
  - split; [split; reflexivity|]. apply (bool_decide_unpack _). vm_compute. exact I.
  - vm_compute. reflexivity.
  - exists w, log. split; [exact Hw|exact Hl].
Defined.
