(* ===== verification/BarrierClient.v ===== *)
(** * Client packets in the transfer barrier (internal/server/server.go:
    handleBarrierFrame)

    The session loop hands every packet of a client whose session is in the
    barrier to [handleBarrierFrame]. A client run interleaves its frames with what
    the transfer goroutines do to the same session. *)

From S2P Require Import Prelude GoIO Varint Utf8 McString Frame Wire Crypto.
From S2P Require Import Configuration Play Forwarding Link Backend Bridge Queue Session Transfer.

(** ** Packets of a client in the barrier *)

(** [handleBarrierFrame]: the phase is read first; [between] is what other
    goroutines do to the session before the method that follows. *)
Definition handleBarrierFrame (between : Session -> Session) (state : Session) (id : Z) (frame : list byte)
    : option error * Session :=
  match Session_BarrierPhase state with
  | Err err => (Some err, state)
  | Ok phase =>
    let input state i := let '((_, err), state) := HandleBarrierInput (between state) i in (err, state) in
    if (phase =? BarrierAwaitingClientConfigurationStart) && (id =? ServerboundConfigurationAcknowledgedID) then
      match ParseConfigurationAcknowledged frame with
      | Some err => (Some err, between state)
      | None => AdvanceBarrier (between state) BarrierClientConfiguration
      end
    else if (phase =? BarrierAwaitingClientConfigurationFinish) && (id =? ServerboundFinishConfigurationID) then
      match ParseFinishAcknowledged frame with
      | Some err => (Some err, between state)
      | None => AdvanceBarrier (between state) BarrierReady
      end
    else if (phase =? BarrierAwaitingClientConfigurationFinish) &&
            ((id =? ServerboundClientInformationID) || (id =? ServerboundPluginMessageID)) then
      (ParseClientSetup frame, between state)
    else if (id =? ServerboundConfigurationAcknowledgedID) || (id =? ServerboundFinishConfigurationID) then
      (Some play_ErrMalformed, between state)
    else if id =? Play.ServerboundKeepAliveID then
      match ParseKeepAlive frame with
      | Err err => (Some err, between state)
      | Ok keepAliveID => input state (mkInput InputKeepAlive keepAliveID zero_position false zero_command)
      end
    else if (id =? ServerboundPositionID) || (id =? ServerboundPositionLookID) then
      match DecodeMovement frame with
      | Err err => (Some err, between state)
      | Ok m =>
        input state (mkInput InputMovement 0 (mkPosition (m_X m) (m_Y m) (m_Z m) (m_Yaw m) (m_Pitch m) (m_OnGround m))
                       (m_HasLook m) zero_command)
      end
    else if id =? ServerboundPlayerCommandID then
      match ParsePlayerCommand frame with
      | Err err => (Some err, between state)
      | Ok c =>
        input state (mkInput InputPlayerCommand 0 zero_position false
                       (Session.mkPlayerCommand (c_EntityID c) (c_ActionID c) (c_Data c)))
      end
    else input state (mkInput InputUnsafe 0 zero_position false zero_command)
  end.

(** What the session loop does with a client frame while the session is in the
    barrier, up to [progress]. *)
Definition barrier_frame (between : Session -> Session) (state : Session) (frame : list byte) : option error * Session :=
  match PacketID frame with
  | Err _ => (Some play_ErrMalformed, state)
  | Ok (id, _) => handleBarrierFrame between state id frame
  end.

(** *** A client in the barrier

    Client frames interleaved with what the transfer goroutines do to the session;
    an error ends the session. *)

Inductive client_step : Type :=
| CFrame (frame : list byte) (between : list op)
| COther (o : op).

Definition control_op (o : op) : bool :=
  match o with OpInput _ => false | _ => barrier_op o end.

Definition control_step (c : client_step) : bool :=
  match c with CFrame _ between => forallb control_op between | COther o => control_op o end.

Fixpoint run_client (s : Session) (steps : list client_step) : option error * Session :=
  match steps with
  | [] => (None, s)
  | CFrame frame between :: steps' =>
    match barrier_frame (fun s => run_ops s between) s frame with
    | (Some err, s) => (Some err, s)
    | (None, s) => run_client s steps'
    end
  | COther o :: steps' => run_client (snd (run_op s o)) steps'
  end.

Definition client_frames (steps : list client_step) : list (list byte) :=
  omap (fun c => match c with CFrame f _ => Some f | COther _ => None end) steps.

(** The movements and commands of a stream of play packets. *)
Definition frame_movement (f : list byte) : option Movement :=
  match DecodeMovement f with Ok m => Some m | Err _ => None end.
Definition frame_command (f : list byte) : option Play.PlayerCommand :=
  match ParsePlayerCommand f with Ok c => Some c | Err _ => None end.

(** The movement that stands for a sequence of movements: the last coordinates
    and the last look direction, zero if none was sent. *)
Definition last_look (ms : list Movement) : Z * Z :=
  match last (filter (fun m => m_HasLook m = true) ms) with
  | Some m => (m_Yaw m, m_Pitch m)
  | None => (0, 0)
  end.
Definition merged_movement (ms : list Movement) : option Movement :=
  (fun m => mkMovement (m_X m) (m_Y m) (m_Z m) (fst (last_look ms)) (snd (last_look ms)) (m_OnGround m) true) <$> last ms.

(** ** Lemmas: the barrier *)

(** The input a frame stands for in the barrier. *)
Definition movement_input (m : Movement) : Input :=
  mkInput InputMovement 0 (mkPosition (m_X m) (m_Y m) (m_Z m) (m_Yaw m) (m_Pitch m) (m_OnGround m)) (m_HasLook m) zero_command.
Definition command_of (c : Play.PlayerCommand) : PlayerCommand :=
  Session.mkPlayerCommand (c_EntityID c) (c_ActionID c) (c_Data c).
Definition command_input (c : Play.PlayerCommand) : Input :=
  mkInput InputPlayerCommand 0 zero_position false (command_of c).

(** Inputs carry the movements and commands of the frames, whatever else they
    hold. *)
Definition inputs_of_frames (fs : list (list byte)) (ins : list Input) : Prop :=
  movements ins = movement_input <$> omap frame_movement fs /\
  filter (fun i => in_Kind i = InputPlayerCommand) ins = command_input <$> omap frame_command fs.

Lemma frame_movement_id f m id body :
  PacketID f = Ok (id, body) -> DecodeMovement f = Ok m -> id = ServerboundPositionID \/ id = ServerboundPositionLookID.
Proof.
  unfold DecodeMovement. intros ->. destruct (Z.eqb_spec id ServerboundPositionID); [by left|].
  destruct (Z.eqb_spec id ServerboundPositionLookID); [by right|]. done.
Qed.

Lemma frame_command_id f c id body :
  PacketID f = Ok (id, body) -> ParsePlayerCommand f = Ok c -> id = ServerboundPlayerCommandID.
Proof.
  unfold ParsePlayerCommand. intros ->. by destruct (Z.eqb_spec id ServerboundPlayerCommandID).
Qed.

Lemma frame_movement_other f id body :
  PacketID f = Ok (id, body) -> id <> ServerboundPositionID -> id <> ServerboundPositionLookID -> frame_movement f = None.
Proof.
  intros Hid H1 H2. unfold frame_movement. destruct (DecodeMovement f) eqn:E; [|done].
  by destruct (frame_movement_id _ _ _ _ Hid E).
Qed.

Lemma frame_command_other f id body :
  PacketID f = Ok (id, body) -> id <> ServerboundPlayerCommandID -> frame_command f = None.
Proof.
  intros Hid H1. unfold frame_command. destruct (ParsePlayerCommand f) eqn:E; [|done].
  by destruct (frame_command_id _ _ _ _ Hid E).
Qed.

(** A frame accepted in the barrier is at most one session operation after those
    of the others: an advance, or an input that was accepted. *)
Lemma barrier_frame_op between s f s' :
  barrier_frame between s f = (None, s') ->
  (exists os, s' = run_ops (between s) os /\ forallb control_op os = true /\
     frame_movement f = None /\ frame_command f = None) \/
  (exists i d, HandleBarrierInput (between s) i = ((d, None), s') /\ inputs_of_frames [f] [i]).
Proof.
  unfold barrier_frame. destruct (PacketID f) as [[id body]|] eqn:Hid; [|done].
  unfold handleBarrierFrame. destruct (Session_BarrierPhase s) as [phase|]; [|done].
  pose proof (frame_movement_other _ _ _ Hid) as Hm. pose proof (frame_command_other _ _ _ Hid) as Hc.
  assert (Hin : forall i, (let '((_, err), s2) := HandleBarrierInput (between s) i in (err, s2)) = (None, s') ->
    exists d, HandleBarrierInput (between s) i = ((d, None), s')).
  { intros i. destruct (HandleBarrierInput (between s) i) as [[d e] s2]. intros [= -> ->]. by exists d. }
  assert (Hno : forall p, 0 <= p <= BarrierReady -> id <> ServerboundPositionID -> id <> ServerboundPositionLookID ->
    id <> ServerboundPlayerCommandID -> AdvanceBarrier (between s) p = (None, s') ->
    exists os, s' = run_ops (between s) os /\ forallb control_op os = true /\ frame_movement f = None /\ frame_command f = None).
  { intros p Hp Hn1 Hn2 Hn3 Ha. exists [OpAdvance p]. cbn [run_ops foldl run_op]. rewrite Ha. cbn. split_and!; auto.
    rewrite !(proj2 (Z.leb_le _ _)) by lia. done. }
  destruct ((phase =? _) && (id =? ServerboundConfigurationAcknowledgedID)) eqn:E1.
  { bool_facts. subst id. destruct (ParseConfigurationAcknowledged f); [done|]. intros Ha. left.
    by apply (Hno BarrierClientConfiguration); [by vm_compute|..]. }
  destruct ((phase =? _) && (id =? ServerboundFinishConfigurationID)) eqn:E2.
  { bool_facts. subst id. destruct (ParseFinishAcknowledged f); [done|]. intros Ha. left.
    by apply (Hno BarrierReady); [by vm_compute|..]. }
  destruct ((phase =? _) && ((id =? ServerboundClientInformationID) || _)) eqn:E3.
  { intros [= _ <-]. left. exists []. bool_facts. split_and!; [done|done|apply Hm|apply Hc];
      destruct (Z.eqb_spec id ServerboundClientInformationID); cbn in *; bool_facts; subst id; done. }
  destruct ((id =? ServerboundConfigurationAcknowledgedID) || _) eqn:E4; [done|].
  destruct (Z.eqb_spec id Play.ServerboundKeepAliveID) as [->|Hk].
  { destruct (ParseKeepAlive f) as [v|]; [|done]. intros H. apply Hin in H as [d H]. right. eexists _, d. split; [exact H|].
    split; cbn; rewrite ?Hm, ?Hc by done; done. }
  destruct ((id =? ServerboundPositionID) || _) eqn:E5.
  { destruct (DecodeMovement f) as [m|] eqn:Hd; [|done]. intros H. apply Hin in H as [d H]. right. eexists _, d. split; [exact H|].
    split; cbn; unfold frame_movement; rewrite ?Hd; [done|]. rewrite Hc; [done|].
    destruct (Z.eqb_spec id ServerboundPositionID); cbn in *; bool_facts; subst id; done. }
  destruct (Z.eqb_spec id ServerboundPlayerCommandID) as [->|Hp].
  { destruct (ParsePlayerCommand f) as [c|] eqn:Hd; [|done]. intros H. apply Hin in H as [d H]. right. eexists _, d. split; [exact H|].
    split; cbn; unfold frame_command; rewrite ?Hd; [|done]. by rewrite Hm. }
  intros H. apply Hin in H as [d H]. right. eexists _, d. split; [exact H|].
  apply orb_false_iff in E5 as [E5 E6]. bool_facts. split; cbn; rewrite ?Hm, ?Hc by done; done.
Qed.

Lemma run_ops_app s a b : run_ops s (a ++ b) = run_ops (run_ops s a) b.
Proof. unfold run_ops. by rewrite foldl_app. Qed.

Lemma succeeded_app a b : forall s, succeeded s (a ++ b) = succeeded s a ++ succeeded (run_ops s a) b.
Proof.
  induction a as [|o a IH]; intros s; [done|]. cbn [app succeeded run_ops foldl].
  destruct (run_op s o) as [ok s'] eqn:E. cbn [snd]. by rewrite IH, app_assoc.
Qed.

Lemma op_inputs_app a b : op_inputs (a ++ b) = op_inputs a ++ op_inputs b.
Proof. unfold op_inputs. by rewrite omap_app. Qed.

Lemma control_no_inputs os : forallb control_op os = true ->
  op_inputs os = [] /\ forallb barrier_op os = true /\ forall s, op_inputs (succeeded s os) = [].
Proof.
  induction os as [|o os IH]; [done|]. cbn [forallb]. intros [Ho Hos]%andb_true_iff.
  destruct (IH Hos) as (Hi & Hb & Hs). assert (Hb' : barrier_op o = true) by (destruct o; done).
  split_and!; [cbn; destruct o; done|by rewrite Hb', Hb|]. intros s. cbn [succeeded].
  destruct (run_op s o) as [[] s']; rewrite op_inputs_app, Hs; by destruct o.
Qed.

Lemma inputs_of_frames_app f1 f2 i1 i2 :
  inputs_of_frames f1 i1 -> inputs_of_frames f2 i2 -> inputs_of_frames (f1 ++ f2) (i1 ++ i2).
Proof.
  intros [Ha Hb] [Hc Hd]. unfold inputs_of_frames, movements in *.
  by rewrite !filter_app, Ha, Hb, Hc, Hd, !omap_app, !fmap_app.
Qed.

Lemma inputs_of_frames_none f :
  frame_movement f = None -> frame_command f = None -> inputs_of_frames [f] [].
Proof. intros Hm Hc. split; cbn; by rewrite ?Hm, ?Hc. Qed.

(** The operations on a session along a client run without error: the inputs are
    those of the frames, and each was accepted. *)
Lemma run_client_ops steps : forall s s',
  run_client s steps = (None, s') -> forallb control_step steps = true ->
  exists os, s' = run_ops s os /\ forallb barrier_op os = true /\
    inputs_of_frames (client_frames steps) (op_inputs os) /\ op_inputs (succeeded s os) = op_inputs os.
Proof.
  induction steps as [|[f btw|o] steps IH]; intros s s'; cbn [run_client forallb control_step].
  - intros [= <-] _. exists []. done.
  - destruct (barrier_frame _ s f) as [[err|] s1] eqn:Hf; [done|]. intros Hr [Hb Hs]%andb_true_iff.
    destruct (IH s1 s' Hr Hs) as (os & -> & Hos & Hin & Hsu).
    destruct (control_no_inputs btw Hb) as (Hb1 & Hb2 & Hb3).
    change (client_frames (CFrame f btw :: steps)) with ([f] ++ client_frames steps).
    destruct (barrier_frame_op _ _ _ _ Hf) as [(os1 & -> & Hc & Hm & Hcm)|(i & d & Hi & Hfi)].
    + destruct (control_no_inputs os1 Hc) as (Ho1 & Ho2 & Ho3).
      exists (btw ++ os1 ++ os). split_and!; rewrite ?run_ops_app, ?forallb_app, ?op_inputs_app; [done|by rewrite Hb2, Ho2| |].
      * rewrite Hb1, Ho1. apply (inputs_of_frames_app [f] _ [] _); [by apply inputs_of_frames_none|exact Hin].
      * by rewrite !succeeded_app, !op_inputs_app, Hb3, Ho3, Hb1, Ho1, Hsu.
    + assert (E : run_op (run_ops s btw) (OpInput i) = (true, s1)) by (cbn; by rewrite Hi).
      exists (btw ++ [OpInput i] ++ os). split_and!.
      * rewrite !run_ops_app. cbn [run_ops foldl]. by rewrite E.
      * rewrite !forallb_app, Hb2. cbn. done.
      * rewrite !op_inputs_app, Hb1. by apply (inputs_of_frames_app [f] _ [i]).
      * rewrite !succeeded_app, !op_inputs_app, Hb3, Hb1. cbn [run_ops foldl succeeded]. rewrite E. cbn [fst snd]. by rewrite Hsu.
  - intros Hr [Ho Hs]%andb_true_iff. destruct (IH _ _ Hr Hs) as (os & -> & Hos & Hin & Hsu).
    destruct (control_no_inputs [o]) as (Ho1 & Ho2 & Ho3); [cbn; by rewrite Ho|].
    exists ([o] ++ os). split_and!; rewrite ?run_ops_app, ?forallb_app, ?op_inputs_app; [done|by rewrite Ho2|by rewrite Ho1|].
    rewrite succeeded_app, op_inputs_app, Ho3, Ho1. exact Hsu.
Qed.

Lemma succeeded_inputs_le os : forall s, (length (op_inputs (succeeded s os)) <= length (op_inputs os))%nat.
Proof.
  induction os as [|o os IH]; intros s; [done|]. cbn [succeeded]. change (o :: os) with ([o] ++ os).
  destruct (run_op s o) as [[] s']; rewrite !op_inputs_app, !length_app; specialize (IH s'); cbn; lia.
Qed.

Lemma handle_set_phase_fst p b i : fst (handle (set_phase p b) i) = fst (handle b i).
Proof.
  unfold handle. destruct (in_Kind i); cbn -[bool_decide]; try done; [case_bool_decide|destruct (_ <=? _)]; done.
Qed.

(** When every input was accepted, no more commands came than are kept. *)
Lemma accepted_commands now ids m os :
  let s0 := mkSession StateTransferBarrier (Some (newBarrier now ids m)) in
  forallb barrier_op os = true -> op_inputs (succeeded s0 os) = op_inputs os ->
  blen (filter (fun i => in_Kind i = InputPlayerCommand) (op_inputs os)) <= Z.max 0 m.
Proof.
  intros s0. induction os as [|o os IH] using rev_ind; [intros; change (0 <= Z.max 0 m); lia|].
  rewrite forallb_app, succeeded_snoc, !op_inputs_app. cbn [forallb]. rewrite andb_true_r. intros [Hos Ho]%andb_true_iff Hs.
  pose proof (succeeded_inputs_le os s0) as Hle.
  destruct o as [| |i| | |]; try done.
  2-4: rewrite filter_app, app_nil_r in *; apply IH; [done|]; destruct (fst _); by rewrite ?app_nil_r in Hs.
  destruct (fst (run_op (run_ops s0 os) (OpInput i))) eqn:Hr.
  2: { apply (f_equal length) in Hs. rewrite !length_app in Hs. cbn in Hs. lia. }
  apply app_inj_tail in Hs as [Hs _]. specialize (IH Hos Hs). rewrite filter_app. change (op_inputs [OpInput i]) with [i].
  rewrite blen_app. destruct (decide (in_Kind i = InputPlayerCommand)) as [Hk|Hk].
  2: { rewrite filter_cons_False, filter_nil by done. change (blen (@nil Input)) with 0. lia. }
  rewrite filter_cons_True, filter_nil by done. change (blen [i]) with 1.
  destruct (barrier_run_all (newBarrier now ids m) s0 os eq_refl eq_refl Hos) as [k _ Ha _ _ _|Ha _]; cbn [run_op] in Hr.
  - rewrite Ha, HandleBarrierInput_active, handle_set_phase_fst, barrier_dispositions, Hk in Hr.
    destruct (Z.ltb_spec (blen (filter (fun j => in_Kind j = InputPlayerCommand) (op_inputs os))) m); [lia|done].
  - unfold HandleBarrierInput in Hr. rewrite Ha in Hr. done.
Qed.

Lemma filter_movement_look (ms : list Movement) :
  filter (fun i => in_HasLook i = true) (movement_input <$> ms) = movement_input <$> filter (fun m => m_HasLook m = true) ms.
Proof.
  induction ms as [|m ms IH]; [done|]. cbn [fmap list_fmap]. destruct (m_HasLook m) eqn:E.
  - rewrite !filter_cons_True by done. cbn. by rewrite IH.
  - by rewrite !filter_cons_False by (cbn; by rewrite E).
Qed.

Lemma merged_movement_ok ms m :
  Forall movement_ok ms -> merged_movement ms = Some m -> movement_ok m.
Proof.
  intros Hall. unfold merged_movement. destruct (last ms) as [l|] eqn:El; [|done]. cbn. intros [= <-].
  apply last_Some_elem_of in El. pose proof (proj1 (Forall_forall _ _) Hall l El) as Hl.
  unfold movement_ok in Hl. unfold last_look.
  destruct (last (filter _ ms)) as [k|] eqn:Ek; cbn.
  - apply last_Some_elem_of, list_elem_of_filter in Ek as [_ Hk]. pose proof (proj1 (Forall_forall _ _) Hall k Hk) as Hk'.
    unfold movement_ok in *. cbn. split_and!; try tauto. done.
  - unfold movement_ok. cbn. split_and!; try tauto; done.
Qed.

Lemma spec_position_merged ms ins :
  Forall movement_ok ms -> movements ins = movement_input <$> ms ->
  spec_position ins =
  (fun m => mkPosition (m_X m) (m_Y m) (m_Z m) (m_Yaw m) (m_Pitch m) (m_OnGround m)) <$> merged_movement ms.
Proof.
  intros Hall Hm. unfold spec_position, spec_look, merged_movement, last_look. rewrite Hm.
  rewrite fmap_last, filter_movement_look, fmap_last.
  destruct (last ms) as [l|] eqn:El; [|done]. cbn [fmap option_fmap option_map].
  set (fl := filter _ ms).
  destruct (last fl) as [k|] eqn:Ek; [done|]. cbn [fmap option_fmap option_map].
  destruct ms as [|m0 ms]; [done|]. cbn. inversion_clear Hall as [|? ? H0 _].
  assert (m_HasLook m0 = false) as Hn.
  { destruct (m_HasLook m0) eqn:E; [|done]. unfold fl in Ek. rewrite filter_cons_True in Ek by done.
    apply last_None in Ek. done. }
  destruct H0 as (_ & _ & _ & _ & _ & _ & _ & _ & _ & _ & H0). destruct (H0 Hn) as [-> ->]. done.
Qed.

Definition command_payload (c : Play.PlayerCommand) : list byte :=
  PlayerCommandPayload (c_EntityID c) (c_ActionID c) (c_Data c).

Lemma frame_movement_ok f m : frame_movement f = Some m -> movement_ok m.
Proof.
  unfold frame_movement. destruct (DecodeMovement f) eqn:E; [|done]. intros [= <-]. by apply DecodeMovement_sound in E as [? _].
Qed.

Lemma frame_command_ok f c : frame_command f = Some c -> command_ok c.
Proof.
  unfold frame_command. destruct (ParsePlayerCommand f) eqn:E; [|done]. intros [= <-]. by apply ParsePlayerCommand_iff in E as [? _].
Qed.

Lemma omap_Forall {A B} (f : A -> option B) (P : B -> Prop) l :
  (forall a b, f a = Some b -> P b) -> Forall P (omap f l).
Proof.
  intros H. apply Forall_forall. intros b (a & _ & Ha)%list_elem_of_omap. by eapply H.
Qed.

Lemma command_payload_decodes c : command_ok c -> frame_command (command_payload c) = Some c.
Proof.
  intros Hc. unfold frame_command, command_payload. rewrite (proj2 (ParsePlayerCommand_iff _ c)); [done|].
  split; [done|]. destruct Hc as (He & _ & Ha & Hd & _).
  exists (varint (c_EntityID c)), (varint (c_ActionID c)), (varint (c_Data c)).
  unfold PlayerCommandPayload. wire_norm.
  split_and!; [by apply enc_packet_varint|apply enc_varint_varint; unfold in_int32 in *; lia..].
Qed.

Lemma movement_payload_decodes m : movement_ok m -> frame_movement (movement_payload m) = Some m.
Proof.
  intros Hm. unfold frame_movement. rewrite (DecodeMovement_complete _ m); [done|done|].
  rewrite movement_payload_eq by done. apply enc_packet_varint. unfold movement_id. by destruct (m_HasLook m).
Qed.

Lemma omap_all {A B} (f : A -> option B) (g : B -> A) l :
  Forall (fun b => f (g b) = Some b) l -> omap f (g <$> l) = l.
Proof. induction 1 as [|b l H _ IH]; [done|]. cbn. by rewrite H, IH. Qed.

Lemma omap_none {A B} (f : A -> option B) l : Forall (fun a => f a = None) l -> omap f l = [].
Proof. induction 1 as [|b l H _ IH]; [done|]. cbn. by rewrite H, IH. Qed.

Lemma command_payload_no_movement c : frame_movement (command_payload c) = None.
Proof.
  unfold command_payload, PlayerCommandPayload. eapply (frame_movement_other _ ServerboundPlayerCommandID);
    [|done|done]. wire_norm. by apply PacketID_enc, enc_packet_varint.
Qed.

Lemma movement_payload_no_command m : movement_ok m -> m_HasLook m = true -> frame_command (movement_payload m) = None.
Proof.
  intros Hm Hl. rewrite movement_payload_eq by done. eapply (frame_command_other _ (movement_id m)).
  - apply PacketID_enc, enc_packet_varint. unfold movement_id. by rewrite Hl.
  - unfold movement_id. by rewrite Hl.
Qed.

(** The replay of accepted frames, as payloads. *)
Lemma replay_payloads m fs ins :
  inputs_of_frames fs ins -> blen (filter (fun i => in_Kind i = InputPlayerCommand) ins) <= Z.max 0 m ->
  ReplayPayloads (spec_replay m ins) =
  (movement_payload <$> option_list (merged_movement (omap frame_movement fs))) ++ (command_payload <$> omap frame_command fs).
Proof.
  intros [Hm Hc] Hle. unfold ReplayPayloads, spec_replay. cbn [re_Position re_Commands]. f_equal.
  - rewrite (spec_position_merged (omap frame_movement fs)); [|by eapply omap_Forall, frame_movement_ok|done].
    unfold merged_movement. by destruct (last _).
  - unfold spec_commands. rewrite take_ge by (rewrite length_fmap; unfold blen in Hle; lia).
    rewrite Hc. unfold fmap. rewrite !map_map. by apply map_ext.
Qed.

(** ** Properties of the barrier *)

(** C5: nothing a player does during a transfer is lost. Take any stream of client
    packets handled in the barrier without an error, interleaved in any way with
    what the transfer goroutines do to the session, up to the release. The packets
    then written to the backend are one movement, if any was received, with the
    last coordinates and the last look direction, followed by every player
    command, in order; the backend parses them back to exactly these. Every
    packet the client sends is a well-formed packet of its kind, or the session
    would have ended. *)
Theorem barrier_replays_client s now ids m s0 steps s1 r s2 :
  BeginTransfer s now ids m = (None, s0) -> forallb control_step steps = true ->
  run_client s0 steps = (None, s1) -> ReleaseTransfer s1 = (Ok r, s2) ->
  let ms := omap frame_movement (client_frames steps) in
  let cs := omap frame_command (client_frames steps) in
  ReplayPayloads r = (movement_payload <$> option_list (merged_movement ms)) ++ (command_payload <$> cs) /\
  omap frame_movement (ReplayPayloads r) = option_list (merged_movement ms) /\
  omap frame_command (ReplayPayloads r) = cs.
Proof.
  intros Hb Hcs Hrun Hrel. cbn zeta. apply BeginTransfer_None in Hb as [_ ->].
  destruct (run_client_ops _ _ _ Hrun Hcs) as (os & -> & Hos & Hin & Hsu).
  pose proof (accepted_commands now ids m os Hos Hsu) as Hle.
  assert (r = spec_replay m (op_inputs os)) as ->.
  { destruct (barrier_run_all (newBarrier now ids m) _ os eq_refl eq_refl Hos) as [k _ Ha _ _ _|Ha _].
    - rewrite Ha, ReleaseTransfer_active in Hrel. destruct (_ =? _); [|done]. simplify_eq.
      by rewrite replay_set_phase, handle_all_replay.
    - unfold ReleaseTransfer in Hrel. by rewrite Ha in Hrel. }
  rewrite (replay_payloads m (client_frames steps)) by done. rewrite !omap_app.
  set (ms := omap frame_movement _). set (cs := omap frame_command _).
  assert (Hms : Forall movement_ok ms) by (eapply omap_Forall, frame_movement_ok).
  assert (Hcok : Forall command_ok cs) by (eapply omap_Forall, frame_command_ok).
  assert (Hmo : Forall (fun x => movement_ok x /\ m_HasLook x = true) (option_list (merged_movement ms))).
  { destruct (merged_movement ms) as [x|] eqn:E; constructor; [|constructor]. split; [by eapply merged_movement_ok|].
    unfold merged_movement in E. destruct (last ms); by simplify_eq/=. }
  split_and!; [done| |].
  - rewrite omap_all by (eapply Forall_impl; [exact Hmo|]; intros ? []; by apply movement_payload_decodes).
    rewrite omap_none, app_nil_r; [done|]. apply Forall_fmap, Forall_true. intros c. apply command_payload_no_movement.
  - rewrite (omap_all frame_command command_payload) by (eapply Forall_impl; [exact Hcok|]; apply command_payload_decodes).
    rewrite omap_none; [done|]. apply Forall_fmap. eapply Forall_impl; [exact Hmo|]. intros ? []. by apply movement_payload_no_command.
Qed.

Definition demo_steps : list client_step :=
  [COther (OpAdvance 1); CFrame (ServerboundPositionLookPayload 1 2 3 4 5 true) [OpAdvance 2];
   COther (OpAdvance 3); CFrame (PlayerCommandPayload 1 3 0) []; CFrame (varint 0x0b) [];
   COther (OpAdvance 5); CFrame (ServerboundPositionPayload 7 8 9 false) []; CFrame (varint 2) []].

Lemma barrier_replays_client_witness :
  ReplayPayloads (mkReplay (Some (mkPosition 7 8 9 4 5 false)) [Session.mkPlayerCommand 1 3 0]) =
  [ServerboundPositionLookPayload 7 8 9 4 5 false; PlayerCommandPayload 1 3 0].
Proof.
  destruct (barrier_replays_client demo_limbo 0 [] 1 (snd (BeginTransfer demo_limbo 0 [] 1)) demo_steps
    (snd (run_client (snd (BeginTransfer demo_limbo 0 [] 1)) demo_steps))
    (mkReplay (Some (mkPosition 7 8 9 4 5 false)) [Session.mkPlayerCommand 1 3 0]) (mkSession StateBackendPlay None))
    as (H & _); [vm_compute; reflexivity..|].
  etransitivity; [exact H|]. vm_compute. reflexivity.
Defined.

(** A transfer begun with no room for pending commands, as an unset
    MaxPendingCommands gives, refuses every player command: the error ends the
    session of a player that sneaks or sprints during the barrier. *)
Lemma zero_limit_refuses_commands s now ids s0 os f c :
  BeginTransfer s now ids 0 = (None, s0) -> forallb barrier_op os = true ->
  is_Some (active_barrier (run_ops s0 os)) -> ParsePlayerCommand f = Ok c ->
  fst (barrier_frame id (run_ops s0 os) f) = Some ErrCommandQueueExhausted.
Proof.
  intros Hb Hos [b Ha] Hc. apply BeginTransfer_None in Hb as [_ ->].
  destruct (barrier_run_all (newBarrier now ids 0) _ os eq_refl eq_refl Hos) as [k Hk Hr _ _ _|Hn _]; [|by rewrite Hn in Ha].
  destruct (PacketID f) as [[fid body]|] eqn:Hid; [|by unfold ParsePlayerCommand in Hc; rewrite Hid in Hc].
  pose proof (frame_command_id _ _ _ _ Hid Hc) as ->. rewrite Hr.
  unfold barrier_frame. rewrite Hid. unfold handleBarrierFrame, Session_BarrierPhase. rewrite active_barrier_barrier.
  change (ServerboundPlayerCommandID =? ServerboundConfigurationAcknowledgedID) with false.
  change (ServerboundPlayerCommandID =? ServerboundFinishConfigurationID) with false.
  change (ServerboundPlayerCommandID =? ServerboundClientInformationID) with false.
  change (ServerboundPlayerCommandID =? ServerboundPluginMessageID) with false.
  change (ServerboundPlayerCommandID =? Play.ServerboundKeepAliveID) with false.
  change ((ServerboundPlayerCommandID =? ServerboundPositionID) || (ServerboundPlayerCommandID =? ServerboundPositionLookID)) with false.
  change (ServerboundPlayerCommandID =? ServerboundPlayerCommandID) with true.
  rewrite !andb_false_r. cbn [orb]. rewrite Hc. cbn [Datatypes.id]. rewrite HandleBarrierInput_active.
  pose proof (handle_set_phase_fst k (handle_all (newBarrier now ids 0) (op_inputs os)) (command_input c)) as E.
  rewrite barrier_dispositions in E. cbn [in_Kind command_input] in E.
  rewrite (proj2 (Z.ltb_ge _ _)) in E by apply blen_nonneg.
  unfold command_input, command_of in E. destruct (handle _ _) as [[d e] b']. cbn in E. by injection E as -> ->.
Qed.
