(* ===== verification/Limbo.v ===== *)
(** * The Limbo session (internal/server/server.go: serveLimbo, Admit)

    [serveLimbo] is a preamble that puts the client into the void world, and a
    select loop. The loop is a step function on its local variables and the
    objects it shares; its events are the select cases. Between two events other
    goroutines may change the session, the admission queue and the prepared
    transfer in any way ([EOther]); so the properties of the loop hold under any
    scheduling and any timer behaviour. *)

From stdpp Require Import pretty.
From S2P Require Import Prelude GoIO Varint Utf8 McString Frame Wire Crypto.
From S2P Require Import Configuration Play Forwarding Link Backend Bridge Queue Session Transfer BarrierClient.

(** ** State *)

(** Keep-alives; [timeoutC] is whether the timer channel is selected on. *)
Record keepalives := mkKeepalives {
  keepAliveID : Z;
  pendingKeepAlive : Z;
  timeoutC : bool;
  validKeepAlives : Z
}.

(** The challenge and the queue; [challengeResult] is whether its channel is set. *)
Record gate := mkGate {
  challengeStarted : bool;
  challengePassed : bool;
  requiredKeepAlives : Z;
  challengeResult : bool;
  enqueued : bool
}.

(** The transfer; [prepared] comes with the backend transport it points to. *)
Record handover := mkHandover {
  prepared : option (Prepared * link);
  prepareDone : bool;
  prepareResult : bool;
  activeAdmission : option nat;
  clientConfigurationSent : bool
}.

(** The history of a session. *)
Inductive note : Type :=
| NSent (id : Z)     (* a keep-alive is written; a write error ends the session *)
| NAnswered (id : Z)
| NPassed          (* the challenge hook returned no error *)
| NEnqueued
| NRequest (req : nat)
| NReply (req : nat) (err : option error)
| NForgotten       (* pendingKeepAlive = 0, timeoutC = nil: a transfer failed *)
| NPrepare (oldKeepAlives : list Z).

Record limbo := mkLimbo {
  lb_client : link;
  lb_session : Session;
  lb_queue : option (FIFO nat nat);   (* AdmissionQueue *)
  lb_ka : keepalives;
  lb_gate : gate;
  lb_ho : handover;
  lb_log : list note
}.

Definition set_client (c : link) (l : limbo) : limbo :=
  mkLimbo c (lb_session l) (lb_queue l) (lb_ka l) (lb_gate l) (lb_ho l) (lb_log l).
Definition set_session (s : Session) (l : limbo) : limbo :=
  mkLimbo (lb_client l) s (lb_queue l) (lb_ka l) (lb_gate l) (lb_ho l) (lb_log l).
Definition set_queue (q : option (FIFO nat nat)) (l : limbo) : limbo :=
  mkLimbo (lb_client l) (lb_session l) q (lb_ka l) (lb_gate l) (lb_ho l) (lb_log l).
Definition set_ka (k : keepalives) (l : limbo) : limbo :=
  mkLimbo (lb_client l) (lb_session l) (lb_queue l) k (lb_gate l) (lb_ho l) (lb_log l).
Definition set_gate (g : gate) (l : limbo) : limbo :=
  mkLimbo (lb_client l) (lb_session l) (lb_queue l) (lb_ka l) g (lb_ho l) (lb_log l).
Definition set_ho (h : handover) (l : limbo) : limbo :=
  mkLimbo (lb_client l) (lb_session l) (lb_queue l) (lb_ka l) (lb_gate l) h (lb_log l).
Definition noted (n : note) (l : limbo) : limbo :=
  mkLimbo (lb_client l) (lb_session l) (lb_queue l) (lb_ka l) (lb_gate l) (lb_ho l) (lb_log l ++ [n]).

(** What one round of the loop leads to: the next round, the return of
    [serveLimbo], the bridge still running, a send on a nil channel, a panic. *)
Inductive outcome : Type :=
| Continue (l : limbo)
| Return (err : option error) (l : limbo)
| Playing (l : limbo) (bridge : bridge_state)
| Deadlock
| Panic.

Definition obind (o : outcome) (k : limbo -> outcome) : outcome :=
  match o with
  | Continue l => k l
  | Return err l => Return err l
  | Playing l st => Playing l st
  | Deadlock => Deadlock
  | Panic => Panic
  end.

Notation "'let*' l ':=' o 'in' k" := (obind o (fun l => k))
  (at level 10, l name, o at level 100, k at level 200, format "'[v' 'let*'  l  ':='  o  'in' '/' k ']'") : gate_scope.

(** The parts of the server configuration and of the connection it uses: a
    challenge hook may state how many keep-alives it requires. *)
Record limbo_config := mkLimboConfig {
  lc_coordinator : bool;
  lc_hook : option (option Z);
  lc_identity : PlayerIdentity;
  lc_conn : nat
}.

Definition pendingIDs (id : Z) : list Z := if id =? 0 then [] else [id].

Section limbo.
Context (config : limbo_config).

Definition queueID : gostring := hex_encode (id_UUID (lc_identity config)).

(** [s.writeFrame(client, payload)], returning on an error. *)
Definition writeFrame (l : limbo) (payload : list byte) : outcome :=
  match link_WriteFrame (lb_client l) payload with
  | (Some err, c) => Return (Some err) (set_client c l)
  | (None, c) => Continue (set_client c l)
  end.

(** [activeAdmission.result <- err]: the zero request has a nil channel. *)
Definition reply (l : limbo) (err : option error) : outcome :=
  match activeAdmission (lb_ho l) with
  | None => Deadlock
  | Some req => Continue (noted (NReply req err) l)
  end.

Definition enqueue (l : limbo) : outcome :=
  if enqueued (lb_gate l) then Continue l
  else match lb_queue l with
  | None => Continue l
  | Some q =>
    if negb (lc_coordinator config) then Continue l
    else match Enqueue 0%nat q (mkItem queueID (Some (lc_conn config)) (Some (lc_conn config))) with
    | (Err err, q) => Return (Some err) (set_queue (Some q) l)
    | (Ok _, q) =>
      let g := lb_gate l in
      Continue (noted NEnqueued (set_gate (mkGate (challengeStarted g) (challengePassed g) (requiredKeepAlives g)
        (challengeResult g) true) (set_queue (Some q) l)))
    end
  end.

Definition maybeEnqueue (l : limbo) : outcome :=
  if challengePassed (lb_gate l) && (requiredKeepAlives (lb_gate l) <=? validKeepAlives (lb_ka l))
  then enqueue l else Continue l.

(** The transfer's view of the shared objects, and back. *)
Definition to_world (l : limbo) (p : Prepared) (conn : link) : tworld :=
  prepared_world (lb_session l) conn p (lb_client l).
Definition from_world (l : limbo) (w : tworld) : limbo :=
  let h := lb_ho l in
  set_ho (mkHandover (Some (tw_prepared w, tw_conn w)) (prepareDone h) (prepareResult h) (activeAdmission h)
    (clientConfigurationSent h)) (set_session (tw_session w) (set_client (tw_client w) l)).

(** The release branch of [progress], from [prepared.Release()] on; [play] is
    what the bridge receives. *)
Definition hand_over (play : list bridge_event) (l : limbo) (p : Prepared) (conn : link) : outcome :=
  match Release (to_world l p conn) with
  | None => Panic
  | Some (Err err, w) => Return (Some err) (from_world l w)
  | Some (Ok (replay, handed), w) =>
    let l := from_world l w in
    let closed conn := from_world l (mkWorld (lb_session l) (link_Close conn) (tw_prepared w) (lb_client l) []) in
    if negb handed then Panic
    else match link_WriteAll (tw_conn w) (ReplayPayloads replay) with
    | (Some err, conn) => Return (Some err) (closed conn)
    | (None, conn) =>
      if lk_closed (lb_client l) || lk_closed conn then Return (Some net_ErrClosed) (closed conn)
      else
        let* l := reply l None in
        match RunPlay 0 None (lb_client l) conn play with
        | (Some err, st) =>
          Return (Some err) (from_world l (mkWorld (lb_session l) (link_Close (br_backend st)) (tw_prepared w) (br_client st) []))
        | (None, st) => Playing l st
        end
    end
  end.

Definition progress (gap : list atomic) (play : list bridge_event) (l : limbo) : outcome :=
  match prepared (lb_ho l) with
  | None => Continue l
  | Some (p, conn) =>
    match Session_BarrierPhase (lb_session l) with
    | Err err => Return (Some err) l
    | Ok phase =>
      let* l :=
        if (phase =? BarrierClientConfiguration) && negb (clientConfigurationSent (lb_ho l)) then
          match WriteClientConfiguration (run_atomics gap) (to_world l p conn) with
          | None => Panic
          | Some (Some err, w) => Return (Some err) (from_world l w)
          | Some (None, w) =>
            let h := lb_ho (from_world l w) in
            Continue (set_ho (mkHandover (prepared h) (prepareDone h) (prepareResult h) (activeAdmission h) true) (from_world l w))
          end
        else Continue l in
      if phase =? BarrierReady then
        match prepared (lb_ho l) with
        | None => Continue l
        | Some (p, conn) => hand_over play l p conn
        end
      else Continue l
    end
  end.

(** ** The loop *)

Inductive limbo_event : Type :=
| EChallenge (err : option error)
| EAdmission (req : nat)
| EPrepareResult (r : res (Prepared * link)) (gap : list atomic)
| EPrepareDone
| EFrame (frame : res (list byte)) (between : list op) (gap : list atomic) (play : list bridge_event)
| ETick
| ETimeout
| EQueueTick
| EOther (s : Session) (q : FIFO nat nat) (p : Prepared * link).

(** [case err := <-challengeResult] *)
Definition on_challenge (l : limbo) (err : option error) : outcome :=
  let g := lb_gate l in
  match err with
  | Some err =>
    Return (Some (ErrWrap "limbo challenge failed" err))
      (set_gate (mkGate (challengeStarted g) (challengePassed g) (requiredKeepAlives g) false (enqueued g)) l)
  | None =>
    maybeEnqueue (noted NPassed
      (set_gate (mkGate (challengeStarted g) true (requiredKeepAlives g) false (enqueued g)) l))
  end.

(** [case request := <-admissions] *)
Definition on_admission (l : limbo) (req : nat) : outcome :=
  let l := noted (NRequest req) l in
  let h := lb_ho l in
  if negb (lc_coordinator config) || match prepared h with Some _ => true | None => false end
     || bool_decide (state (lb_session l) <> StateLimboPlay)
  then Continue (noted (NReply req (Some ErrSessionNotAvailable)) l)
  else Continue (noted (NPrepare (pendingIDs (pendingKeepAlive (lb_ka l))))
         (set_ho (mkHandover (prepared h) (prepareDone h) true (Some req) (clientConfigurationSent h)) l)).

(** [case result := <-prepareResult] *)
Definition on_prepare_result (l : limbo) (r : res (Prepared * link)) (gap : list atomic) : outcome :=
  let h := lb_ho l in
  let l := set_ho (mkHandover (prepared h) (prepareDone h) false (activeAdmission h) (clientConfigurationSent h)) l in
  match r with
  | Err err =>
    let* l := reply l (Some err) in
    let k := lb_ka l in let h := lb_ho l in
    Continue (noted NForgotten (set_ka (mkKeepalives (keepAliveID k) 0 false (validKeepAlives k))
      (set_ho (mkHandover (prepared h) (prepareDone h) (prepareResult h) None (clientConfigurationSent h)) l)))
  | Ok (p, conn) =>
    let l := set_ho (mkHandover (Some (p, conn)) true false (activeAdmission h) false) l in
    match BeginClientConfiguration (run_atomics gap) (to_world l p conn) with
    | None => Panic
    | Some (None, w) => Continue (from_world l w)
    | Some (Some err, w) =>
      match Rollback w with
      | None => Panic
      | Some (_, w) =>
        let* l := reply (from_world l w) (Some err) in
        let h := lb_ho l in
        Continue (set_ho (mkHandover None false (prepareResult h) (activeAdmission h) (clientConfigurationSent h)) l)
      end
    end
  end.

(** [case <-prepareDone] *)
Definition on_prepare_done (l : limbo) : outcome :=
  match prepared (lb_ho l) with
  | None => Continue l
  | Some (p, _) =>
    match pp_finalErr p with
    | None => Continue l
    | Some err =>
      let* l := reply l (Some err) in
      let k := lb_ka l in let h := lb_ho l in
      Continue (noted NForgotten (set_ka (mkKeepalives (keepAliveID k) 0 false (validKeepAlives k))
        (set_ho (mkHandover None false (prepareResult h) None (clientConfigurationSent h)) l)))
    end
  end.

(** A keep-alive answer in Limbo. *)
Definition on_keepalive (l : limbo) (payload : list byte) : outcome :=
  let k := lb_ka l in
  match ParseKeepAlive payload with
  | Err _ => Return (Some play_ErrMalformed) l
  | Ok value =>
    if (pendingKeepAlive k =? 0) || negb (value =? pendingKeepAlive k) then Return (Some play_ErrMalformed) l
    else
      let l := noted (NAnswered value) (set_ka (mkKeepalives (keepAliveID k) 0 (timeoutC k) (validKeepAlives k + 1)) l) in
      let g := lb_gate l in
      let* l :=
        if challengeStarted g then Continue l
        else match lc_hook config with
        | None => maybeEnqueue (set_gate (mkGate true true (requiredKeepAlives g) (challengeResult g) (enqueued g)) l)
        | Some requirements =>
          let required := match requirements with
                          | Some n => if n <? 1 then 1 else n
                          | None => requiredKeepAlives g
                          end in
          Continue (set_gate (mkGate true (challengePassed g) required true (enqueued g)) l)
        end in
      let* l := maybeEnqueue l in
      let k := lb_ka l in
      Continue (set_ka (mkKeepalives (keepAliveID k) (pendingKeepAlive k) false (validKeepAlives k)) l)
  end.

(** [case result := <-frames] *)
Definition on_frame (l : limbo) (frame : res (list byte)) (between : list op) (gap : list atomic) (play : list bridge_event)
    : outcome :=
  match frame with
  | Err err => Return (Some err) l
  | Ok payload =>
    match PacketID payload with
    | Err _ => Return (Some play_ErrMalformed) l
    | Ok (id, _) =>
      if bool_decide (state (lb_session l) = StateTransferBarrier) then
        match handleBarrierFrame (fun s => run_ops s between) (lb_session l) id payload with
        | (Some err, s) => Return (Some err) (set_session s l)
        | (None, s) => progress gap play (set_session s l)
        end
      else if id =? Play.ServerboundKeepAliveID then on_keepalive l payload
      else if (id =? ServerboundPositionID) || (id =? ServerboundPositionLookID) then
        match ParseMovement payload with
        | Some err => Return (Some err) l
        | None => Continue l
        end
      else Return (Some play_ErrMalformed) l
    end
  end.

(** [case <-ticker.C] *)
Definition on_tick (l : limbo) : outcome :=
  let k := lb_ka l in
  if bool_decide (state (lb_session l) = StateLimboPlay) && (pendingKeepAlive k =? 0) then
    let id := int64 (keepAliveID k + 1) in
    let* l := writeFrame (noted (NSent id) (set_ka (mkKeepalives id id (timeoutC k) (validKeepAlives k)) l)) (KeepAlivePayload id) in
    let k := lb_ka l in
    Continue (set_ka (mkKeepalives (keepAliveID k) (pendingKeepAlive k) true (validKeepAlives k)) l)
  else Continue l.

(** [case <-queueTicker.C] *)
Definition on_queue_tick (l : limbo) : outcome :=
  if enqueued (lb_gate l) && bool_decide (state (lb_session l) = StateLimboPlay) then
    match lb_queue l with
    | None => Continue l
    | Some q =>
      match Queue_Position q queueID with
      | None => Continue l
      | Some position =>
        match ActionBarPayload (str "Queue position: " ++ str (pretty position)) with
        | Err err => Return (Some err) l
        | Ok payload => writeFrame l payload
        end
      end
    end
  else Continue l.

(** One round. A case whose channel is nil is never selected. *)
Definition limbo_step (l : limbo) (ev : limbo_event) : outcome :=
  match ev with
  | EChallenge err => if challengeResult (lb_gate l) then on_challenge l err else Continue l
  | EAdmission req => on_admission l req
  | EPrepareResult r gap => if prepareResult (lb_ho l) then on_prepare_result l r gap else Continue l
  | EPrepareDone =>
    match prepared (lb_ho l) with
    | Some (p, _) => if prepareDone (lb_ho l) && (match pp_done p with SigClosed => true | _ => false end)
                     then on_prepare_done l else Continue l
    | None => Continue l
    end
  | EFrame frame between gap play => on_frame l frame between gap play
  | ETick => on_tick l
  | ETimeout => if timeoutC (lb_ka l) then Return (Some (ErrLimboKeepAliveTimeout (pendingKeepAlive (lb_ka l)))) l else Continue l
  | EQueueTick => on_queue_tick l
  | EOther s q p =>
    let h := lb_ho l in
    Continue (set_ho (mkHandover ((fun _ => p) <$> prepared h) (prepareDone h) (prepareResult h) (activeAdmission h) (clientConfigurationSent h))
      (set_queue ((fun _ => q) <$> lb_queue l) (set_session s l)))
  end.

Fixpoint limbo_run (l : limbo) (evs : list limbo_event) : outcome :=
  match evs with
  | [] => Continue l
  | ev :: evs => let* l := limbo_step l ev in limbo_run l evs
  end.

(** ** The preamble *)

Definition limbo_join : list byte :=
  JoinGamePayload (mkJoinGameConfig 1 false (str "minecraft:overworld") 1 8 8 (str "minecraft:overworld")
    (str "minecraft:overworld") 0 2 (-1) false true false false false 0).

(** 0.5 and 64 as float64 bits. *)
Definition limbo_world : list (list byte) :=
  [ChunkBatchStartPayload; VoidChunkPayload 0 0; ChunkBatchFinishedPayload 1; SpawnPositionPayload 0 64 0 0;
   PositionLookPayload 0x3FE0000000000000 0x4050000000000000 0x3FE0000000000000 0 0 1].

(** The loop that waits for the teleport confirmation: every round reads a frame. *)
Fixpoint await_teleport (fuel : nat) (client : link) : option error * link :=
  match fuel with
  | O => (Some (ErrOther 0), client)
  | S fuel =>
    match link_ReadFrame client with
    | (Err err, client) => (Some err, client)
    | (Ok frame, client) =>
      match ParseTeleportConfirm frame with
      | Ok teleportID => if negb (teleportID =? 1) then (Some play_ErrMalformed, client) else (None, client)
      | Err _ => await_teleport fuel client
      end
    end
  end.

(** Up to the loop: the error, or its first state. *)
Definition limbo_start (client : link) (session : Session) (queue : option (FIFO nat nat)) : res limbo * link :=
  match link_WriteAll client (limbo_join :: limbo_world) with
  | (Some err, client) => (Err err, client)
  | (None, client) =>
    match await_teleport (S (length (lk_in client))) client with
    | (Some err, client) => (Err err, client)
    | (None, client) =>
      match link_WriteFrame client (KeepAlivePayload 1) with
      | (Some err, client) => (Err err, client)
      | (None, client) =>
        (Ok (mkLimbo client session queue (mkKeepalives 1 1 true 0) (mkGate false false 1 false false)
               (mkHandover None false false None false) [NSent 1]), client)
      end
    end
  end.

(** The deferred [AdmissionQueue.Cancel(queueID)]. *)
Definition limbo_exit (l : limbo) : limbo := set_queue ((fun q => snd (Cancel q queueID)) <$> lb_queue l) l.

End limbo.

(** ** Vocabulary of the properties *)

Definition sent_ids (log : list note) : list Z := omap (fun n => match n with NSent id => Some id | _ => None end) log.
Definition answered_ids (log : list note) : list Z := omap (fun n => match n with NAnswered id => Some id | _ => None end) log.
Definition requested (log : list note) : list nat := omap (fun n => match n with NRequest r => Some r | _ => None end) log.
Definition replied (log : list note) : list nat := omap (fun n => match n with NReply r _ => Some r | _ => None end) log.

Definition event_requests (evs : list limbo_event) : list nat :=
  omap (fun ev => match ev with EAdmission r => Some r | _ => None end) evs.

(** The number of keep-alives a player must answer before it is queued. *)
Definition required_of (config : limbo_config) : Z :=
  match lc_hook config with Some (Some n) => Z.max 1 n | _ => 1 end.

(** Keep-alive [n] was sent and is no longer waited for: the loop accepted its
    answer, or forgot it when a transfer failed. *)
Definition settled (n : Z) (log : list note) : Prop :=
  exists pre post, log = pre ++ NSent n :: post /\ (NAnswered n ∈ post \/ NForgotten ∈ post).

(** It was sent and is waited for. *)
Definition outstanding (n : Z) (log : list note) : Prop :=
  exists pre post, log = pre ++ NSent n :: post /\ ~ (NAnswered n ∈ post \/ NForgotten ∈ post).

(** Keep-alives are asked one at a time. *)
Definition one_at_a_time (log : list note) : Prop :=
  forall n pre post, log = pre ++ NSent n :: post -> 1 < n -> settled (n - 1) pre.

(** A keep-alive is forgotten only right after a failed transfer is reported. *)
Definition forgets_after_failure (log : list note) : Prop :=
  forall pre post, log = pre ++ NForgotten :: post -> exists pre' r e, pre = pre' ++ [NReply r (Some e)].

(** The state an outcome leaves behind; [D] is what a deadlock means. *)
Definition outcome_all (D : Prop) (P : limbo -> Prop) (o : outcome) : Prop :=
  match o with Continue l | Return _ l | Playing l _ => P l | Deadlock => D | Panic => True end.

(** ** Lemmas: quiet steps *)

Lemma outcome_all_bind D (P Q : limbo -> Prop) o k :
  outcome_all D P o -> (forall l, P l -> Q l) -> (forall l, o = Continue l -> P l -> outcome_all D Q (k l)) ->
  outcome_all D Q (let* l := o in k l).
Proof. intros Ho HPQ Hk. destruct o; cbn in *; auto. Qed.

Lemma outcome_all_impl D (P Q : limbo -> Prop) o : outcome_all D P o -> (forall l, P l -> Q l) -> outcome_all D Q o.
Proof. intros Ho HPQ. destruct o; cbn in *; auto. Qed.

(** Notes that do not concern keep-alives and the gate. *)
Definition transfer_note (n : note) : Prop :=
  match n with NRequest _ | NReply _ _ | NForgotten | NPrepare _ => True | _ => False end.

(** A step that leaves the gate and the queue alone and at most forgets the
    pending keep-alive. *)
Record quiet (l l' : limbo) : Prop := {
  quiet_gate : lb_gate l' = lb_gate l;
  quiet_id : keepAliveID (lb_ka l') = keepAliveID (lb_ka l);
  quiet_valid : validKeepAlives (lb_ka l') = validKeepAlives (lb_ka l);
  quiet_log : exists ns, lb_log l' = lb_log l ++ ns /\ Forall transfer_note ns /\ forgets_after_failure ns /\
    (pendingKeepAlive (lb_ka l') = pendingKeepAlive (lb_ka l) /\ (NForgotten ∉ ns) \/
     pendingKeepAlive (lb_ka l') = 0 /\ NForgotten ∈ ns);
  quiet_queue : lb_queue l' = lb_queue l
}.

(** Where a note stands in a log with notes added. *)
Lemma split_app_note {A} (log ns pre post : list A) n :
  log ++ ns = pre ++ n :: post ->
  (exists post', log = pre ++ n :: post' /\ post = post' ++ ns) \/ (exists pre', pre = log ++ pre' /\ ns = pre' ++ n :: post).
Proof.
  intros E. apply app_eq_inv in E as [(k & -> & E)|(k & -> & ->)]; [|right; eauto].
  destruct k as [|m k]; cbn in E; [right; exists []; by rewrite !app_nil_r|]. injection E as <- ->. left. eauto.
Qed.

Lemma forgets_after_failure_app a b : forgets_after_failure a -> forgets_after_failure b -> forgets_after_failure (a ++ b).
Proof.
  intros Ha Hb pre post [(post' & E & _)|(pre' & -> & E)]%split_app_note; [by eapply Ha|].
  destruct (Hb _ _ E) as (p & r & e & ->). exists (a ++ p), r, e. by rewrite app_assoc.
Qed.

Lemma no_forgets ns : NForgotten ∉ ns -> forgets_after_failure ns.
Proof. intros H pre post ->. set_solver. Qed.

Lemma quiet_same l l' :
  lb_gate l' = lb_gate l -> lb_ka l' = lb_ka l -> lb_log l' = lb_log l -> lb_queue l' = lb_queue l -> quiet l l'.
Proof. intros Hg Hk Hl Hq. split; rewrite ?Hk; auto. exists []. rewrite app_nil_r. split_and!; [done..|by apply no_forgets; set_solver|]. left. set_solver. Qed.

Lemma quiet_refl l : quiet l l.
Proof. by apply quiet_same. Qed.

Lemma quiet_trans l1 l2 l3 : quiet l1 l2 -> quiet l2 l3 -> quiet l1 l3.
Proof.
  intros [G1 I1 V1 (n1 & L1 & F1 & O1 & P1) Q1] [G2 I2 V2 (n2 & L2 & F2 & O2 & P2) Q2]. split; try congruence.
  exists (n1 ++ n2). rewrite L2, L1, app_assoc. split_and!; [done|by apply Forall_app|by apply forgets_after_failure_app|].
  destruct P2 as [[-> N2]|[-> N2]]; [destruct P1 as [[-> N1]|[-> N1]]|]; [left|right|right]; set_solver.
Qed.

Lemma quiet_noted n l : transfer_note n -> n <> NForgotten -> quiet l (noted n l).
Proof.
  intros Hn Hf. split; auto. exists [n]. split_and!; [done|by repeat constructor|apply no_forgets; set_solver|]. left. set_solver.
Qed.

(** A failed transfer is reported and the pending keep-alive forgotten. *)
Lemma quiet_failed l l' r e :
  lb_gate l' = lb_gate l -> keepAliveID (lb_ka l') = keepAliveID (lb_ka l) -> validKeepAlives (lb_ka l') = validKeepAlives (lb_ka l) ->
  pendingKeepAlive (lb_ka l') = 0 -> lb_log l' = lb_log l ++ [NReply r (Some e); NForgotten] -> lb_queue l' = lb_queue l -> quiet l l'.
Proof.
  intros Hg Hi Hv Hp Hl Hq. split; auto. eexists. split; [exact Hl|]. split_and!; [by repeat constructor| |right; set_solver].
  intros pre post E. destruct pre as [|a [|b [|? pre]]]; try done. injection E as <- <-. by exists [], r, e.
Qed.

#[global] Instance quiet_preorder : PreOrder quiet.
Proof. split; [exact quiet_refl|exact quiet_trans]. Qed.

Lemma writeFrame_quiet l p : outcome_all True (quiet l) (writeFrame l p).
Proof. unfold writeFrame. destruct (link_WriteFrame _ _) as [[e|] c]; by apply quiet_same. Qed.

Lemma reply_quiet l e : outcome_all True (quiet l) (reply l e).
Proof. unfold reply. destruct (activeAdmission _); [|done]. by apply quiet_noted. Qed.

Lemma hand_over_quiet play l p conn : outcome_all True (quiet l) (hand_over play l p conn).
Proof.
  unfold hand_over. destruct (Release _) as [[[[r [|]]|e] w]|]; [| |by apply quiet_same|done]; cbn [negb]; [|done].
  destruct (link_WriteAll _ _) as [[e|] c]; [by apply quiet_same|].
  case_match; [by apply quiet_same|].
  eapply (outcome_all_bind _ (quiet l)); [|done|].
  - eapply outcome_all_impl; [apply reply_quiet|]. intros l' Hq. by transitivity (from_world l w); [apply quiet_same|].
  - intros l' _ Hq. destruct (RunPlay _ _ _ _ _) as [[e|] st]; cbn; [|done]. transitivity l'; [done|by apply quiet_same].
Qed.

Lemma progress_quiet gap play l : outcome_all True (quiet l) (progress gap play l).
Proof.
  unfold progress. destruct (prepared _) as [[p conn]|]; [|apply quiet_refl].
  destruct (Session_BarrierPhase _); [|apply quiet_refl].
  eapply (outcome_all_bind _ (quiet l)); [|done|].
  - destruct (_ && _); [|apply quiet_refl]. destruct (WriteClientConfiguration _ _) as [[[e|] w]|]; [by apply quiet_same..|done].
  - intros l' _ Hq. destruct (_ =? _); [|done]. destruct (prepared _) as [[p' conn']|]; [|done].
    eapply outcome_all_impl; [apply hand_over_quiet|]. intros l'' Hq'. by transitivity l'.
Qed.

Lemma on_admission_quiet config l req : outcome_all True (quiet l) (on_admission config l req).
Proof.
  unfold on_admission. case_match; cbn;
    (transitivity (noted (NRequest req) l); [by apply quiet_noted|]).
  - by apply quiet_noted.
  - etransitivity; [|by apply quiet_noted]. by apply quiet_same.
Qed.

Lemma on_prepare_result_quiet l r gap : outcome_all True (quiet l) (on_prepare_result l r gap).
Proof.
  unfold on_prepare_result. destruct r as [[p conn]|e].
  - set (l0 := set_ho _ (set_ho _ l)). assert (H0 : quiet l l0) by (by apply quiet_same).
    destruct (BeginClientConfiguration _ _) as [[[e|] w]|]; [| |done].
    + destruct (Rollback w) as [[e' w']|]; [|done].
      eapply (outcome_all_bind _ (quiet l)); [|done|].
      * eapply outcome_all_impl; [apply reply_quiet|]. intros l' Hq. etransitivity; [|exact Hq]. by apply quiet_same.
      * intros l' _ Hq. cbn. transitivity l'; [done|by apply quiet_same].
    + cbn. by apply quiet_same.
  - unfold reply. destruct (activeAdmission _) as [r|]; [|done]. cbn. eapply quiet_failed; try done. cbn. by rewrite <-app_assoc.
Qed.

Lemma on_prepare_done_quiet l : outcome_all True (quiet l) (on_prepare_done l).
Proof.
  unfold on_prepare_done. destruct (prepared _) as [[p conn]|]; [|apply quiet_refl].
  destruct (pp_finalErr p); [|apply quiet_refl].
  unfold reply. destruct (activeAdmission _) as [r|]; [|done]. cbn. eapply quiet_failed; try done. cbn. by rewrite <-app_assoc.
Qed.

Lemma on_queue_tick_quiet config l : outcome_all True (quiet l) (on_queue_tick config l).
Proof.
  unfold on_queue_tick. repeat (case_match; try apply quiet_refl). apply writeFrame_quiet.
Qed.

(** ** Lemmas: keep-alives and the gate *)

(** What must have happened before a player is queued. *)
Definition admissible (config : limbo_config) (pre : list note) : Prop :=
  (lc_hook config = None \/ NPassed ∈ pre) /\ required_of config <= blen (answered_ids pre).

Record gate_inv (config : limbo_config) (l : limbo) : Prop := {
  gi_id : 1 <= keepAliveID (lb_ka l);
  gi_sent : sent_ids (lb_log l) = seqZ 1 (keepAliveID (lb_ka l));
  gi_pending : pendingKeepAlive (lb_ka l) = 0 /\ settled (keepAliveID (lb_ka l)) (lb_log l) \/
    (pendingKeepAlive (lb_ka l) = keepAliveID (lb_ka l) /\ outstanding (keepAliveID (lb_ka l)) (lb_log l) /\
     keepAliveID (lb_ka l) ∉ answered_ids (lb_log l));
  gi_once : one_at_a_time (lb_log l);
  gi_forgets : forgets_after_failure (lb_log l);
  gi_answered : Forall (fun x => 1 <= x <= keepAliveID (lb_ka l)) (answered_ids (lb_log l));
  gi_sorted : StronglySorted Z.lt (answered_ids (lb_log l));
  gi_valid : validKeepAlives (lb_ka l) = blen (answered_ids (lb_log l));
  gi_fresh : challengeStarted (lb_gate l) = false ->
    requiredKeepAlives (lb_gate l) = 1 /\ challengePassed (lb_gate l) = false /\ challengeResult (lb_gate l) = false;
  gi_required : challengeStarted (lb_gate l) = true -> requiredKeepAlives (lb_gate l) = required_of config;
  gi_passed : challengePassed (lb_gate l) = true -> lc_hook config = None \/ NPassed ∈ lb_log l;
  gi_enqueued : enqueued (lb_gate l) = false -> NEnqueued ∉ lb_log l;
  gi_gate : forall pre post, lb_log l = pre ++ NEnqueued :: post -> admissible config pre /\ NEnqueued ∉ post
}.

Lemma transfer_notes_none ns : Forall transfer_note ns ->
  sent_ids ns = [] /\ answered_ids ns = [] /\ NEnqueued ∉ ns.
Proof.
  induction 1 as [|n ns Hn _ (H1 & H2 & H3)]; [split_and!; try done; set_solver|].
  destruct n; try done; split_and!; try done; set_solver.
Qed.

(** A split of a log at an admission survives notes that are not admissions. *)
Lemma gate_log_app config log ns :
  NEnqueued ∉ ns ->
  (forall pre post, log = pre ++ NEnqueued :: post -> admissible config pre /\ NEnqueued ∉ post) ->
  forall pre post, log ++ ns = pre ++ NEnqueued :: post -> admissible config pre /\ NEnqueued ∉ post.
Proof.
  intros Hns H pre post E.
  apply app_eq_inv in E as [(k & -> & E)|(k & -> & ->)].
  - destruct k as [|n k]; cbn in E.
    + subst. set_solver.
    + injection E as <- ->. destruct (H pre k eq_refl) as [Ha Hn]. split; [done|]. set_solver.
  - set_solver.
Qed.

Lemma sent_ids_app a b : sent_ids (a ++ b) = sent_ids a ++ sent_ids b.
Proof. apply omap_app. Qed.
Lemma answered_ids_app a b : answered_ids (a ++ b) = answered_ids a ++ answered_ids b.
Proof. apply omap_app. Qed.

Lemma settled_app n log ns : settled n log -> settled n (log ++ ns).
Proof. intros (pre & post & -> & H). exists pre, (post ++ ns). rewrite <-app_assoc. set_solver. Qed.

Lemma outstanding_app n log ns : outstanding n log -> ~ (NAnswered n ∈ ns \/ NForgotten ∈ ns) -> outstanding n (log ++ ns).
Proof. intros (pre & post & -> & H) Hn. exists pre, (post ++ ns). rewrite <-app_assoc. split; [done|]. set_solver. Qed.

Lemma outstanding_settled n log ns : outstanding n log -> NAnswered n ∈ ns \/ NForgotten ∈ ns -> settled n (log ++ ns).
Proof. intros (pre & post & -> & H) Hn. exists pre, (post ++ ns). rewrite <-app_assoc. split; [done|]. set_solver. Qed.

Lemma one_at_a_time_app log ns : sent_ids ns = [] -> one_at_a_time log -> one_at_a_time (log ++ ns).
Proof.
  intros Hs Ho n pre post [(post' & E & _)|(pre' & -> & E)]%split_app_note; [by eapply Ho|].
  rewrite E, sent_ids_app in Hs. cbn in Hs. by apply app_nil in Hs as [_ Hs].
Qed.

Lemma one_at_a_time_snoc log n : settled (n - 1) log -> one_at_a_time log -> one_at_a_time (log ++ [NSent n]).
Proof.
  intros Hn Ho m pre post [(post' & E & _)|(pre' & -> & E)]%split_app_note; [by eapply Ho|].
  destruct pre' as [|? [|? pre']]; try done. injection E as <- <-. intros _. by rewrite app_nil_r.
Qed.

(** Notes that are neither keep-alives nor forget one. *)
Definition aside_note (n : note) : Prop := match n with NSent _ | NAnswered _ | NForgotten => False | _ => True end.

(** The keep-alive part of the invariant survives them. *)
Lemma gate_inv_aside config l ns :
  Forall aside_note ns -> gate_inv config l ->
  (pendingKeepAlive (lb_ka l) = 0 /\ settled (keepAliveID (lb_ka l)) (lb_log l ++ ns) \/
    (pendingKeepAlive (lb_ka l) = keepAliveID (lb_ka l) /\ outstanding (keepAliveID (lb_ka l)) (lb_log l ++ ns) /\
     keepAliveID (lb_ka l) ∉ answered_ids (lb_log l))) /\
  one_at_a_time (lb_log l ++ ns) /\ forgets_after_failure (lb_log l ++ ns).
Proof.
  intros Hns H. assert (Hn : sent_ids ns = [] /\ (forall n, NAnswered n ∉ ns) /\ NForgotten ∉ ns).
  { clear -Hns. induction Hns as [|n ns Hn _ (H1 & H2 & H3)]; [split_and!; try done; set_solver|].
    destruct n; try done; cbn; split_and!; try done; set_solver. }
  destruct Hn as (H1 & H2 & H3). split_and!.
  - destruct (gi_pending _ _ H) as [[? ?]|(? & ? & ?)]; [left; auto using settled_app|right]. split_and!; [done| |done].
    apply outstanding_app; [done|]. intros [|]; [by eapply H2|done].
  - apply one_at_a_time_app; [done|apply (gi_once _ _ H)].
  - apply forgets_after_failure_app; [apply (gi_forgets _ _ H)|by apply no_forgets].
Qed.

Lemma gate_inv_quiet config l l' : quiet l l' -> gate_inv config l -> gate_inv config l'.
Proof.
  intros [Hg Hi Hv (ns & Hl & Hns & Hfo & Hp) _] H. destruct (transfer_notes_none ns Hns) as (H1 & H2 & H3).
  assert (Hna : forall n, NAnswered n ∉ ns).
  { intros n Hn. by apply (proj1 (Forall_forall _ _) Hns) in Hn. }
  destruct H as [? Hs Hpe Hon Hfg Ha Hso Hva Hf Hr Hpa He Hga].
  split; rewrite ?Hg, ?Hi, ?Hv, ?Hl, ?sent_ids_app, ?answered_ids_app, ?H1, ?H2, ?app_nil_r; auto.
  - destruct Hp as [[-> Hn]|[-> Hn]]; destruct Hpe as [[? ?]|(? & ? & ?)]; auto using settled_app, outstanding_settled.
    right. split_and!; [done| |done]. apply outstanding_app; [done|]. intros [|]; [by eapply Hna|done].
  - by apply one_at_a_time_app.
  - by apply forgets_after_failure_app.
  - intros Hx. destruct (Hpa Hx); [by left|right; set_solver].
  - intros Hx. specialize (He Hx). set_solver.
  - by apply gate_log_app.
Qed.

(** The invariant does not mention the shared objects. *)
Lemma gate_inv_ext config l l' :
  lb_gate l' = lb_gate l -> lb_ka l' = lb_ka l -> lb_log l' = lb_log l -> gate_inv config l -> gate_inv config l'.
Proof. intros Hg Hk Hl []. split; by rewrite ?Hg, ?Hk, ?Hl. Qed.

Lemma enqueue_gate config l :
  gate_inv config l -> admissible config (lb_log l) -> outcome_all True (gate_inv config) (enqueue config l).
Proof.
  intros H Ha. unfold enqueue. destruct (enqueued (lb_gate l)) eqn:He; [done|].
  destruct (lb_queue l) as [q|]; [|done]. destruct (lc_coordinator config); [|done]. cbn [negb].
  destruct (Enqueue _ _ _) as [[n|e] q']; cbn; [|by apply (gate_inv_ext _ l)].
  destruct (gate_inv_aside _ _ [NEnqueued] ltac:(by repeat constructor) H) as (A1 & A2 & A3).
  destruct H as [? Hs Hpe Hon Hfg Han Hso Hva Hf Hr Hpa Hen Hga]. specialize (Hen He).
  split; cbn; rewrite ?sent_ids_app, ?answered_ids_app; cbn; rewrite ?app_nil_r; auto; try done.
  - intros Hx. destruct (Hpa Hx); [by left|right; set_solver].
  - intros pre post E. destruct (decide (post = [])) as [->|Hne].
    + apply app_inj_tail in E as [<- _]. split; [done|set_solver].
    + exfalso. apply Hen. apply exists_last in Hne as (post' & x & ->).
      rewrite app_comm_cons, app_assoc in E. apply app_inj_tail in E as [-> _]. set_solver.
Qed.

Lemma maybeEnqueue_gate config l : gate_inv config l -> outcome_all True (gate_inv config) (maybeEnqueue config l).
Proof.
  intros H. unfold maybeEnqueue. destruct (challengePassed (lb_gate l)) eqn:Hp; [|done]. cbn [andb].
  destruct (Z.leb_spec (requiredKeepAlives (lb_gate l)) (validKeepAlives (lb_ka l))); [|done].
  apply enqueue_gate; [done|]. destruct H as [? Hs Hpe Hon Hfg Han Hso Hva Hf Hr Hpa Hen Hga]. split; [by apply Hpa|].
  destruct (challengeStarted (lb_gate l)) eqn:Hst; [rewrite <-Hr, <-Hva by done; lia|].
  destruct (Hf eq_refl) as (_ & ? & _). congruence.
Qed.

Lemma on_challenge_gate config l err :
  gate_inv config l -> challengeResult (lb_gate l) = true -> outcome_all True (gate_inv config) (on_challenge config l err).
Proof.
  intros H Hc. unfold on_challenge. destruct err as [e|].
  - cbn. destruct H as [? Hs Hpe Hon Hfg Han Hso Hva Hf Hr Hpa Hen Hga]. split; cbn; auto.
    intros Hx. destruct (Hf Hx) as (_ & _ & ?). congruence.
  - apply maybeEnqueue_gate. destruct (gate_inv_aside _ _ [NPassed] ltac:(by repeat constructor) H) as (A1 & A2 & A3). destruct H as [? Hs Hpe Hon Hfg Han Hso Hva Hf Hr Hpa Hen Hga].
    split; cbn; rewrite ?sent_ids_app, ?answered_ids_app; cbn; rewrite ?app_nil_r; auto.
    + intros Hx. destruct (Hf Hx) as (_ & _ & ?). congruence.
    + intros _. right. set_solver.
    + intros Hx. specialize (Hen Hx). set_solver.
    + apply gate_log_app; [set_solver|done].
Qed.

(** Answering the pending keep-alive. *)
Lemma answer_gate config l t :
  gate_inv config l -> pendingKeepAlive (lb_ka l) <> 0 ->
  gate_inv config (noted (NAnswered (pendingKeepAlive (lb_ka l)))
    (set_ka (mkKeepalives (keepAliveID (lb_ka l)) 0 t (validKeepAlives (lb_ka l) + 1)) l)).
Proof.
  intros [? Hs Hpe Hon Hfg Han Hso Hva Hf Hr Hpa Hen Hga] Hnz. destruct Hpe as [[]|(Hp & Ho & Hn)]; [done|].
  assert (Hlt : Forall (fun x => x < pendingKeepAlive (lb_ka l)) (answered_ids (lb_log l))).
  { apply Forall_forall. intros x Hx. rewrite Hp.
    pose proof (proj1 (Forall_forall _ _) Han x Hx) as Hb. cbn in Hb.
    assert (x <> keepAliveID (lb_ka l)) by (by intros ->). lia. }
  split; cbn; rewrite ?sent_ids_app, ?answered_ids_app; cbn; rewrite ?app_nil_r; auto.
  - left. split; [done|]. apply outstanding_settled; [done|]. rewrite Hp. left. set_solver.
  - by apply one_at_a_time_app.
  - apply forgets_after_failure_app; [done|]. apply no_forgets. set_solver.
  - apply Forall_app. split; [done|]. constructor; [lia|constructor].
  - clear -Hso Hlt. induction Hso as [|x xs Hxs IH Hx]; cbn; [repeat constructor|].
    inversion_clear Hlt. constructor; [by apply IH|]. apply Forall_app. by repeat constructor.
  - rewrite Hva, blen_app. done.
  - intros Hx. destruct (Hpa Hx); [by left|right; set_solver].
  - intros Hx. specialize (Hen Hx). set_solver.
  - apply gate_log_app; [set_solver|done].
Qed.

Lemma set_timeout_gate config l t :
  gate_inv config l ->
  gate_inv config (set_ka (mkKeepalives (keepAliveID (lb_ka l)) (pendingKeepAlive (lb_ka l)) t (validKeepAlives (lb_ka l))) l).
Proof. intros []. split; auto. Qed.

(** The first answer starts the challenge. *)
Lemma start_gate config l g :
  gate_inv config l -> challengeStarted (lb_gate l) = false ->
  challengeStarted g = true -> requiredKeepAlives g = required_of config ->
  (challengePassed g = true -> lc_hook config = None) -> enqueued g = enqueued (lb_gate l) ->
  gate_inv config (set_gate g l).
Proof.
  intros [? Hs Hpe Hon Hfg Han Hso Hva Hf Hr Hpa Hen Hga] Hst Hg1 Hg2 Hg3 Hg4.
  split; cbn; auto; try congruence. intros Hx. apply Hen. congruence.
Qed.

Lemma on_keepalive_gate config l payload :
  gate_inv config l -> outcome_all True (gate_inv config) (on_keepalive config l payload).
Proof.
  intros H. unfold on_keepalive. destruct (ParseKeepAlive payload) as [v|]; [|done].
  destruct (Z.eqb_spec (pendingKeepAlive (lb_ka l)) 0) as [|Hnz]; [done|]. cbn [orb].
  destruct (Z.eqb_spec v (pendingKeepAlive (lb_ka l))) as [->|]; [|done]. cbn [negb].
  pose proof (answer_gate config l (timeoutC (lb_ka l)) H Hnz) as H1. set (l1 := noted _ _) in *. clearbody l1.
  eapply (outcome_all_bind _ (gate_inv config)); [|done|].
  - destruct (challengeStarted (lb_gate l1)) eqn:Hst; [done|].
    pose proof (gi_fresh _ _ H1 Hst) as (Hr1 & Hp1 & _).
    destruct (lc_hook config) as [requirements|] eqn:Hh.
    + apply start_gate; cbn; try done; [|congruence]. unfold required_of. rewrite Hh. destruct requirements as [n|]; [|done].
      destruct (Z.ltb_spec n 1); lia.
    + apply maybeEnqueue_gate, start_gate; cbn; try done. unfold required_of. by rewrite Hh.
  - intros l2 _ H2. eapply (outcome_all_bind _ (gate_inv config)); [by apply maybeEnqueue_gate|done|].
    intros l3 _ H3. cbn. by apply set_timeout_gate.
Qed.

Lemma on_tick_gate config l :
  gate_inv config l -> keepAliveID (lb_ka l) < 2 ^ 63 - 1 -> outcome_all True (gate_inv config) (on_tick l).
Proof.
  intros H Hb. unfold on_tick. destruct (_ && _) eqn:E; [|done]. bool_facts.
  assert (Hid : int64 (keepAliveID (lb_ka l) + 1) = keepAliveID (lb_ka l) + 1).
  { apply int64_small. pose proof (gi_id _ _ H). unfold in_int64. lia. }
  rewrite Hid. set (id := keepAliveID (lb_ka l) + 1).
  assert (Hsent : gate_inv config (noted (NSent id) (set_ka (mkKeepalives id id (timeoutC (lb_ka l)) (validKeepAlives (lb_ka l))) l))).
  { destruct H as [Hi Hs Hpe Hon Hfg Han Hso Hva Hf Hr Hpa Hen Hga].
    split; cbn; rewrite ?sent_ids_app, ?answered_ids_app; cbn; rewrite ?app_nil_r; auto; try lia.
    - rewrite Hs. unfold id. rewrite (seqZ_app 1 (keepAliveID (lb_ka l)) 1) by lia. cbn. by rewrite Z.add_comm.
    - right. split_and!; [done| |].
      + exists (lb_log l), []. set_solver.
      + intros Hin. apply (proj1 (Forall_forall _ _) Han) in Hin. cbn in Hin. unfold id in Hin. lia.
    - apply one_at_a_time_snoc; [|done]. unfold id. rewrite Z.add_simpl_r. destruct Hpe as [[]|(Hp & _)]; [done|lia].
    - apply forgets_after_failure_app; [done|]. apply no_forgets. set_solver.
    - eapply Forall_impl; [exact Han|]. cbn. unfold id. lia.
    - intros Hx. destruct (Hpa Hx); [by left|right; set_solver].
    - intros Hx. specialize (Hen Hx). set_solver.
    - apply gate_log_app; [set_solver|done]. }
  eapply (outcome_all_bind _ (gate_inv config)); [|done|].
  - eapply outcome_all_impl; [apply writeFrame_quiet|]. intros l' Hq. by eapply gate_inv_quiet.
  - intros l' _ H'. cbn. by apply set_timeout_gate.
Qed.

Lemma limbo_step_gate config l ev :
  gate_inv config l -> keepAliveID (lb_ka l) < 2 ^ 63 - 1 -> outcome_all True (gate_inv config) (limbo_step config l ev).
Proof.
  intros H Hb. assert (Hq : forall o, outcome_all True (quiet l) o -> outcome_all True (gate_inv config) o).
  { intros o Ho. eapply outcome_all_impl; [exact Ho|]. intros l' Hl'. by eapply gate_inv_quiet. }
  destruct ev; cbn [limbo_step].
  - destruct (challengeResult _) eqn:Hc; [by apply on_challenge_gate|done].
  - apply Hq, on_admission_quiet.
  - destruct (prepareResult _); [apply Hq, on_prepare_result_quiet|done].
  - destruct (prepared _) as [[p c]|]; [|done]. destruct (_ && _); [apply Hq, on_prepare_done_quiet|done].
  - unfold on_frame. destruct frame as [payload|]; [|done]. destruct (PacketID payload) as [[id body]|]; [|done].
    case_bool_decide.
    + destruct (handleBarrierFrame _ _ _ _) as [[e|] s']; [apply Hq; by apply quiet_same|].
      apply Hq. eapply outcome_all_impl; [apply progress_quiet|]. intros l' Hl'. etransitivity; [|exact Hl']. by apply quiet_same.
    + destruct (_ =? _); [by apply on_keepalive_gate|]. destruct (_ || _); [|done]. by destruct (ParseMovement payload).
  - by apply on_tick_gate.
  - by destruct (timeoutC _).
  - apply Hq, on_queue_tick_quiet.
  - cbn. by apply (gate_inv_ext _ l).
Qed.

Lemma maybeEnqueue_ka config l : outcome_all True (fun l' => lb_ka l' = lb_ka l) (maybeEnqueue config l).
Proof. unfold maybeEnqueue, enqueue. repeat (case_match; try done). Qed.

Lemma on_tick_id l :
  in_int64 (keepAliveID (lb_ka l) + 1) ->
  outcome_all True (fun l' => keepAliveID (lb_ka l') <= keepAliveID (lb_ka l) + 1) (on_tick l).
Proof.
  intros Hb. unfold on_tick. destruct (_ && _); [|cbn; lia]. rewrite int64_small by done.
  eapply (outcome_all_bind _ (fun l' => keepAliveID (lb_ka l') = keepAliveID (lb_ka l) + 1)); [|lia|cbn; lia].
  eapply outcome_all_impl; [apply writeFrame_quiet|]. intros l' [_ -> _ _ _]. done.
Qed.

(** The keep-alive counter grows by at most one per round. *)
Lemma limbo_step_id config l ev :
  in_int64 (keepAliveID (lb_ka l) + 1) ->
  outcome_all True (fun l' => keepAliveID (lb_ka l') <= keepAliveID (lb_ka l) + 1) (limbo_step config l ev).
Proof.
  intros Hb.
  assert (Hq : forall o, outcome_all True (quiet l) o -> outcome_all True (fun l' => keepAliveID (lb_ka l') <= keepAliveID (lb_ka l) + 1) o).
  { intros o Ho. eapply outcome_all_impl; [exact Ho|]. intros l' [_ -> _ _ _]. lia. }
  destruct ev; cbn [limbo_step].
  - destruct (challengeResult _); [|cbn; lia]. unfold on_challenge. destruct err; [cbn; lia|].
    eapply outcome_all_impl; [apply maybeEnqueue_ka|]. intros l' ->. cbn. lia.
  - apply Hq, on_admission_quiet.
  - destruct (prepareResult _); [apply Hq, on_prepare_result_quiet|cbn; lia].
  - destruct (prepared _) as [[p c]|]; [|cbn; lia]. destruct (_ && _); [apply Hq, on_prepare_done_quiet|cbn; lia].
  - unfold on_frame. destruct frame as [payload|]; [|cbn; lia]. destruct (PacketID payload) as [[id body]|]; [|cbn; lia].
    case_bool_decide.
    + destruct (handleBarrierFrame _ _ _ _) as [[e|] s']; [cbn; lia|].
      eapply outcome_all_impl; [apply progress_quiet|]. intros l' [_ -> _ _ _]. cbn. lia.
    + destruct (_ =? _); [|destruct (_ || _); [|cbn; lia]; destruct (ParseMovement payload); cbn; lia].
      unfold on_keepalive. destruct (ParseKeepAlive payload); [|cbn; lia]. destruct (_ || _); [cbn; lia|].
      eapply (outcome_all_bind _ (fun l' => keepAliveID (lb_ka l') = keepAliveID (lb_ka l))); [|lia|].
      * case_match; [done|]. case_match; [done|].
        eapply outcome_all_impl; [apply maybeEnqueue_ka|]. by intros l' ->.
      * intros l1 _ E1. eapply (outcome_all_bind _ (fun l' => lb_ka l' = lb_ka l1)); [apply maybeEnqueue_ka| |].
        -- intros l' ->. lia.
        -- intros l' _ E. cbn. rewrite E. lia.
  - by apply on_tick_id.
  - destruct (timeoutC _); cbn; lia.
  - apply Hq, on_queue_tick_quiet.
  - cbn. lia.
Qed.

Lemma limbo_run_gate config evs : forall l,
  gate_inv config l -> keepAliveID (lb_ka l) + Z.of_nat (length evs) < 2 ^ 63 ->
  outcome_all True (gate_inv config) (limbo_run config l evs).
Proof.
  induction evs as [|ev evs IH]; intros l H Hb; [done|]. cbn [limbo_run length] in *.
  pose proof (limbo_step_gate config l ev H ltac:(lia)) as Hs.
  assert (Hi64 : in_int64 (keepAliveID (lb_ka l) + 1)) by (pose proof (gi_id _ _ H); unfold in_int64; lia).
  pose proof (limbo_step_id config l ev Hi64) as Hi.
  eapply (outcome_all_bind _ (gate_inv config)); [exact Hs|done|].
  intros l' E H'. apply IH; [done|]. rewrite E in Hi. cbn in Hi. lia.
Qed.

Lemma limbo_start_gate config client s q l c : limbo_start client s q = (Ok l, c) -> gate_inv config l.
Proof.
  unfold limbo_start. repeat (case_match; try done). intros; simplify_eq.
  split; cbn; try done; try lia.
  - right. split_and!; [done| |set_solver]. exists [], []. set_solver.
  - intros n pre post E. destruct pre as [|? [|? pre]]; try done. injection E as <- <-. lia.
  - apply no_forgets. set_solver.
  - repeat constructor.
  - set_solver.
  - intros pre post E. destruct pre as [|n [|? pre]]; done.
Qed.

(** ** Lemmas: admission requests *)

Record replies_ok (log : list note) : Prop := {
  ro_nodup : NoDup (replied log);
  ro_sub : forall r, r ∈ replied log -> r ∈ requested log
}.

(** In the loop: while a preparation is running or a transfer is prepared, the
    request that asked for it has not been answered. *)
Record reply_inv (l : limbo) : Prop := {
  ri_log : replies_ok (lb_log l);
  ri_active : prepareResult (lb_ho l) = true \/ is_Some (prepared (lb_ho l)) ->
    exists r, activeAdmission (lb_ho l) = Some r /\ r ∈ requested (lb_log l) /\ r ∉ replied (lb_log l);
  ri_one : prepareResult (lb_ho l) = true -> prepared (lb_ho l) = None
}.

(** Outcomes: [C] of the next round, [R] of the last state; never a deadlock. *)
Definition outcome_spec (C R : limbo -> Prop) (o : outcome) : Prop :=
  match o with Continue l => C l | Return _ l | Playing l _ => R l | Deadlock => False | Panic => True end.

Definition loop_ok : outcome -> Prop := outcome_spec reply_inv (fun l => replies_ok (lb_log l)).

Lemma outcome_spec_bind (C1 C2 R : limbo -> Prop) o k :
  outcome_spec C1 R o -> (forall l, o = Continue l -> C1 l -> outcome_spec C2 R (k l)) -> outcome_spec C2 R (let* l := o in k l).
Proof. intros Ho Hk. destruct o; cbn in *; auto. Qed.

(** Steps that do not concern the transfer. *)
Record aloof (l l' : limbo) : Prop := {
  al_ho : lb_ho l' = lb_ho l;
  al_requested : requested (lb_log l') = requested (lb_log l);
  al_replied : replied (lb_log l') = replied (lb_log l)
}.

#[global] Instance aloof_preorder : PreOrder aloof.
Proof. split; [by intros|]. intros x y z [] []. split; congruence. Qed.

Lemma aloof_same l l' : lb_ho l' = lb_ho l -> lb_log l' = lb_log l -> aloof l l'.
Proof. intros Hh Hl. split; by rewrite ?Hl. Qed.

Lemma requested_app a b : requested (a ++ b) = requested a ++ requested b.
Proof. apply omap_app. Qed.
Lemma replied_app a b : replied (a ++ b) = replied a ++ replied b.
Proof. apply omap_app. Qed.

Lemma aloof_noted n l : ~ transfer_note n -> aloof l (noted n l).
Proof.
  intros Hn. split; [done|..]; cbn; rewrite ?requested_app, ?replied_app;
    destruct n; cbn in *; rewrite ?app_nil_r; tauto.
Qed.

Lemma aloof_inv l l' : aloof l l' -> reply_inv l -> reply_inv l'.
Proof.
  intros [Hh H1 H2] [[Hn Hs] Ha Ho]. split; rewrite ?Hh, ?H1, ?H2; auto. split; by rewrite ?H1, ?H2.
Qed.

Lemma aloof_outcome l o : reply_inv l -> outcome_all False (aloof l) o -> loop_ok o.
Proof.
  intros Hi Ho. destruct o; cbn in *; auto; [by eapply aloof_inv|apply ri_log; by eapply aloof_inv..].
Qed.

Lemma writeFrame_aloof l p : outcome_all False (aloof l) (writeFrame l p).
Proof. unfold writeFrame. destruct (link_WriteFrame _ _) as [[e|] c]; by apply aloof_same. Qed.

Lemma maybeEnqueue_aloof config l : outcome_all False (aloof l) (maybeEnqueue config l).
Proof.
  unfold maybeEnqueue, enqueue. repeat (case_match; try done); cbn.
  etransitivity; [|by apply aloof_noted; intros []]. by apply aloof_same.
Qed.

Lemma on_challenge_aloof config l err : outcome_all False (aloof l) (on_challenge config l err).
Proof.
  unfold on_challenge. destruct err; [by apply aloof_same|].
  eapply outcome_all_impl; [apply maybeEnqueue_aloof|]. intros l' Hl. etransitivity; [|exact Hl].
  etransitivity; [|by apply aloof_noted; intros []]. by apply aloof_same.
Qed.

Lemma on_keepalive_aloof config l payload : outcome_all False (aloof l) (on_keepalive config l payload).
Proof.
  unfold on_keepalive. destruct (ParseKeepAlive payload) as [v|]; [|done]. destruct (_ || _); [done|].
  set (l0 := noted (NAnswered v) _).
  assert (H0 : aloof l l0) by (etransitivity; [|by apply aloof_noted; intros []]; by apply aloof_same).
  clearbody l0. eapply (outcome_all_bind _ (aloof l)); [|done|].
  - case_match; [done|]. case_match; [cbn; etransitivity; [exact H0|by apply aloof_same]|].
    eapply outcome_all_impl; [apply maybeEnqueue_aloof|]. intros l' Hl. etransitivity; [exact H0|]. etransitivity; [|exact Hl]. by apply aloof_same.
  - intros l1 _ Hl1. eapply (outcome_all_bind _ (aloof l)); [|done|].
    + eapply outcome_all_impl; [apply maybeEnqueue_aloof|]. intros l' Hl. by transitivity l1.
    + intros l2 _ Hl2. cbn. transitivity l2; [done|by apply aloof_same].
Qed.

Lemma on_tick_aloof l : outcome_all False (aloof l) (on_tick l).
Proof.
  unfold on_tick. destruct (_ && _); [|done]. eapply (outcome_all_bind _ (aloof l)); [|done|].
  - eapply outcome_all_impl; [apply writeFrame_aloof|]. intros l' Hl. etransitivity; [|exact Hl].
    etransitivity; [|by apply aloof_noted; intros []]. by apply aloof_same.
  - intros l' _ Hl. cbn. transitivity l'; [done|by apply aloof_same].
Qed.

Lemma on_queue_tick_aloof config l : outcome_all False (aloof l) (on_queue_tick config l).
Proof.
  assert (Hr : aloof l l) by reflexivity. unfold on_queue_tick.
  repeat case_match; first [exact (writeFrame_aloof _ _)|exact Hr].
Qed.

(** Answering the active request of a running transfer. *)
Lemma reply_replies l e :
  replies_ok (lb_log l) ->
  (exists r, activeAdmission (lb_ho l) = Some r /\ r ∈ requested (lb_log l) /\ r ∉ replied (lb_log l)) ->
  outcome_spec (fun l' => replies_ok (lb_log l') /\ lb_ho l' = lb_ho l) (fun _ => False) (reply l e).
Proof.
  intros [Hn Hs] (r & Hr & Hreq & Hrep). unfold reply. rewrite Hr. cbn. split; [|done].
  split; cbn; rewrite ?requested_app, ?replied_app; cbn; rewrite ?app_nil_r.
  - apply NoDup_app. split_and!; [done|set_solver|apply NoDup_singleton].
  - intros x [Hx|Hx]%elem_of_app; [by apply Hs|]. set_solver.
Qed.

Lemma replies_ok_forgotten log : replies_ok log -> replies_ok (log ++ [NForgotten]).
Proof. intros []. split; by rewrite ?requested_app, ?replied_app, !app_nil_r. Qed.

Lemma idle_reply_inv l :
  replies_ok (lb_log l) -> prepareResult (lb_ho l) = false -> prepared (lb_ho l) = None -> reply_inv l.
Proof. intros Hl Hp Hn. split; [done| |done]. rewrite Hp, Hn. by intros [|[]]. Qed.

Lemma on_admission_replies config l req :
  reply_inv l -> req ∉ requested (lb_log l) -> loop_ok (on_admission config l req).
Proof.
  intros [[Hn Hs] Ha Ho] Hreq. unfold on_admission. set (l1 := noted (NRequest req) l).
  assert (Hrq : requested (lb_log l1) = requested (lb_log l) ++ [req]) by (unfold l1; cbn; by rewrite requested_app).
  assert (Hrp : replied (lb_log l1) = replied (lb_log l)) by (unfold l1; cbn; by rewrite replied_app, app_nil_r).
  assert (Hfresh : req ∉ replied (lb_log l)) by (intros H; by apply Hreq, Hs).
  destruct (_ || _) eqn:E; cbn.
  - change (lb_log (noted ?n l1)) with (lb_log l1 ++ [n]).
    assert (Hlog : replies_ok (lb_log l1 ++ [NReply req (Some ErrSessionNotAvailable)])).
    { split; rewrite ?replied_app, ?requested_app, ?Hrp, ?Hrq; cbn; rewrite ?app_nil_r.
      - apply NoDup_app. split_and!; [done|set_solver|apply NoDup_singleton].
      - set_solver. }
    split; [done| |done]. intros H. destruct (Ha H) as (r & H1 & H2 & H3). exists r. split; [done|]. cbn.
    rewrite !replied_app, !requested_app. cbn. rewrite !app_nil_r. split; [set_solver|].
    intros [?|Hx]%elem_of_app; [done|]. apply list_elem_of_singleton in Hx as ->. done.
  - apply orb_false_iff in E as [E _]. apply orb_false_iff in E as [_ E].
    split; cbn; rewrite ?replied_app, ?requested_app; cbn; rewrite ?app_nil_r.
    + split; cbn; rewrite ?replied_app, ?requested_app; cbn; rewrite ?app_nil_r; [done|set_solver].
    + intros _. exists req. split_and!; [done|set_solver|done].
    + intros _. change (lb_ho l1) with (lb_ho l) in E. by destruct (prepared (lb_ho l)).
Qed.

Lemma on_prepare_result_replies l r gap :
  reply_inv l -> prepareResult (lb_ho l) = true -> loop_ok (on_prepare_result l r gap).
Proof.
  intros [Hlog Ha Ho] Hp. specialize (Ha (or_introl Hp)). specialize (Ho Hp). unfold on_prepare_result.
  destruct r as [[p conn]|e].
  - destruct (BeginClientConfiguration _ _) as [[[e|] w]|]; [| |done].
    + destruct (Rollback w) as [[e' w']|]; [|done].
      eapply outcome_spec_bind.
      * set (l0 := from_world _ _). assert (Hx := reply_replies l0 (Some e) Hlog Ha).
        destruct (reply l0 (Some e)); cbn in *; [exact Hx|contradiction..|done].
      * intros l' _ [H1 H2]. cbn. apply idle_reply_inv; cbn; [done|by rewrite H2|done].
    + cbn. split; [done| |done]. intros _. exact Ha.
  - eapply outcome_spec_bind.
    + set (l0 := set_ho _ l). assert (Hx := reply_replies l0 (Some e) Hlog Ha).
      destruct (reply l0 (Some e)); cbn in *; [exact Hx|contradiction..|done].
    + intros l' _ [H1 H2]. cbn. apply idle_reply_inv; cbn; rewrite ?H2; [by apply replies_ok_forgotten|done..].
Qed.

Lemma on_prepare_done_replies l : reply_inv l -> loop_ok (on_prepare_done l).
Proof.
  intros Hi. unfold on_prepare_done. destruct (prepared (lb_ho l)) as [[p conn]|] eqn:Hp; [|done].
  destruct (pp_finalErr p) as [e|]; [|done].
  destruct Hi as [Hlog Ha Ho]. rewrite Hp in *. specialize (Ha (or_intror (ex_intro _ _ eq_refl))).
  assert (prepareResult (lb_ho l) = false) as Hr by (destruct (prepareResult (lb_ho l)); [by specialize (Ho eq_refl)|done]).
  eapply outcome_spec_bind.
  - assert (Hx := reply_replies l (Some e) Hlog Ha). destruct (reply l (Some e)); cbn in *; [exact Hx|contradiction..|done].
  - intros l' _ [H1 H2]. cbn. apply idle_reply_inv; cbn; rewrite ?H2; [by apply replies_ok_forgotten|done..].
Qed.

Lemma hand_over_replies play l p conn :
  reply_inv l -> is_Some (prepared (lb_ho l)) -> loop_ok (hand_over play l p conn).
Proof.
  intros [Hlog Ha Ho] Hp. specialize (Ha (or_intror Hp)). unfold hand_over.
  destruct (Release _) as [[[[r [|]]|e] w]|]; [| |done|done]; cbn [negb]; [|done].
  destruct (link_WriteAll _ _) as [[e|] c]; [done|]. case_match; [done|].
  eapply outcome_spec_bind.
  - set (l0 := from_world l w). assert (Hx := reply_replies l0 None Hlog Ha).
    destruct (reply l0 None); cbn in *; [exact Hx|contradiction..|done].
  - intros l' _ [H1 H2]. destruct (RunPlay _ _ _ _ _) as [[e|] st]; done.
Qed.

Lemma progress_replies gap play l : reply_inv l -> loop_ok (progress gap play l).
Proof.
  intros Hi. unfold progress. destruct (prepared (lb_ho l)) as [[p conn]|] eqn:Hp; [|done].
  destruct (Session_BarrierPhase _); [|by destruct Hi].
  eapply (outcome_spec_bind (fun l' => reply_inv l' /\ is_Some (prepared (lb_ho l')))).
  - destruct (_ && _); [|cbn; split; [done|by rewrite Hp]].
    destruct (WriteClientConfiguration _ _) as [[[e|] w]|]; [by destruct Hi| |done]. cbn.
    destruct Hi as [Hlog Ha Ho]. rewrite Hp in *. split; [|done]. split; cbn; [done| |].
    + intros _. apply Ha. by right.
    + intros Hx. by specialize (Ho Hx).
  - intros l' _ [H' Hp']. destruct (_ =? _); [|done]. destruct (prepared (lb_ho l')) as [[p' conn']|] eqn:E; [|done].
    apply hand_over_replies; [done|by rewrite E].
Qed.

Lemma limbo_step_replies config l ev :
  reply_inv l -> (forall r, ev = EAdmission r -> r ∉ requested (lb_log l)) -> loop_ok (limbo_step config l ev).
Proof.
  intros H Hr. assert (Hc : loop_ok (Continue l)) by exact H. destruct ev; cbn [limbo_step].
  - destruct (challengeResult _); [by eapply aloof_outcome, on_challenge_aloof|done].
  - apply on_admission_replies; auto.
  - destruct (prepareResult _) eqn:E; [by apply on_prepare_result_replies|done].
  - destruct (prepared _) as [[p c]|]; [|done]. destruct (_ && _); [by apply on_prepare_done_replies|done].
  - unfold on_frame. destruct frame as [payload|]; [|apply H]. destruct (PacketID payload) as [[id body]|]; [|apply H].
    case_bool_decide.
    + destruct (handleBarrierFrame _ _ _ _) as [[e|] s']; [apply H|]. apply progress_replies.
      eapply aloof_inv; [|exact H]. by apply aloof_same.
    + destruct (_ =? _); [by eapply aloof_outcome, on_keepalive_aloof|]. destruct (_ || _); [|apply H].
      destruct (ParseMovement payload); [apply H|done].
  - by eapply aloof_outcome, on_tick_aloof.
  - destruct (timeoutC _); [apply H|done].
  - by eapply aloof_outcome, on_queue_tick_aloof.
  - destruct H as [Hlog Ha Ho]. split; cbn; [done| |].
    + intros Hx. apply Ha. destruct Hx as [|Hx]; [by left|right]. by destruct (prepared (lb_ho l)).
    + intros Hx. by rewrite (Ho Hx).
Qed.

Lemma reply_requested l e : outcome_all True (fun l' => requested (lb_log l') = requested (lb_log l)) (reply l e).
Proof. unfold reply. destruct (activeAdmission _); [|done]. cbn. by rewrite requested_app, app_nil_r. Qed.

Lemma hand_over_requested play l p conn :
  outcome_all True (fun l' => requested (lb_log l') = requested (lb_log l)) (hand_over play l p conn).
Proof.
  unfold hand_over. destruct (Release _) as [[[[r [|]]|e] w]|]; [| |done|done]; cbn [negb]; [|done].
  destruct (link_WriteAll _ _) as [[e|] c]; [done|]. case_match; [done|].
  eapply outcome_all_bind; [exact (reply_requested (from_world l w) None)|done|].
  intros l' _ H'. destruct (RunPlay _ _ _ _ _) as [[e|] st]; done.
Qed.

Lemma progress_requested gap play l :
  outcome_all True (fun l' => requested (lb_log l') = requested (lb_log l)) (progress gap play l).
Proof.
  unfold progress. destruct (prepared (lb_ho l)) as [[p conn]|]; [|done].
  destruct (Session_BarrierPhase _); [|done].
  eapply (outcome_all_bind _ (fun l' => requested (lb_log l') = requested (lb_log l))); [|done|].
  - destruct (_ && _); [|done]. by destruct (WriteClientConfiguration _ _) as [[[e|] w]|].
  - intros l' _ H'. destruct (_ =? _); [|done]. destruct (prepared (lb_ho l')) as [[p' conn']|]; [|done].
    eapply outcome_all_impl; [apply hand_over_requested|]. congruence.
Qed.

Lemma on_prepare_result_requested l r gap :
  outcome_all True (fun l' => requested (lb_log l') = requested (lb_log l)) (on_prepare_result l r gap).
Proof.
  unfold on_prepare_result. destruct r as [[p conn]|e].
  - destruct (BeginClientConfiguration _ _) as [[[e|] w]|]; [|done|done].
    destruct (Rollback w) as [[e' w']|]; [|done].
    eapply outcome_all_bind; [apply reply_requested|done|]. done.
  - eapply outcome_all_bind; [apply reply_requested|done|]. intros l' _ H'. cbn. by rewrite requested_app, app_nil_r.
Qed.

Lemma on_prepare_done_requested l :
  outcome_all True (fun l' => requested (lb_log l') = requested (lb_log l)) (on_prepare_done l).
Proof.
  unfold on_prepare_done. destruct (prepared _) as [[p conn]|]; [|done]. destruct (pp_finalErr p); [|done].
  eapply outcome_all_bind; [apply reply_requested|done|]. intros l' _ H'. cbn. by rewrite requested_app, app_nil_r.
Qed.

(** The requests received are those of the events. *)
Lemma limbo_step_requested config l ev :
  outcome_all True (fun l' => requested (lb_log l') = requested (lb_log l) ++ event_requests [ev]) (limbo_step config l ev).
Proof.
  assert (Hal : forall o, event_requests [ev] = [] -> outcome_all False (aloof l) o ->
    outcome_all True (fun l' => requested (lb_log l') = requested (lb_log l) ++ event_requests [ev]) o).
  { intros o -> Ho. destruct o; cbn in *; try done; rewrite app_nil_r; by apply al_requested. }
  assert (Hsame : forall o, event_requests [ev] = [] -> outcome_all True (fun l' => requested (lb_log l') = requested (lb_log l)) o ->
    outcome_all True (fun l' => requested (lb_log l') = requested (lb_log l) ++ event_requests [ev]) o).
  { intros o -> Ho. destruct o; cbn in *; by rewrite ?app_nil_r. }
  destruct ev; cbn [limbo_step].
  - destruct (challengeResult _); [by apply Hal, on_challenge_aloof|by apply Hsame].
  - unfold on_admission. case_match; cbn; by rewrite !requested_app, ?app_nil_r.
  - destruct (prepareResult _); [by apply Hsame, on_prepare_result_requested|by apply Hsame].
  - destruct (prepared _) as [[p c]|]; [|by apply Hsame]. destruct (_ && _); [by apply Hsame, on_prepare_done_requested|by apply Hsame].
  - apply Hsame; [done|]. unfold on_frame. destruct frame as [payload|]; [|done]. destruct (PacketID payload) as [[id body]|]; [|done].
    case_bool_decide.
    + destruct (handleBarrierFrame _ _ _ _) as [[e|] s']; [done|]. exact (progress_requested gap play (set_session s' l)).
    + destruct (_ =? _); [|destruct (_ || _); [|done]; by destruct (ParseMovement payload)].
      pose proof (on_keepalive_aloof config l payload) as Hk. destruct (on_keepalive config l payload); cbn in *; try done; by apply al_requested.
  - by apply Hal, on_tick_aloof.
  - destruct (timeoutC _); by apply Hsame.
  - by apply Hal, on_queue_tick_aloof.
  - by apply Hsame.
Qed.

Lemma limbo_run_replies config evs : forall l,
  reply_inv l -> NoDup (requested (lb_log l) ++ event_requests evs) ->
  outcome_spec (fun _ => True) (fun _ => True) (limbo_run config l evs) /\
  outcome_all False (fun l' => replies_ok (lb_log l') /\ forall r, r ∈ requested (lb_log l') -> r ∈ requested (lb_log l) ++ event_requests evs)
    (limbo_run config l evs).
Proof.
  induction evs as [|ev evs IH]; intros l Hi Hn.
  { cbn. split; [done|]. rewrite app_nil_r. split; [apply Hi|done]. }
  assert (Hr : event_requests (ev :: evs) = event_requests [ev] ++ event_requests evs) by (by destruct ev).
  rewrite Hr, app_assoc in *. cbn [limbo_run].
  assert (Hs : loop_ok (limbo_step config l ev)).
  { apply limbo_step_replies; [done|]. intros r ->. apply NoDup_app in Hn as (Hn & _). apply NoDup_app in Hn as (_ & Hn & _).
    intros Hx. apply (Hn r Hx). by apply list_elem_of_singleton. }
  pose proof (limbo_step_requested config l ev) as Hq.
  destruct (limbo_step config l ev) as [l'|e l'|l' st| |]; cbn in *; try done.
  - rewrite <-Hq in *. by apply IH.
  - split; [done|]. split; [done|]. rewrite Hq. set_solver.
  - split; [done|]. split; [done|]. rewrite Hq. set_solver.
Qed.

Lemma limbo_start_replies client s q l c : limbo_start client s q = (Ok l, c) -> reply_inv l /\ requested (lb_log l) = [].
Proof.
  unfold limbo_start. repeat (case_match; try done). intros; simplify_eq. split; [|done].
  apply idle_reply_inv; [|done|done]. split; cbn; [constructor|set_solver].
Qed.

(** ** Properties *)

(** C8: the gate to the admission queue. Under any schedule of client packets,
    timers, challenge results, transfers and interference, keep-alives are asked
    with ids 1, 2, 3, ..., one at a time: the next one is sent only after the loop
    accepted the answer to the one before or, right after it reported a failed
    transfer, stopped waiting for it; an answer counts only for the id that is
    outstanding, at most once, and in order; and a player is put in the admission
    queue at most once, and only after the challenge hook, if there is one,
    accepted it and it has answered as many keep-alives as required. *)
Theorem limbo_admission_gate config client s q l0 c evs :
  limbo_start client s q = (Ok l0, c) -> Z.of_nat (length evs) < 2 ^ 63 - 1 ->
  match limbo_run config l0 evs with
  | Continue l | Return _ l | Playing l _ =>
    sent_ids (lb_log l) = seqZ 1 (keepAliveID (lb_ka l)) /\
    StronglySorted Z.lt (answered_ids (lb_log l)) /\
    (forall n pre post, lb_log l = pre ++ NSent n :: post -> 1 < n -> settled (n - 1) pre) /\
    (forall pre post, lb_log l = pre ++ NForgotten :: post -> exists pre' r e, pre = pre' ++ [NReply r (Some e)]) /\
    (forall id, id ∈ answered_ids (lb_log l) -> id ∈ sent_ids (lb_log l)) /\
    (forall pre post, lb_log l = pre ++ NEnqueued :: post ->
       (lc_hook config = None \/ NPassed ∈ pre) /\ required_of config <= blen (answered_ids pre) /\ NEnqueued ∉ post)
  | Deadlock | Panic => True
  end.
Proof.
  intros Hs Hl. pose proof (limbo_start_gate config _ _ _ _ _ Hs) as H0.
  assert (Hb : keepAliveID (lb_ka l0) + Z.of_nat (length evs) < 2 ^ 63).
  { revert Hs. unfold limbo_start. repeat (case_match; try done). intros; simplify_eq. cbn. lia. }
  pose proof (limbo_run_gate config evs l0 H0 Hb) as H.
  assert (Hfin : forall l, gate_inv config l ->
    sent_ids (lb_log l) = seqZ 1 (keepAliveID (lb_ka l)) /\ StronglySorted Z.lt (answered_ids (lb_log l)) /\
    (forall n pre post, lb_log l = pre ++ NSent n :: post -> 1 < n -> settled (n - 1) pre) /\
    (forall pre post, lb_log l = pre ++ NForgotten :: post -> exists pre' r e, pre = pre' ++ [NReply r (Some e)]) /\
    (forall id, id ∈ answered_ids (lb_log l) -> id ∈ sent_ids (lb_log l)) /\
    (forall pre post, lb_log l = pre ++ NEnqueued :: post ->
       (lc_hook config = None \/ NPassed ∈ pre) /\ required_of config <= blen (answered_ids pre) /\ NEnqueued ∉ post)).
  { intros l [? Hse Hpe Hon Hfg Han Hso Hva Hf Hr Hpa Hen Hga]. split_and!; [done|done|exact Hon|exact Hfg| |].
    - intros id Hid. rewrite Hse. apply elem_of_seqZ. apply (proj1 (Forall_forall _ _) Han) in Hid. cbn in Hid. lia.
    - intros pre post E. destruct (Hga pre post E) as [[? ?] ?]. done. }
  destruct (limbo_run config l0 evs); cbn in H; auto.
Qed.

Definition demo_limbo_config : limbo_config := mkLimboConfig true (Some (Some 2)) demo_identity 3%nat.
Definition demo_limbo_client : link := demo_backend [varint 0x17; varint 0 ++ varint 1].
Definition demo_answer (id : Z) : list byte := varint 0x15 ++ be_bytes 8 (uint64 id).
Definition demo_limbo_events : list limbo_event :=
  [EFrame (Ok (demo_answer 1)) [] [] []; ETick; EChallenge None; EQueueTick; EFrame (Ok (demo_answer 2)) [] [] []; EQueueTick].
Definition demo_limbo_start : limbo :=
  Eval vm_compute in
    match limbo_start demo_limbo_client demo_limbo (Some (Queue.New 8)) with
    | (Ok l, _) => l
    | _ => mkLimbo demo_client demo_limbo None (mkKeepalives 0 0 false 0) (mkGate false false 1 false false)
             (mkHandover None false false None false) []
    end.

Lemma demo_limbo_started :
  limbo_start demo_limbo_client demo_limbo (Some (Queue.New 8)) = (Ok demo_limbo_start, lb_client demo_limbo_start).
Proof. vm_compute. reflexivity. Qed.

Definition demo_limbo_end : limbo :=
  Eval vm_compute in
    match limbo_run demo_limbo_config demo_limbo_start demo_limbo_events with Continue l => l | _ => demo_limbo_start end.

Lemma demo_limbo_ran : limbo_run demo_limbo_config demo_limbo_start demo_limbo_events = Continue demo_limbo_end.
Proof. vm_compute. reflexivity. Qed.

Lemma limbo_admission_gate_witness :
  lb_log demo_limbo_end = [NSent 1; NAnswered 1; NSent 2; NPassed; NAnswered 2] ++ NEnqueued :: [] /\
  required_of demo_limbo_config <= blen (answered_ids [NSent 1; NAnswered 1; NSent 2; NPassed; NAnswered 2]).
Proof.
  pose proof (limbo_admission_gate demo_limbo_config demo_limbo_client demo_limbo (Some (Queue.New 8)) demo_limbo_start _
    demo_limbo_events demo_limbo_started ltac:(vm_compute; reflexivity)) as H.
  rewrite demo_limbo_ran in H. destruct H as (_ & _ & _ & _ & _ & H).
  split; [reflexivity|]. exact (proj1 (proj2 (H [NSent 1; NAnswered 1; NSent 2; NPassed; NAnswered 2] [] eq_refl))).
Defined.

(** C25: admission requests are answered at most once. Under any schedule, with
    any interference and with requests that are pairwise distinct, the loop never
    blocks on answering a request that is not there, and the requests it answers
    are requests it received, each answered at most once: the one-place result
    channel of [Admit] is never sent to twice. *)
Theorem limbo_replies_once config client s q l0 c evs :
  limbo_start client s q = (Ok l0, c) -> NoDup (event_requests evs) ->
  match limbo_run config l0 evs with
  | Continue l | Return _ l | Playing l _ =>
    NoDup (replied (lb_log l)) /\ (forall r, r ∈ replied (lb_log l) -> r ∈ event_requests evs)
  | Deadlock => False
  | Panic => True
  end.
Proof.
  intros Hs Hn. destruct (limbo_start_replies _ _ _ _ _ Hs) as [H0 Hr].
  destruct (limbo_run_replies config evs l0 H0) as [_ H]; [by rewrite Hr|]. rewrite Hr in H.
  destruct (limbo_run config l0 evs); cbn in H; try done; destruct H as [[H1 H2] H3]; split; auto.
Qed.

Lemma limbo_replies_once_witness :
  match limbo_run demo_limbo_config demo_limbo_start [EAdmission 5%nat; EPrepareResult (Err net_ErrClosed) []; EAdmission 6%nat] with
  | Continue l => lb_log l = [NSent 1; NRequest 5%nat; NPrepare [1]; NReply 5%nat (Some net_ErrClosed); NForgotten; NRequest 6%nat; NPrepare []] /\
      NoDup (replied (lb_log l))
  | _ => False
  end.
Proof.
  pose proof (limbo_replies_once demo_limbo_config demo_limbo_client demo_limbo (Some (Queue.New 8)) demo_limbo_start _
    [EAdmission 5%nat; EPrepareResult (Err net_ErrClosed) []; EAdmission 6%nat] demo_limbo_started) as H.
  destruct (limbo_run demo_limbo_config demo_limbo_start [EAdmission 5%nat; EPrepareResult (Err net_ErrClosed) []; EAdmission 6%nat])
    as [l|e l|l st| |] eqn:E; vm_compute in E; try discriminate E.
  injection E as <-. split; [vm_compute; reflexivity|]. apply H. apply (bool_decide_unpack _). vm_compute. exact I.
Defined.

(** C9: the hand-over. When the client acknowledges the end of its configuration,
    the transfer is open and both connections work, the loop releases the barrier,
    writes exactly the replay of the barrier to the backend before anything else,
    answers the admission with success, and from then on the two connections are
    joined by the play bridge; when the bridge ends, the backend connection is
    closed and the bridge's error ends the session. *)
Theorem limbo_hand_over config l b packets conn done_ req sent payload body gap play :
  lb_session l = mkSession StateTransferBarrier (Some b) -> phase b = BarrierAwaitingClientConfigurationFinish ->
  lb_ho l = mkHandover (Some (mkPrepared true packets false SigOpen None, conn)) done_ false (Some req) sent ->
  PacketID payload = Ok (ServerboundFinishConfigurationID, body) -> ParseFinishAcknowledged payload = None ->
  writable conn -> Forall (frame_fits conn) (ReplayPayloads (replay b)) -> lk_closed (lb_client l) = false ->
  let '(err, st) := RunPlay 0 None (lb_client l) (received conn (ReplayPayloads (replay b))) play in
  exists l',
    limbo_step config l (EFrame (Ok payload) [] gap play) =
      match err with Some e => Return (Some e) l' | None => Playing l' st end /\
    lb_session l' = mkSession StateBackendPlay None /\ lb_log l' = lb_log l ++ [NReply req None] /\
    (is_Some err -> exists p, prepared (lb_ho l') = Some (p, link_Close (br_backend st)) /\ lb_client l' = br_client st).
Proof.
  intros Hs Hph Hho Hid Hfin Hw Hf Hc. destruct (RunPlay _ _ _ _ _) as [err st] eqn:Hrun.
  cbn [limbo_step]. unfold on_frame. rewrite Hid, Hs. rewrite bool_decide_true by done.
  assert (E : handleBarrierFrame (fun s => run_ops s []) (mkSession StateTransferBarrier (Some b)) ServerboundFinishConfigurationID payload
    = (None, mkSession StateTransferBarrier (Some (set_phase BarrierReady b)))).
  { unfold handleBarrierFrame, Session_BarrierPhase. rewrite active_barrier_barrier, Hph.
    change (BarrierAwaitingClientConfigurationFinish =? BarrierAwaitingClientConfigurationStart) with false.
    change (BarrierAwaitingClientConfigurationFinish =? BarrierAwaitingClientConfigurationFinish) with true.
    change (ServerboundFinishConfigurationID =? ServerboundFinishConfigurationID) with true. cbn [andb].
    rewrite Hfin. cbn [run_ops foldl]. rewrite AdvanceBarrier_active, Hph. done. }
  rewrite E. set (l1 := set_session _ l).
  assert (Hp : prepared (lb_ho l1) = Some (mkPrepared true packets false SigOpen None, conn)) by (unfold l1; cbn; by rewrite Hho).
  assert (Hprog : progress gap play l1 = hand_over play l1 (mkPrepared true packets false SigOpen None) conn).
  { unfold progress. rewrite Hp. change (Session_BarrierPhase (lb_session l1)) with (@Ok BarrierPhase BarrierReady). cbv beta iota.
    change (BarrierReady =? BarrierClientConfiguration) with false. change (BarrierReady =? BarrierReady) with true.
    cbn [andb obind]. by rewrite Hp. }
  rewrite Hprog. unfold hand_over.
  assert (Hrel : Release (to_world l1 (mkPrepared true packets false SigOpen None) conn) =
    Some (Ok (replay b, true), mkWorld (mkSession StateBackendPlay None) conn (mkPrepared false packets true SigClosed None) (lb_client l) [])).
  { unfold Release, to_world, prepared_world. cbn [tw_prepared pp_finalized tw_session]. unfold l1. cbn [lb_session set_session].
    rewrite ReleaseTransfer_active. done. }
  rewrite Hrel. cbn [negb tw_conn]. rewrite link_WriteAll_ok by done.
  change (mkLink (lk_in conn) _ _ _ _ _ _ _) with (received conn (ReplayPayloads (replay b))).
  change (lb_client (from_world l1 _)) with (lb_client l). rewrite Hc. cbn [lk_closed received orb].
  unfold reply. change (activeAdmission (lb_ho (from_world l1 _))) with (activeAdmission (lb_ho l)).
  rewrite Hho. cbn [activeAdmission obind].
  change (lb_client (noted _ _)) with (lb_client l). rewrite Hrun.
  destruct err as [e|]; eexists; (split; [done|]); (split; [done|]); (split; [done|]); intros Hx; [by eexists|by destruct Hx].
Qed.

Definition demo_barrier5 : barrierState :=
  mkBarrier 0 5 ∅ (mkPosition 1 2 3 4 5 true) true [Session.mkPlayerCommand 1 3 0] 4.
Definition demo_limbo5 : limbo :=
  mkLimbo demo_client (mkSession StateTransferBarrier (Some demo_barrier5)) None (mkKeepalives 1 0 false 1)
    (mkGate true true 1 false true) (mkHandover (Some (mkPrepared true [] false SigOpen None, demo_backend [])) true false (Some 9%nat) true) [].

Lemma limbo_hand_over_witness :
  exists l', limbo_step demo_limbo_config demo_limbo5 (EFrame (Ok (varint 2)) [] [] [FromBackend (Err io_EOF)]) =
      Return (Some (ErrWrap "read backend play packet" io_EOF)) l' /\
    lb_log l' = [NReply 9%nat None].
Proof.
  assert (Hfit : Forall (frame_fits (demo_backend [])) (ReplayPayloads (replay demo_barrier5)))
    by (apply (bool_decide_unpack _); vm_compute; exact I).
  pose proof (limbo_hand_over demo_limbo_config demo_limbo5 demo_barrier5 [] (demo_backend []) true 9%nat true (varint 2) [] []
    [FromBackend (Err io_EOF)] eq_refl eq_refl eq_refl eq_refl eq_refl (conj eq_refl eq_refl) Hfit eq_refl) as H.
  destruct (RunPlay _ _ _ _ _) as [err st] eqn:E. cbn in E. injection E as <- <-.
  destruct H as (l' & H1 & _ & H2 & _). exists l'. split; [exact H1|exact H2].
Defined.

(** ** What the loop does not do *)

(** A keep-alive asked in Limbo and answered while the transfer is being prepared
    is consumed by the barrier, but the Limbo timer stays armed: it ends a session
    whose client answered. *)
Lemma answered_keepalive_times_out :
  match limbo_run demo_limbo_config demo_limbo_start
          [EAdmission 5%nat;
           EOther (snd (BeginTransfer demo_limbo 0 [1] 0)) (Queue.New 8) (demo_prepared, demo_conn);
           EFrame (Ok (demo_answer 1)) [] [] []; ETimeout] with
  | Return err l => err = Some (ErrLimboKeepAliveTimeout 1) /\ state (lb_session l) = StateTransferBarrier /\
      limboKeepAlives (default (newBarrier 0 [] 0) (barrier (lb_session l))) = ∅
  | _ => False
  end.
Proof. vm_compute. split_and!; reflexivity. Qed.

(** A second request accepted before the preparation of the first has begun its
    transfer takes its place; the first request is never answered. *)
Lemma overtaken_request_unanswered :
  match limbo_run demo_limbo_config demo_limbo_start
          [EAdmission 5%nat; EAdmission 6%nat; EPrepareResult (Err (InvalidTransitionError 4 4)) []] with
  | Continue l => requested (lb_log l) = [5%nat; 6%nat] /\ replied (lb_log l) = [6%nat] /\
      activeAdmission (lb_ho l) = None /\ prepareResult (lb_ho l) = false
  | _ => False
  end.
Proof. vm_compute. split_and!; reflexivity. Qed.
