(* ===== verification/LimboShared.v ===== *)
(** * What a round of the Limbo loop does to the objects it shares

    The loop of Limbo.v reads and writes the admission queue, and sends on result
    channels through its log. Here: the log only grows, the queue changes only when
    the player joins it, and the bridge starts only with a successful answer. *)

From S2P Require Import Prelude GoIO Varint Utf8 McString Frame Wire Crypto.
From S2P Require Import Configuration Play Forwarding Link Backend Bridge Queue Session Transfer BarrierClient Limbo.

(** The log only grows, and the queue changes only when the player joins it. *)
Record shares (config : limbo_config) (l l' : limbo) : Prop := {
  sh_log : lb_log l `prefix_of` lb_log l';
  sh_enqueued : enqueued (lb_gate l) = true -> enqueued (lb_gate l') = true;
  sh_queue : lb_queue l' = lb_queue l \/
    enqueued (lb_gate l) = false /\ enqueued (lb_gate l') = true /\ NEnqueued ∈ lb_log l' /\
    exists q q', lb_queue l = Some q /\ lb_queue l' = Some q' /\
      items q' = items q ++ [mkItem (queueID config) (Some (lc_conn config)) (Some (lc_conn config))]
}.

#[global] Instance shares_preorder config : PreOrder (shares config).
Proof.
  split; [by split; auto|]. intros x y z [L1 E1 Q1] [L2 E2 Q2]. split; [by etrans|auto|].
  destruct Q1 as [Q1|(F1 & T1 & N1 & q & q' & A1 & B1 & C1)].
  - rewrite Q1 in Q2. destruct Q2 as [|(F2 & Q2)]; [by left|right]. split; [|done].
    destruct (enqueued (lb_gate x)); [by rewrite E1 in F2|done].
  - destruct Q2 as [Q2|(F2 & _)]; [|congruence]. right. split_and!; auto.
    + destruct L2 as [ns ->]. set_solver.
    + exists q, q'. by rewrite Q2.
Qed.

Lemma shares_same config l l' :
  lb_gate l' = lb_gate l -> lb_log l' = lb_log l -> lb_queue l' = lb_queue l -> shares config l l'.
Proof. intros Hg Hl Hq. split; rewrite ?Hg, ?Hl; auto. Qed.

Lemma shares_noted config n l : shares config l (noted n l).
Proof. split; auto. cbn. by apply prefix_app_r. Qed.

Lemma quiet_shares config l l' : quiet l l' -> shares config l l'.
Proof. intros [Hg _ _ (ns & Hl & _) Hq]. split; rewrite ?Hg; auto. rewrite Hl. by apply prefix_app_r. Qed.

(** A step of the gate that keeps the queue flag. *)
Lemma shares_gate config g l : enqueued g = enqueued (lb_gate l) -> shares config l (set_gate g l).
Proof. intros E. split; cbn; auto. congruence. Qed.

(** Rounds that leave the log, the flag and the queue alone. *)
Ltac same := solve [done | cbn; reflexivity | apply shares_same; done | apply shares_gate; done].

Lemma maybeEnqueue_shares config l : outcome_all True (shares config l) (maybeEnqueue config l).
Proof.
  unfold maybeEnqueue. destruct (_ && _); [|same]. unfold enqueue. destruct (enqueued (lb_gate l)) eqn:He; [same|].
  destruct (lb_queue l) as [q|] eqn:Hq; [|same]. destruct (negb _); [same|]. unfold Enqueue.
  destruct (_ || _); [same|]. destruct (bool_decide _); [same|]. destruct (_ <=? _); [same|].
  cbn. split; cbn; auto; [by apply prefix_app_r|]. right. split_and!; [done|done|set_solver|]. eauto 10.
Qed.

Lemma shares_then config l o k :
  outcome_all True (shares config l) o -> (forall l', shares config l l' -> outcome_all True (shares config l') (k l')) ->
  outcome_all True (shares config l) (obind o k).
Proof.
  intros Ho Hk. destruct o as [l'| | | |]; cbn in *; auto. eapply outcome_all_impl; [by apply Hk|]. intros l'' H. by etrans.
Qed.

Lemma shares_from config l l' o : shares config l l' -> outcome_all True (shares config l') o -> outcome_all True (shares config l) o.
Proof. intros H Ho. eapply outcome_all_impl; [exact Ho|]. intros l'' H'. by etrans. Qed.

Lemma on_keepalive_shares config l payload : outcome_all True (shares config l) (on_keepalive config l payload).
Proof.
  unfold on_keepalive. destruct (ParseKeepAlive payload) as [v|]; [|same]. destruct (_ || _); [same|].
  set (l0 := set_ka _ l). apply (shares_from config l (noted (NAnswered v) l0)).
  { etrans; [|apply shares_noted]. same. }
  apply shares_then.
  - destruct (challengeStarted _); [same|]. destruct (lc_hook config); [same|].
    eapply shares_from; [|apply maybeEnqueue_shares]. same.
  - intros l1 _. apply shares_then; [apply maybeEnqueue_shares|]. intros l2 _. same.
Qed.

Lemma limbo_step_shares config l ev :
  (forall st q p, ev = EOther st q p -> lb_queue l = Some q \/ lb_queue l = None) ->
  outcome_all True (shares config l) (limbo_step config l ev).
Proof.
  intros Ho. assert (Hq : forall o, outcome_all True (quiet l) o -> outcome_all True (shares config l) o).
  { intros o H. eapply outcome_all_impl; [exact H|]. apply quiet_shares. }
  destruct ev; cbn [limbo_step].
  - destruct (challengeResult _); [|same]. unfold on_challenge. destruct err; [same|].
    eapply shares_from; [|apply maybeEnqueue_shares]. etrans; [|apply shares_noted]; same.
  - apply Hq, on_admission_quiet.
  - destruct (prepareResult _); [apply Hq, on_prepare_result_quiet|same].
  - destruct (prepared _) as [[p c]|]; [|same]. destruct (_ && _); [apply Hq, on_prepare_done_quiet|same].
  - unfold on_frame. destruct frame as [payload|]; [|same]. destruct (PacketID payload) as [[id body]|]; [|same].
    case_bool_decide.
    + destruct (handleBarrierFrame _ _ _ _) as [[e|] s']; [same|].
      apply (shares_from config l (set_session s' l)); [same|].
      eapply outcome_all_impl; [apply progress_quiet|]. apply quiet_shares.
    + destruct (_ =? _); [apply on_keepalive_shares|]. destruct (_ || _); [|same]. destruct (ParseMovement payload); same.
  - unfold on_tick. destruct (_ && _); [|same]. set (l0 := set_ka _ l). set (id := int64 _).
    apply (shares_from config l (noted (NSent id) l0)); [etrans; [|apply shares_noted]; same|].
    apply shares_then; [eapply outcome_all_impl; [apply writeFrame_quiet|apply quiet_shares]|]. intros l' _. same.
  - destruct (timeoutC _); same.
  - apply Hq, on_queue_tick_quiet.
  - cbn. apply shares_same; try done. cbn. destruct (Ho _ _ _ eq_refl) as [->| ->]; done.
Qed.

(** The loop hands over to the bridge by answering a request with success. *)
Lemma hand_over_playing l p conn l' b : hand_over [] l p conn = Playing l' b -> exists r, lb_log l' = lb_log l ++ [NReply r None].
Proof.
  unfold hand_over. destruct (Release _) as [[[[replay [|]]|e] w]|]; try done. cbn [negb].
  destruct (link_WriteAll _ _) as [[e|] c]; [done|]. case_match; [done|]. unfold reply.
  destruct (activeAdmission _) as [r|]; [|done]. cbn [obind RunPlay bridge_run]. intros [= <- <-]. by exists r.
Qed.

Lemma on_frame_playing config l frame between gap l' b :
  on_frame config l frame between gap [] = Playing l' b -> exists r, lb_log l' = lb_log l ++ [NReply r None].
Proof.
  unfold on_frame. destruct frame as [payload|]; [|done]. destruct (PacketID payload) as [[id body]|]; [|done].
  case_bool_decide.
  - destruct (handleBarrierFrame _ _ _ _) as [[e|] st]; [done|]. unfold progress. set (l0 := set_session st l).
    destruct (prepared (lb_ho l0)) as [[p c]|]; [|done]. destruct (Session_BarrierPhase _) as [phase|]; [|done].
    destruct (_ && _).
    + destruct (WriteClientConfiguration _ _) as [[[e|] w]|]; try done. cbn [obind]. destruct (_ =? _); [|done].
      destruct (prepared _) as [[p' c']|]; [|done]. intros Hx. by apply hand_over_playing in Hx.
    + cbn [obind]. destruct (_ =? _); [|done]. destruct (prepared (lb_ho l0)) as [[p' c']|]; [|done]. intros Hx. by apply hand_over_playing in Hx.
  - destruct (_ =? _).
    + unfold on_keepalive. destruct (ParseKeepAlive payload); [|done]. unfold maybeEnqueue, enqueue. repeat (case_match; cbn [obind]; try done).
    + destruct (_ || _); [|done]. by destruct (ParseMovement payload).
Qed.

Lemma limbo_step_playing config l ev l' b :
  match ev with EFrame _ _ _ play => play = [] | _ => True end ->
  limbo_step config l ev = Playing l' b -> exists r, lb_log l' = lb_log l ++ [NReply r None].
Proof.
  destruct ev; cbn [limbo_step]; intros Hev.
  5: { subst play. apply on_frame_playing. }
  all: unfold on_challenge, maybeEnqueue, enqueue, on_admission, on_prepare_result, on_prepare_done, on_tick, on_queue_tick, writeFrame, reply.
  all: try done; repeat (case_match; cbn [obind]; try done).
Qed.
