(* ===== verification/KeepAlive.v ===== *)
(** * Keep-alives of a Limbo session in time (internal/server/server.go: serveLimbo)

    Limbo.v lets a timer fire at any moment. Here the events of the loop carry the
    time at which they are handled, and the keep-alive timer behaves as Go's: it is
    started with KeepAliveTimeout when the loop starts and by every keep-alive that
    is sent, and it can be received from when that time has passed, unless it was
    stopped or its channel replaced by nil. [Reset] discards an expiration that was
    not received (Go 1.23 and later; go.mod asks for 1.26). *)

From S2P Require Import Prelude GoIO Varint Utf8 McString Frame Wire Crypto.
From S2P Require Import Configuration Play Forwarding Link Backend Bridge Queue Session Transfer BarrierClient Limbo LimboShared.

(** [tm_sent]: the keep-alives sent, with their times, the last one first; the
    timer runs since the last of them. *)
Record timed := mkTimed { tm_limbo : limbo; tm_sent : list (Z * Z) }.

Inductive timed_outcome : Type :=
| TContinue (s : timed)
| TStop (o : outcome) (sent : list (Z * Z)).

Section timed.
Context (config : limbo_config) (KeepAliveTimeout : Z).

(** The keep-alive timer has expired at [now]. *)
Definition expired (s : timed) (now : Z) : bool :=
  match tm_sent s with (_, t) :: _ => t + KeepAliveTimeout <=? now | [] => false end.

(** The loop after a round that was handled at [now]: a new keep-alive restarts the timer. *)
Definition note_sent (sent : list (Z * Z)) (now : Z) (l l' : limbo) : list (Z * Z) :=
  if keepAliveID (lb_ka l') =? keepAliveID (lb_ka l) then sent else (keepAliveID (lb_ka l'), now) :: sent.

Definition timed_step (s : timed) (now : Z) (ev : limbo_event) : timed_outcome :=
  match ev with
  | ETimeout =>
    if expired s now then
      match limbo_step config (tm_limbo s) ETimeout with Continue l => TContinue (mkTimed l (tm_sent s)) | o => TStop o (tm_sent s) end
    else TContinue s
  | _ =>
    match limbo_step config (tm_limbo s) ev with
    | Continue l => TContinue (mkTimed l (note_sent (tm_sent s) now (tm_limbo s) l))
    | o => TStop o (tm_sent s)
    end
  end.

Fixpoint timed_run (s : timed) (evs : list (Z * limbo_event)) : timed_outcome :=
  match evs with
  | [] => TContinue s
  | (now, ev) :: evs => match timed_step s now ev with TContinue s => timed_run s evs | TStop o sent => TStop o sent end
  end.

(** The loop starts at [now], right after the first keep-alive. *)
Definition timed_start (l : limbo) (now : Z) : timed := mkTimed l [(keepAliveID (lb_ka l), now)].

(** ** Invariant *)

(** The keep-alive timer is selected on exactly while the last keep-alive is outstanding. *)
Definition armed (l : limbo) : Prop := timeoutC (lb_ka l) = negb (pendingKeepAlive (lb_ka l) =? 0).

Record timed_inv (s : timed) : Prop := {
  ti_gate : gate_inv config (tm_limbo s);
  ti_armed : armed (tm_limbo s);
  ti_sent : (tm_sent s).*1 = reverse (sent_ids (lb_log (tm_limbo s)))
}.

(** Rounds of the loop by what they do to the keep-alives: nothing, or the timer
    is disarmed. *)
Record steady (l l' : limbo) : Prop := {
  st_ka : lb_ka l' = lb_ka l;
  st_log : lb_log l `prefix_of` lb_log l'
}.

Record kept (l l' : limbo) : Prop := {
  ke_id : keepAliveID (lb_ka l') = keepAliveID (lb_ka l);
  ke_timer : (pendingKeepAlive (lb_ka l') = pendingKeepAlive (lb_ka l) /\ timeoutC (lb_ka l') = timeoutC (lb_ka l)) \/
    (pendingKeepAlive (lb_ka l') = 0 /\ timeoutC (lb_ka l') = false)
}.

Definition continues (P : limbo -> Prop) (o : outcome) : Prop := match o with Continue l => P l | _ => True end.

(** ** Lemmas *)

#[local] Instance steady_preorder : PreOrder steady.
Proof. split; [by split|]. intros x y z [K1 L1] [K2 L2]. split; [congruence|by etrans]. Qed.

Lemma steady_kept l l' : steady l l' -> kept l l'.
Proof. intros [K L]. split; rewrite ?K; auto. Qed.

Lemma steady_same l l' : lb_ka l' = lb_ka l -> lb_log l' = lb_log l -> steady l l'.
Proof. intros K L. split; [done|]. by rewrite L. Qed.

Lemma steady_noted n l : steady l (noted n l).
Proof. split; [done|]. by apply prefix_app_r. Qed.

Lemma kept_armed l l' : kept l l' -> armed l -> armed l'.
Proof. unfold armed. intros [_ [[-> ->]|[-> ->]]] H; done. Qed.

Lemma continues_impl (P Q : limbo -> Prop) o : continues P o -> (forall l, P l -> Q l) -> continues Q o.
Proof. intros Ho HPQ. destruct o; cbn in *; auto. Qed.

Lemma continues_bind (P Q : limbo -> Prop) o k :
  continues P o -> (forall l, P l -> continues Q (k l)) -> continues Q (let* l := o in k l).
Proof. intros Ho Hk. destruct o; cbn in *; auto. Qed.

Lemma steady_then l o k :
  continues (steady l) o -> (forall l', steady l l' -> continues (steady l') (k l')) -> continues (steady l) (let* l := o in k l).
Proof. intros Ho Hk. eapply continues_bind; [exact Ho|]. intros l' H. eapply continues_impl; [by apply Hk|]. intros l'' H'. by etrans. Qed.

Lemma steady_from l l' o : steady l l' -> continues (steady l') o -> continues (steady l) o.
Proof. intros H Ho. eapply continues_impl; [exact Ho|]. intros l'' H'. by etrans. Qed.

(** Rounds that leave the keep-alives and the log alone. *)
Ltac keep := solve [done | cbn; reflexivity | apply steady_same; done | apply steady_kept, steady_same; done].

Lemma reply_steady l e : continues (steady l) (reply l e).
Proof. unfold reply. destruct (activeAdmission _); [|done]. apply steady_noted. Qed.

Lemma writeFrame_steady l p : continues (steady l) (writeFrame l p).
Proof. unfold writeFrame. destruct (link_WriteFrame _ _) as [[e|] c]; keep. Qed.

Lemma maybeEnqueue_steady l : continues (steady l) (maybeEnqueue config l).
Proof.
  pose proof (maybeEnqueue_ka config l) as H1. pose proof (maybeEnqueue_shares config l) as H2.
  destruct (maybeEnqueue config l); try done. split; [done|]. apply H2.
Qed.

Lemma hand_over_steady play l p conn : continues (steady l) (hand_over play l p conn).
Proof.
  unfold hand_over. destruct (Release _) as [[[[r [|]]|e] w]|]; try done. cbn [negb]. destruct (link_WriteAll _ _) as [[e|] c]; [done|].
  case_match; [done|]. eapply continues_bind; [apply reply_steady|]. intros l' E. by destruct (RunPlay _ _ _ _ _) as [[e|] st].
Qed.

Lemma progress_steady gap play l : continues (steady l) (progress gap play l).
Proof.
  unfold progress. destruct (prepared _) as [[p conn]|]; [|keep]. destruct (Session_BarrierPhase _); [|keep].
  apply steady_then.
  - destruct (_ && _); [|keep]. destruct (WriteClientConfiguration _ _) as [[[e|] w]|]; keep.
  - intros l' E. destruct (_ =? _); [|keep]. destruct (prepared _) as [[p' conn']|]; [|keep]. apply hand_over_steady.
Qed.

(** A failed transfer forgets the outstanding keep-alive. *)
Lemma failed_kept l l0 err (k : limbo -> limbo) :
  steady l l0 ->
  (forall l', lb_ka (k l') = mkKeepalives (keepAliveID (lb_ka l')) 0 false (validKeepAlives (lb_ka l'))) ->
  continues (kept l) (let* l' := reply l0 (Some err) in Continue (k l')).
Proof.
  intros [Hs1 Hs2] Hk. unfold reply. destruct (activeAdmission _) as [req|]; [|done]. cbn.
  split; rewrite Hk; cbn; [by rewrite Hs1|by right].
Qed.

Lemma on_keepalive_kept l payload : continues (kept l) (on_keepalive config l payload).
Proof.
  unfold on_keepalive. destruct (ParseKeepAlive payload) as [v|]; [|done].
  destruct (_ =? 0); [done|]. cbn [orb]. destruct (Z.eqb_spec v (pendingKeepAlive (lb_ka l))) as [->|]; [|done]. cbn [negb].
  set (l0 := noted _ _).
  eapply (continues_bind (steady l0)).
  - destruct (challengeStarted _); [keep|]. destruct (lc_hook config); [keep|].
    eapply steady_from; [|apply maybeEnqueue_steady]. keep.
  - intros l1 E1. eapply (continues_bind (steady l0)); [eapply steady_from; [exact E1|apply maybeEnqueue_steady]|].
    intros l2 [E2 [ns L2]]. cbn. split; cbn; rewrite ?E2; cbn; [done|by right].
Qed.

(** The rounds that do not send a keep-alive. *)
Lemma limbo_step_kept l ev : ev <> ETick -> continues (kept l) (limbo_step config l ev).
Proof.
  intros Hev. assert (Hk : forall o, continues (steady l) o -> continues (kept l) o).
  { intros o H. eapply continues_impl; [exact H|]. apply steady_kept. }
  destruct ev; cbn [limbo_step].
  - destruct (challengeResult _); [|keep]. unfold on_challenge. destruct err; [keep|].
    apply Hk. eapply steady_from; [|apply maybeEnqueue_steady]. etrans; [|apply steady_noted]. keep.
  - apply Hk. unfold on_admission. case_match; cbn; (etrans; [apply steady_noted|]); [apply steady_noted|].
    etrans; [|apply steady_noted]. keep.
  - destruct (prepareResult _); [|keep]. unfold on_prepare_result. destruct r as [[p conn]|e].
    + destruct (BeginClientConfiguration _ _) as [[[e|] w]|]; [|keep..].
      destruct (Rollback w) as [[e' w']|]; [|keep]. apply Hk. eapply steady_from; [|apply steady_then; [apply reply_steady|]]; [keep|].
      intros l' _. keep.
    + apply failed_kept; [keep|done].
  - destruct (prepared _) as [[p c]|] eqn:Hp; [|keep]. destruct (_ && _); [|keep]. unfold on_prepare_done.
    rewrite Hp. destruct (pp_finalErr p); [|keep]. by apply failed_kept.
  - unfold on_frame. destruct frame as [payload|]; [|keep]. destruct (PacketID payload) as [[id body]|]; [|keep].
    case_bool_decide.
    + destruct (handleBarrierFrame _ _ _ _) as [[e|] s']; [keep|]. apply Hk. eapply steady_from; [|apply progress_steady]. keep.
    + destruct (_ =? _); [apply on_keepalive_kept|]. destruct (_ || _); [|keep]. destruct (ParseMovement payload); keep.
  - done.
  - destruct (timeoutC _); keep.
  - apply Hk. unfold on_queue_tick. destruct (_ && _); [|keep]. destruct (lb_queue l) as [q|]; [|keep]. destruct (Queue_Position q _); [|keep].
    destruct (ActionBarPayload _); [|keep]. apply writeFrame_steady.
  - keep.
Qed.

(** A tick sends the next keep-alive and arms the timer, or does nothing. *)
Lemma on_tick_sends l :
  continues (fun l' => l' = l \/
    let id := int64 (keepAliveID (lb_ka l) + 1) in
    keepAliveID (lb_ka l') = id /\ pendingKeepAlive (lb_ka l') = id /\ timeoutC (lb_ka l') = true) (on_tick l).
Proof.
  unfold on_tick. destruct (_ && _); [|by left].
  eapply continues_bind; [apply writeFrame_steady|]. intros l' [E _]. cbn. rewrite E. by right.
Qed.

(** The timer is selected on exactly while the last keep-alive is outstanding. *)
Lemma armed_outstanding l : gate_inv config l -> armed l ->
  let n := keepAliveID (lb_ka l) in
  outstanding n (lb_log l) /\ timeoutC (lb_ka l) = true /\ pendingKeepAlive (lb_ka l) = n \/
  settled n (lb_log l) /\ timeoutC (lb_ka l) = false.
Proof.
  intros Hg Ha n. unfold armed in Ha. rewrite Ha. destruct (gi_pending _ _ Hg) as [[-> Hs]|(Hz & Ho & _)]; [by right|left].
  split_and!; [done| |done]. rewrite Hz. pose proof (gi_id _ _ Hg). destruct (Z.eqb_spec (keepAliveID (lb_ka l)) 0); [lia|done].
Qed.

(** A keep-alive sent once is not both waited for and settled. *)
Lemma outstanding_not_settled l : gate_inv config l -> forall n, outstanding n (lb_log l) -> ~ settled n (lb_log l).
Proof.
  intros Hg n (pre & post & E & Ho) (pre' & post' & E' & Hs).
  assert (Hnd : NoDup (sent_ids (lb_log l))) by (rewrite (gi_sent _ _ Hg); apply NoDup_seqZ).
  assert (Hin : forall a b, lb_log l = a ++ NSent n :: b -> (n ∉ sent_ids a) /\ (n ∉ sent_ids b)).
  { intros a b Eab. rewrite Eab, sent_ids_app in Hnd. cbn in Hnd. apply NoDup_app in Hnd as (_ & H1 & [H2 _]%NoDup_cons).
    split; [|done]. intros Hx. apply (H1 n Hx). set_solver. }
  assert (Hel : forall a, NSent n ∈ a -> n ∈ sent_ids a).
  { intros a Hx. apply list_elem_of_omap. by exists (NSent n). }
  pose proof (Hin _ _ E) as [H1 H2]. rewrite E in E'. apply app_eq_inv in E' as [(k & -> & E')|(k & -> & E')].
  - destruct k as [|a k]; cbn in E'; [injection E' as ->; done|]. injection E' as <- ->. apply H1, Hel. set_solver.
  - destruct k as [|a k]; cbn in E'; [injection E' as ->; done|]. injection E' as <- ->. apply H2, Hel. set_solver.
Qed.

(** A round that continues keeps the invariant, whatever it does to the timer. *)
Lemma note_sent_inv s now l' :
  timed_inv s -> gate_inv config l' -> armed l' ->
  keepAliveID (lb_ka l') = keepAliveID (lb_ka (tm_limbo s)) \/ keepAliveID (lb_ka l') = keepAliveID (lb_ka (tm_limbo s)) + 1 ->
  timed_inv (mkTimed l' (note_sent (tm_sent s) now (tm_limbo s) l')).
Proof.
  intros [Hg _ Hs] Hg' Ha' Hid. split; [done|done|]. cbn. rewrite (gi_sent _ _ Hg'). rewrite (gi_sent _ _ Hg) in Hs.
  pose proof (gi_id _ _ Hg). unfold note_sent. destruct Hid as [->| ->]; [by rewrite Z.eqb_refl|].
  destruct (Z.eqb_spec (keepAliveID (lb_ka (tm_limbo s)) + 1) (keepAliveID (lb_ka (tm_limbo s)))); [lia|]. cbn. rewrite Hs.
  rewrite (seqZ_app 1 (keepAliveID (lb_ka (tm_limbo s))) 1) by lia. rewrite reverse_app. cbn. by rewrite Z.add_comm.
Qed.

Lemma limbo_step_armed l ev l' :
  gate_inv config l -> armed l -> keepAliveID (lb_ka l) < 2 ^ 63 - 1 -> limbo_step config l ev = Continue l' ->
  armed l' /\ (keepAliveID (lb_ka l') = keepAliveID (lb_ka l) \/ keepAliveID (lb_ka l') = keepAliveID (lb_ka l) + 1).
Proof.
  intros Hg Ha Hb E. assert (Hev : ev = ETick \/ ev <> ETick) by (destruct ev; auto). destruct Hev as [->|Hev].
  - pose proof (on_tick_sends l) as Ht. cbn in E. rewrite E in Ht. cbn in Ht. pose proof (gi_id _ _ Hg).
    rewrite int64_small in Ht by (unfold in_int64; lia). destruct Ht as [->|(Hi & Hp & Hc)]; [by auto|].
    split; [|by right]. unfold armed. rewrite Hp, Hc. destruct (Z.eqb_spec (keepAliveID (lb_ka l) + 1) 0); [lia|done].
  - pose proof (limbo_step_kept l ev Hev) as Hk. rewrite E in Hk. cbn in Hk. split; [by eapply kept_armed|]. left. apply Hk.
Qed.

Lemma timed_step_inv s now ev s' :
  timed_inv s -> keepAliveID (lb_ka (tm_limbo s)) < 2 ^ 63 - 1 -> timed_step s now ev = TContinue s' ->
  timed_inv s' /\ keepAliveID (lb_ka (tm_limbo s')) <= keepAliveID (lb_ka (tm_limbo s)) + 1.
Proof.
  intros Hi Hb E. assert (Hev : ev = ETimeout \/ ev <> ETimeout) by (destruct ev; auto). destruct Hev as [->|Hev].
  - cbn in E. destruct (expired s now); [|by simplify_eq; split; [|lia]]. destruct (timeoutC _); [done|]. simplify_eq.
    destruct s. split; [done|cbn; lia].
  - assert (Hx : exists l', limbo_step config (tm_limbo s) ev = Continue l' /\ s' = mkTimed l' (note_sent (tm_sent s) now (tm_limbo s) l')).
    { revert E. unfold timed_step. destruct ev; try done; destruct (limbo_step _ _ _); intros; simplify_eq; eauto. }
    destruct Hx as (l' & El & ->). destruct (limbo_step_armed _ _ _ (ti_gate _ Hi) (ti_armed _ Hi) Hb El) as [Ha' Hid].
    pose proof (limbo_step_gate config _ ev (ti_gate _ Hi) Hb) as Hg'. rewrite El in Hg'. split; [by apply note_sent_inv|]. cbn. lia.
Qed.

Lemma timed_run_inv evs : forall s s',
  timed_inv s -> keepAliveID (lb_ka (tm_limbo s)) + blen evs < 2 ^ 63 -> timed_run s evs = TContinue s' -> timed_inv s'.
Proof.
  induction evs as [|[now ev] evs IH]; intros s s' Hi Hb E; cbn in E; [by simplify_eq|].
  rewrite blen_cons in Hb. pose proof (blen_nonneg evs).
  destruct (timed_step s now ev) as [s1|] eqn:E1; [|done].
  destruct (timed_step_inv s now ev s1 Hi ltac:(lia) E1) as [Hi1 Hb1]. eapply IH; [exact Hi1|lia|exact E].
Qed.

(** A round sends a keep-alive only at a tick, and records its time. *)
Lemma timed_step_sent s now ev s' :
  keepAliveID (lb_ka (tm_limbo s)) < 2 ^ 63 - 1 -> timed_inv s -> timed_step s now ev = TContinue s' ->
  keepAliveID (lb_ka (tm_limbo s')) = keepAliveID (lb_ka (tm_limbo s)) /\ tm_sent s' = tm_sent s \/
  ev = ETick /\ keepAliveID (lb_ka (tm_limbo s')) = keepAliveID (lb_ka (tm_limbo s)) + 1 /\
    tm_sent s' = (keepAliveID (lb_ka (tm_limbo s')), now) :: tm_sent s.
Proof.
  intros Hb Hi E. pose proof (gi_id _ _ (ti_gate _ Hi)). assert (Hev : ev = ETimeout \/ ev <> ETimeout) by (destruct ev; auto). destruct Hev as [->|Hev].
  - cbn in E. destruct (expired s now); [|simplify_eq; auto]. destruct (timeoutC _); [done|]. simplify_eq. by left.
  - assert (Hx : exists l', limbo_step config (tm_limbo s) ev = Continue l' /\ s' = mkTimed l' (note_sent (tm_sent s) now (tm_limbo s) l')).
    { revert E. unfold timed_step. destruct ev; try done; destruct (limbo_step _ _ _); intros; simplify_eq; eauto. }
    destruct Hx as (l' & El & ->). cbn. unfold note_sent. destruct (Z.eqb_spec (keepAliveID (lb_ka l')) (keepAliveID (lb_ka (tm_limbo s)))) as [|Hne]; [by left|].
    right. assert (Ht : ev = ETick).
    { destruct ev; try done; exfalso; apply Hne; match type of El with limbo_step _ _ ?e = _ => pose proof (limbo_step_kept (tm_limbo s) e) as Hk end;
        rewrite El in Hk; by apply Hk. }
    destruct (limbo_step_armed _ _ _ (ti_gate _ Hi) (ti_armed _ Hi) Hb El) as [_ [?|?]]; done.
Qed.

Lemma timed_run_sent evs : forall s s',
  timed_inv s -> keepAliveID (lb_ka (tm_limbo s)) + blen evs < 2 ^ 63 -> timed_run s evs = TContinue s' ->
  keepAliveID (lb_ka (tm_limbo s')) = keepAliveID (lb_ka (tm_limbo s)) /\ tm_sent s' = tm_sent s \/
  exists pre t s1 post sent, evs = pre ++ (t, ETick) :: post /\ timed_run s pre = TContinue s1 /\
    keepAliveID (lb_ka (tm_limbo s')) = keepAliveID (lb_ka (tm_limbo s1)) + 1 /\
    tm_sent s' = (keepAliveID (lb_ka (tm_limbo s')), t) :: sent.
Proof.
  induction evs as [|[now ev] evs IH]; intros s s' Hi Hb E; cbn in E; [by simplify_eq; left|].
  rewrite blen_cons in Hb. pose proof (blen_nonneg evs).
  destruct (timed_step s now ev) as [s1|] eqn:E1; [|done].
  destruct (timed_step_inv s now ev s1 Hi ltac:(lia) E1) as [Hi1 Hb1].
  destruct (IH s1 s' Hi1 ltac:(lia) E) as [[Hid Hs]|(pre & t & s2 & post & sent & -> & Hr & Hid & Hs)].
  - destruct (timed_step_sent s now ev s1 ltac:(lia) Hi E1) as [[Hid1 Hs1]|(-> & Hid1 & Hs1)]; [left; split; congruence|].
    right. exists [], now, s, evs, (tm_sent s). split_and!; try done; congruence.
  - right. exists ((now, ev) :: pre), t, s2, post, sent. split_and!; try done. cbn. by rewrite E1.
Qed.

Lemma timed_start_inv client session queue l c now :
  limbo_start client session queue = (Ok l, c) -> timed_inv (timed_start l now) /\ keepAliveID (lb_ka l) = 1.
Proof.
  intros E. pose proof (limbo_start_gate config _ _ _ _ _ E) as Hg. revert E. unfold limbo_start. repeat (case_match; try done). intros; simplify_eq.
  split; [|done]. by split.
Qed.
End timed.

(** ** Properties *)

(** C22: keep-alive timeouts. In every state the loop reaches, the keep-alives
    sent are 1 to n, and t0 is the time at which n was sent: at the start, or at
    the tick that raised the number from n - 1. Keep-alive n is either outstanding
    or settled, never both: settled means that since n was sent the loop accepted
    its answer, or gave up waiting for it when a transfer failed. The timer case
    ends the session, with the timeout error for n, exactly when
    t0 + KeepAliveTimeout has passed and n is outstanding, and does nothing
    otherwise. (An answer that arrives during a transfer goes to the barrier and not
    to the loop, and leaves n outstanding: [answered_keepalive_times_out].) *)
Theorem keepalive_timeout_exact config T client session queue l0 c start evs s now :
  limbo_start client session queue = (Ok l0, c) -> Z.of_nat (length evs) < 2 ^ 63 - 1 ->
  timed_run config T (timed_start l0 start) evs = TContinue s ->
  let n := keepAliveID (lb_ka (tm_limbo s)) in
  let log := lb_log (tm_limbo s) in
  exists t0 earlier, tm_sent s = (n, t0) :: earlier /\ reverse (tm_sent s).*1 = seqZ 1 n /\
  (n = 1 /\ t0 = start \/
   exists pre post s1, evs = pre ++ (t0, ETick) :: post /\ timed_run config T (timed_start l0 start) pre = TContinue s1 /\
     keepAliveID (lb_ka (tm_limbo s1)) = n - 1) /\
  (outstanding n log \/ settled n log) /\ ~ (outstanding n log /\ settled n log) /\
  (forall pre post, log = pre ++ NForgotten :: post -> exists pre' r e, pre = pre' ++ [NReply r (Some e)]) /\
  (t0 + T <= now /\ outstanding n log ->
     timed_step config T s now ETimeout = TStop (Return (Some (ErrLimboKeepAliveTimeout n)) (tm_limbo s)) (tm_sent s)) /\
  (~ (t0 + T <= now /\ outstanding n log) -> timed_step config T s now ETimeout = TContinue s).
Proof.
  intros E Hlen Hr n log. destruct (timed_start_inv config _ _ _ _ _ start E) as [H0 Hid].
  assert (Hbound : keepAliveID (lb_ka (tm_limbo (timed_start l0 start))) + blen evs < 2 ^ 63) by (cbn; rewrite Hid; unfold blen; lia).
  pose proof (timed_run_inv config T evs _ s H0 Hbound Hr) as Hi. pose proof (timed_run_sent config T evs _ s H0 Hbound Hr) as Hat.
  destruct Hi as [Hg Ha Hs]. rewrite (gi_sent _ _ Hg) in Hs. pose proof (gi_id _ _ Hg) as H1. fold n in Hs, H1.
  pose proof (armed_outstanding config _ Hg Ha) as Har. cbn zeta in Har. fold n log in Har.
  pose proof (outstanding_not_settled config _ Hg n) as Hex. fold log in Hex.
  assert (Hlast : seqZ 1 n = seqZ 1 (n - 1) ++ [n]).
  { replace n with (n - 1 + 1) at 1 by lia. rewrite seqZ_app by lia. by replace (1 + (n - 1)) with n by lia. }
  destruct (tm_sent s) as [|[m t0] earlier] eqn:Hts; rewrite Hlast, reverse_app in Hs; cbn in Hs; [done|]. injection Hs as -> Hs.
  exists t0, earlier. split_and!; [done| | |tauto|tauto|apply (gi_forgets _ _ Hg)| |].
  - rewrite fmap_cons. cbn [fst]. rewrite Hs, reverse_cons, reverse_involutive. by rewrite Hlast.
  - cbn in Hat. fold n in Hat. destruct Hat as [[H2 H3]|(pre & t & s1 & post & sent & -> & Hp & H2 & H3)].
    + left. injection H3 as _ <- _. split; congruence.
    + right. injection H3 as <- _. exists pre, post, s1. split_and!; [done|done|lia].
  - intros [Hx Ho]. unfold timed_step, expired. rewrite Hts. destruct (Z.leb_spec (t0 + T) now); [|lia].
    cbn [limbo_step]. destruct Har as [(_ & -> & ->)|[Hse _]]; [done|]. by destruct (Hex Ho).
  - intros Hno. unfold timed_step, expired. rewrite Hts. destruct (Z.leb_spec (t0 + T) now); [|done].
    cbn [limbo_step]. destruct Har as [(Ho & _)|[_ ->]]; [by destruct Hno|]. destruct s. cbn in *. by rewrite Hts.
Qed.

(** Keep-alive 1, sent at 10, is answered at 12; keep-alive 2 is sent at 30. *)
Definition demo_timed_events : list (Z * limbo_event) := [(12, EFrame (Ok (demo_answer 1)) [] [] []); (30, ETick)].
Definition demo_timed : timed :=
  Eval vm_compute in
    match timed_run demo_limbo_config 30 (timed_start demo_limbo_start 10) demo_timed_events with
    | TContinue s => s
    | TStop _ _ => timed_start demo_limbo_start 10
    end.

Lemma demo_timed_ran : timed_run demo_limbo_config 30 (timed_start demo_limbo_start 10) demo_timed_events = TContinue demo_timed.
Proof. vm_compute. reflexivity. Qed.

Lemma keepalive_timeout_exact_witness :
  timed_step demo_limbo_config 30 demo_timed 59 ETimeout = TContinue demo_timed /\
  timed_step demo_limbo_config 30 demo_timed 60 ETimeout =
    TStop (Return (Some (ErrLimboKeepAliveTimeout 2)) (tm_limbo demo_timed)) [(2, 30); (1, 10)].
Proof.
  split.
  - destruct (keepalive_timeout_exact demo_limbo_config 30 demo_limbo_client demo_limbo (Some (Queue.New 8)) demo_limbo_start
      (lb_client demo_limbo_start) 10 demo_timed_events demo_timed 59 demo_limbo_started ltac:(vm_compute; reflexivity) demo_timed_ran)
      as (t0 & earlier & Hs & _ & _ & _ & _ & _ & _ & H). injection Hs as <- <-. apply H. intros [Hx _]. by apply Hx.
  - destruct (keepalive_timeout_exact demo_limbo_config 30 demo_limbo_client demo_limbo (Some (Queue.New 8)) demo_limbo_start
      (lb_client demo_limbo_start) 10 demo_timed_events demo_timed 60 demo_limbo_started ltac:(vm_compute; reflexivity) demo_timed_ran)
      as (t0 & earlier & Hs & _ & _ & _ & _ & _ & H & _). injection Hs as <- <-. apply H. split; [discriminate|].
    exists [NSent 1; NAnswered 1], []. split; [reflexivity|set_solver].
Defined.
