(* ===== verification/Server.v ===== *)
(** * Connections of the server (internal/server/server.go: New, Serve, serveConn's
    bookkeeping, track and untrack)

    A connection is a number; its remote address is a parameter. Accepting a
    connection is two steps (the semaphore, then [track]); ending one is five: the
    four sections of the deferred clean-up, each of which takes the server's mutex
    on its own, then the semaphore. Steps of different goroutines interleave
    freely. *)

From S2P Require Import Prelude NetAddr GoIO Frame Status Ratelimit.

Definition ns_second : Z := 1000000000.

(** The numeric part of [Config]; the components it points to are modelled in
    their own files. *)
Record ServerConfig := mkServerConfig {
  sc_MaxConnections : Z;
  sc_MaxConnectionsPerIP : Z;
  sc_MaxPacketSize : Z;
  sc_HandshakeTimeout : Z;
  sc_StatusTimeout : Z;
  sc_LoginTimeout : Z;
  sc_WriteTimeout : Z;
  sc_KeepAliveInterval : Z;
  sc_KeepAliveTimeout : Z;
  sc_QueueStatusInterval : Z;
  sc_LoginRateLimit : Z;
  sc_LoginRateWindow : Z;
  sc_ChallengeTimeout : Z
}.

Definition or_default (v d : Z) : Z := if v <=? 0 then d else v.

Definition with_defaults (c : ServerConfig) : ServerConfig :=
  mkServerConfig
    (or_default (sc_MaxConnections c) 10000)
    (or_default (sc_MaxConnectionsPerIP c) 16)
    (or_default (sc_MaxPacketSize c) DefaultMaxPacketSize)
    (or_default (sc_HandshakeTimeout c) (10 * ns_second))
    (or_default (sc_StatusTimeout c) (10 * ns_second))
    (or_default (sc_LoginTimeout c) (30 * ns_second))
    (or_default (sc_WriteTimeout c) (10 * ns_second))
    (or_default (sc_KeepAliveInterval c) (15 * ns_second))
    (or_default (sc_KeepAliveTimeout c) (30 * ns_second))
    (or_default (sc_QueueStatusInterval c) ns_second)
    (or_default (sc_LoginRateLimit c) 10)
    (or_default (sc_LoginRateWindow c) (10 * ns_second))
    (or_default (sc_ChallengeTimeout c) (10 * ns_second)).

(** [sem] is the number of tokens in the channel of capacity [MaxConnections];
    the maps keyed by connection are their domains. *)
Record Server := mkServer {
  sv_config : ServerConfig;
  sem : Z;
  conns : gset nat;
  sessions : gset nat;
  clients : gset nat;
  admissions : gset nat;
  ipConnections : gmap gostring Z;
  loginLimiter : Limiter;
  accepted : Z;
  rejectedCap : Z;
  rejectedIP : Z;
  rateLimited : Z
}.

Definition New (config : ServerConfig) : Server :=
  let config := with_defaults config in
  mkServer config 0 ∅ ∅ ∅ ∅ ∅ (Ratelimit.New (sc_LoginRateLimit config) (sc_LoginRateWindow config)) 0 0 0 0.

Section server.
(** [conn.RemoteAddr().String()] *)
Context (RemoteAddr : nat -> gostring).

Definition remoteHost (address : gostring) : gostring :=
  match SplitHostPort address with Ok (host, _) => host | Err _ => address end.

Definition host (conn : nat) : gostring := remoteHost (RemoteAddr conn).

(** Connections of one IP address have one host, whatever their ports. *)
Lemma host_JoinHostPort conn ip port :
  plain ip -> plain port -> colon ∉ port -> RemoteAddr conn = JoinHostPort ip port -> host conn = ip.
Proof. intros Hi Hp Hc E. unfold host, remoteHost. by rewrite E, SplitHostPort_JoinHostPort. Qed.

(** Missing keys read as zero. *)
Definition ip_count (m : gmap gostring Z) (ip : gostring) : Z := default 0 (m !! ip).

Definition track (s : Server) (conn : nat) : bool * Server :=
  let ip := host conn in
  if sc_MaxConnectionsPerIP (sv_config s) <=? ip_count (ipConnections s) ip then
    (false, mkServer (sv_config s) (sem s) (conns s) (sessions s) (clients s) (admissions s) (ipConnections s)
              (loginLimiter s) (accepted s) (rejectedCap s) (uint64 (rejectedIP s + 1)) (rateLimited s))
  else
    (true, mkServer (sv_config s) (sem s) ({[conn]} ∪ conns s) (sessions s) (clients s) (admissions s)
             (<[ip := ip_count (ipConnections s) ip + 1]> (ipConnections s))
             (loginLimiter s) (accepted s) (rejectedCap s) (rejectedIP s) (rateLimited s)).

Definition untrack (s : Server) (conn : nat) : Server :=
  let ip := host conn in
  let count := ip_count (ipConnections s) ip in
  mkServer (sv_config s) (sem s) (conns s ∖ {[conn]}) (sessions s) (clients s) (admissions s)
    (if count <=? 1 then delete ip (ipConnections s) else <[ip := count - 1]> (ipConnections s))
    (loginLimiter s) (accepted s) (rejectedCap s) (rejectedIP s) (rateLimited s).

Definition set_maps (s : Server) (sess cl adm : gset nat) : Server :=
  mkServer (sv_config s) (sem s) (conns s) sess cl adm (ipConnections s)
    (loginLimiter s) (accepted s) (rejectedCap s) (rejectedIP s) (rateLimited s).

Definition trackSession (s : Server) (conn : nat) : Server := set_maps s ({[conn]} ∪ sessions s) (clients s) (admissions s).
Definition trackClient (s : Server) (conn : nat) : Server := set_maps s (sessions s) ({[conn]} ∪ clients s) (admissions s).
Definition trackAdmission (s : Server) (conn : nat) : Server := set_maps s (sessions s) (clients s) ({[conn]} ∪ admissions s).
Definition untrackSession (s : Server) (conn : nat) : Server := set_maps s (sessions s ∖ {[conn]}) (clients s) (admissions s).
Definition untrackClient (s : Server) (conn : nat) : Server := set_maps s (sessions s) (clients s ∖ {[conn]}) (admissions s).
Definition untrackAdmission (s : Server) (conn : nat) : Server := set_maps s (sessions s) (clients s) (admissions s ∖ {[conn]}).

(** The deferred function of [serveConn]: one of its calls, and the next one. *)
Inductive deferred : Type := UntrackConn | UntrackSession | UntrackClient | UntrackAdmission.

Definition serveConn_cleanup (s : Server) (conn : nat) (d : deferred) : Server * option deferred :=
  match d with
  | UntrackConn => (untrack s conn, Some UntrackSession)
  | UntrackSession => (untrackSession s conn, Some UntrackClient)
  | UntrackClient => (untrackClient s conn, Some UntrackAdmission)
  | UntrackAdmission => (untrackAdmission s conn, None)
  end.

Definition set_sem (s : Server) (n : Z) : Server :=
  mkServer (sv_config s) n (conns s) (sessions s) (clients s) (admissions s) (ipConnections s)
    (loginLimiter s) (accepted s) (rejectedCap s) (rejectedIP s) (rateLimited s).

(** The part of [Serve] after a successful [Accept]: count it and try the
    semaphore; [false] when the server is full. *)
Definition Serve_accept (s : Server) : bool * Server :=
  let s := mkServer (sv_config s) (sem s) (conns s) (sessions s) (clients s) (admissions s) (ipConnections s)
    (loginLimiter s) (uint64 (accepted s + 1)) (rejectedCap s) (rejectedIP s) (rateLimited s) in
  if sem s <? sc_MaxConnections (sv_config s) then (true, set_sem s (sem s + 1))
  else (false, mkServer (sv_config s) (sem s) (conns s) (sessions s) (clients s) (admissions s) (ipConnections s)
         (loginLimiter s) (accepted s) (uint64 (rejectedCap s + 1)) (rejectedIP s) (rateLimited s)).

(** [track], and giving the token back when the address has too many. *)
Definition Serve_track (s : Server) (conn : nat) : bool * Server :=
  match track s conn with
  | (false, s) => (false, set_sem s (sem s - 1))
  | (true, s) => (true, s)
  end.

(** The login rate limit in [serveConn]. *)
Definition login_allowed (s : Server) (conn : nat) (now : Z) : bool * Server :=
  let '(ok, lim) := Allow (loginLimiter s) (host conn) now in
  (ok, mkServer (sv_config s) (sem s) (conns s) (sessions s) (clients s) (admissions s) (ipConnections s)
         lim (accepted s) (rejectedCap s) (rejectedIP s) (if ok then rateLimited s else uint64 (rateLimited s + 1))).

(** ** Runs *)

(** Where a connection is. *)
Inductive stage : Type :=
| Accepting
| Serving
| Cleaning (next : deferred)     (* in the deferred function, before [next] *)
| Leaving.

#[global] Instance deferred_eq_dec : EqDecision deferred.
Proof. solve_decision. Defined.

#[global] Instance stage_eq_dec : EqDecision stage.
Proof. solve_decision. Defined.

Inductive server_step : Type :=
| SAccept (conn : nat)
| STrack (conn : nat)
| SClient (conn : nat)
| SSession (conn : nat)
| SAdmission (conn : nat)
| SLogin (conn : nat) (now : Z)
| SCleanup (conn : nat)
| SRelease (conn : nat).

(** A step is taken only by the goroutine that owns the connection at that
    stage; [SAccept] brings a new connection. *)
Definition run_step (w : Server * gmap nat stage) (t : server_step) : Server * gmap nat stage :=
  let '(s, st) := w in
  let at_stage conn g (k : Server * gmap nat stage) := if bool_decide (st !! conn = Some g) then k else w in
  match t with
  | SAccept conn =>
    match st !! conn with
    | Some _ => w
    | None => match Serve_accept s with (true, s) => (s, <[conn := Accepting]> st) | (false, s) => (s, st) end
    end
  | STrack conn =>
    at_stage conn Accepting
      (match Serve_track s conn with (true, s) => (s, <[conn := Serving]> st) | (false, s) => (s, delete conn st) end)
  | SClient conn => at_stage conn Serving (trackClient s conn, st)
  | SSession conn => at_stage conn Serving (trackSession s conn, st)
  | SAdmission conn => at_stage conn Serving (trackAdmission s conn, st)
  | SLogin conn now => at_stage conn Serving (snd (login_allowed s conn now), st)
  | SCleanup conn =>
    match st !! conn with
    | Some Serving => let '(s, next) := serveConn_cleanup s conn UntrackConn in (s, <[conn := from_option Cleaning Leaving next]> st)
    | Some (Cleaning d) => let '(s, next) := serveConn_cleanup s conn d in (s, <[conn := from_option Cleaning Leaving next]> st)
    | _ => w
    end
  | SRelease conn => at_stage conn Leaving (set_sem s (sem s - 1), delete conn st)
  end.

Definition run_steps (w : Server * gmap nat stage) (ts : list server_step) : Server * gmap nat stage := foldl run_step w ts.

Definition serving (st : gmap nat stage) : gset nat := dom (filter (fun '(_, g) => g = Serving) st).
Definition from_host (c : gset nat) (ip : gostring) : gset nat := filter (fun conn => host conn = ip) c.

(** The connections whose goroutine has not yet passed the call [d] of its clean-up. *)
Definition deferred_rank (d : deferred) : nat :=
  match d with UntrackConn => 0 | UntrackSession => 1 | UntrackClient => 2 | UntrackAdmission => 3 end.
Definition before (d : deferred) (g : stage) : bool :=
  match g with Serving => true | Cleaning d' => (deferred_rank d' <=? deferred_rank d)%nat | _ => false end.
Definition held (st : gmap nat stage) (d : deferred) : gset nat := dom (filter (fun '(_, g) => before d g = true) st).

(** ** The accounting invariant *)

Record server_inv (config : ServerConfig) (w : Server * gmap nat stage) : Prop := {
  si_config : sv_config w.1 = config;
  si_sem : sem w.1 = Z.of_nat (size w.2);
  si_bound : sem w.1 <= sc_MaxConnections config;
  si_conns : conns w.1 = serving w.2;
  si_cleaning : forall conn, w.2 !! conn <> Some (Cleaning UntrackConn);
  si_maps : sessions w.1 ⊆ held w.2 UntrackSession /\ clients w.1 ⊆ held w.2 UntrackClient /\
            admissions w.1 ⊆ held w.2 UntrackAdmission;
  si_ip : forall ip, ip_count (ipConnections w.1) ip = Z.of_nat (size (from_host (conns w.1) ip));
  si_dom : forall ip, is_Some (ipConnections w.1 !! ip) -> from_host (conns w.1) ip <> ∅;
  si_limit : forall ip, Z.of_nat (size (from_host (conns w.1) ip)) <= sc_MaxConnectionsPerIP config
}.

(** ** Lemmas *)

Lemma elem_of_serving st conn : conn ∈ serving st <-> st !! conn = Some Serving.
Proof.
  unfold serving. rewrite elem_of_dom. split.
  - intros [g Hg]. apply map_lookup_filter_Some in Hg as [Hg Hs]. by subst.
  - intros H. exists Serving. by apply map_lookup_filter_Some.
Qed.

Lemma elem_of_held st d conn : conn ∈ held st d <-> exists g, st !! conn = Some g /\ before d g = true.
Proof.
  unfold held. rewrite elem_of_dom. split.
  - intros [g Hg]. apply map_lookup_filter_Some in Hg as [Hg Hs]. eauto.
  - intros (g & H & Hb). exists g. by apply map_lookup_filter_Some.
Qed.

(** A connection that moves to another stage. *)
Lemma held_insert st d conn g :
  held (<[conn := g]> st) d = if before d g then {[conn]} ∪ held st d else held st d ∖ {[conn]}.
Proof.
  apply set_eq. intros x. destruct (decide (x = conn)) as [->|Hne].
  - rewrite elem_of_held, lookup_insert_eq. destruct (before d g) eqn:E; [|split; [intros (g' & [= <-] & ?); congruence|set_solver]].
    split; [set_solver|]. eauto.
  - assert (E : forall X : gset nat, x ∈ X <-> x ∈ (if before d g then {[conn]} ∪ X else X ∖ {[conn]})) by (intros X; destruct (before d g); set_solver).
    rewrite <-E, !elem_of_held, lookup_insert_ne by done. done.
Qed.

Lemma held_delete st d conn : held (delete conn st) d = held st d ∖ {[conn]}.
Proof.
  apply set_eq. intros x. destruct (decide (x = conn)) as [->|Hne].
  - rewrite elem_of_held, lookup_delete_eq. split; [by intros (g & ? & _)|set_solver].
  - rewrite elem_of_difference, elem_of_singleton, !elem_of_held, lookup_delete_ne by done. tauto.
Qed.

Lemma held_not st d conn g : st !! conn = g -> from_option (before d) false g = false -> conn ∉ held st d.
Proof. intros E Hb Hx. apply elem_of_held in Hx as (g' & E' & Hb'). rewrite E' in E. subst g. cbn in Hb. congruence. Qed.

Lemma held_in st d conn g : st !! conn = Some g -> before d g = true -> conn ∈ held st d.
Proof. intros E Hb. apply elem_of_held. eauto. Qed.

(** Stages change one connection at a time. *)
Lemma cleaning_insert (st : gmap nat stage) conn g :
  g <> Cleaning UntrackConn -> (forall c, st !! c <> Some (Cleaning UntrackConn)) ->
  forall c, <[conn := g]> st !! c <> Some (Cleaning UntrackConn).
Proof. intros Hg H c. destruct (decide (c = conn)) as [->|]; [rewrite lookup_insert_eq; congruence|by rewrite lookup_insert_ne]. Qed.

Lemma cleaning_delete (st : gmap nat stage) conn :
  (forall c, st !! c <> Some (Cleaning UntrackConn)) -> forall c, delete conn st !! c <> Some (Cleaning UntrackConn).
Proof. intros H c. destruct (decide (c = conn)) as [->|]; [by rewrite lookup_delete_eq|by rewrite lookup_delete_ne]. Qed.

Lemma elem_of_from_host c ip conn : conn ∈ from_host c ip <-> host conn = ip /\ conn ∈ c.
Proof. unfold from_host. by rewrite elem_of_filter. Qed.

Lemma serving_ext st st' :
  (forall conn, st !! conn = Some Serving <-> st' !! conn = Some Serving) -> serving st = serving st'.
Proof. intros H. apply set_eq. intros x. by rewrite !elem_of_serving. Qed.

Lemma serving_same conn g g' st :
  st !! conn = g -> g <> Some Serving -> g' <> Serving -> serving (<[conn := g']> st) = serving st.
Proof.
  intros Hc Hg Hg'. apply serving_ext. intros x. destruct (decide (x = conn)) as [->|].
  - rewrite lookup_insert_eq, Hc. naive_solver.
  - by rewrite lookup_insert_ne.
Qed.

Lemma serving_delete conn g st : st !! conn = g -> g <> Some Serving -> serving (delete conn st) = serving st.
Proof.
  intros Hc Hg. apply serving_ext. intros x. destruct (decide (x = conn)) as [->|].
  - rewrite lookup_delete_eq, Hc. naive_solver.
  - by rewrite lookup_delete_ne.
Qed.

Lemma serving_start conn st : serving (<[conn := Serving]> st) = {[conn]} ∪ serving st.
Proof.
  apply set_eq. intros x. rewrite elem_of_union, elem_of_singleton, !elem_of_serving.
  destruct (decide (x = conn)) as [->|]; [rewrite lookup_insert_eq; tauto|rewrite lookup_insert_ne by done; tauto].
Qed.

Lemma serving_end conn g st : g <> Serving -> serving (<[conn := g]> st) = serving st ∖ {[conn]}.
Proof.
  intros Hg. apply set_eq. intros x. rewrite elem_of_difference, elem_of_singleton, !elem_of_serving.
  destruct (decide (x = conn)) as [->|]; [rewrite lookup_insert_eq; naive_solver|rewrite lookup_insert_ne by done; tauto].
Qed.

Lemma from_host_add c conn ip :
  from_host ({[conn]} ∪ c) ip = if bool_decide (host conn = ip) then {[conn]} ∪ from_host c ip else from_host c ip.
Proof. apply set_eq. intros x. case_bool_decide;
  rewrite ?elem_of_union, ?elem_of_difference, !elem_of_from_host, ?elem_of_union, ?elem_of_difference, ?elem_of_singleton; naive_solver. Qed.

Lemma from_host_remove c conn ip :
  from_host (c ∖ {[conn]}) ip = if bool_decide (host conn = ip) then from_host c ip ∖ {[conn]} else from_host c ip.
Proof. apply set_eq. intros x. case_bool_decide;
  rewrite ?elem_of_union, ?elem_of_difference, !elem_of_from_host, ?elem_of_union, ?elem_of_difference, ?elem_of_singleton; naive_solver. Qed.

Lemma ip_count_insert m ip v ip' : ip_count (<[ip := v]> m) ip' = if bool_decide (ip = ip') then v else ip_count m ip'.
Proof. unfold ip_count. case_bool_decide; subst; [by rewrite lookup_insert_eq|by rewrite lookup_insert_ne]. Qed.

Lemma ip_count_delete m ip ip' : ip_count (delete ip m) ip' = if bool_decide (ip = ip') then 0 else ip_count m ip'.
Proof. unfold ip_count. case_bool_decide; subst; [by rewrite lookup_delete_eq|by rewrite lookup_delete_ne]. Qed.

(** A new tracked connection. *)
Lemma track_counts config s conn :
  sv_config s = config -> conn ∉ conns s ->
  (forall ip, ip_count (ipConnections s) ip = Z.of_nat (size (from_host (conns s) ip))) ->
  (forall ip, is_Some (ipConnections s !! ip) -> from_host (conns s) ip <> ∅) ->
  (forall ip, Z.of_nat (size (from_host (conns s) ip)) <= sc_MaxConnectionsPerIP config) ->
  let s' := snd (track s conn) in
  (forall ip, ip_count (ipConnections s') ip = Z.of_nat (size (from_host (conns s') ip))) /\
  (forall ip, is_Some (ipConnections s' !! ip) -> from_host (conns s') ip <> ∅) /\
  (forall ip, Z.of_nat (size (from_host (conns s') ip)) <= sc_MaxConnectionsPerIP config).
Proof.
  intros Hc Hn Hip Hdom Hlim. unfold track. rewrite Hc.
  destruct (Z.leb_spec (sc_MaxConnectionsPerIP config) (ip_count (ipConnections s) (host conn))) as [|Hlt]; [done|]. cbn.
  assert (Hsz : size ({[conn]} ∪ from_host (conns s) (host conn)) = S (size (from_host (conns s) (host conn)))).
  { rewrite size_union, size_singleton; [done|]. apply disjoint_singleton_l. rewrite elem_of_from_host. tauto. }
  rewrite Hip in Hlt. split_and!; intros ip; rewrite from_host_add.
  - rewrite ip_count_insert, !Hip. case_bool_decide; subst; [|done]. rewrite Hsz. lia.
  - case_bool_decide as E; [set_solver|]. rewrite lookup_insert_ne by done. apply Hdom.
  - case_bool_decide as E; subst; [|done]. rewrite Hsz. lia.
Qed.

(** Forgetting a tracked connection. *)
Lemma untrack_counts config s conn :
  conn ∈ conns s ->
  (forall ip, ip_count (ipConnections s) ip = Z.of_nat (size (from_host (conns s) ip))) ->
  (forall ip, is_Some (ipConnections s !! ip) -> from_host (conns s) ip <> ∅) ->
  (forall ip, Z.of_nat (size (from_host (conns s) ip)) <= sc_MaxConnectionsPerIP config) ->
  let s' := untrack s conn in
  (forall ip, ip_count (ipConnections s') ip = Z.of_nat (size (from_host (conns s') ip))) /\
  (forall ip, is_Some (ipConnections s' !! ip) -> from_host (conns s') ip <> ∅) /\
  (forall ip, Z.of_nat (size (from_host (conns s') ip)) <= sc_MaxConnectionsPerIP config).
Proof.
  intros Hin Hip Hdom Hlim. unfold untrack. cbn.
  set (X := from_host (conns s) (host conn)).
  assert (Hx : conn ∈ X) by (by apply elem_of_from_host).
  assert (Hsz : size (X ∖ {[conn]}) = (size X - 1)%nat) by (rewrite size_difference by set_solver; by rewrite size_singleton).
  assert (Hpos : (0 < size X)%nat) by (destruct (decide (X = ∅)) as [E|E]; [set_solver|]; destruct (size X) eqn:Es; [by apply size_empty_inv, leibniz_equiv in Es|lia]).
  rewrite Hip. fold X. split_and!; intros ip; rewrite from_host_remove.
  - destruct (Z.leb_spec (Z.of_nat (size X)) 1).
    + rewrite ip_count_delete, !Hip. case_bool_decide; subst; [|done]. fold X. lia.
    + rewrite ip_count_insert, !Hip. case_bool_decide; subst; [|done]. fold X. lia.
  - destruct (Z.leb_spec (Z.of_nat (size X)) 1) as [Hle|Hgt]; case_bool_decide as E; subst.
    + rewrite lookup_delete_eq. by intros [].
    + rewrite lookup_delete_ne by done. apply Hdom.
    + fold X. intros _ He. rewrite He, size_empty in Hsz. lia.
    + rewrite lookup_insert_ne by done. apply Hdom.
  - case_bool_decide as E; subst; [|done]. fold X. specialize (Hlim (host conn)). fold X in Hlim. lia.
Qed.

(** The maps of sessions, clients and admissions when a connection changes stage. *)
Lemma maps_insert s st conn g g' :
  st !! conn = g -> (forall d, from_option (before d) false g = true -> before d g' = true) ->
  sessions s ⊆ held st UntrackSession /\ clients s ⊆ held st UntrackClient /\ admissions s ⊆ held st UntrackAdmission ->
  sessions s ⊆ held (<[conn := g']> st) UntrackSession /\ clients s ⊆ held (<[conn := g']> st) UntrackClient /\
  admissions s ⊆ held (<[conn := g']> st) UntrackAdmission.
Proof.
  intros E Hb (H1 & H2 & H3).
  assert (Hd : forall d, held st d ⊆ held (<[conn := g']> st) d).
  { intros d x Hx. rewrite held_insert. destruct (before d g') eqn:Eb; [set_solver|]. apply elem_of_difference. split; [done|].
    intros Hc. apply elem_of_singleton in Hc as ->. eapply held_not; [exact E| |exact Hx].
    destruct (from_option (before d) false g) eqn:Ef; [|done]. by rewrite (Hb d Ef) in Eb. }
  split_and!; (etrans; [eassumption|apply Hd]).
Qed.

Lemma maps_delete s st conn :
  (forall d, conn ∉ held st d) ->
  sessions s ⊆ held st UntrackSession /\ clients s ⊆ held st UntrackClient /\ admissions s ⊆ held st UntrackAdmission ->
  sessions s ⊆ held (delete conn st) UntrackSession /\ clients s ⊆ held (delete conn st) UntrackClient /\
  admissions s ⊆ held (delete conn st) UntrackAdmission.
Proof.
  intros Hn (H1 & H2 & H3). rewrite !held_delete. pose proof (Hn UntrackSession). pose proof (Hn UntrackClient). pose proof (Hn UntrackAdmission).
  set_solver.
Qed.

(** A connection that is being served registers something. *)
Lemma maps_register s st conn sess cl adm :
  st !! conn = Some Serving -> sess ⊆ {[conn]} ∪ sessions s -> cl ⊆ {[conn]} ∪ clients s -> adm ⊆ {[conn]} ∪ admissions s ->
  sessions s ⊆ held st UntrackSession /\ clients s ⊆ held st UntrackClient /\ admissions s ⊆ held st UntrackAdmission ->
  sess ⊆ held st UntrackSession /\ cl ⊆ held st UntrackClient /\ adm ⊆ held st UntrackAdmission.
Proof.
  intros E H1 H2 H3 (M1 & M2 & M3). pose proof (fun d => held_in st d conn Serving E eq_refl) as Hin.
  pose proof (Hin UntrackSession). pose proof (Hin UntrackClient). pose proof (Hin UntrackAdmission). set_solver.
Qed.

Lemma sem_release (st : gmap nat stage) conn g : st !! conn = Some g -> Z.of_nat (size (delete conn st)) = Z.of_nat (size st) - 1.
Proof.
  intros E. rewrite map_size_delete_Some by (by rewrite E). assert (size st <> 0%nat); [|lia].
  intros Hz. apply map_size_empty_inv in Hz. by rewrite Hz in E.
Qed.

(** One call of the clean-up after [untrack]. *)
Lemma cleanup_inv config s st conn d :
  server_inv config (s, st) -> st !! conn = Some (Cleaning d) ->
  server_inv config (run_step (s, st) (SCleanup conn)).
Proof.
  intros [Hc Hs Hb Hco Hcl (Hm1 & Hm2 & Hm3) Hip Hdom Hlim] E. cbn in *. rewrite E.
  assert (Hd : d <> UntrackConn) by (intros ->; by apply (Hcl conn)).
  assert (Hg : forall g, g <> Serving -> serving (<[conn := g]> st) = serving st)
    by (intros g Hg; by apply (serving_same conn (Some (Cleaning d)))).
  assert (Hsz : forall g, Z.of_nat (size (<[conn := g]> st)) = Z.of_nat (size st)) by (intros g; by rewrite map_size_insert_Some by (by rewrite E)).
  assert (Hnot : forall d', before d' (Cleaning d) = false -> held st d' ∖ {[conn]} = held st d').
  { intros d' Hx. pose proof (held_not st d' conn _ E Hx). set_solver. }
  destruct d; [done| | |]; split; cbn; try done; rewrite ?Hg, ?Hsz, ?held_insert by done; try done; try (by apply cleaning_insert); cbn.
  all: rewrite ?(Hnot UntrackSession), ?(Hnot UntrackClient) by done; clear -Hm1 Hm2 Hm3; set_solver.
Qed.

Lemma run_step_inv config w t : server_inv config w -> server_inv config (run_step w t).
Proof.
  destruct w as [s st]. intros H. assert (Hsame := H). destruct H as [Hc Hs Hb Hco Hcl Hm Hip Hdom Hlim]. cbn in *.
  assert (Hmem : forall conn, st !! conn = Some Serving -> conn ∈ conns s) by (intros conn Hx; rewrite Hco; by apply elem_of_serving).
  destruct t; cbn [run_step].
  - (* accept *)
    destruct (st !! conn) as [g|] eqn:E; [done|]. unfold Serve_accept. cbn [sem sv_config].
    destruct (Z.ltb_spec (sem s) (sc_MaxConnections (sv_config s))) as [Hlt|]; [|split; cbn; done].
    split; cbn; try done; [|rewrite Hc in Hlt; lia| | |].
    + rewrite map_size_insert_None by done. lia.
    + by rewrite (serving_same conn None) by done.
    + by apply cleaning_insert.
    + by apply (maps_insert s st conn None).
  - (* track *)
    case_bool_decide as E; [|done]. unfold Serve_track.
    assert (Hnc : conn ∉ conns s) by (rewrite Hco, elem_of_serving, E; done).
    destruct (track_counts config s conn Hc Hnc Hip Hdom Hlim) as (H1 & H2 & H3).
    destruct (track s conn) as [[] s'] eqn:Et; cbn in H1, H2, H3; unfold track in Et; case_match; simplify_eq.
    + split; cbn; try done.
      * by rewrite map_size_insert_Some by (by rewrite E).
      * by rewrite serving_start, Hco.
      * by apply cleaning_insert.
      * by apply (maps_insert s st conn (Some Accepting)).
    + split; cbn; try done; [|lia| | |].
      * by rewrite (sem_release _ _ _ E), Hs.
      * by rewrite (serving_delete conn (Some Accepting)).
      * by apply cleaning_delete.
      * apply (maps_delete s); [|done]. intros d. by apply (held_not st d conn (Some Accepting)).
  - case_bool_decide as E; [|done]. split; cbn; try done. apply (maps_register s st conn); try done; set_solver.
  - case_bool_decide as E; [|done]. split; cbn; try done. apply (maps_register s st conn); try done; set_solver.
  - case_bool_decide as E; [|done]. split; cbn; try done. apply (maps_register s st conn); try done; set_solver.
  - case_bool_decide as E; [|done]. unfold login_allowed. case_match; split; cbn; done.
  - (* clean-up *)
    destruct (st !! conn) as [[| |d|]|] eqn:E; try done.
    + destruct (untrack_counts config s conn (Hmem _ E) Hip Hdom Hlim) as (H1 & H2 & H3).
      split; cbn; try done.
      * by rewrite map_size_insert_Some by (by rewrite E).
      * by rewrite serving_end, Hco.
      * by apply cleaning_insert.
      * rewrite !held_insert. cbn. set_solver.
    + pose proof (cleanup_inv config s st conn d Hsame E) as Hx. cbn [run_step] in Hx. by rewrite E in Hx.
  - case_bool_decide as E; [|done]. split; cbn; try done; [|lia| | |].
    + by rewrite (sem_release _ _ _ E), Hs.
    + by rewrite (serving_delete conn (Some Leaving)).
    + by apply cleaning_delete.
    + apply (maps_delete s); [|done]. intros d. by apply (held_not st d conn (Some Leaving)).
Qed.

Lemma run_steps_inv config ts : forall w, server_inv config w -> server_inv config (run_steps w ts).
Proof. induction ts as [|t ts IH]; intros w H; [done|]. cbn. by apply IH, run_step_inv. Qed.

Lemma or_default_pos v d : 0 < d -> 0 < or_default v d.
Proof. unfold or_default. destruct (Z.leb_spec v 0); lia. Qed.

Lemma server_New_inv config : server_inv (with_defaults config) (New config, ∅).
Proof.
  assert (0 < sc_MaxConnections (with_defaults config)) by (by apply or_default_pos).
  assert (0 < sc_MaxConnectionsPerIP (with_defaults config)) by (by apply or_default_pos).
  assert (He : forall ip, from_host (conns (New config)) ip = ∅)
    by (intros; apply set_eq; intros x; rewrite elem_of_from_host; set_solver).
  split; cbn [fst snd]; try done.
  - change (sem (New config)) with 0. lia.
  - intros ip [x Hx]. cbn in Hx. by rewrite lookup_empty in Hx.
  - intros ip. rewrite He, size_empty. lia.
Qed.

End server.

(** ** Properties *)

(** C14: connection accounting. Whatever connections arrive and however their
    goroutines interleave, the number of connections holding a slot never exceeds
    the configured maximum and no address ever has more than its share; the
    per-address counters equal the number of live connections of that address,
    and an address with none has no counter; a connection counts for the IP
    address it comes from, whatever its port; a session, a client or an admission
    channel is registered only for a connection that is being served or whose
    deferred clean-up has not yet passed the call that removes it. When every connection has ended, all
    slots are free and nothing is left registered. *)
Theorem connection_accounting RemoteAddr config ts :
  let '(s, st) := run_steps RemoteAddr (New config, ∅) ts in
  let live ip := from_host RemoteAddr (conns s) ip in
  0 <= sem s <= or_default (sc_MaxConnections config) 10000 /\
  Z.of_nat (size (conns s)) <= sem s /\
  (forall ip, ip_count (ipConnections s) ip = Z.of_nat (size (live ip)) /\
              Z.of_nat (size (live ip)) <= or_default (sc_MaxConnectionsPerIP config) 16) /\
  (forall ip, is_Some (ipConnections s !! ip) <-> live ip <> ∅) /\
  conns s = serving st /\
  (sessions s ⊆ held st UntrackSession /\ clients s ⊆ held st UntrackClient /\ admissions s ⊆ held st UntrackAdmission) /\
  (forall conn ip port, conn ∈ conns s -> plain ip -> plain port -> colon ∉ port -> RemoteAddr conn = JoinHostPort ip port ->
     conn ∈ live ip) /\
  (st = ∅ -> sem s = 0 /\ conns s = ∅ /\ sessions s = ∅ /\ clients s = ∅ /\ admissions s = ∅ /\ ipConnections s = ∅).
Proof.
  pose proof (run_steps_inv RemoteAddr _ ts _ (server_New_inv RemoteAddr config)) as H.
  destruct (run_steps _ _ ts) as [s st]. destruct H as [Hc Hs Hb Hco Hcl (Hm1 & Hm2 & Hm3) Hip Hdom Hlim]. cbn in *.
  assert (Hsz : (size (conns s) <= size st)%nat).
  { rewrite Hco, <-size_dom. apply subseteq_size. unfold serving. apply dom_filter_subseteq. }
  split_and!; try done; try lia.
  - intros ip. split; [apply Hdom|]. intros Hne. destruct (ipConnections s !! ip) as [n|] eqn:E; [done|].
    exfalso. specialize (Hip ip). unfold ip_count in Hip. rewrite E in Hip. cbn in Hip.
    apply Hne, leibniz_equiv, size_empty_inv. lia.
  - intros conn ip port Hin Hi Hp Hcol E. apply elem_of_from_host. split; [by apply host_JoinHostPort with port|done].
  - intros ->. rewrite map_size_empty in Hs. assert (Hz : conns s = ∅) by (apply leibniz_equiv, size_empty_inv; rewrite map_size_empty in Hsz; lia).
    assert (Hsub : forall (X : gset nat) d, X ⊆ held ∅ d -> X = ∅).
    { intros X d HX. apply set_eq. intros x. split; [|set_solver]. intros Hx%HX%elem_of_held. destruct Hx as (g & E & _). by rewrite lookup_empty in E. }
    split_and!; [lia|done|by eapply Hsub|by eapply Hsub|by eapply Hsub|]. apply map_eq. intros ip. rewrite lookup_empty.
    destruct (ipConnections s !! ip) as [n|] eqn:E; [|done]. exfalso. apply (Hdom ip); [by rewrite E|].
    apply set_eq. intros x. rewrite elem_of_from_host, Hz. clear. set_solver.
Qed.
