(* ===== verification/ServeLogin.v ===== *)
(** * Client connections before Limbo (internal/server/server.go: serveConn,
    serveStatus, serveLogin, authenticateOnline, readClientConfiguration)

    The client is a [link]; read deadlines are read errors. The result of a
    function that returns nothing is the client connection afterwards. *)

From stdpp Require Import pretty.
From S2P Require Import Prelude GoIO Varint Utf8 McString Frame Wire Crypto Cipher.
From S2P Require Import Handshake Status Login Nbt Configuration Forwarding Auth Link Session.

(** ** Status *)

Definition serveStatus (status : Response) (client : link) : link :=
  match link_ReadFrame client with
  | (Err _, client) => client
  | (Ok request, client) =>
    match ParseRequest request with
    | Some _ => client
    | None =>
      match ResponsePayload status with
      | Err _ => client
      | Ok response =>
        match link_WriteFrame client response with
        | (Some _, client) => client
        | (None, client) =>
          match link_ReadFrame client with
          | (Err _, client) => client
          | (Ok ping, client) =>
            match ParsePing ping with
            | Err _ => client
            | Ok value => snd (link_WriteFrame client (PongPayload value))
            end
          end
        end
      end
    end
  end.

(** ** Configuration *)

Definition maxClientConfigurationSetupPackets : nat := 16.

Fixpoint readClientConfiguration_loop (n : nat) (client : link) : option error * link :=
  match n with
  | O => (Some configuration_ErrMalformed, client)
  | S n =>
    match link_ReadFrame client with
    | (Err err, client) => (Some err, client)
    | (Ok frame, client) =>
      match PacketID frame with
      | Err err => (Some (ErrWrap "malformed configuration packet: invalid frame" err), client)
      | Ok (id, _) =>
        if id =? ServerboundFinishConfigurationID then
          (ErrWrap ("malformed configuration packet id=" +:+ pretty id) <$> ParseFinishAcknowledged frame, client)
        else match ParseClientSetup frame with
             | Some err => (Some (ErrWrap ("malformed configuration packet id=" +:+ pretty id) err), client)
             | None => readClientConfiguration_loop n client
             end
      end
    end
  end.

Definition readClientConfiguration (client : link) : option error * link :=
  readClientConfiguration_loop (maxClientConfigurationSetupPackets + 1) client.

(** ** Login *)

Section login.
(** RSA decryption with the server's key, the session service, the key pair, the
    random source for the verify token, the bytes the transport's reader holds when
    it is switched to encryption, and the remote host. [None] is an offline-mode
    server. *)
Context {Key : Type} (DecryptPKCS1v15 : Key -> list byte -> res (list byte)).

Record online := mkOnline {
  on_HasJoined : gostring -> gostring -> gostring -> res Profile;
  on_privateKey : Key;
  on_publicKey : list byte;
  on_random : reader;
  on_buffered : list byte
}.

(** [client.EnableEncryption(key, iv)] on whole frames: the cipher is below them
    (Transport.v has it byte by byte), what remains is whether it is refused. *)
Definition link_EnableEncryption (buffered key iv : list byte) : option error :=
  if negb (blen buffered =? 0) then Some ErrBufferedEncryptionTransition
  else match NewCipherState key iv with Err err => Some err | Ok _ => None end.

Definition authenticateOnline (a : online) (client : link) (username address : gostring) : res PlayerIdentity * link :=
  match fst (Begin (on_privateKey a) (on_publicKey a) (on_random a)) with
  | Err err => (Err err, client)
  | Ok challenge =>
    match link_WriteFrame client (EncryptionRequestPayload [] (publicKey challenge) (verifyToken challenge) true) with
    | (Some err, client) => (Err err, client)
    | (None, client) =>
      match link_ReadFrame client with
      | (Err err, client) => (Err err, client)
      | (Ok frame, client) =>
        match ParseEncryptionResponse frame with
        | Err err => (Err err, client)
        | Ok response =>
          match Authenticate DecryptPKCS1v15 (on_HasJoined a) challenge username address
                  (es_SharedSecret response) (es_VerifyToken response) with
          | Err err => (Err err, client)
          | Ok (profile, secret) =>
            match link_EnableEncryption (on_buffered a) secret secret with
            | Some err => (Err err, client)
            | None => (Ok (mkIdentity address (pf_UUID profile) (pf_Username profile) (pf_Properties profile)), client)
            end
          end
        end
      end
    end
  end.

(** The identity a login continues with. *)
Definition login_identity (a : option online) (client : link) (username address : gostring) : res PlayerIdentity * link :=
  match a with
  | None => (Ok (mkIdentity address (OfflineUUID username) username []), client)
  | Some a => authenticateOnline a client username address
  end.

(** [serveLogin] up to [serveLimbo]: the identity that enters Limbo, if any, the
    session and the client. *)
Definition serveLogin (a : option online) (address : gostring) (client : link)
    : option PlayerIdentity * Session * link :=
  match Transition New StateLogin with
  | (Some _, state) => (None, state, client)
  | (None, state) =>
    match link_ReadFrame client with
    | (Err _, client) => (None, state, client)
    | (Ok frame, client) =>
      match ParseStart frame with
      | Err _ => (None, state, client)
      | Ok start =>
        match login_identity a client (st_Username start) address with
        | (Err _, client) => (None, state, client)
        | (Ok player, client) =>
          match link_WriteFrame client (SuccessProfilePayload (id_UUID player) (id_Username player) (id_Properties player)) with
          | (Some _, client) => (None, state, client)
          | (None, client) =>
            match link_ReadFrame client with
            | (Err _, client) => (None, state, client)
            | (Ok frame, client) =>
              match ParseAcknowledged frame, Transition state StateConfiguration with
              | None, (None, state) =>
                match RegistryDataPayload MinimalRegistryData with
                | Err _ => (None, state, client)
                | Ok registry =>
                  match link_WriteAll client [registry; FinishPayload] with
                  | (Some _, client) => (None, state, client)
                  | (None, client) =>
                    match readClientConfiguration client with
                    | (Some _, client) => (None, state, client)
                    | (None, client) =>
                      match Transition state StateLimboPlay with
                      | (Some _, state) => (None, state, client)
                      | (None, state) => (Some player, state, client)
                      end
                    end
                  end
                end
              | _, _ => (None, state, client)
              end
            end
          end
        end
      end
    end
  end.

(** ** Dispatch *)

Inductive dispatch : Type := DropConnection | ServeStatus | ServeLogin.

(** The first frame of a connection, in [serveConn]. *)
Definition serveConn_dispatch (client : link) : dispatch * link :=
  match link_ReadFrame client with
  | (Err _, client) => (DropConnection, client)
  | (Ok frame, client) =>
    match Parse frame with
    | Err _ => (DropConnection, client)
    | Ok packet =>
      if negb (hs_ProtocolVersion packet =? ProtocolVersion) then (DropConnection, client)
      else if hs_NextState packet =? NextStatus then (ServeStatus, client)
      else if hs_NextState packet =? NextLogin then (ServeLogin, client)
      else (DropConnection, client)
    end
  end.
End login.

(** ** Lemmas *)

Lemma link_ReadFrame_Ok l f l' :
  link_ReadFrame l = (Ok f, l') -> lk_in l = Ok f :: lk_in l' /\ lk_out l' = lk_out l /\ lk_closed l = false.
Proof.
  unfold link_ReadFrame. destruct (lk_closed l) eqn:E; [done|]. destruct (lk_in l) as [|r ins] eqn:Ei; [done|].
  intros; simplify_eq. done.
Qed.

Lemma link_WriteFrame_None l p l' :
  link_WriteFrame l p = (None, l') -> lk_out l' = lk_out l ++ [p] /\ lk_in l' = lk_in l.
Proof. intros H. apply link_WriteFrame_out in H as (H1 & H2 & _). done. Qed.

Lemma link_WriteAll_None l ps l' :
  link_WriteAll l ps = (None, l') -> lk_out l' = lk_out l ++ ps /\ lk_in l' = lk_in l.
Proof. intros H. apply link_WriteAll_out in H as (k & _ & H1 & H2 & _). auto. Qed.

Lemma setup_packet_id f : ParseClientSetup f = None -> exists id body, PacketID f = Ok (id, body) /\ id <> ServerboundFinishConfigurationID.
Proof.
  unfold ParseClientSetup. destruct (PacketID f) as [[id body]|]; [|done].
  destruct (Z.eqb_spec id ServerboundClientInformationID) as [->|]; [by intros _; eexists _, _|].
  destruct (Z.eqb_spec id ServerboundPluginMessageID) as [->|]; [by intros _; eexists _, _|done].
Qed.

Lemma readClientConfiguration_loop_sound n : forall client client',
  readClientConfiguration_loop n client = (None, client') ->
  exists setup fin, lk_in client = map Ok setup ++ Ok fin :: lk_in client' /\ (length setup < n)%nat /\
    Forall (fun f => ParseClientSetup f = None) setup /\ ParseFinishAcknowledged fin = None /\ lk_out client' = lk_out client.
Proof.
  induction n as [|n IH]; intros client client'; cbn [readClientConfiguration_loop]; [done|].
  destruct (link_ReadFrame client) as [[f|] l1] eqn:E; [|done]. apply link_ReadFrame_Ok in E as (Hi & Ho & _).
  destruct (PacketID f) as [[id body]|] eqn:Hid; [|done].
  destruct (Z.eqb_spec id ServerboundFinishConfigurationID).
  - destruct (ParseFinishAcknowledged f) eqn:Hf; [done|]. intros [= <-]. exists [], f.
    split_and!; [done|cbn; lia|constructor|done|done].
  - destruct (ParseClientSetup f) eqn:Hf; [done|]. intros H.
    apply IH in H as (setup & fin & H1 & H2 & H3 & H4 & H5). exists (f :: setup), fin. cbn.
    split_and!; [by rewrite Hi, H1|lia|by constructor|done|by rewrite H5].
Qed.

Lemma readClientConfiguration_loop_complete setup : forall n client fin post,
  lk_closed client = false -> lk_in client = map Ok setup ++ Ok fin :: post -> (length setup < n)%nat ->
  Forall (fun f => ParseClientSetup f = None) setup -> ParseFinishAcknowledged fin = None ->
  readClientConfiguration_loop n client = (None, lk_set_in client post).
Proof.
  induction setup as [|f setup IH]; intros n client fin post Hc Hi Hn Hs Hf; (destruct n as [|n]; [cbn in Hn; lia|]); cbn [readClientConfiguration_loop].
  - rewrite (link_ReadFrame_cons _ fin post) by done. pose proof Hf as Hf'. unfold ParseFinishAcknowledged in Hf'.
    destruct (PacketID fin) as [[id body]|]; [|done]. destruct (Z.eqb_spec id ServerboundFinishConfigurationID); [|done].
    by rewrite Hf.
  - inversion_clear Hs as [|? ? Hf1 Hs']. rewrite (link_ReadFrame_cons _ f (map Ok setup ++ Ok fin :: post)) by done.
    destruct (setup_packet_id f Hf1) as (id & body & -> & Hne). rewrite (proj2 (Z.eqb_neq _ _)) by done. rewrite Hf1.
    rewrite (IH n _ fin post); [done|done|done|cbn in Hn; lia|done|done].
Qed.

(** What an authenticated login consists of: the frames read, the frames written
    and the identity. *)
Definition authenticated {Key} (rsa : Key -> list byte -> res (list byte)) (a : option online) (username address : gostring)
    (ins outs : list (list byte)) (player : PlayerIdentity) : Prop :=
  match a with
  | None => ins = [] /\ outs = [] /\ player = mkIdentity address (OfflineUUID username) username []
  | Some a =>
    exists token frame response secret profile,
      ins = [frame] /\ ParseEncryptionResponse frame = Ok response /\
      length token = 4%nat /\ outs = [EncryptionRequestPayload [] (on_publicKey a) token true] /\
      rsa (on_privateKey a) (es_SharedSecret response) = Ok secret /\ length secret = 16%nat /\
      rsa (on_privateKey a) (es_VerifyToken response) = Ok token /\
      on_HasJoined a username (ServerHash [] secret (on_publicKey a)) address = Ok profile /\ on_buffered a = [] /\
      player = mkIdentity address (pf_UUID profile) (pf_Username profile) (pf_Properties profile)
  end.

Lemma Challenge_Decrypt_Ok {Key} (rsa : Key -> list byte -> res (list byte)) c es et secret :
  Challenge_Decrypt rsa c es et = Ok secret ->
  rsa (privateKey c) es = Ok secret /\ length secret = 16%nat /\ rsa (privateKey c) et = Ok (verifyToken c).
Proof.
  unfold Challenge_Decrypt. destruct (rsa (privateKey c) es) as [s|]; [|done].
  destruct (Z.eqb_spec (blen s) sharedSecretSize) as [Hs|]; [|done]. cbn [negb].
  destruct (rsa (privateKey c) et) as [t|]; [|done]. case_match eqn:E; [done|].
  apply orb_false_iff in E as [_ E]. case_bool_decide; [|done]. subst. intros [= <-].
  split_and!; [done| |done]. unfold blen, sharedSecretSize in Hs. lia.
Qed.

Lemma Begin_Ok {Key} (k : Key) pub random c :
  fst (Begin k pub random) = Ok c -> privateKey c = k /\ publicKey c = pub /\ length (verifyToken c) = 4%nat.
Proof.
  unfold Begin. destruct (ReadFull random (Z.to_nat verifyTokenBytes)) as [[t|] r'] eqn:E; [|done].
  intros [= <-]. cbn. split_and!; [done|done|]. by apply ReadFull_Ok in E as [-> _].
Qed.

Lemma link_EnableEncryption_None buffered key iv :
  link_EnableEncryption buffered key iv = None -> buffered = [] /\ length key = 16%nat /\ length iv = 16%nat.
Proof.
  unfold link_EnableEncryption, NewCipherState. destruct (Z.eqb_spec (blen buffered) 0) as [Hb|]; [|done]. cbn [negb].
  destruct (Z.eqb_spec (blen key) BlockSize) as [Hk|]; [|done]. destruct (Z.eqb_spec (blen iv) BlockSize) as [Hi|]; [|done].
  intros _. apply blen_0 in Hb. unfold blen, BlockSize in *. split_and!; [done|lia|lia].
Qed.

Lemma authenticateOnline_sound {Key} (rsa : Key -> list byte -> res (list byte)) a client username address player client' :
  authenticateOnline rsa a client username address = (Ok player, client') ->
  exists ins outs, authenticated rsa (Some a) username address ins outs player /\
    lk_in client = map Ok ins ++ lk_in client' /\ lk_out client' = lk_out client ++ outs.
Proof.
  unfold authenticateOnline. destruct (fst (Begin _ _ _)) as [c|] eqn:Hb; [|done]. apply Begin_Ok in Hb as (Hk & Hpub & Ht).
  destruct (link_WriteFrame _ _) as [[e|] l1] eqn:Hw; [done|]. apply link_WriteFrame_None in Hw as [Ho1 Hi1].
  destruct (link_ReadFrame l1) as [[f|] l2] eqn:Hr; [|done]. apply link_ReadFrame_Ok in Hr as (Hi2 & Ho2 & _).
  destruct (ParseEncryptionResponse f) as [response|] eqn:Hp; [|done]. unfold Authenticate.
  destruct (Challenge_Decrypt _ _ _ _) as [secret|] eqn:Hd; [|done]. apply Challenge_Decrypt_Ok in Hd as (Hd1 & Hd2 & Hd3).
  destruct (on_HasJoined a _ _ _) as [profile|] eqn:Hj; [|done]. destruct (link_EnableEncryption _ _ _) eqn:He; [done|]. apply link_EnableEncryption_None in He as [He _].
  intros; simplify_eq. exists [f], [EncryptionRequestPayload [] (publicKey c) (verifyToken c) true].
  split; [|split; [by rewrite <-Hi1, Hi2|by rewrite Ho2, Ho1]].
  exists (verifyToken c), f, response, secret, profile. rewrite <-?Hk, <-?Hpub in *. done.
Qed.

Lemma login_identity_sound {Key} (rsa : Key -> list byte -> res (list byte)) a client username address player client' :
  login_identity rsa a client username address = (Ok player, client') ->
  exists ins outs, authenticated rsa a username address ins outs player /\
    lk_in client = map Ok ins ++ lk_in client' /\ lk_out client' = lk_out client ++ outs.
Proof.
  destruct a as [a|]; [apply authenticateOnline_sound|]. cbn. intros; simplify_eq. exists [], []. by rewrite app_nil_r.
Qed.

(** A login that let [player] into Limbo, by the frames it read and wrote. *)
Definition logged_in {Key} (rsa : Key -> list byte -> res (list byte)) a (address : gostring) (client client' : link) (player : PlayerIdentity) : Prop :=
  exists f1 start ins outs ack setup fin registry,
    ParseStart f1 = Ok start /\ authenticated rsa a (st_Username start) address ins outs player /\
    ParseAcknowledged ack = None /\ Forall (fun f => ParseClientSetup f = None) setup /\ (length setup <= 16)%nat /\
    ParseFinishAcknowledged fin = None /\ RegistryDataPayload MinimalRegistryData = Ok registry /\
    lk_in client = map Ok ([f1] ++ ins ++ [ack] ++ setup ++ [fin]) ++ lk_in client' /\
    lk_out client' = lk_out client ++ outs ++
      [SuccessProfilePayload (id_UUID player) (id_Username player) (id_Properties player); registry; FinishPayload].

Lemma serveLogin_sound {Key} (rsa : Key -> list byte -> res (list byte)) a address client r state client' :
  serveLogin rsa a address client = (r, state, client') ->
  match r with
  | None => Session.state state <> StateLimboPlay
  | Some player => state = mkSession StateLimboPlay None /\ logged_in rsa a address client client' player
  end.
Proof.
  unfold serveLogin. change (Transition New StateLogin) with (@None error, mkSession StateLogin None).
  destruct (link_ReadFrame client) as [[f1|] l1] eqn:Hr1; [|by intros [= <- <- <-]]. apply link_ReadFrame_Ok in Hr1 as (Hi1 & Ho1 & _).
  destruct (ParseStart f1) as [start|] eqn:Hst; [|by intros [= <- <- <-]].
  destruct (login_identity rsa a l1 (st_Username start) address) as [[player|] l2] eqn:Hid; [|by intros [= <- <- <-]].
  apply login_identity_sound in Hid as (ins & outs & Hauth & Hi2 & Ho2).
  destruct (link_WriteFrame l2 _) as [[e|] l3] eqn:Hw; [by intros [= <- <- <-]|]. apply link_WriteFrame_None in Hw as [Ho3 Hi3].
  destruct (link_ReadFrame l3) as [[ack|] l4] eqn:Hr2; [|by intros [= <- <- <-]]. apply link_ReadFrame_Ok in Hr2 as (Hi4 & Ho4 & _).
  destruct (ParseAcknowledged ack) eqn:Hack; [by intros [= <- <- <-]|].
  change (Transition (mkSession StateLogin None) StateConfiguration) with (@None error, mkSession StateConfiguration None). cbv iota beta.
  destruct (RegistryDataPayload MinimalRegistryData) as [registry|] eqn:Hreg; [|by intros [= <- <- <-]].
  destruct (link_WriteAll l4 _) as [[e|] l5] eqn:Hwa; [by intros [= <- <- <-]|]. apply link_WriteAll_None in Hwa as [Ho5 Hi5].
  destruct (readClientConfiguration l5) as [[e|] l6] eqn:Hrc; [by intros [= <- <- <-]|].
  apply readClientConfiguration_loop_sound in Hrc as (setup & fin & Hi6 & Hlen & Hset & Hfin & Ho6).
  change (Transition (mkSession StateConfiguration None) StateLimboPlay) with (@None error, mkSession StateLimboPlay None).
  intros [= <- <- <-]. split; [done|]. exists f1, start, ins, outs, ack, setup, fin, registry.
  split_and!; try done; [cbn in Hlen; lia| |].
  - rewrite Hi1, Hi2, <-Hi3, Hi4, <-Hi5, Hi6, !map_app, <-!app_assoc. done.
  - rewrite Ho6, Ho5, Ho4, Ho3, Ho2, Ho1, <-!app_assoc. done.
Qed.

(** ** Properties *)

(** C13: entering Limbo. [serveLogin] lets a player into Limbo only after a
    complete login: a well-formed Login Start; in online mode an encryption
    exchange in which the client decrypted our token with a 16-byte secret and the
    session service confirmed that name for the hash of that secret, in offline
    mode the version 3 UUID of the name; the acknowledgement of a Login Success
    that carries this identity; and an acknowledged configuration with at most 16
    well-formed setup packets. Exactly the frames of this exchange were read and
    written, in this order. A login that does not get there leaves a session that
    is not in Limbo. *)
Theorem login_flow {Key} (rsa : Key -> list byte -> res (list byte)) a address client r state client' :
  serveLogin rsa a address client = (r, state, client') ->
  match r with
  | None => Session.state state <> StateLimboPlay
  | Some player => state = mkSession StateLimboPlay None /\ logged_in rsa a address client client' player
  end.
Proof. exact (serveLogin_sound rsa a address client r state client'). Qed.

Definition demo_login_link : link :=
  mkLink (Ok <$> [StartPayload (str "Steve") (replicate 16 x00); varint 3; varint 0 ++ mcstring (str "en_us") ++ [x08] ++ varint 0 ++ [x01; x7f] ++ varint 1 ++ [x00; x01]; varint 2])
    os_ErrDeadlineExceeded [] None net_ErrClosed false None 0.
Definition demo_login_end : option PlayerIdentity * Session * link :=
  Eval vm_compute in serveLogin (fun (_ : unit) l => Ok l) None (str "203.0.113.9") demo_login_link.

Lemma login_flow_witness :
  snd (fst demo_login_end) = mkSession StateLimboPlay None /\ lk_in (snd demo_login_end) = [].
Proof.
  pose proof (login_flow (fun (_ : unit) l => Ok l) None (str "203.0.113.9") demo_login_link
    (fst (fst demo_login_end)) (snd (fst demo_login_end)) (snd demo_login_end) ltac:(vm_compute; reflexivity)) as H.
  split; [exact (proj1 H)|reflexivity].
Defined.

(** The client configuration loop. [readClientConfiguration] succeeds exactly
    when at most sixteen well-formed client information or plugin messages are
    followed by an empty acknowledgement; it then leaves everything after it
    unread. *)
Theorem client_configuration_exact client client' :
  lk_closed client = false ->
  (readClientConfiguration client = (None, client') <->
   exists setup fin, lk_in client = map Ok setup ++ Ok fin :: lk_in client' /\ (length setup <= 16)%nat /\
     Forall (fun f => ParseClientSetup f = None) setup /\ ParseFinishAcknowledged fin = None /\
     client' = lk_set_in client (lk_in client')).
Proof.
  intros Hc. split.
  - intros H. pose proof H as H0. apply readClientConfiguration_loop_sound in H as (setup & fin & Hi & Hl & Hs & Hf & Ho).
    exists setup, fin. split_and!; try done; [cbn in Hl; lia|].
    unfold readClientConfiguration in H0. rewrite (readClientConfiguration_loop_complete setup _ client fin (lk_in client')) in H0 by done.
    by injection H0 as <-.
  - intros (setup & fin & Hi & Hl & Hs & Hf & E). unfold readClientConfiguration.
    rewrite (readClientConfiguration_loop_complete setup _ client fin (lk_in client')); [by rewrite <-E|done|done|cbn; lia|done|done].
Qed.

Lemma client_configuration_exact_witness :
  readClientConfiguration (mkLink [Ok (varint 2); Err io_EOF] io_EOF [] None io_EOF false None 0) =
  (None, mkLink [Err io_EOF] io_EOF [] None io_EOF false None 0).
Proof.
  apply (client_configuration_exact (mkLink [Ok (varint 2); Err io_EOF] io_EOF [] None io_EOF false None 0)); [reflexivity|].
  exists [], (varint 2). split_and!; try reflexivity; [cbn; lia|constructor].
Defined.

(** The server list exchange. A status query is answered once, only after a
    well-formed request, and a ping after it is answered with its own eight bytes;
    nothing else is ever written. *)
Theorem status_service status client :
  exists out, lk_out (serveStatus status client) = lk_out client ++ out /\
    (out = [] \/
     exists req rest resp, lk_in client = Ok req :: rest /\ ParseRequest req = None /\ ResponsePayload status = Ok resp /\
       (out = [resp] \/
        exists ping body rest', rest = Ok ping :: rest' /\ PacketID ping = Ok (1, body) /\ length body = 8%nat /\
          out = [resp; varint 1 ++ body])).
Proof.
  unfold serveStatus.
  destruct (link_ReadFrame client) as [[req|] l1] eqn:Hr1.
  2: { exists []. rewrite app_nil_r. split; [|by left]. unfold link_ReadFrame in Hr1. repeat case_match; by simplify_eq. }
  apply link_ReadFrame_Ok in Hr1 as (Hi1 & Ho1 & _).
  destruct (ParseRequest req) eqn:Hreq; [exists []; rewrite app_nil_r; auto|].
  destruct (ResponsePayload status) as [resp|] eqn:Hres; [|exists []; rewrite app_nil_r; auto].
  destruct (link_WriteFrame l1 resp) as [[e|] l2] eqn:Hw.
  { apply link_WriteFrame_out in Hw as (Ho & _). exists []. split; [by rewrite Ho, Ho1|by left]. }
  apply link_WriteFrame_None in Hw as [Ho2 Hi2].
  destruct (link_ReadFrame l2) as [[ping|] l3] eqn:Hr2.
  2: { exists [resp]. assert (lk_out l3 = lk_out l2) as -> by (unfold link_ReadFrame in Hr2; repeat case_match; by simplify_eq).
       split; [by rewrite Ho2, Ho1|]. right. exists req, (lk_in l1), resp. auto. }
  apply link_ReadFrame_Ok in Hr2 as (Hi3 & Ho3 & _).
  destruct (ParsePing ping) as [v|] eqn:Hp.
  2: { exists [resp]. split; [by rewrite Ho3, Ho2, Ho1|]. right. exists req, (lk_in l1), resp. auto. }
  destruct (link_WriteFrame l3 (PongPayload v)) as [e l4] eqn:Hw2. apply link_WriteFrame_out in Hw2 as (Ho4 & _). cbn [snd].
  destruct e as [e|].
  { exists [resp]. split; [by rewrite Ho4, Ho3, Ho2, Ho1, app_nil_r|]. right. exists req, (lk_in l1), resp. auto. }
  apply ParsePing_iff in Hp as [Hv He]. exists [resp; PongPayload v]. split; [by rewrite Ho4, Ho3, Ho2, Ho1, <-!app_assoc|]. right.
  exists req, (lk_in l1), resp. split_and!; [done|done|done|]. right.
  exists ping, (be_bytes 8 (uint64 v)), (lk_in l3). split_and!; [by rewrite <-Hi2|by apply PacketID_enc|by rewrite length_be_bytes|].
  unfold PongPayload. by wire_norm.
Qed.
