(* ===== verification/Transport.v ===== *)
(** * Transport (internal/transport/transport.go)

    One TCP connection with its framing, compression and encryption state. The
    connection delivers its bytes in chunks of any size, one per [conn.Read];
    [cipherReader] decrypts a chunk when it is read, and the buffered reader
    reads a chunk only when its buffer is empty and more bytes are needed. The
    write side is any [Writer]; the writer goroutine serves one request at a time,
    so a write is one step. *)

From S2P Require Import Prelude GoIO Varint Frame Crypto Cipher.

(** ** cipherWriter *)

(** The write side under encryption; [cw_plain] records what was accepted. *)
Record cipherWriter (W : Type) := mkCipherWriter {
  cw_conn : W;
  cw_state : option CipherState;
  cw_plain : list byte
}.
Arguments mkCipherWriter {W}.
Arguments cw_conn {W}.
Arguments cw_state {W}.
Arguments cw_plain {W}.

(** The loop over [encrypted[written:]]: every round that continues wrote
    something, so as many rounds as bytes suffice. *)
Fixpoint cipher_write_loop {W} `{Writer W} (fuel : nat) (w : W) (written : nat) (data : list byte) : nat * option error * W :=
  match data, fuel with
  | [], _ | _, O => (written, None, w)
  | _, S fuel =>
    match w_write w data with
    | (count, Some err, w) => ((written + count)%nat, Some err, w)
    | (count, None, w) =>
      if bool_decide (count = 0%nat) then ((written + count)%nat, Some io_ErrShortWrite, w)
      else cipher_write_loop fuel w (written + count) (drop count data)
    end
  end.

Definition cipherWriter_Write {W} `{Writer W} (cw : cipherWriter W) (data : list byte) : nat * option error * cipherWriter W :=
  match cw_state cw with
  | None =>
    let '(n, err, conn) := w_write (cw_conn cw) data in
    (n, err, mkCipherWriter conn None (cw_plain cw ++ take n data))
  | Some state =>
    match Encrypt state (replicate (length data) x00) data with
    | None => (0%nat, Some (ErrOther 0), cw)   (* the buffer has the right size: never *)
    | Some (encrypted, state) =>
      let '(n, err, conn) := cipher_write_loop (length encrypted) (cw_conn cw) 0 encrypted in
      let n := match err with Some _ => n | None => length data end in
      (n, err, mkCipherWriter conn (Some state) (cw_plain cw ++ take n data))
    end
  end.

#[global] Instance cipherWriter_writer {W} `{Writer W} : Writer (cipherWriter W) := {
  w_write := cipherWriter_Write;
  w_out := cw_plain
}.

(** ** cipherReader and the buffered reader *)

Definition cipherReader_Read (state : option CipherState) (chunk : list byte) : list byte * option CipherState :=
  match state with
  | None => (chunk, None)
  | Some c => match Decrypt c chunk chunk with Some (p, c) => (p, Some c) | None => (chunk, state) end
  end.

(** Read chunks until [n] bytes are buffered or none is left. *)
Fixpoint fill (n : nat) (buf : list byte) (chunks : list (list byte)) (state : option CipherState)
    : list byte * list (list byte) * option CipherState :=
  if bool_decide (n <= length buf)%nat then (buf, chunks, state)
  else match chunks with
  | [] => (buf, [], state)
  | chunk :: chunks => let '(p, state) := cipherReader_Read state chunk in fill n (buf ++ p) chunks state
  end.

(** ** Transport *)

Record Transport (W : Type) := mkTransport {
  tp_buffer : list byte;
  tp_chunks : list (list byte);
  tp_rerr : error;
  tp_conn : W;
  tp_maxPacketSize : Z;
  tp_compression : option CompressionState;
  tp_encryption : option CipherState;
  tp_closed : bool
}.
Arguments mkTransport {W}.
Arguments tp_buffer {W}.
Arguments tp_chunks {W}.
Arguments tp_rerr {W}.
Arguments tp_conn {W}.
Arguments tp_maxPacketSize {W}.
Arguments tp_compression {W}.
Arguments tp_encryption {W}.
Arguments tp_closed {W}.

Section transport.
Context {W : Type} `{Writer W} `{Zlib}.

(** A transport on a connection that will deliver [chunks] and then [err]. *)
Definition New (conn : W) (chunks : list (list byte)) (err : error) (maxPacketSize : Z) : Transport W :=
  mkTransport [] chunks err conn maxPacketSize None None false.

(** Everything that will be read under the current encryption state. *)
Definition view (t : Transport W) : list byte :=
  let '(all, _, _) := fill (length (tp_buffer t ++ concat (tp_chunks t))) (tp_buffer t) (tp_chunks t) (tp_encryption t) in all.

Definition set_reader (t : Transport W) (buf : list byte) (chunks : list (list byte)) (state : option CipherState) : Transport W :=
  mkTransport buf chunks (tp_rerr t) (tp_conn t) (tp_maxPacketSize t) (tp_compression t) state (tp_closed t).

(** [t.ReadFrame()]: the framer consumes some number of bytes, and the buffered
    reader has then read just enough chunks for them. *)
Definition ReadFrame (t : Transport W) : res (list byte) * Transport W :=
  let r := Reader (view t) (tp_rerr t) in
  let '(res, rest) :=
    match tp_compression t with
    | Some compression => CompressionState_ReadFrame compression r
    | None => Frame.ReadFrame (NewFramer (tp_maxPacketSize t)) r
    end in
  let n := (length (view t) - length (rd_data rest))%nat in
  let '(buf, chunks, state) := fill n (tp_buffer t) (tp_chunks t) (tp_encryption t) in
  (res, set_reader t (drop n buf) chunks state).

Definition EnableCompression (t : Transport W) (threshold : Z) : option error * Transport W :=
  match NewCompressionState threshold (tp_maxPacketSize t) with
  | Err err => (Some err, t)
  | Ok compression =>
    (None, mkTransport (tp_buffer t) (tp_chunks t) (tp_rerr t) (tp_conn t) (tp_maxPacketSize t) (Some compression)
             (tp_encryption t) (tp_closed t))
  end.

Definition CompressionThreshold (t : Transport W) : Z * bool :=
  match tp_compression t with None => (0, false) | Some c => (threshold c, true) end.

Definition EnableEncryption (t : Transport W) (key iv : list byte) : option error * Transport W :=
  if negb (blen (tp_buffer t) =? 0) then (Some ErrBufferedEncryptionTransition, t)
  else match NewCipherState key iv with
  | Err err => (Some err, t)
  | Ok state =>
    (None, mkTransport (tp_buffer t) (tp_chunks t) (tp_rerr t) (tp_conn t) (tp_maxPacketSize t) (tp_compression t)
             (Some state) (tp_closed t))
  end.

(** [t.WriteFrame(payload)] as served by [writerLoop]. *)
Definition WriteFrame (t : Transport W) (payload : list byte) : option error * Transport W :=
  if tp_closed t then (Some transport_ErrClosed, t)
  else
    let cw := mkCipherWriter (tp_conn t) (tp_encryption t) [] in
    let '(err, cw) :=
      match tp_compression t with
      | Some compression => CompressionState_WriteFrame compression cw payload
      | None => Frame.WriteFrame (NewFramer (tp_maxPacketSize t)) cw payload
      end in
    (err, mkTransport (tp_buffer t) (tp_chunks t) (tp_rerr t) (cw_conn cw) (tp_maxPacketSize t) (tp_compression t)
            (cw_state cw) (tp_closed t)).

(** [t.Close()]: writes are refused, and once the buffered bytes are used up reads
    fail with [net.ErrClosed], as on any closed connection. *)
Definition Close (t : Transport W) : Transport W :=
  if tp_closed t then t
  else mkTransport (tp_buffer t) [] net_ErrClosed (tp_conn t) (tp_maxPacketSize t) (tp_compression t) (tp_encryption t) true.

(** A closed transport with nothing buffered: every operation fails. *)
Lemma closed_transport t p :
  tp_closed t = false -> tp_buffer t = [] ->
  WriteFrame (Close t) p = (Some transport_ErrClosed, Close t) /\
  (tp_compression t = None -> exists t', ReadFrame (Close t) = (Err net_ErrClosed, t')).
Proof.
  intros Hc Hb. unfold Close. rewrite Hc. split; [done|]. intros Hn. unfold ReadFrame, view.
  cbn [tp_buffer tp_chunks tp_compression tp_rerr tp_encryption]. rewrite Hb, Hn. cbn. by eexists.
Qed.

(** ** A dialogue in one direction *)

(** What one side does: send a frame, or switch compression or encryption on; the
    other side does the same at the same point of the dialogue. *)
Inductive action : Type :=
| AFrame (payload : list byte)
| ACompress (threshold : Z)
| AEncrypt (key iv : list byte).

Fixpoint send (t : Transport W) (acts : list action) : option error * Transport W :=
  match acts with
  | [] => (None, t)
  | act :: acts =>
    match (match act with AFrame p => WriteFrame t p | ACompress th => EnableCompression t th | AEncrypt key iv => EnableEncryption t key iv end) with
    | (Some err, t) => (Some err, t)
    | (None, t) => send t acts
    end
  end.

(** The receiver mirrors the actions and returns the frames it read. *)
Fixpoint receive (t : Transport W) (acts : list action) : res (list (list byte)) * Transport W :=
  match acts with
  | [] => (Ok [], t)
  | AFrame _ :: acts =>
    match ReadFrame t with
    | (Err err, t) => (Err err, t)
    | (Ok p, t) => match receive t acts with (Ok ps, t) => (Ok (p :: ps), t) | (Err err, t) => (Err err, t) end
    end
  | ACompress th :: acts =>
    match EnableCompression t th with (Some err, t) => (Err err, t) | (None, t) => receive t acts end
  | AEncrypt key iv :: acts =>
    match EnableEncryption t key iv with (Some err, t) => (Err err, t) | (None, t) => receive t acts end
  end.

Definition sent_frames (acts : list action) : list (list byte) :=
  omap (fun a => match a with AFrame p => Some p | _ => None end) acts.
End transport.

(** ** Lemmas: the write side *)

Section writing.
Context {W : Type} `{WriterLaws W}.

Lemma cipher_write_loop_le fuel : forall (w : W) written data n e w',
  cipher_write_loop fuel w written data = (n, e, w') -> (n <= written + length data)%nat.
Proof.
  induction fuel as [|fuel IH]; intros w written [|b data] n e w'; cbn [cipher_write_loop];
    try (intros; simplify_eq; cbn; lia).
  destruct (w_write w (b :: data)) as [[count [err|]] w1] eqn:E; apply w_write_le in E.
  - intros; simplify_eq. lia.
  - case_bool_decide; intros Hl; simplify_eq; [lia|]. apply IH in Hl. rewrite length_drop in Hl. lia.
Qed.

(** Without an error everything is written. *)
Lemma cipher_write_loop_None fuel : forall (w : W) written data n w',
  (length data <= fuel)%nat -> cipher_write_loop fuel w written data = (n, None, w') -> w_out w' = w_out w ++ data.
Proof.
  induction fuel as [|fuel IH]; intros w written [|b data] n w' Hf; cbn [cipher_write_loop];
    try (intros; simplify_eq; by rewrite app_nil_r); [cbn in Hf; lia|].
  destruct (w_write w (b :: data)) as [[count [err|]] w1] eqn:E; [done|].
  pose proof (w_write_le _ _ _ _ _ E) as Hle. apply w_write_out in E.
  case_bool_decide; [done|]. intros Hl. apply IH in Hl; [|rewrite length_drop; cbn in *; lia].
  by rewrite Hl, E, <-app_assoc, take_drop.
Qed.

#[global] Instance cipherWriter_laws : WriterLaws (cipherWriter W).
Proof.
  assert (Hle : forall cw d n e cw', cipherWriter_Write cw d = (n, e, cw') ->
    (n <= length d)%nat /\ cw_plain cw' = cw_plain cw ++ take n d).
  { intros cw d n e cw'. unfold cipherWriter_Write. destruct (cw_state cw) as [c|].
    - rewrite Encrypt_eq by apply length_replicate.
      destruct (cipher_write_loop _ _ _ _) as [[k err] conn] eqn:E. apply cipher_write_loop_le in E.
      rewrite length_encrypted in E. intros; simplify_eq. split; [case_match; lia|done].
    - destruct (w_write _ _) as [[k err] conn] eqn:E. apply w_write_le in E. intros; simplify_eq. done. }
  split; intros cw d n e cw' E; by destruct (Hle _ _ _ _ _ E).
Qed.

Lemma after_encrypt_app c a b : after_encrypt (after_encrypt c a) b = after_encrypt c (a ++ b).
Proof.
  unfold after_encrypt. cbn. f_equal. rewrite cfb8_loop_app.
  destruct (cfb8_loop _ _ a true) as [oa sa]. cbn. by destruct (cfb8_loop _ sa b true).
Qed.

(** The bytes on the wire for a plain stream, and the state after it. *)
Definition on_wire (s : option CipherState) (data : list byte) : list byte :=
  match s with None => data | Some c => encrypted c data end.
Definition after_sending (s : option CipherState) (data : list byte) : option CipherState :=
  (fun c => after_encrypt c data) <$> s.

(** No error so far: the connection has the wire form of what was accepted. *)
Definition wire_inv (base : list byte) (s : option CipherState) (cw : cipherWriter W) : Prop :=
  w_out (cw_conn cw) = base ++ on_wire s (cw_plain cw) /\ cw_state cw = after_sending s (cw_plain cw).

Lemma wire_inv_write base s cw d n cw' :
  wire_inv base s cw -> w_write cw d = (n, None, cw') -> wire_inv base s cw'.
Proof.
  intros [Ho Hs]. cbn [w_write cipherWriter_writer]. unfold cipherWriter_Write. rewrite Hs.
  destruct s as [c|]; cbn [after_sending fmap option_fmap option_map].
  - rewrite Encrypt_eq by apply length_replicate.
    destruct (cipher_write_loop _ _ _ _) as [[k [err|]] conn] eqn:E; [done|].
    apply cipher_write_loop_None in E; [|done]. intros; simplify_eq. rewrite firstn_all.
    split; cbn; [|by rewrite after_encrypt_app]. rewrite E, Ho, encrypted_app, <-app_assoc. done.
  - destruct (w_write _ _) as [[k err] conn] eqn:E. apply w_write_out in E. intros; simplify_eq.
    split; cbn; [|done]. cbn in Ho. by rewrite E, Ho, <-app_assoc.
Qed.
End writing.

(** A property kept by every successful write is kept by a successful frame. *)
Lemma writeAll_loop_pres {W} `{Writer W} (P : W -> Prop) fuel :
  (forall w d n w', P w -> w_write w d = (n, None, w') -> P w') ->
  forall w data w', P w -> writeAll_loop fuel w data = (None, w') -> P w'.
Proof.
  intros HP. induction fuel as [|fuel IH]; intros w [|b data] w' Hw; cbn [writeAll_loop]; try (by intros; simplify_eq).
  destruct (w_write w (b :: data)) as [[n [err|]] w1] eqn:E; [done|]. case_bool_decide; [done|].
  apply IH. by eapply HP.
Qed.

Lemma WriteFrame_pres {W} `{Writer W} (P : W -> Prop) f w payload w' :
  (forall w d n w', P w -> w_write w d = (n, None, w') -> P w') ->
  P w -> Frame.WriteFrame f w payload = (None, w') -> P w'.
Proof.
  intros HP Hw. unfold Frame.WriteFrame. case_match; [done|]. case_match; [done|].
  destruct (writeAll w _) as [[err|] w1] eqn:E; [done|]. intros E2.
  eapply writeAll_loop_pres; [exact HP| |exact E2]. eapply writeAll_loop_pres; [exact HP|exact Hw|exact E].
Qed.

Lemma CompressionState_WriteFrame_pres `{Zlib} {W} `{Writer W} (P : W -> Prop) c w payload w' :
  (forall w d n w', P w -> w_write w d = (n, None, w') -> P w') ->
  P w -> CompressionState_WriteFrame c w payload = (None, w') -> P w'.
Proof.
  intros HP Hw. unfold CompressionState_WriteFrame. case_match; [done|]. case_match; [done|].
  case_match; by apply WriteFrame_pres.
Qed.

Section sending.
Context {W : Type} `{WriterLaws W} `{ZlibLaws}.

(** The plain bytes of a frame under a compression state. *)
Definition plain_frame (c : option CompressionState) (p : list byte) : list byte :=
  match c with None => frame_bytes p | Some c => frame_bytes (compressed_payload c p) end.

(** Payloads a mode transports. *)
Definition payload_ok (maxPacket : Z) (c : option CompressionState) (p : list byte) : Prop :=
  p <> [] /\ blen p <= match c with None => maxPacketSize (NewFramer maxPacket) | Some c => cs_maxPacketSize c end.

Lemma WriteFrame_sent (t : Transport W) p t' :
  WriteFrame t p = (None, t') ->
  let plain := plain_frame (tp_compression t) p in
  payload_ok (tp_maxPacketSize t) (tp_compression t) p /\
  w_out (tp_conn t') = w_out (tp_conn t) ++ on_wire (tp_encryption t) plain /\
  tp_encryption t' = after_sending (tp_encryption t) plain /\
  tp_compression t' = tp_compression t /\ tp_maxPacketSize t' = tp_maxPacketSize t.
Proof.
  unfold WriteFrame. destruct (tp_closed t); [done|]. set (cw := mkCipherWriter _ _ _).
  assert (Hcw : wire_inv (w_out (tp_conn t)) (tp_encryption t) cw).
  { split; cbn; destruct (tp_encryption t) as [c|]; cbn; try done; rewrite ?app_nil_r; try done. by destruct c. }
  assert (Hp : forall w d n w', wire_inv (w_out (tp_conn t)) (tp_encryption t) w ->
    w_write w d = (n, None, w') -> wire_inv (w_out (tp_conn t)) (tp_encryption t) w') by (intros; by eapply wire_inv_write).
  destruct (tp_compression t) as [c|] eqn:Ec; cbn zeta.
  - destruct (CompressionState_WriteFrame c cw p) as [[err|] cw'] eqn:E; [done|]. intros [= <-]. cbn.
    pose proof (CompressionState_WriteFrame_pres _ _ _ _ _ Hp Hcw E) as [Ho Hs].
    apply CompressionState_WriteFrame_None in E as (Hne & Hle & Hpl). cbn in Hpl. rewrite Hpl in *.
    split_and!; done.
  - destruct (Frame.WriteFrame _ cw p) as [[err|] cw'] eqn:E; [done|]. intros [= <-]. cbn.
    pose proof (WriteFrame_pres _ _ _ _ _ Hp Hcw E) as [Ho Hs].
    apply WriteFrame_None in E as (Hne & Hle & Hpl). cbn in Hpl. rewrite Hpl in *.
    split_and!; done.
Qed.
End sending.

(** ** Lemmas: the read side *)

Section receiving.
Context {W : Type} `{Writer W} `{ZlibLaws}.

(** What the reader makes of wire bytes, and the state after them. *)
Definition off_wire (s : option CipherState) (wire : list byte) : list byte :=
  match s with None => wire | Some c => decrypted c wire end.
Definition after_reading (s : option CipherState) (wire : list byte) : option CipherState :=
  (fun c => after_decrypt c wire) <$> s.

Lemma cipherReader_Read_eq s chunk : cipherReader_Read s chunk = (off_wire s chunk, after_reading s chunk).
Proof. destruct s as [c|]; [|done]. cbn. by rewrite Decrypt_eq. Qed.

Lemma off_wire_length s w : length (off_wire s w) = length w.
Proof. destruct s; [apply length_decrypted|done]. Qed.

Lemma off_wire_app s a b : off_wire s (a ++ b) = off_wire s a ++ off_wire (after_reading s a) b.
Proof. destruct s; [apply decrypted_app|done]. Qed.

Lemma after_reading_app s a b : after_reading s (a ++ b) = after_reading (after_reading s a) b.
Proof.
  destruct s as [c|]; [|done]. cbn. unfold after_decrypt. cbn. do 2 f_equal. rewrite cfb8_loop_app.
  destruct (cfb8_loop _ _ a false) as [oa sa]. cbn. by destruct (cfb8_loop _ sa b false).
Qed.

Lemma after_reading_nil s : after_reading s [] = s.
Proof. by destruct s as [[]|]. Qed.

(** The buffered reader pulls whole chunks, at least up to what is asked when
    that much arrives, and no chunk past a prefix that suffices. *)
Lemma fill_spec n chunks : forall buf s buf' chunks' s',
  fill n buf chunks s = (buf', chunks', s') ->
  exists pulled, chunks = pulled ++ chunks' /\
    buf' = buf ++ off_wire s (concat pulled) /\ s' = after_reading s (concat pulled) /\
    ((n <= length buf + length (concat chunks))%nat -> (n <= length buf')%nat) /\
    (forall c1 c2, chunks = c1 ++ c2 -> (n <= length buf + length (concat c1))%nat -> exists c1', chunks' = c1' ++ c2).
Proof.
  induction chunks as [|ch chunks IH]; intros buf s buf' chunks' s'; cbn [fill].
  { intros Hf. exists []. cbn. rewrite after_reading_nil.
    assert (off_wire s [] = []) as -> by (apply length_zero_iff_nil, off_wire_length).
    rewrite app_nil_r. case_bool_decide; simplify_eq; split_and!; try done; try (intros; lia);
      intros c1 c2 E; symmetry in E; apply app_nil in E as [-> ->]; by exists []. }
  case_bool_decide as Hn.
  - intros; simplify_eq. exists []. cbn. rewrite after_reading_nil.
    assert (off_wire s' [] = []) as -> by (apply length_zero_iff_nil, off_wire_length).
    rewrite app_nil_r. split_and!; try done. intros c1 c2 ->. by exists c1.
  - rewrite cipherReader_Read_eq. intros Hf. apply IH in Hf as (pulled & -> & -> & -> & Hle & Hk).
    rewrite length_app, off_wire_length in Hle, Hk.
    exists (ch :: pulled). cbn [concat]. rewrite off_wire_app, after_reading_app, <-app_assoc.
    split_and!; try done.
    + rewrite length_app. intros. rewrite app_assoc. apply Hle. rewrite concat_app in *. lia.
    + intros [|d c1] c2 E Hlen; cbn in E; [cbn in Hlen; lia|]. simplify_eq.
      apply (Hk c1 c2); [done|]. cbn in Hlen. rewrite length_app in Hlen. lia.
Qed.

Lemma view_eq (t : Transport W) :
  view t = tp_buffer t ++ off_wire (tp_encryption t) (concat (tp_chunks t)).
Proof.
  unfold view. destruct (fill _ _ _ _) as [[all chunks'] s'] eqn:E.
  apply fill_spec in E as (pulled & Hc & -> & _ & Hle & _).
  rewrite length_app in Hle. specialize (Hle ltac:(lia)).
  rewrite length_app, off_wire_length, Hc, concat_app, length_app in Hle.
  assert (concat chunks' = []) as Hn by (apply length_zero_iff_nil; lia).
  by rewrite Hc, concat_app, Hn, app_nil_r.
Qed.

(** The sender's and the receiver's cipher agree. *)
Definition synced (se sr : option CipherState) : Prop :=
  match se, sr with
  | None, None => True
  | Some c, Some d => block c = block d /\ encryptIV c = decryptIV d
  | _, _ => False
  end.

Lemma synced_wire se sr plain :
  synced se sr -> off_wire sr (on_wire se plain) = plain /\
    synced (after_sending se plain) (after_reading sr (on_wire se plain)).
Proof.
  destruct se as [c|], sr as [d|]; cbn; try done. intros [Hb Hi]. split; [by apply decrypted_encrypted|].
  split; [done|]. unfold encrypted. rewrite <-Hb, <-Hi.
  pose proof (cfb8_inverse (block c) plain (encryptIV c)) as E.
  by destruct (cfb8_loop (block c) (encryptIV c) plain true) as [o sh]; cbn; rewrite E.
Qed.

Lemma on_wire_length s p : length (on_wire s p) = length p.
Proof. destruct s; [apply length_encrypted|done]. Qed.

(** [wire] is what the receiver has still to make of the sender's stream: the
    buffered part, already decrypted, and the bytes the connection holds. *)
Definition inflight (se : option CipherState) (wire : list byte) (t : Transport W) : Prop :=
  exists s w1, synced se s /\ wire = w1 ++ concat (tp_chunks t) /\
    tp_buffer t = off_wire s w1 /\ tp_encryption t = after_reading s w1.

(** The compression state of a connection with this packet limit. *)
Definition compression_ok (m : Z) (c : option CompressionState) : Prop :=
  match c with None => True | Some c => exists th, NewCompressionState th m = Ok c end.

Lemma plain_frame_read m c p rest e :
  maxPacketSize (NewFramer m) < 2 ^ 30 -> compression_ok m c -> payload_ok m c p ->
  match c with
  | Some c => CompressionState_ReadFrame c (Reader (plain_frame (Some c) p ++ rest) e)
  | None => Frame.ReadFrame (NewFramer m) (Reader (plain_frame None p ++ rest) e)
  end = (Ok p, Reader rest e).
Proof.
  intros Hm Hc [Hne Hle]. destruct c as [c|]; cbn [plain_frame].
  - destruct Hc as [th Hc]. eapply CompressionState_ReadFrame_payload; [exact Hc|done|done|].
    unfold NewCompressionState in Hc. destruct (th <? 0); [done|]. injection Hc as <-. exact Hm.
  - apply ReadFrame_frame. split_and!; [done|done|]. lia.
Qed.

(** One frame: the receiver reads exactly the payload and stays in step. The
    chunks [c2] beyond this frame's bytes are not touched. *)
Lemma ReadFrame_inflight se p wire (t : Transport W) :
  maxPacketSize (NewFramer (tp_maxPacketSize t)) < 2 ^ 30 ->
  compression_ok (tp_maxPacketSize t) (tp_compression t) -> payload_ok (tp_maxPacketSize t) (tp_compression t) p ->
  inflight se (on_wire se (plain_frame (tp_compression t) p) ++ wire) t ->
  exists t', ReadFrame t = (Ok p, t') /\ inflight (after_sending se (plain_frame (tp_compression t) p)) wire t' /\
    tp_compression t' = tp_compression t /\ tp_maxPacketSize t' = tp_maxPacketSize t /\
    (forall c1 c2 tail, tp_chunks t = c1 ++ c2 -> wire = tail ++ concat c2 ->
      exists c1', tp_chunks t' = c1' ++ c2).
Proof.
  intros Hm Hc Hp (s & w1 & Hs & Hw & Hb & He). set (plain := plain_frame _ p) in *.
  pose proof (synced_wire se s plain Hs) as [Hoff Hs'].
  set (B := on_wire se plain) in *.
  assert (Hview : view t = plain ++ off_wire (after_reading s B) wire).
  { rewrite view_eq, Hb, He, <-off_wire_app, <-Hw, off_wire_app, Hoff. done. }
  assert (Hread : match tp_compression t with
    | Some c => CompressionState_ReadFrame c (Reader (view t) (tp_rerr t))
    | None => Frame.ReadFrame (NewFramer (tp_maxPacketSize t)) (Reader (view t) (tp_rerr t))
    end = (Ok p, Reader (off_wire (after_reading s B) wire) (tp_rerr t))).
  { rewrite Hview. unfold plain. pose proof (plain_frame_read _ _ p (off_wire (after_reading s B) wire) (tp_rerr t) Hm Hc Hp) as E.
    by destruct (tp_compression t). }
  unfold ReadFrame. rewrite Hread. cbn [rd_data].
  assert (Hn : (length (view t) - length (off_wire (after_reading s B) wire))%nat = length B).
  { rewrite Hview, length_app. unfold B at 3. rewrite on_wire_length. lia. }
  rewrite Hn. clear Hread Hn.
  destruct (fill _ _ _ _) as [[buf chunks'] s'] eqn:E.
  apply fill_spec in E as (pulled & Hch & -> & -> & Hle & Hkeep).
  rewrite Hb, off_wire_length in Hkeep. rewrite Hb in Hle at 1. rewrite off_wire_length in Hle.
  assert (Hlw : (length B <= length w1 + length (concat (tp_chunks t)))%nat).
  { rewrite <-(length_app w1), <-Hw, length_app. lia. }
  specialize (Hle Hlw). rewrite Hb, He, <-off_wire_app in Hle |- *. rewrite off_wire_length in Hle.
  rewrite Hch, concat_app, app_assoc in Hw.
  set (got := w1 ++ concat pulled) in *.
  assert (Hsplit : got = B ++ drop (length B) got).
  { apply (f_equal (take (length B))) in Hw as Ht. rewrite take_app_length, take_app_le in Ht by done.
    rewrite Ht at 1. by rewrite take_drop. }
  eexists. split; [reflexivity|]. fold got. split_and!; try done.
  - exists (after_reading s B), (drop (length B) got). cbn. split_and!; [done| | |].
    + apply (f_equal (drop (length B))) in Hw. rewrite drop_app_length, drop_app_le in Hw by done. done.
    + rewrite Hsplit at 1. rewrite off_wire_app, drop_app_length'; [done|]. by rewrite off_wire_length.
    + rewrite <-after_reading_app. fold got. rewrite <-after_reading_app. by rewrite <-Hsplit.
  - intros c1 c2 tail Hc12 ->. cbn. apply (Hkeep c1 c2 Hc12).
    apply (f_equal length) in Hw. rewrite <-Hch in Hw || idtac.
    unfold got in Hw. rewrite !length_app in Hw.
    assert (length (concat (tp_chunks t)) = length (concat c1) + length (concat c2))%nat by (by rewrite Hc12, concat_app, length_app).
    assert (length (concat (tp_chunks t)) = length (concat pulled) + length (concat chunks'))%nat by (by rewrite Hch, concat_app, length_app).
    lia.
Qed.
End receiving.

Section dialogue.
Context {W V : Type} `{WriterLaws W} `{Writer V} `{ZlibLaws}.

(** The two ends of one direction of a connection: same limits and compression,
    and the receiver still has [wire] to read. *)
Definition in_step (ts : Transport W) (wire : list byte) (tr : Transport V) : Prop :=
  tp_maxPacketSize tr = tp_maxPacketSize ts /\ tp_compression tr = tp_compression ts /\
  maxPacketSize (NewFramer (tp_maxPacketSize ts)) < 2 ^ 30 /\
  compression_ok (tp_maxPacketSize ts) (tp_compression ts) /\
  inflight (tp_encryption ts) wire tr.

(** Whole chunks [c2] that the connection has not delivered yet. *)
Definition holds_back (c2 : list (list byte)) (tr : Transport V) : Prop := exists c1, tp_chunks tr = c1 ++ c2.

Definition is_encrypt (a : action) : bool := match a with AEncrypt _ _ => true | _ => false end.

Lemma in_step_compress ts tr wire th ts' :
  in_step ts wire tr -> EnableCompression ts th = (None, ts') ->
  exists tr', EnableCompression tr th = (None, tr') /\ in_step ts' wire tr' /\
    tp_conn ts' = tp_conn ts /\ tp_chunks tr' = tp_chunks tr.
Proof.
  intros (Hm & Hc & Hlt & Hok & Hi). unfold EnableCompression. rewrite Hm.
  destruct (NewCompressionState th (tp_maxPacketSize ts)) as [c|] eqn:E; [|done]. intros [= <-].
  eexists. split; [done|]. split_and!; try done. split_and!; cbn; try done. by exists th.
Qed.

Lemma in_step_encrypt ts tr wire key iv ts' :
  in_step ts wire tr -> tp_buffer tr = [] -> EnableEncryption ts key iv = (None, ts') ->
  exists tr', EnableEncryption tr key iv = (None, tr') /\ in_step ts' wire tr' /\ tp_conn ts' = tp_conn ts.
Proof.
  intros (Hm & Hc & Hlt & Hok & Hi) Hb. unfold EnableEncryption. rewrite Hb. cbn [length blen].
  change (blen (@nil byte)) with 0. cbn. case_match; [done|].
  destruct (NewCipherState key iv) as [c|] eqn:E; [|done]. intros [= <-].
  eexists. split; [done|]. split; [|done]. destruct Hi as (s & w1 & Hs & -> & Hbu & _).
  rewrite Hb in Hbu. apply (f_equal length) in Hbu. rewrite off_wire_length in Hbu. destruct w1; [|done].
  split_and!; cbn; try done. exists (Some c), []. split_and!; try done.
  - cbn. split; [done|]. unfold NewCipherState in E. case_match; [done|]. by simplify_eq.
  - cbn. by destruct c.
Qed.

Lemma in_step_frame ts tr wire p ts' out :
  WriteFrame ts p = (None, ts') -> w_out (tp_conn ts') = w_out (tp_conn ts) ++ out ->
  in_step ts (out ++ wire) tr ->
  exists tr', ReadFrame tr = (Ok p, tr') /\ in_step ts' wire tr' /\
    (forall c2 tail, holds_back c2 tr -> wire = tail ++ concat c2 -> holds_back c2 tr').
Proof.
  intros Hw Ho (Hm & Hc & Hlt & Hok & Hi).
  pose proof (WriteFrame_sent _ _ _ Hw) as (Hp & Ho' & He & Hc' & Hm').
  rewrite Ho' in Ho. apply app_inv_head in Ho as <-. rewrite <-Hc in Hi.
  destruct (ReadFrame_inflight (tp_encryption ts) p wire tr) as (tr' & -> & Hi' & Hcr & Hmr & Hk);
    [by rewrite Hm|by rewrite Hm, Hc|by rewrite Hm, Hc|done|].
  exists tr'. split; [done|]. split.
  - split_and!; try congruence.
  - intros c2 tail [c1 E] ->. by eapply Hk.
Qed.

Lemma send_grows acts : forall (ts : Transport W) ts', send ts acts = (None, ts') ->
  exists out, w_out (tp_conn ts') = w_out (tp_conn ts) ++ out.
Proof.
  induction acts as [|a acts IH]; intros ts ts'; cbn [send].
  { intros [= <-]. exists []. by rewrite app_nil_r. }
  destruct (match a with AFrame p => _ | _ => _ end) as [[err|] t1] eqn:E; [done|]. intros Hs.
  apply IH in Hs as [o2 ->]. assert (exists o1, w_out (tp_conn t1) = w_out (tp_conn ts) ++ o1) as [o1 ->].
  { destruct a as [p|th|key iv].
    - apply WriteFrame_sent in E as (_ & -> & _). eauto.
    - unfold EnableCompression in E. case_match; simplify_eq. exists []. by rewrite app_nil_r.
    - unfold EnableEncryption in E. repeat case_match; simplify_eq. exists []. by rewrite app_nil_r. }
  exists (o1 ++ o2). by rewrite app_assoc.
Qed.

Lemma send_encrypted acts : forall (ts : Transport W) ts',
  is_Some (tp_encryption ts) -> send ts acts = (None, ts') -> is_Some (tp_encryption ts').
Proof.
  induction acts as [|a acts IH]; intros ts ts' He; cbn [send]; [by intros [= <-]|].
  destruct (match a with AFrame p => _ | _ => _ end) as [[err|] t1] eqn:E; [done|]. apply IH.
  destruct a as [p|th|key iv].
  - apply WriteFrame_sent in E as (_ & _ & -> & _). unfold after_sending. destruct He as [c ->]. cbn. eauto.
  - unfold EnableCompression in E. by case_match; simplify_eq.
  - unfold EnableEncryption in E. repeat case_match; simplify_eq. cbn. eauto.
Qed.

(** The receiver follows the sender through any dialogue. *)
Lemma receive_in_step acts : forall ts ts' (tr : Transport V) out more,
  send ts acts = (None, ts') -> w_out (tp_conn ts') = w_out (tp_conn ts) ++ out -> in_step ts (out ++ more) tr ->
  (exists tr', receive tr acts = (Ok (sent_frames acts), tr') /\ in_step ts' more tr' /\
    (forall c2 tail, existsb is_encrypt acts = false -> holds_back c2 tr -> more = tail ++ concat c2 -> holds_back c2 tr')) \/
  (exists tr', receive tr acts = (Err ErrBufferedEncryptionTransition, tr') /\ tp_buffer tr' <> [] /\
    existsb is_encrypt acts = true).
Proof.
  induction acts as [|a acts IH]; intros ts ts' tr out more; cbn [send receive].
  { intros [= <-] Ho Hi. left. exists tr. rewrite <-(app_nil_r (w_out _)) in Ho at 1. apply app_inv_head in Ho as <-. done. }
  destruct (match a with AFrame p => _ | _ => _ end) as [[err|] t1] eqn:E; [done|]. intros Hs Ho Hi.
  destruct (send_grows _ _ _ Hs) as [o2 Ho2]. destruct a as [p|th|key iv].
  - pose proof (WriteFrame_sent _ _ _ E) as (_ & Ho1 & _). rewrite Ho2, Ho1, <-app_assoc in Ho.
    apply app_inv_head in Ho as <-. rewrite <-app_assoc in Hi.
    destruct (in_step_frame _ _ _ _ _ _ E Ho1 Hi) as (tr' & -> & Hi' & Hk).
    destruct (IH _ _ _ _ _ Hs Ho2 Hi') as [(tr2 & -> & Hi2 & Hk2)|(tr2 & -> & Hr)]; [left|right; by exists tr2].
    exists tr2. split_and!; try done. intros c2 tail Hne Hh ->. apply (Hk2 c2 tail); [done| |done].
    apply (Hk c2 (o2 ++ tail)); [done|by rewrite <-app_assoc].
  - destruct (in_step_compress _ _ _ _ _ Hi E) as (tr' & -> & Hi' & Hconn & Hch).
    rewrite <-Hconn in Ho. unfold holds_back in *. rewrite <-Hch. exact (IH _ _ _ _ _ Hs Ho Hi').
  - destruct (decide (tp_buffer tr = [])) as [Hb|Hb].
    + destruct (in_step_encrypt _ _ _ _ _ _ Hi Hb E) as (tr' & -> & Hi' & Hconn).
      rewrite <-Hconn in Ho. destruct (IH _ _ _ _ _ Hs Ho Hi') as [(tr2 & -> & Hi2 & _)|(tr2 & -> & Hn & _)].
      * left. by exists tr2.
      * right. by exists tr2.
    + right. exists tr. unfold EnableEncryption. destruct (tp_buffer tr); [done|]. done.
Qed.

Lemma New_in_step (w : W) (v : V) se e chunks m :
  maxPacketSize (NewFramer m) < 2 ^ 30 -> in_step (New w [] se m) (concat chunks) (New v chunks e m).
Proof. intros Hm. split_and!; try done. exists None, []. done. Qed.
End dialogue.

Lemma receive_app {V} `{Writer V} `{Zlib} acts1 acts2 : forall (tr : Transport V),
  receive tr (acts1 ++ acts2) =
  match receive tr acts1 with
  | (Err err, tr') => (Err err, tr')
  | (Ok ps, tr') => match receive tr' acts2 with (Ok qs, t) => (Ok (ps ++ qs), t) | (Err err, t) => (Err err, t) end
  end.
Proof.
  induction acts1 as [|a acts1 IH]; intros tr; cbn [app receive].
  { by destruct (receive tr acts2) as [[qs|err] t]. }
  destruct a as [p|th|key iv].
  - destruct (ReadFrame tr) as [[q|err] t1]; [|done]. rewrite IH.
    destruct (receive t1 acts1) as [[ps|err] t2]; [|done]. by destruct (receive t2 acts2) as [[qs|err] t3].
  - destruct (EnableCompression tr th) as [[err|] t1]; [done|]. apply IH.
  - destruct (EnableEncryption tr key iv) as [[err|] t1]; [done|]. apply IH.
Qed.

(** ** Properties *)

(** C15: a transport delivers its peer's frames. Whatever one end sends (frames,
    and compression and encryption switched on between them), over any
    connection that accepts its bytes in any portions, an end that switches at
    the same points and gets the bytes in chunks of any sizes reads exactly the
    frames that were sent. The only other outcome is that encryption was to be
    switched on while bytes were already buffered, which is refused with
    [ErrBufferedEncryptionTransition]: no ciphertext is ever taken for plain
    text or decrypted from the wrong position. *)
Theorem transport_stream {W V} `{WriterLaws W} `{Writer V} `{ZlibLaws}
    (w : W) (v : V) se e m acts ts' out chunks more :
  maxPacketSize (NewFramer m) < 2 ^ 30 ->
  send (New w [] se m) acts = (None, ts') -> w_out (tp_conn ts') = w_out w ++ out -> concat chunks = out ++ more ->
  match receive (New v chunks e m) acts with
  | (Ok ps, _) => ps = sent_frames acts
  | (Err err, tr') => err = ErrBufferedEncryptionTransition /\ tp_buffer tr' <> [] /\ existsb is_encrypt acts = true
  end.
Proof.
  intros Hm Hs Ho Hc. pose proof (New_in_step w v se e chunks m Hm) as Hi. rewrite Hc in Hi.
  by destruct (receive_in_step _ _ _ _ _ _ Hs Ho Hi) as [(tr' & -> & _)|(tr' & -> & Hb & He)].
Qed.

(** switching encryption on in lockstep succeeds. When no chunk holds bytes
    from both sides of the switch (the peer sends nothing encrypted before it has
    been answered), the switch is accepted and every frame sent before and after
    it is read, however the bytes on either side are cut into chunks. *)
Theorem encryption_switch {W V} `{WriterLaws W} `{Writer V} `{ZlibLaws}
    (w : W) (v : V) se e m acts1 key iv acts2 t1 ts' out2 c1 c2 more :
  maxPacketSize (NewFramer m) < 2 ^ 30 -> existsb is_encrypt (acts1 ++ acts2) = false ->
  send (New w [] se m) acts1 = (None, t1) -> send t1 (AEncrypt key iv :: acts2) = (None, ts') ->
  w_out (tp_conn t1) = w_out w ++ concat c1 -> w_out (tp_conn ts') = w_out (tp_conn t1) ++ out2 ->
  concat c2 = out2 ++ more ->
  exists tr', receive (New v (c1 ++ c2) e m) (acts1 ++ AEncrypt key iv :: acts2) =
    (Ok (sent_frames acts1 ++ sent_frames acts2), tr') /\ is_Some (tp_encryption tr').
Proof.
  intros Hm Hne Hs1 Hs2 Ho1 Ho2 Hc2. rewrite existsb_app in Hne. apply orb_false_iff in Hne as [Hn1 Hn2].
  pose proof (New_in_step w v se e (c1 ++ c2) m Hm) as Hi. rewrite concat_app in Hi.
  destruct (receive_in_step _ _ _ _ _ _ Hs1 Ho1 Hi) as [(tr1 & E1 & Hi1 & Hh)|(tr1 & _ & _ & ?)]; [|congruence].
  destruct (Hh c2 [] Hn1) as [c1' Hch]; [by exists c1|done|].
  assert (Hb : tp_buffer tr1 = []).
  { destruct Hi1 as (_ & _ & _ & _ & s & w1 & _ & Hw & -> & _). rewrite Hch, concat_app, app_assoc in Hw.
    rewrite <-(app_nil_l (concat c2)) in Hw at 1. apply app_inv_tail in Hw. symmetry in Hw. apply app_nil in Hw as [-> _].
    apply length_zero_iff_nil, off_wire_length. }
  rewrite receive_app, E1. cbn [receive]. cbn [send] in Hs2.
  destruct (EnableEncryption t1 key iv) as [[err|] t2] eqn:Ee; [done|].
  destruct (in_step_encrypt _ _ _ _ _ _ Hi1 Hb Ee) as (tr2 & -> & Hi2 & Hconn).
  rewrite <-Hconn in Ho2. rewrite Hc2 in Hi2.
  destruct (receive_in_step _ _ _ _ _ _ Hs2 Ho2 Hi2) as [(tr3 & -> & Hi3 & _)|(tr3 & _ & _ & ?)]; [|congruence].
  exists tr3. split; [done|]. assert (He2 : is_Some (tp_encryption t2)).
  { unfold EnableEncryption in Ee. repeat case_match; simplify_eq. cbn. eauto. }
  destruct (send_encrypted _ _ _ He2 Hs2) as [c Ec].
  destruct Hi3 as (_ & _ & _ & _ & s & w1 & Hs & _ & _ & ->). rewrite Ec in Hs. by destruct s.
Qed.

(** A dialogue with a compressed and an encrypted part. *)
Definition demo_key : list byte := replicate 16 x2a.
Definition demo_before : list action := [AFrame [x01; x02]; ACompress 4; AFrame [x03]].
Definition demo_after : list action := [AFrame (str "hello"); AFrame [x05]].
Definition demo_sent : option error * Transport chunked :=
  send (H0:=stored_zlib) (New (Chunked 3 200 io_EOF []) [] io_EOF 64) demo_before.
Definition demo_wire1 : list byte := Eval vm_compute in ch_bytes (tp_conn (snd demo_sent)).
Definition demo_wire2 : list byte := Eval vm_compute in
  drop (length demo_wire1) (ch_bytes (tp_conn (snd (send (H0:=stored_zlib) (snd demo_sent) (AEncrypt demo_key demo_key :: demo_after))))).

Lemma sent_None {A} (p : option error * A) : fst p = None -> p = (None, snd p).
Proof. destruct p. by cbn; intros ->. Qed.

Lemma transport_stream_witness :
  match receive (W:=sink) (H0:=stored_zlib) (New (Sink []) [take 2 demo_wire1; drop 2 demo_wire1; [x09]] io_EOF 64) demo_before with
  | (Ok ps, _) => ps = [[x01; x02]; [x03]]
  | (Err err, tr') => err = ErrBufferedEncryptionTransition /\ tp_buffer tr' <> [] /\ existsb is_encrypt demo_before = true
  end.
Proof.
  apply (@transport_stream chunked sink _ _ _ stored_zlib stored_zlib_laws (Chunked 3 200 io_EOF []) (Sink []) io_EOF io_EOF 64
    demo_before (snd demo_sent) demo_wire1 _ [x09]); [vm_compute; reflexivity|vm_compute; reflexivity|vm_compute; reflexivity|vm_compute; reflexivity].
Defined.

Lemma encryption_switch_witness :
  exists tr', receive (W:=sink) (H0:=stored_zlib)
    (New (Sink []) ([take 2 demo_wire1; drop 2 demo_wire1] ++ [take 7 demo_wire2; drop 7 demo_wire2]) io_EOF 64)
    (demo_before ++ AEncrypt demo_key demo_key :: demo_after) =
    (Ok (sent_frames demo_before ++ sent_frames demo_after), tr') /\ is_Some (tp_encryption tr').
Proof.
  apply (@encryption_switch chunked sink _ _ _ stored_zlib stored_zlib_laws (Chunked 3 200 io_EOF []) (Sink []) io_EOF io_EOF 64
    demo_before demo_key demo_key demo_after (snd demo_sent)
    (snd (send (H0:=stored_zlib) (snd demo_sent) (AEncrypt demo_key demo_key :: demo_after))) demo_wire2
    [take 2 demo_wire1; drop 2 demo_wire1] [take 7 demo_wire2; drop 7 demo_wire2] []);
    first [apply sent_None; vm_compute; reflexivity|vm_compute; reflexivity].
Defined.
