(* ===== verification/TransportLink.v ===== *)
(** * A transport behaves as a sequence of frames

    The components above package transport are modelled over [link] (Link.v). Here
    the byte-level model of Transport.v is shown to behave as a link: between two
    changes of mode, any sequence of reads and writes gets the same answers from
    both, and what is written is the wire form of the frames the link records. *)

From S2P Require Import ServeLogin.
From S2P Require Import Prelude GoIO Varint Frame Crypto Cipher Link Transport.

(** ** Programs on a connection *)

Inductive frame_op : Type := OpRead | OpWrite (payload : list byte).
Inductive answer : Type := AnRead (r : res (list byte)) | AnWrite (err : option error).

Section programs.
Context {W : Type} `{Writer W} `{Zlib}.

Fixpoint run_transport (t : Transport W) (ops : list frame_op) : list answer * Transport W :=
  match ops with
  | [] => ([], t)
  | OpRead :: ops => let '(r, t) := ReadFrame t in let '(l, t) := run_transport t ops in (AnRead r :: l, t)
  | OpWrite p :: ops => let '(e, t) := WriteFrame t p in let '(l, t) := run_transport t ops in (AnWrite e :: l, t)
  end.

(** Switching to encryption is refused by the transport exactly when it is refused
    on the frames, given what the reader has buffered. *)
Lemma EnableEncryption_link (t : Transport W) key iv :
  fst (EnableEncryption t key iv) = link_EnableEncryption (tp_buffer t) key iv.
Proof. unfold EnableEncryption, link_EnableEncryption. destruct (negb _); [done|]. by destruct (NewCipherState key iv). Qed.
End programs.

Fixpoint run_link (l : link) (ops : list frame_op) : list answer * link :=
  match ops with
  | [] => ([], l)
  | OpRead :: ops => let '(r, l) := link_ReadFrame l in let '(a, l) := run_link l ops in (AnRead r :: a, l)
  | OpWrite p :: ops => let '(e, l) := link_WriteFrame l p in let '(a, l) := run_link l ops in (AnWrite e :: a, l)
  end.

(** ** Lemmas: a reliable connection *)

Lemma ReadVarInt_empty e : ReadVarInt (Reader [] e) = (Err e, Reader [] e).
Proof.
  unfold ReadVarInt, MaxVarIntBytes. cbn [ReadVarInt_loop ReadByte rd_data rd_err].
  rewrite bool_decide_false by lia. by rewrite andb_false_r.
Qed.


#[global] Instance cipherWriter_reliable {W} `{WriterLaws W, !ReliableWriter W} : ReliableWriter (cipherWriter W).
Proof.
  intros cw d. cbn [w_write cipherWriter_writer]. unfold cipherWriter_Write. destruct (cw_state cw) as [c|].
  - rewrite Encrypt_eq by apply length_replicate.
    assert (Hl : exists n w', cipher_write_loop (length (encrypted c d)) (cw_conn cw) 0 (encrypted c d) = (n, None, w')).
    { destruct (encrypted c d) as [|b e]; [by eexists _, _|]. cbn [cipher_write_loop length].
      destruct (w_write_all (cw_conn cw) (b :: e)) as [w' Ew]. rewrite Ew. cbn [length].
      rewrite bool_decide_false by done. cbn [drop]. rewrite drop_all. destruct (length e); by eexists _, _. }
    destruct Hl as (n & w' & ->). by eexists.
  - destruct (w_write_all (cw_conn cw) d) as [w' ->]. by eexists.
Qed.

Section refinement.
Context {W : Type} `{WriterLaws W, !ReliableWriter W} `{ZlibLaws}.

(** Reading [n] bytes moves the view by [n]. *)
Lemma view_drop (t : Transport W) n buf chunks s :
  (n <= length (view t))%nat -> fill n (tp_buffer t) (tp_chunks t) (tp_encryption t) = (buf, chunks, s) ->
  view (set_reader t (drop n buf) chunks s) = drop n (view t).
Proof.
  intros Hn E. apply fill_spec in E as (pulled & Hc & -> & -> & Hle & _).
  rewrite view_eq, length_app, off_wire_length in Hn. specialize (Hle Hn).
  rewrite !view_eq. cbn. rewrite Hc, concat_app, off_wire_app, app_assoc. symmetry. by rewrite drop_app_le.
Qed.

(** The limit of a packet does not depend on compression. *)
Lemma compression_limit m c : compression_ok m (Some c) -> cs_maxPacketSize c = maxPacketSize (NewFramer m).
Proof. intros [th E]. unfold NewCompressionState in E. destruct (th <? 0); [done|]. by injection E as <-. Qed.

(** What a link has in common with the transport it stands for: [ps] are the
    frames in the stream. *)
Record represents (t : Transport W) (ps : list (list byte)) (l : link) : Prop := {
  rp_limit : lk_maxPacketSize l = tp_maxPacketSize t;
  rp_small : maxPacketSize (NewFramer (tp_maxPacketSize t)) < 2 ^ 30;
  rp_compression : compression_ok (tp_maxPacketSize t) (tp_compression t);
  rp_open : tp_closed t = false /\ lk_closed l = false;
  rp_room : lk_room l = None;
  rp_view : view t = concat (map (plain_frame (tp_compression t)) ps);
  rp_in : lk_in l = map Ok ps;
  rp_end : lk_end l = tp_rerr t;
  rp_payloads : Forall (payload_ok (tp_maxPacketSize t) (tp_compression t)) ps
}.

(** Writing does not disturb what is read, nor reading what is written. *)
Lemma off_wire_sending s p w : off_wire (after_sending s p) w = off_wire s w.
Proof. by destruct s. Qed.
Lemma on_wire_reading s w p : on_wire (after_reading s w) p = on_wire s p.
Proof. by destruct s. Qed.
Lemma on_wire_app s a b : on_wire s (a ++ b) = on_wire s a ++ on_wire (after_sending s a) b.
Proof. destruct s; [apply encrypted_app|done]. Qed.

(** A read: the next frame, or the end of the stream. *)
Lemma ReadFrame_represents t ps l :
  represents t ps l ->
  exists r t' ps' l', ReadFrame t = (r, t') /\ link_ReadFrame l = (r, l') /\ represents t' ps' l' /\
    tp_conn t' = tp_conn t /\ (forall p, on_wire (tp_encryption t') p = on_wire (tp_encryption t) p) /\
    tp_compression t' = tp_compression t /\ lk_out l' = lk_out l.
Proof.
  intros [Hm Hs Hc [Ho Hlo] Hr Hv Hin Hend Hp]. unfold link_ReadFrame. rewrite Hlo, Hin. unfold ReadFrame.
  destruct ps as [|p ps]; cbn [map] in *.
  - assert (Hread : match tp_compression t with
      | Some c => CompressionState_ReadFrame c (Reader (view t) (tp_rerr t))
      | None => Frame.ReadFrame (NewFramer (tp_maxPacketSize t)) (Reader (view t) (tp_rerr t)) end = (Err (tp_rerr t), Reader [] (tp_rerr t))).
    { rewrite Hv. cbn [concat]. assert (Hf : forall f, Frame.ReadFrame f (Reader [] (tp_rerr t)) = (Err (tp_rerr t), Reader [] (tp_rerr t))).
      { intros f. unfold Frame.ReadFrame. by rewrite ReadVarInt_empty. }
      destruct (tp_compression t); [unfold CompressionState_ReadFrame; by rewrite Hf|apply Hf]. }
    rewrite Hread. cbn [rd_data length]. rewrite Nat.sub_0_r.
    destruct (fill _ _ _ _) as [[buf chunks] s] eqn:E. pose proof (view_drop t _ buf chunks s (le_n _) E) as Hvd.
    apply fill_spec in E as (pulled & _ & _ & -> & _).
    eexists _, _, [], _. split; [done|]. split; [by rewrite Hend|]. split; [|split_and!; try done; intros; apply on_wire_reading].
    split; cbn; try done. rewrite Hvd, Hv. done.
  - inversion Hp as [|? ? Hp1 Hps]; subst. cbn [concat] in Hv.
    pose proof (plain_frame_read _ _ p (concat (map (plain_frame (tp_compression t)) ps)) (tp_rerr t) Hs Hc Hp1) as Hread.
    assert (Hread' : match tp_compression t with
      | Some c => CompressionState_ReadFrame c (Reader (view t) (tp_rerr t))
      | None => Frame.ReadFrame (NewFramer (tp_maxPacketSize t)) (Reader (view t) (tp_rerr t)) end
      = (Ok p, Reader (concat (map (plain_frame (tp_compression t)) ps)) (tp_rerr t))).
    { rewrite Hv. by destruct (tp_compression t). }
    rewrite Hread'. cbn [rd_data].
    assert (Hn : (length (view t) - length (concat (map (plain_frame (tp_compression t)) ps)))%nat = length (plain_frame (tp_compression t) p)).
    { rewrite Hv, length_app. lia. }
    rewrite Hn. destruct (fill _ _ _ _) as [[buf chunks] s] eqn:E.
    assert (Hlen : (length (plain_frame (tp_compression t) p) <= length (view t))%nat) by (rewrite Hv, length_app; lia).
    pose proof (view_drop t _ buf chunks s Hlen E) as Hvd.
    apply fill_spec in E as (pulled & _ & _ & -> & _).
    eexists _, _, ps, _. split; [done|]. split; [done|]. split; [|split_and!; try done; intros; apply on_wire_reading].
    split; cbn; try done. rewrite Hvd, Hv. by rewrite drop_app_length.
Qed.

(** A payload within the limits is written. *)
Lemma WriteFrame_accepted (t : Transport W) p :
  maxPacketSize (NewFramer (tp_maxPacketSize t)) < 2 ^ 30 -> compression_ok (tp_maxPacketSize t) (tp_compression t) ->
  tp_closed t = false -> p <> [] -> blen p <= maxPacketSize (NewFramer (tp_maxPacketSize t)) ->
  exists t', WriteFrame t p = (None, t').
Proof.
  intros Hs Hc Ho Hne Hfit. unfold WriteFrame. rewrite Ho. set (cw := mkCipherWriter _ _ _). destruct (tp_compression t) as [c|].
  - pose proof (compression_limit _ _ Hc) as Hl. destruct Hc as [th Hc].
    rewrite CompressionState_WriteFrame_eq by (done || (rewrite Hl; lia)).
    destruct (compressed_payload_fits _ _ _ p Hc) as (Hf1 & Hf2 & _); [done|rewrite Hl; lia|rewrite Hl; lia|].
    destruct (WriteFrame_reliable (wireFramer c) cw (compressed_payload c p) Hf1 Hf2) as (cw' & -> & _). by eexists.
  - destruct (WriteFrame_reliable (NewFramer (tp_maxPacketSize t)) cw p Hne Hfit) as (cw' & -> & _). by eexists.
Qed.

(** A write: refused for the same reasons, or sent. *)
Lemma WriteFrame_represents t ps l p :
  represents t ps l ->
  exists e t' l', WriteFrame t p = (e, t') /\ link_WriteFrame l p = (e, l') /\ represents t' ps l' /\
    tp_compression t' = tp_compression t /\
    (e <> None /\ tp_conn t' = tp_conn t /\ tp_encryption t' = tp_encryption t /\ lk_out l' = lk_out l \/
     e = None /\ w_out (tp_conn t') = w_out (tp_conn t) ++ on_wire (tp_encryption t) (plain_frame (tp_compression t) p) /\
     tp_encryption t' = after_sending (tp_encryption t) (plain_frame (tp_compression t) p) /\ lk_out l' = lk_out l ++ [p]).
Proof.
  intros Hrep. destruct Hrep as [Hm Hs Hc [Ho Hlo] Hr Hv Hin Hend Hp].
  assert (Hkeep : forall w s, (forall x, off_wire s x = off_wire (tp_encryption t) x) ->
    forall t', t' = mkTransport (tp_buffer t) (tp_chunks t) (tp_rerr t) w (tp_maxPacketSize t) (tp_compression t) s (tp_closed t) ->
    forall l', lk_in l' = lk_in l -> lk_end l' = lk_end l -> lk_room l' = None -> lk_closed l' = false ->
      lk_maxPacketSize l' = lk_maxPacketSize l -> represents t' ps l').
  { intros w s Hsame t' -> l' E1 E2 E3 E4 E5. split; cbn; try done; try congruence. rewrite view_eq in Hv |- *. cbn. by rewrite Hsame. }
  set (limit := maxPacketSize (NewFramer (tp_maxPacketSize t))) in *.
  assert (Hid : forall e : option error, (e, mkTransport (tp_buffer t) (tp_chunks t) (tp_rerr t) (tp_conn t) (tp_maxPacketSize t)
    (tp_compression t) (tp_encryption t) false) = (e, t)) by (intros; rewrite <-Ho; by destruct t).
  assert (Hrefused : forall e, WriteFrame t p = (Some e, t) -> link_WriteFrame l p = (Some e, l) ->
    exists e0 t' l', WriteFrame t p = (e0, t') /\ link_WriteFrame l p = (e0, l') /\ represents t' ps l' /\ tp_compression t' = tp_compression t /\
    (e0 <> None /\ tp_conn t' = tp_conn t /\ tp_encryption t' = tp_encryption t /\ lk_out l' = lk_out l \/
     e0 = None /\ w_out (tp_conn t') = w_out (tp_conn t) ++ on_wire (tp_encryption t) (plain_frame (tp_compression t) p) /\
     tp_encryption t' = after_sending (tp_encryption t) (plain_frame (tp_compression t) p) /\ lk_out l' = lk_out l ++ [p])).
  { intros e E1 E2. exists (Some e), t, l. do 2 (split; [done|]). split; [apply (Hkeep (tp_conn t) (tp_encryption t)); try done; by destruct t|]. split; [done|by left]. }
  destruct (decide (p = [])) as [->|Hne]; [|destruct (Z.lt_ge_cases limit (blen p)) as [Hbig|Hfit]].
  - apply (Hrefused ErrEmptyPacket); [|unfold link_WriteFrame; by rewrite Hlo].
    unfold WriteFrame. rewrite Ho. destruct (tp_compression t); apply Hid.
  - assert (Hz : (blen p =? 0) = false) by (apply Z.eqb_neq; by rewrite blen_0).
    assert (Hlt : (limit <? blen p) = true) by (by apply Z.ltb_lt).
    apply (Hrefused (PacketTooLargeError (blen p) limit)).
    + unfold WriteFrame. rewrite Ho. destruct (tp_compression t) as [c|].
      * unfold CompressionState_WriteFrame. rewrite Hz, (compression_limit _ _ Hc). fold limit. rewrite Hlt. apply Hid.
      * unfold Frame.WriteFrame. rewrite Hz. fold limit. rewrite Hlt. apply Hid.
    + unfold link_WriteFrame. rewrite Hlo, Hm, Hz. fold limit. by rewrite Hlt.
  - destruct (WriteFrame_accepted t p Hs Hc Ho Hne Hfit) as [t' Hw].
    pose proof (WriteFrame_sent _ _ _ Hw) as (_ & Hout & Henc & Hcomp & _).
    assert (Ht' : exists w, t' = mkTransport (tp_buffer t) (tp_chunks t) (tp_rerr t) w (tp_maxPacketSize t) (tp_compression t) (tp_encryption t') (tp_closed t)).
    { unfold WriteFrame in Hw. rewrite Ho in Hw. destruct (match tp_compression t with Some _ => _ | None => _ end) as [e cw']. injection Hw as _ <-. rewrite Ho. by eexists. }
    destruct Ht' as [w Ht']. exists None, t'. eexists. split; [done|]. split.
    { unfold link_WriteFrame. rewrite Hlo, Hm. fold limit. rewrite (proj2 (Z.eqb_neq _ _)) by (by rewrite blen_0).
      rewrite (proj2 (Z.ltb_ge _ _)) by lia. rewrite Hr. reflexivity. }
    split; [|split; [done|right; split_and!; done]].
    apply (Hkeep w (tp_encryption t')); try done. intros x. rewrite Henc. apply off_wire_sending.
Qed.
End refinement.

(** ** Properties *)

(** C16: the frame-level view is justified. A transport over a reliable connection
    whose incoming stream holds the frames [ps], in any chunks, encrypted or not,
    compressed or not, answers every sequence of reads and writes exactly as the
    link that holds these frames: the same packets, the same end of the stream,
    the same refusals; and what it has put on the wire is the encoding of exactly
    the frames the link recorded as written, in order. *)
Theorem transport_refines_link {W} `{WriterLaws W, !ReliableWriter W} `{ZlibLaws} (t : Transport W) ps l ops :
  represents t ps l ->
  let '(answers, t') := run_transport t ops in
  let '(expected, l') := run_link l ops in
  answers = expected /\
  exists sent, lk_out l' = lk_out l ++ sent /\
    w_out (tp_conn t') = w_out (tp_conn t) ++ on_wire (tp_encryption t) (concat (map (plain_frame (tp_compression t)) sent)).
Proof.
  revert t ps l. induction ops as [|[|p] ops IH]; intros t ps l Hrep; cbn [run_transport run_link].
  - split; [done|]. exists []. cbn [map concat]. rewrite !app_nil_r. split; [done|]. destruct (tp_encryption t); cbn; by rewrite app_nil_r.
  - destruct (ReadFrame_represents t ps l Hrep) as (r & t1 & ps1 & l1 & -> & -> & Hrep1 & Hconn & Hwire & Hcomp & Hout).
    specialize (IH t1 ps1 l1 Hrep1). destruct (run_transport t1 ops) as [a t2], (run_link l1 ops) as [b l2].
    destruct IH as (-> & sent & Ho & Hw). split; [done|]. exists sent. rewrite Ho, Hw, Hconn, Hout, Hcomp, Hwire. done.
  - destruct (WriteFrame_represents t ps l p Hrep) as (e & t1 & l1 & -> & -> & Hrep1 & Hcomp & Hcase).
    specialize (IH t1 ps l1 Hrep1). destruct (run_transport t1 ops) as [a t2], (run_link l1 ops) as [b l2].
    destruct IH as (-> & sent & Ho & Hw). split; [done|].
    destruct Hcase as [(_ & Hconn & Henc & Hout)|(-> & Hconn & Henc & Hout)].
    + exists sent. rewrite Ho, Hw, Hconn, Hout, Hcomp, Henc. done.
    + exists (p :: sent). cbn [map concat]. rewrite on_wire_app, Ho, Hw, Hconn, Hout, Hcomp, Henc, <-!app_assoc. done.
Qed.

Lemma transport_refines_link_witness :
  let t := New (Sink []) [frame_bytes [x01] ++ [x02]; [x05]; [x06]] io_EOF 64 in
  let l := mkLink [Ok [x01]; Ok [x05; x06]] io_EOF [] None io_EOF false None 64 in
  let ops := [OpRead; OpWrite [x07]; OpRead; OpWrite []; OpRead] in
  let '(answers, t') := run_transport (H0:=stored_zlib) t ops in
  let '(expected, l') := run_link l ops in
  answers = expected /\
  exists sent, lk_out l' = lk_out l ++ sent /\
    w_out (tp_conn t') = w_out (tp_conn t) ++ on_wire (tp_encryption t) (concat (map (plain_frame (H1:=stored_zlib) (tp_compression t)) sent)).
Proof.
  apply (@transport_refines_link sink _ _ _ stored_zlib stored_zlib_laws
    (New (Sink []) [frame_bytes [x01] ++ [x02]; [x05]; [x06]] io_EOF 64) [[x01]; [x05; x06]]).
  split; try done. repeat constructor; done.
Defined.
