(* ===== verification/PlayStreams.v ===== *)
(** * The goroutines of the play bridge (internal/bridge/play.go, internal/server/server.go)

    [RunPlay] as it runs: a goroutine that reads the backend (play.go), one that
    reads the client (started by serveLimbo, shared with Limbo), the select loop,
    and the end of the context. Bridge.v gives the loop as a function of the
    events it receives; here every interleaving is shown to be such a run, on
    events that are the two streams in order, and every goroutine to end. The
    goroutine of [interruptOnDone], which only sets deadlines, comes last. *)

From S2P Require Import Prelude GoIO Varint Frame Nbt Play Link Bridge.

(** ** A reader goroutine *)

(** In [ReadFrame]; at the select with the frame or error to send; returned. *)
Inductive reader_pc : Type := RReading | RSending (frame : res (list byte)) | RGone.
Record frameReader := mkFrameReader { fr_conn : link; fr_pc : reader_pc }.

Definition reader_read (r : frameReader) : frameReader :=
  let '(frame, conn) := link_ReadFrame (fr_conn r) in mkFrameReader conn (RSending frame).

(** After the send: [if err != nil { return }]. *)
Definition reader_sent (r : frameReader) (frame : res (list byte)) : frameReader :=
  mkFrameReader (fr_conn r) (if is_ok frame then RReading else RGone).

(** After a receive from [backendDone] or [readerDone]. *)
Definition reader_stopped (r : frameReader) : frameReader := mkFrameReader (fr_conn r) RGone.

(** ** The system *)

(** [ps_result]: what [RunPlay] returned, with its deferred calls run; [ps_ctx]:
    the error of the context. *)
Record play_state := mkPlay {
  ps_ctx : option error;
  ps_client : frameReader;
  ps_backend : frameReader;
  ps_bridge : bridge_state;
  ps_result : option error
}.

(** The steps. A frame passes when its reader is at the select and the loop is
    running, because the channels have no buffer; the readers are stopped when
    [RunPlay] has returned ([backendDone]) and serveLimbo with it ([readerDone]). *)
Inductive play_step (mp : Z) (s : play_state) : play_state -> Prop :=
| play_cancel err :
    ps_ctx s = None ->
    play_step mp s (mkPlay (Some err) (ps_client s) (ps_backend s) (ps_bridge s) (ps_result s))
| play_client_read :
    fr_pc (ps_client s) = RReading ->
    play_step mp s (mkPlay (ps_ctx s) (reader_read (ps_client s)) (ps_backend s) (ps_bridge s) (ps_result s))
| play_backend_read :
    fr_pc (ps_backend s) = RReading ->
    play_step mp s (mkPlay (ps_ctx s) (ps_client s) (reader_read (ps_backend s)) (ps_bridge s) (ps_result s))
| play_client_frame frame r b :
    ps_result s = None -> fr_pc (ps_client s) = RSending frame ->
    bridge_step mp (ps_ctx s) (ps_bridge s) (FromClient frame) = (r, b) ->
    play_step mp s (mkPlay (ps_ctx s) (reader_sent (ps_client s) frame) (ps_backend s) b r)
| play_backend_frame frame r b :
    ps_result s = None -> fr_pc (ps_backend s) = RSending frame ->
    bridge_step mp (ps_ctx s) (ps_bridge s) (FromBackend frame) = (r, b) ->
    play_step mp s (mkPlay (ps_ctx s) (ps_client s) (reader_sent (ps_backend s) frame) b r)
| play_done err r b :
    ps_result s = None -> ps_ctx s = Some err ->
    bridge_step mp (ps_ctx s) (ps_bridge s) (ContextDone err) = (r, b) ->
    play_step mp s (mkPlay (ps_ctx s) (ps_client s) (ps_backend s) b r)
| play_client_stop frame :
    ps_result s <> None -> fr_pc (ps_client s) = RSending frame ->
    play_step mp s (mkPlay (ps_ctx s) (reader_stopped (ps_client s)) (ps_backend s) (ps_bridge s) (ps_result s))
| play_backend_stop frame :
    ps_result s <> None -> fr_pc (ps_backend s) = RSending frame ->
    play_step mp s (mkPlay (ps_ctx s) (ps_client s) (reader_stopped (ps_backend s)) (ps_bridge s) (ps_result s)).

(** The state in which [RunPlay] starts its loop. The reader of the client is
    running already and may hold a frame. *)
Definition play_start (client : frameReader) (clientConn backend : link) : play_state :=
  mkPlay None client (mkFrameReader backend RReading) (mkBridge ∅ clientConn backend) None.

(** ** Specification *)

(** The packets a connection will still return, up to the first error. *)
Fixpoint packets (ins : list (res (list byte))) : list (list byte) :=
  match ins with Ok p :: ins => p :: packets ins | _ => [] end.
Definition stream (l : link) : list (list byte) := if lk_closed l then [] else packets (lk_in l).

(** The packets a reader will still deliver. *)
Definition coming (r : frameReader) : list (list byte) :=
  match fr_pc r with
  | RReading => stream (fr_conn r)
  | RSending (Ok p) => p :: stream (fr_conn r)
  | RSending (Err _) | RGone => []
  end.

(** A bound on the steps a reader and the system can still take. *)
Definition reader_left (r : frameReader) : nat :=
  match fr_pc r with
  | RReading => 2 * length (lk_in (fr_conn r)) + 2
  | RSending (Ok _) => 2 * length (lk_in (fr_conn r)) + 3
  | RSending (Err _) => 1
  | RGone => 0
  end.
Definition play_left (s : play_state) : nat :=
  reader_left (ps_client s) + reader_left (ps_backend s) +
  match ps_ctx s with Some _ => 0 | None => 1 end + match ps_result s with Some _ => 0 | None => 1 end.

(** ** Lemmas *)

Lemma reader_read_coming r : fr_pc r = RReading -> coming (reader_read r) = coming r.
Proof.
  intros Hp. unfold reader_read, link_ReadFrame, coming, stream. rewrite Hp.
  destruct (lk_closed (fr_conn r)) eqn:Hc; [done|]. destruct (lk_in (fr_conn r)) as [|[p|e] ins]; cbn; by rewrite ?Hc.
Qed.

Lemma reader_read_left r : fr_pc r = RReading -> (reader_left (reader_read r) < reader_left r)%nat.
Proof.
  intros Hp. unfold reader_read, link_ReadFrame, reader_left. rewrite Hp.
  destruct (lk_closed (fr_conn r)); [cbn; lia|]. destruct (lk_in (fr_conn r)) as [|[p|e] ins]; cbn; lia.
Qed.

Lemma reader_sent_left r frame : fr_pc r = RSending frame -> (reader_left (reader_sent r frame) < reader_left r)%nat.
Proof. intros Hp. unfold reader_left, reader_sent. rewrite Hp. destruct frame; cbn; lia. Qed.

Lemma reader_stopped_left r frame : fr_pc r = RSending frame -> (reader_left (reader_stopped r) < reader_left r)%nat.
Proof. intros Hp. unfold reader_left, reader_stopped. rewrite Hp. destruct frame; cbn; lia. Qed.

(** A packet that is handed over leaves the reader. *)
Lemma reader_sent_coming r frame :
  fr_pc r = RSending frame -> coming r = match frame with Ok p => [p] | Err _ => [] end ++ coming (reader_sent r frame).
Proof. intros Hp. unfold coming, reader_sent. rewrite Hp. by destruct frame. Qed.

(** The context matters only for the error returned. *)
Lemma bridge_step_ctx mp c c' st ev st' : bridge_step mp c st ev = (None, st') -> bridge_step mp c' st ev = (None, st').
Proof. destruct ev as [[]|[]|]; done. Qed.

Lemma bridge_run_ctx mp c c' evs : forall st st', bridge_run mp c st evs = (None, st') -> bridge_run mp c' st evs = (None, st').
Proof.
  induction evs as [|ev evs IH]; intros st st'; [done|]. cbn [bridge_run].
  destruct (bridge_step mp c st ev) as [[]st1] eqn:E; [done|]. rewrite (bridge_step_ctx _ _ c' _ _ _ E). apply IH.
Qed.

Lemma bridge_run_snoc mp c ev evs : forall st st',
  bridge_run mp c st evs = (None, st') -> bridge_run mp c st (evs ++ [ev]) = bridge_step mp c st' ev.
Proof.
  induction evs as [|ev' evs IH]; intros st st'; cbn [bridge_run app].
  - intros [= ->]. by destruct (bridge_step mp c st' ev) as [[] ?].
  - destruct (bridge_step mp c st ev') as [[] st1]; [done|]. apply IH.
Qed.

(** What the loop has received explains the state of the system. *)
Record explained (m : Z) (client : frameReader) (clientConn backend : link) (s : play_state) (c : option error) (evs : list bridge_event) : Prop := {
  ex_run : RunPlay m c clientConn backend evs = (ps_result s, ps_bridge s);
  ex_client : to_backend evs `prefix_of` coming client;
  ex_backend : to_client evs `prefix_of` stream backend;
  ex_running : ps_result s = None ->
    coming client = to_backend evs ++ coming (ps_client s) /\ stream backend = to_client evs ++ coming (ps_backend s)
}.

Lemma play_start_explained m client clientConn backend :
  explained m client clientConn backend (play_start client clientConn backend) None [].
Proof. split; try done; apply prefix_nil. Qed.

Lemma to_backend_snoc evs ev : to_backend (evs ++ [ev]) = to_backend evs ++ to_backend [ev].
Proof. apply omap_app. Qed.
Lemma to_client_snoc evs ev : to_client (evs ++ [ev]) = to_client evs ++ to_client [ev].
Proof. apply omap_app. Qed.

(** The loop receives an event: [given] and [got] are what it takes from the
    readers, which are [cr] and [br] afterwards. *)
Lemma received_explained m client clientConn backend s c evs ev r b cr br :
  explained m client clientConn backend s c evs -> ps_result s = None ->
  bridge_step (effective_MaxPending m) (ps_ctx s) (ps_bridge s) ev = (r, b) ->
  coming (ps_client s) = to_backend [ev] ++ coming cr -> coming (ps_backend s) = to_client [ev] ++ coming br ->
  explained m client clientConn backend (mkPlay (ps_ctx s) cr br b r) (ps_ctx s) (evs ++ [ev]).
Proof.
  intros [Hrun _ _ Hrunning] Hnone Hstep Hc Hb. destruct (Hrunning Hnone) as [Ec Eb]. rewrite Hnone in Hrun.
  unfold RunPlay in Hrun. apply (bridge_run_ctx _ _ (ps_ctx s)) in Hrun.
  rewrite Hc, app_assoc, <-to_backend_snoc in Ec. rewrite Hb, app_assoc, <-to_client_snoc in Eb. split; cbn.
  - unfold RunPlay. by rewrite (bridge_run_snoc _ _ _ _ _ _ Hrun).
  - by eexists.
  - by eexists.
  - done.
Qed.

(** A step the loop does not take part in. *)
Lemma silent_explained m client clientConn backend s s' c evs :
  explained m client clientConn backend s c evs -> ps_result s' = ps_result s -> ps_bridge s' = ps_bridge s ->
  (ps_result s = None -> coming (ps_client s') = coming (ps_client s) /\ coming (ps_backend s') = coming (ps_backend s)) ->
  explained m client clientConn backend s' c evs.
Proof.
  intros [Hrun Hc Hb Hrunning] Er Eb Hsame. split; [by rewrite Er, Eb|done|done|]. rewrite Er. intros Hnone.
  destruct (Hsame Hnone) as [-> ->]. auto.
Qed.

Lemma play_step_explained m client clientConn backend s s' c evs :
  explained m client clientConn backend s c evs -> play_step (effective_MaxPending m) s s' ->
  exists c' evs', explained m client clientConn backend s' c' evs'.
Proof.
  intros He Hs. destruct Hs as [err _|Hp|Hp|frame r b Hn Hp Hb|frame r b Hn Hp Hb|err r b Hn _ Hb|frame Hn Hp|frame Hn Hp].
  - exists c, evs. by eapply silent_explained.
  - exists c, evs. eapply silent_explained; try done. cbn. by rewrite reader_read_coming.
  - exists c, evs. eapply silent_explained; try done. cbn. by rewrite reader_read_coming.
  - eexists _, _. eapply received_explained; try done. rewrite (reader_sent_coming _ _ Hp). by destruct frame.
  - eexists _, _. eapply received_explained; try done. rewrite (reader_sent_coming _ _ Hp). by destruct frame.
  - eexists _, _. by eapply received_explained.
  - exists c, evs. by eapply silent_explained.
  - exists c, evs. by eapply silent_explained.
Qed.

Lemma reachable_explained m client clientConn backend s :
  rtc (play_step (effective_MaxPending m)) (play_start client clientConn backend) s ->
  exists c evs, explained m client clientConn backend s c evs.
Proof.
  apply (rtc_ind_r (fun s => exists c evs, explained m client clientConn backend s c evs)).
  - eexists _, _. apply play_start_explained.
  - intros s1 s2 _ Hs (c & evs & He). by eapply play_step_explained.
Qed.

(** Every step is one of the steps left. *)
Lemma play_step_left mp s s' : play_step mp s s' -> (play_left s' < play_left s)%nat.
Proof.
  intros Hs. unfold play_left.
  destruct Hs as [err Hx|Hp|Hp|frame r b Hn Hp Hb|frame r b Hn Hp Hb|err r b Hn Hx Hb|frame Hn Hp|frame Hn Hp]; cbn [ps_client ps_backend ps_ctx ps_result].
  - rewrite Hx. lia.
  - pose proof (reader_read_left _ Hp). lia.
  - pose proof (reader_read_left _ Hp). lia.
  - pose proof (reader_sent_left _ _ Hp). rewrite Hn. destruct r; lia.
  - pose proof (reader_sent_left _ _ Hp). rewrite Hn. destruct r; lia.
  - cbn in Hb. injection Hb as <- <-. rewrite Hn. lia.
  - pose proof (reader_stopped_left _ _ Hp). lia.
  - pose proof (reader_stopped_left _ _ Hp). lia.
Qed.

(** While the loop runs no reader has returned: an error ends both. *)
Definition readers_alive (s : play_state) : Prop :=
  ps_result s = None -> fr_pc (ps_client s) <> RGone /\ fr_pc (ps_backend s) <> RGone.

Lemma reader_read_alive r : fr_pc (reader_read r) <> RGone.
Proof. unfold reader_read. by destruct (link_ReadFrame (fr_conn r)). Qed.

Lemma play_step_alive mp s s' : readers_alive s -> play_step mp s s' -> readers_alive s'.
Proof.
  unfold readers_alive. intros Ha Hs Hn'.
  destruct Hs as [err Hx|Hp|Hp|[p|e] r b Hn Hp Hb|[p|e] r b Hn Hp Hb|err r b Hn Hx Hb|frame Hn Hp|frame Hn Hp]; cbn in *; simplify_eq;
    try done; destruct (Ha ltac:(done)) as [Hc Hb0]; split; try done; apply reader_read_alive.
Qed.

(** A state without a step: everything has ended. *)
Lemma play_stuck mp s : readers_alive s -> (forall s', ~ play_step mp s s') ->
  is_Some (ps_result s) /\ fr_pc (ps_client s) = RGone /\ fr_pc (ps_backend s) = RGone.
Proof.
  intros Ha Hs. destruct (fr_pc (ps_client s)) as [|f|] eqn:Ec; [by edestruct Hs; apply play_client_read| |];
    destruct (fr_pc (ps_backend s)) as [|g|] eqn:Eb; try (by edestruct Hs; apply play_backend_read);
    destruct (ps_result s) as [e|] eqn:Er; try done;
    try (destruct (bridge_step mp (ps_ctx s) (ps_bridge s) (FromClient f)) as [r b] eqn:E; by edestruct Hs; eapply play_client_frame);
    try (by edestruct Hs; eapply play_client_stop; [by rewrite Er|]); try (by edestruct Hs; eapply play_backend_stop; [by rewrite Er|]).
  all: destruct (Ha Er) as [? ?]; congruence.
Qed.

(** A bounded relation: no more steps than a measure that every step lowers. *)
Lemma nsteps_measure {A} (R : A -> A -> Prop) (measure : A -> nat) :
  (forall s s', R s s' -> (measure s' < measure s)%nat) ->
  forall n s s', nsteps R n s s' -> (n + measure s' <= measure s)%nat.
Proof. intros HR n s s' Hn. induction Hn as [|n s s1 s2 Hs _ IH]; [lia|]. apply HR in Hs. lia. Qed.

(** What was written is part of what was received. *)
Lemma explained_written m client clientConn backend s c evs :
  explained m client clientConn backend s c evs ->
  exists tb tc, lk_out (br_backend (ps_bridge s)) = lk_out backend ++ tb /\ lk_out (br_client (ps_bridge s)) = lk_out clientConn ++ tc /\
    tb `prefix_of` coming client /\ tc `prefix_of` stream backend /\
    (ps_result s = None -> coming client = tb ++ coming (ps_client s) /\ stream backend = tc ++ coming (ps_backend s)).
Proof.
  intros [Hrun Hc Hb Hrunning]. unfold RunPlay in Hrun.
  apply bridge_run_prefix in Hrun as (d & rest & -> & _ & Oc & Ob & Hn). exists (to_backend d), (to_client d). split_and!; try done.
  - etrans; [|exact Hc]. unfold to_backend. rewrite omap_app. by apply prefix_app_r.
  - etrans; [|exact Hb]. unfold to_client. rewrite omap_app. by apply prefix_app_r.
  - intros Hnone. destruct (Hn Hnone) as [-> _]. rewrite app_nil_r in Hrunning. auto.
Qed.

(** ** Properties *)

(** C17: the running bridge forwards both streams in order. In every interleaving
    of the readers, the loop and the end of the context, the loop is in the state
    that [RunPlay] gives for the events received so far; each side has been sent,
    unchanged and in order, packets the other side's connection returned, from
    the first one on, beginning with a packet the client's reader held when the
    bridge took over; and while the bridge runs nothing is lost: what was not
    forwarded yet is still to be delivered. *)
Theorem play_streams_in_order m client clientConn backend s :
  rtc (play_step (effective_MaxPending m)) (play_start client clientConn backend) s ->
  (exists c evs, RunPlay m c clientConn backend evs = (ps_result s, ps_bridge s)) /\
  exists tb tc, lk_out (br_backend (ps_bridge s)) = lk_out backend ++ tb /\ lk_out (br_client (ps_bridge s)) = lk_out clientConn ++ tc /\
    tb `prefix_of` coming client /\ tc `prefix_of` stream backend /\
    (ps_result s = None -> coming client = tb ++ coming (ps_client s) /\ stream backend = tc ++ coming (ps_backend s)).
Proof.
  intros Hr. apply reachable_explained in Hr as (c & evs & He). split; [|by eapply explained_written].
  exists c, evs. apply He.
Qed.

(** A client that holds a chat-like packet and has a second one to read. *)
Definition demo_client : frameReader :=
  mkFrameReader (mkLink [Ok (varint 4)] net_ErrClosed [] None net_ErrClosed false None 0) (RSending (Ok (varint 3))).

Definition demo_forwarded : play_state :=
  mkPlay None (reader_sent demo_client (Ok (varint 3))) (mkFrameReader demo_link RReading)
    (snd (bridge_step 16 None (mkBridge ∅ demo_link demo_link) (FromClient (Ok (varint 3))))) None.

Lemma play_streams_in_order_witness :
  exists tb, lk_out (br_backend (ps_bridge demo_forwarded)) = lk_out demo_link ++ tb /\
    coming demo_client = tb ++ coming (ps_client demo_forwarded).
Proof.
  destruct (play_streams_in_order 0 demo_client demo_link demo_link demo_forwarded) as (_ & tb & tc & Hb & _ & _ & _ & Hn).
  - apply rtc_once. apply (play_client_frame _ (play_start demo_client demo_link demo_link) (Ok (varint 3))); reflexivity.
  - exists tb. split; [exact Hb|]. apply Hn. reflexivity.
Defined.

(** C18: the bridge ends and leaves no goroutine behind. For any traffic, every
    interleaving takes at most [play_left] steps, twice the length of the two
    streams and a constant; and when no step is left, [RunPlay] has returned and
    both readers have returned, so neither is blocked on a channel nobody reads. *)
Theorem play_bridge_ends m client clientConn backend n s :
  fr_pc client <> RGone ->
  nsteps (play_step (effective_MaxPending m)) n (play_start client clientConn backend) s ->
  (n <= play_left (play_start client clientConn backend))%nat /\
  ((forall s', ~ play_step (effective_MaxPending m) s s') ->
   is_Some (ps_result s) /\ fr_pc (ps_client s) = RGone /\ fr_pc (ps_backend s) = RGone).
Proof.
  intros Hc Hn. split.
  - pose proof (nsteps_measure _ play_left (play_step_left _) _ _ _ Hn). lia.
  - apply play_stuck. assert (Hs : readers_alive (play_start client clientConn backend)) by done.
    clear Hc. induction Hn as [|n s0 s1 s2 H01 _ IH]; [done|]. apply IH. by eapply play_step_alive.
Qed.

Lemma play_bridge_ends_witness : (1 <= play_left (play_start demo_client demo_link demo_link))%nat.
Proof.
  apply (play_bridge_ends 0 demo_client demo_link demo_link 1 demo_forwarded); [done|].
  apply nsteps_once. apply (play_client_frame _ (play_start demo_client demo_link demo_link) (Ok (varint 3))); reflexivity.
Defined.

(** ** interruptOnDone of the bridge *)

Module Deadlines.

(** The goroutine: at its select, in the loop over the transports ([None] is a
    nil pointer), returned. *)
Inductive deadline_pc : Type := ISelect | ISetting (transports : list (option nat)) | IGone.

(** [is_background]: the context was nil and is [context.Background()]; [is_stop]:
    the channel [interrupt] is closed; [is_set]: the transports with expired deadlines. *)
Record deadline_state := mkDeadlines { is_background : bool; is_ctx : bool; is_stop : bool; is_pc : deadline_pc; is_set : list nat }.

Definition goto (s : deadline_state) (pc : deadline_pc) (set : list nat) : deadline_state :=
  mkDeadlines (is_background s) (is_ctx s) (is_stop s) pc set.

Definition interruptOnDone (background ctx : bool) : deadline_state := mkDeadlines background (ctx && negb background) false ISelect [].

(** Steps of the goroutine; a select with both channels ready takes either. *)
Inductive deadline_routine (transports : list (option nat)) (s : deadline_state) : deadline_state -> Prop :=
| i_done : is_pc s = ISelect -> is_ctx s = true -> deadline_routine transports s (goto s (ISetting transports) (is_set s))
| i_interrupt : is_pc s = ISelect -> is_stop s = true -> deadline_routine transports s (goto s IGone (is_set s))
| i_skip ts : is_pc s = ISetting (None :: ts) -> deadline_routine transports s (goto s (ISetting ts) (is_set s))
| i_set t ts : is_pc s = ISetting (Some t :: ts) -> deadline_routine transports s (goto s (ISetting ts) (is_set s ++ [t]))
| i_return : is_pc s = ISetting [] -> deadline_routine transports s (goto s IGone (is_set s)).

(** With the end of the context and the call of the returned function. *)
Inductive deadline_step (transports : list (option nat)) (s : deadline_state) : deadline_state -> Prop :=
| i_routine s' : deadline_routine transports s s' -> deadline_step transports s s'
| i_cancel : is_background s = false ->
    deadline_step transports s (mkDeadlines (is_background s) true (is_stop s) (is_pc s) (is_set s))
| i_stop : is_stop s = false ->
    deadline_step transports s (mkDeadlines (is_background s) (is_ctx s) true (is_pc s) (is_set s)).

(** Deadlines expire only after the end of the context, for every transport or
    for none once the goroutine has returned. *)
Definition inv (transports : list (option nat)) (s : deadline_state) : Prop :=
  (is_background s = true -> is_ctx s = false) /\
  match is_pc s with
  | ISelect => is_set s = []
  | ISetting ts => is_ctx s = true /\ is_set s ++ omap id ts = omap id transports
  | IGone => is_stop s = true /\ is_set s = [] \/ is_ctx s = true /\ is_set s = omap id transports
  end.

Lemma deadline_step_inv transports s s' : inv transports s -> deadline_step transports s s' -> inv transports s'.
Proof.
  unfold inv. intros [Hb Hi] Hs.
  destruct Hs as [s' [Hp Hc|Hp Hc|ts Hp|t ts Hp|Hp]|Hn|Hn]; cbn; try rewrite Hp in Hi; cbn in Hi; (split; [done || congruence|]).
  - by rewrite Hi.
  - by left.
  - done.
  - by rewrite <-app_assoc.
  - destruct Hi as [Hx Hi]. rewrite app_nil_r in Hi. by right.
  - destruct (is_pc s); [done|by destruct Hi|]. destruct Hi as [?|[_ ?]]; [by left|by right].
  - destruct (is_pc s); [done|done|]. destruct Hi as [[_ ?]|?]; [by left|by right].
Qed.

(** The deadlines that were set, in every reachable state: none under a
    background context, and otherwise only after the end of the context. *)
Lemma deadlines_after_context transports background ctx s :
  rtc (deadline_step transports) (interruptOnDone background ctx) s ->
  is_set s `prefix_of` omap id transports /\ (is_ctx s = false -> is_set s = []) /\ (background = true -> is_set s = []).
Proof.
  assert (Hb : forall s', rtc (deadline_step transports) (interruptOnDone background ctx) s' ->
    inv transports s' /\ is_background s' = background).
  { apply (rtc_ind_r (fun s' => inv transports s' /\ is_background s' = background)).
    - split; [|done]. split; [|done]. cbn. intros ->. by rewrite andb_false_r.
    - intros s1 s2 _ Hs [Hi Hbg]. split; [by eapply deadline_step_inv|]. by destruct Hs as [? []| |]. }
  intros Hr. destruct (Hb _ Hr) as [[Hbg Hi] E]. rewrite E in Hbg. destruct (is_pc s) as [|ts|].
  - rewrite Hi. split_and!; try done. apply prefix_nil.
  - destruct Hi as [Hx Hi]. split_and!; [by eexists| |]; [congruence|]. intros Eb. specialize (Hbg Eb). congruence.
  - destruct Hi as [[_ ->]|[Hx ->]]; split_and!; try done; try apply prefix_nil; [congruence|]. intros Eb. specialize (Hbg Eb). congruence.
Qed.

(** The steps left to the goroutine. *)
Definition deadline_left (transports : list (option nat)) (s : deadline_state) : nat :=
  match is_pc s with ISelect => S (S (length transports)) | ISetting ts => S (length ts) | IGone => 0 end.

(** The goroutine does not leak: after the end of the context or the call of the
    returned function it can move until it has returned. *)
Lemma routine_returns transports s :
  is_ctx s = true \/ is_stop s = true ->
  (is_pc s = IGone \/ exists s', deadline_routine transports s s') /\
  forall s', deadline_routine transports s s' -> (deadline_left transports s' < deadline_left transports s)%nat.
Proof.
  intros Hd. split.
  - destruct (is_pc s) as [|[|[t|] ts]|] eqn:Hp; [|right; eexists; by constructor..|by left].
    right. destruct Hd; eexists; [by apply i_done|by apply i_interrupt].
  - intros s' [Hp _|Hp _|ts Hp|t ts Hp|Hp]; unfold deadline_left; cbn; rewrite Hp; cbn; lia.
Qed.

(** Unlike [interruptOnDone] of package backend, the returned function does not
    wait: deadlines may still expire after it has returned. *)
Lemma late_interrupt t :
  exists s s', rtc (deadline_step [Some t]) (interruptOnDone false false) s /\ is_stop s = true /\ is_set s = [] /\
    rtc (deadline_step [Some t]) s s' /\ is_set s' = [t].
Proof.
  exists (mkDeadlines false true true ISelect []), (mkDeadlines false true true (ISetting []) [t]). split_and!; try done.
  - eapply rtc_l; [by apply i_cancel|]. apply rtc_once. by apply i_stop.
  - eapply rtc_l; [apply i_routine; by apply i_done|]. apply rtc_once, i_routine. exact (i_set [Some t] (mkDeadlines false true true (ISetting [Some t]) []) t [] eq_refl).
Qed.
End Deadlines.
