(* ===== verification/AppConfig.v ===== *)
(** * Configuration of the gateway (internal/app/config.go)

    [loadConfig] reads environment variables through a function [getenv]; an unset
    variable reads as the empty string. Integers are 64-bit [int]s, durations are
    nanoseconds. *)

From S2P Require Import Prelude Frame Strconv.
Local Open Scope string_scope.
Local Open Scope Z_scope.

Record Config := mkConfig {
  ListenAddress : gostring;
  HealthAddress : gostring;
  PprofAddress : gostring;
  AdminToken : gostring;
  BackendAddress : gostring;
  BackendHost : gostring;
  BackendPort : Z;
  VelocitySecret : gostring;
  OnlineMode : bool;
  SessionServerURL : gostring;
  MaxConnections : Z;
  MaxConnectionsPerIP : Z;
  MaxPacketSize : Z;
  HandshakeTimeout : Z;
  StatusTimeout : Z;
  LoginTimeout : Z;
  WriteTimeout : Z;
  KeepAliveInterval : Z;
  KeepAliveTimeout : Z;
  QueueSize : Z;
  AdmissionInterval : Z;
  QueueStatusInterval : Z;
  ChallengeTimeout : Z;
  LoginRateLimit : Z;
  LoginRateWindow : Z;
  BotFilterConfigFile : gostring
}.

Definition valueOr (value fallback : gostring) : gostring := if bool_decide (value = []) then fallback else value.

Definition intValue (value : gostring) (fallback : Z) : res Z :=
  if bool_decide (value = []) then Ok fallback else Atoi value.

Definition uint16Value (value : gostring) (fallback : Z) : res Z :=
  if bool_decide (value = []) then Ok fallback else ParseUint value 16.

Section load.
Context (getenv : string -> gostring).

(** [if x, err = intValue(...); err != nil || x <= 0 { return ... }] *)
Definition positive_int (name : string) (fallback : Z) : res Z :=
  match intValue (getenv name) fallback with
  | Err _ => Err (ErrNew (name ++ " must be positive")%string)
  | Ok n => if n <=? 0 then Err (ErrNew (name ++ " must be positive")%string) else Ok n
  end.

(** The body of the loop over the duration settings. *)
Definition positive_duration (name : string) (target : Z) : res Z :=
  let value := getenv name in
  if bool_decide (value = []) then Ok target
  else match ParseDuration value with
  | Err _ => Err (ErrNew (name ++ " must be a positive duration")%string)
  | Ok d => if d <=? 0 then Err (ErrNew (name ++ " must be a positive duration")%string) else Ok d
  end.

Definition online_mode : res bool :=
  let value := getenv "REGIONGATE_ONLINE_MODE" in
  if bool_decide (value = []) then Ok false
  else let! b := ParseBool value else (ErrNew "REGIONGATE_ONLINE_MODE must be a boolean") in Ok b.

Definition loadConfig : res Config :=
  let adminToken := getenv "REGIONGATE_ADMIN_TOKEN" in
  let backendAddress := getenv "REGIONGATE_BACKEND_ADDRESS" in
  let velocitySecret := getenv "REGIONGATE_VELOCITY_SECRET" in
  if negb (bool_decide (adminToken = [])) && (blen adminToken <? 32)
  then Err (ErrNew "REGIONGATE_ADMIN_TOKEN must contain at least 32 bytes")
  else
  let! onlineMode := online_mode in
  let! backendPort := uint16Value (getenv "REGIONGATE_BACKEND_PORT") 25565 in
  let! maxConnections := positive_int "REGIONGATE_MAX_CONNECTIONS" 10000 in
  let! maxConnectionsPerIP := positive_int "REGIONGATE_MAX_CONNECTIONS_PER_IP" 16 in
  let! maxPacketSize := positive_int "REGIONGATE_MAX_PACKET_SIZE" DefaultMaxPacketSize in
  let! handshakeTimeout := positive_duration "REGIONGATE_HANDSHAKE_TIMEOUT" (10 * Second) in
  let! statusTimeout := positive_duration "REGIONGATE_STATUS_TIMEOUT" (10 * Second) in
  let! loginTimeout := positive_duration "REGIONGATE_LOGIN_TIMEOUT" (30 * Second) in
  let! writeTimeout := positive_duration "REGIONGATE_WRITE_TIMEOUT" (10 * Second) in
  let! keepAliveInterval := positive_duration "REGIONGATE_KEEPALIVE_INTERVAL" (15 * Second) in
  let! keepAliveTimeout := positive_duration "REGIONGATE_KEEPALIVE_TIMEOUT" (30 * Second) in
  let! queueStatusInterval := positive_duration "REGIONGATE_QUEUE_STATUS_INTERVAL" Second in
  let! challengeTimeout := positive_duration "REGIONGATE_CHALLENGE_TIMEOUT" (10 * Second) in
  let! queueSize := positive_int "REGIONGATE_QUEUE_SIZE" 1024 in
  let! admissionInterval := positive_duration "REGIONGATE_ADMISSION_INTERVAL" Second in
  let! loginRateLimit := positive_int "REGIONGATE_LOGIN_RATE_LIMIT" 10 in
  let! loginRateWindow := positive_duration "REGIONGATE_LOGIN_RATE_WINDOW" (10 * Second) in
  if negb (Bool.eqb (bool_decide (backendAddress = [])) (bool_decide (velocitySecret = [])))
  then Err (ErrNew "backend address and Velocity secret must be configured together")
  else Ok (mkConfig
    (valueOr (getenv "REGIONGATE_LISTEN") (str ":25565"))
    (valueOr (getenv "REGIONGATE_HEALTH_LISTEN") (str "127.0.0.1:8080"))
    (getenv "REGIONGATE_PPROF_LISTEN")
    adminToken
    backendAddress
    (valueOr (getenv "REGIONGATE_BACKEND_HOST") (str "localhost"))
    backendPort
    velocitySecret
    onlineMode
    (getenv "REGIONGATE_SESSION_SERVER_URL")
    maxConnections maxConnectionsPerIP maxPacketSize
    handshakeTimeout statusTimeout loginTimeout writeTimeout keepAliveInterval keepAliveTimeout
    queueSize admissionInterval queueStatusInterval challengeTimeout loginRateLimit loginRateWindow
    (getenv "REGIONGATE_CONFIG_FILE")).
End load.

(** ** What a configuration means *)

(** A well-formed positive integer: digits after an optional sign, the value in
    the range of an [int]. *)
Definition decimal_int (s : gostring) (v : Z) : Prop :=
  let '(neg, ds) := sign s in
  ds <> [] /\ Forall (fun b => is_digit b = true) ds /\ v = signed neg (digits_value 0 ds) /\ in_int64 v.

(** The value of an integer setting. *)
Definition int_setting (env : string -> gostring) (name : string) (fallback v : Z) : Prop :=
  0 < v /\ (env name = [] /\ v = fallback \/ env name <> [] /\ decimal_int (env name) v).

Definition duration_setting (env : string -> gostring) (name : string) (fallback v : Z) : Prop :=
  0 < v /\ (env name = [] /\ v = fallback \/ env name <> [] /\ ParseDuration (env name) = Ok v).

Definition port_setting (env : string -> gostring) (v : Z) : Prop :=
  let s := env "REGIONGATE_BACKEND_PORT" in
  s = [] /\ v = 25565 \/ s <> [] /\ Forall (fun b => is_digit b = true) s /\ v = digits_value 0 s /\ v < 2 ^ 16.

Definition text_setting (env : string -> gostring) (name : string) (fallback v : gostring) : Prop :=
  env name = [] /\ v = fallback \/ env name <> [] /\ v = env name.

(** The configuration an environment describes. *)
Definition describes (env : string -> gostring) (c : Config) : Prop :=
  text_setting env "REGIONGATE_LISTEN" (str ":25565") (ListenAddress c) /\
  text_setting env "REGIONGATE_HEALTH_LISTEN" (str "127.0.0.1:8080") (HealthAddress c) /\
  PprofAddress c = env "REGIONGATE_PPROF_LISTEN" /\
  (AdminToken c = env "REGIONGATE_ADMIN_TOKEN" /\ (AdminToken c = [] \/ 32 <= blen (AdminToken c))) /\
  BackendAddress c = env "REGIONGATE_BACKEND_ADDRESS" /\
  text_setting env "REGIONGATE_BACKEND_HOST" (str "localhost") (BackendHost c) /\
  port_setting env (BackendPort c) /\
  (VelocitySecret c = env "REGIONGATE_VELOCITY_SECRET" /\ (VelocitySecret c = [] <-> BackendAddress c = [])) /\
  (env "REGIONGATE_ONLINE_MODE" = [] /\ OnlineMode c = false \/
   env "REGIONGATE_ONLINE_MODE" <> [] /\ ParseBool (env "REGIONGATE_ONLINE_MODE") = Ok (OnlineMode c)) /\
  SessionServerURL c = env "REGIONGATE_SESSION_SERVER_URL" /\
  int_setting env "REGIONGATE_MAX_CONNECTIONS" 10000 (MaxConnections c) /\
  int_setting env "REGIONGATE_MAX_CONNECTIONS_PER_IP" 16 (MaxConnectionsPerIP c) /\
  int_setting env "REGIONGATE_MAX_PACKET_SIZE" (2 ^ 21) (MaxPacketSize c) /\
  duration_setting env "REGIONGATE_HANDSHAKE_TIMEOUT" (10 * Second) (HandshakeTimeout c) /\
  duration_setting env "REGIONGATE_STATUS_TIMEOUT" (10 * Second) (StatusTimeout c) /\
  duration_setting env "REGIONGATE_LOGIN_TIMEOUT" (30 * Second) (LoginTimeout c) /\
  duration_setting env "REGIONGATE_WRITE_TIMEOUT" (10 * Second) (WriteTimeout c) /\
  duration_setting env "REGIONGATE_KEEPALIVE_INTERVAL" (15 * Second) (KeepAliveInterval c) /\
  duration_setting env "REGIONGATE_KEEPALIVE_TIMEOUT" (30 * Second) (KeepAliveTimeout c) /\
  int_setting env "REGIONGATE_QUEUE_SIZE" 1024 (QueueSize c) /\
  duration_setting env "REGIONGATE_ADMISSION_INTERVAL" Second (AdmissionInterval c) /\
  duration_setting env "REGIONGATE_QUEUE_STATUS_INTERVAL" Second (QueueStatusInterval c) /\
  duration_setting env "REGIONGATE_CHALLENGE_TIMEOUT" (10 * Second) (ChallengeTimeout c) /\
  int_setting env "REGIONGATE_LOGIN_RATE_LIMIT" 10 (LoginRateLimit c) /\
  duration_setting env "REGIONGATE_LOGIN_RATE_WINDOW" (10 * Second) (LoginRateWindow c) /\
  BotFilterConfigFile c = env "REGIONGATE_CONFIG_FILE".

(** ** Lemmas *)

Lemma positive_int_iff env name fallback v : 0 < fallback ->
  positive_int env name fallback = Ok v <-> int_setting env name fallback v.
Proof.
  intros Hf. unfold positive_int, intValue, int_setting. case_bool_decide as Hs.
  - rewrite (proj2 (Z.leb_gt _ _)) by lia. naive_solver lia.
  - pose proof (Atoi_iff (env name)) as Ha. fold (decimal_int (env name) v) in *.
    destruct (Atoi (env name)) as [n|err] eqn:E.
    + assert (Hn : decimal_int (env name) n) by (by apply Ha). split.
      * destruct (Z.leb_spec n 0); [done|]. intros; simplify_eq. split; [lia|by right].
      * intros (Hv & [[? _]|[_ Hd]]); [done|]. apply Ha in Hd. simplify_eq.
        by rewrite (proj2 (Z.leb_gt _ _)) by lia.
    + split; [done|]. intros (Hv & [[? _]|[_ Hd]]); [done|]. by apply Ha in Hd.
Qed.

Lemma positive_duration_iff env name fallback v : 0 < fallback ->
  positive_duration env name fallback = Ok v <-> duration_setting env name fallback v.
Proof.
  intros Hf. unfold positive_duration, duration_setting. case_bool_decide as Hs; [naive_solver lia|].
  destruct (ParseDuration (env name)) as [d|err]; [|naive_solver].
  destruct (Z.leb_spec d 0); split; [done|naive_solver lia|naive_solver lia|naive_solver].
Qed.

Lemma uint16Value_iff env v :
  uint16Value (env "REGIONGATE_BACKEND_PORT") 25565 = Ok v <-> port_setting env v.
Proof.
  unfold uint16Value, port_setting. case_bool_decide; [naive_solver|].
  rewrite ParseUint_iff by lia. naive_solver.
Qed.

Lemma online_mode_iff env b :
  online_mode env = Ok b <->
  env "REGIONGATE_ONLINE_MODE" = [] /\ b = false \/
  env "REGIONGATE_ONLINE_MODE" <> [] /\ ParseBool (env "REGIONGATE_ONLINE_MODE") = Ok b.
Proof. unfold online_mode. case_bool_decide; [naive_solver|]. case_match; naive_solver. Qed.

Lemma valueOr_text env name fallback v : valueOr (env name) fallback = v <-> text_setting env name fallback v.
Proof. unfold valueOr, text_setting. case_bool_decide; naive_solver. Qed.

(** Turn the equations of the loading functions into facts about the settings. *)
Ltac setting_facts :=
  repeat match goal with
  | H : positive_int _ _ _ = Ok _ |- _ => apply positive_int_iff in H; [|done]
  | H : positive_duration _ _ _ = Ok _ |- _ => apply positive_duration_iff in H; [|done]
  | H : uint16Value _ _ = Ok _ |- _ => apply uint16Value_iff in H
  | H : online_mode _ = Ok _ |- _ => apply online_mode_iff in H
  end.

(** And back. *)
Ltac setting_eqns :=
  repeat match goal with
  | H : int_setting _ _ _ _ |- _ => apply positive_int_iff in H; [|done]
  | H : duration_setting _ _ _ _ |- _ => apply positive_duration_iff in H; [|done]
  | H : port_setting _ _ |- _ => apply uint16Value_iff in H
  | H : text_setting _ _ _ _ |- _ => apply valueOr_text in H
  | H : _ \/ _ /\ ParseBool _ = Ok _ |- _ => apply online_mode_iff in H
  end.

Lemma loadConfig_sound env c : loadConfig env = Ok c -> describes env c.
Proof.
  unfold loadConfig. destruct (_ && _) eqn:Ht; [done|].
  repeat match goal with |- match ?r with Ok _ => _ | Err _ => _ end = _ -> _ => destruct r eqn:?; [|done] end.
  destruct (Bool.eqb _ _) eqn:Hb; cbn [negb]; [|done]. intros [= <-]. setting_facts.
  unfold describes. cbn. split_and!; try done; try (by apply valueOr_text).
  - destruct (decide (env "REGIONGATE_ADMIN_TOKEN" = [])); [by left|right].
    rewrite bool_decide_false in Ht by done. bool_facts. lia.
  - apply eqb_prop in Hb. repeat case_bool_decide; naive_solver.
Qed.

Lemma loadConfig_complete env c : describes env c -> loadConfig env = Ok c.
Proof.
  intros (H1 & H2 & H3 & [H4 H4'] & H5 & H6 & H7 & [H8 H8'] & H9 & H10 & H11 & H12 & H13 & H14 & H15 & H16 & H17
    & H18 & H19 & H20 & H21 & H22 & H23 & H24 & H25 & H26).
  setting_eqns. unfold loadConfig. rewrite <-H3, <-H4, <-H5, <-H8, <-H10, <-H26.
  assert (negb (bool_decide (AdminToken c = [])) && (blen (AdminToken c) <? 32) = false) as ->.
  { destruct H4' as [->|Hl]; [done|]. rewrite (proj2 (Z.ltb_ge _ _)) by done. apply andb_false_r. }
  change (2 ^ 21) with DefaultMaxPacketSize in H13.
  rewrite H9, H7, H11, H12, H13, H14, H15, H16, H17, H18, H19, H22, H23, H20, H21, H24, H25, H1, H2, H6.
  rewrite (bool_decide_ext _ _ H8'), Bool.eqb_reflx. by destruct c.
Qed.

(** ** Errors *)

Definition err_of {A} (r : res A) : option error := match r with Ok _ => None | Err e => Some e end.

(** What the checks of [loadConfig] report, in their order. *)
Definition check_errors (env : string -> gostring) : list (option error) :=
  [(if decide (env "REGIONGATE_ADMIN_TOKEN" = [] \/ 32 <= blen (env "REGIONGATE_ADMIN_TOKEN")) then None
    else Some (ErrNew "REGIONGATE_ADMIN_TOKEN must contain at least 32 bytes"));
   err_of (online_mode env); err_of (uint16Value (env "REGIONGATE_BACKEND_PORT") 25565);
   err_of (positive_int env "REGIONGATE_MAX_CONNECTIONS" 10000);
   err_of (positive_int env "REGIONGATE_MAX_CONNECTIONS_PER_IP" 16);
   err_of (positive_int env "REGIONGATE_MAX_PACKET_SIZE" DefaultMaxPacketSize)] ++
  map (fun '(name, d) => err_of (positive_duration env name d))
    [("REGIONGATE_HANDSHAKE_TIMEOUT", 10 * Second); ("REGIONGATE_STATUS_TIMEOUT", 10 * Second);
     ("REGIONGATE_LOGIN_TIMEOUT", 30 * Second); ("REGIONGATE_WRITE_TIMEOUT", 10 * Second);
     ("REGIONGATE_KEEPALIVE_INTERVAL", 15 * Second); ("REGIONGATE_KEEPALIVE_TIMEOUT", 30 * Second);
     ("REGIONGATE_QUEUE_STATUS_INTERVAL", Second); ("REGIONGATE_CHALLENGE_TIMEOUT", 10 * Second)] ++
  [err_of (positive_int env "REGIONGATE_QUEUE_SIZE" 1024);
   err_of (positive_duration env "REGIONGATE_ADMISSION_INTERVAL" Second);
   err_of (positive_int env "REGIONGATE_LOGIN_RATE_LIMIT" 10);
   err_of (positive_duration env "REGIONGATE_LOGIN_RATE_WINDOW" (10 * Second));
   (if decide (env "REGIONGATE_BACKEND_ADDRESS" = [] <-> env "REGIONGATE_VELOCITY_SECRET" = []) then None
    else Some (ErrNew "backend address and Velocity secret must be configured together"))].

(** The rules an environment has to follow, in the order in which they are
    reported, each with the errors that report its violation. *)
Definition int_rule (env : string -> gostring) (name : string) (fallback : Z) : Prop * (error -> Prop) :=
  (exists v, int_setting env name fallback v, eq (ErrNew (name ++ " must be positive")%string)).
Definition duration_rule (env : string -> gostring) (name : string) (fallback : Z) : Prop * (error -> Prop) :=
  (exists v, duration_setting env name fallback v, eq (ErrNew (name ++ " must be a positive duration")%string)).

Definition rules (env : string -> gostring) : list (Prop * (error -> Prop)) :=
  [(env "REGIONGATE_ADMIN_TOKEN" = [] \/ 32 <= blen (env "REGIONGATE_ADMIN_TOKEN"),
    eq (ErrNew "REGIONGATE_ADMIN_TOKEN must contain at least 32 bytes"));
   (env "REGIONGATE_ONLINE_MODE" = [] \/ exists b, ParseBool (env "REGIONGATE_ONLINE_MODE") = Ok b,
    eq (ErrNew "REGIONGATE_ONLINE_MODE must be a boolean"));
   (exists v, port_setting env v, fun e => ParseUint (env "REGIONGATE_BACKEND_PORT") 16 = Err e);
   int_rule env "REGIONGATE_MAX_CONNECTIONS" 10000;
   int_rule env "REGIONGATE_MAX_CONNECTIONS_PER_IP" 16;
   int_rule env "REGIONGATE_MAX_PACKET_SIZE" (2 ^ 21);
   duration_rule env "REGIONGATE_HANDSHAKE_TIMEOUT" (10 * Second);
   duration_rule env "REGIONGATE_STATUS_TIMEOUT" (10 * Second);
   duration_rule env "REGIONGATE_LOGIN_TIMEOUT" (30 * Second);
   duration_rule env "REGIONGATE_WRITE_TIMEOUT" (10 * Second);
   duration_rule env "REGIONGATE_KEEPALIVE_INTERVAL" (15 * Second);
   duration_rule env "REGIONGATE_KEEPALIVE_TIMEOUT" (30 * Second);
   duration_rule env "REGIONGATE_QUEUE_STATUS_INTERVAL" Second;
   duration_rule env "REGIONGATE_CHALLENGE_TIMEOUT" (10 * Second);
   int_rule env "REGIONGATE_QUEUE_SIZE" 1024;
   duration_rule env "REGIONGATE_ADMISSION_INTERVAL" Second;
   int_rule env "REGIONGATE_LOGIN_RATE_LIMIT" 10;
   duration_rule env "REGIONGATE_LOGIN_RATE_WINDOW" (10 * Second);
   ((env "REGIONGATE_BACKEND_ADDRESS" = [] <-> env "REGIONGATE_VELOCITY_SECRET" = []),
    eq (ErrNew "backend address and Velocity secret must be configured together"))].

(** A check reports what a rule says. *)
Definition checks (v : option error) (r : Prop * (error -> Prop)) : Prop :=
  match v with None => r.1 | Some e => ~ r.1 /\ r.2 e end.

Lemma positive_int_checks env name fallback : 0 < fallback -> checks (err_of (positive_int env name fallback)) (int_rule env name fallback).
Proof.
  intros Hf. pose proof (fun v => positive_int_iff env name fallback v Hf) as H.
  destruct (positive_int env name fallback) as [v|e] eqn:E; cbn; [exists v; by apply H|]. split.
  - intros [v Hv]. by apply H in Hv.
  - revert E. unfold positive_int. repeat case_match; naive_solver.
Qed.

Lemma positive_duration_checks env name fallback :
  0 < fallback -> checks (err_of (positive_duration env name fallback)) (duration_rule env name fallback).
Proof.
  intros Hf. pose proof (fun v => positive_duration_iff env name fallback v Hf) as H.
  destruct (positive_duration env name fallback) as [v|e] eqn:E; cbn; [exists v; by apply H|]. split.
  - intros [v Hv]. by apply H in Hv.
  - revert E. unfold positive_duration. repeat case_match; naive_solver.
Qed.

Lemma check_errors_rules env : Forall2 checks (check_errors env) (rules env).
Proof.
  unfold check_errors, rules. change (2 ^ 21) with DefaultMaxPacketSize. cbn [app map].
  repeat match goal with
  | |- Forall2 _ (_ :: _) (_ :: _) => constructor
  | |- checks (err_of (positive_int _ _ _)) (int_rule _ _ _) => apply positive_int_checks; done
  | |- checks (err_of (positive_duration _ _ _)) (duration_rule _ _ _) => apply positive_duration_checks; done
  end; [| | | |constructor].
  - unfold checks. cbn [fst snd]. by case_decide.
  - pose proof (online_mode_iff env) as H. destruct (online_mode env) as [b|e] eqn:E; cbn.
    + destruct (proj1 (H b) eq_refl) as [[? _]|[_ ?]]; eauto.
    + split.
      * assert (Hno : env "REGIONGATE_ONLINE_MODE" <> []) by (intros He; assert (Err e = Ok false) by (apply H; by left); done).
        intros [He|[b Hb]]; [done|]. assert (Err e = Ok b) by (apply H; by right). done.
      * revert E. unfold online_mode. repeat case_match; naive_solver.
  - pose proof (uint16Value_iff env) as H. destruct (uint16Value _ _) as [v|e] eqn:E; cbn; [exists v; by apply H|].
    split; [intros [v Hv]; by apply H in Hv|]. revert E. unfold uint16Value. by case_match.
  - unfold checks. cbn [fst snd]. by case_decide.
Qed.

(** The first violated rule, through the sequence of checks. *)
Lemma first_bind {A B} (r : res A) (k : A -> res B) l :
  (forall x, err_of (k x) = head (omap id l)) ->
  err_of (match r with Ok x => k x | Err e => Err e end) = head (omap id (err_of r :: l)).
Proof. intros Hk. destruct r; cbn; [apply Hk|done]. Qed.

Lemma first_None (l : list (option error)) : head (omap id (None :: l)) = head (omap id l).
Proof. done. Qed.

Lemma loadConfig_err env : err_of (loadConfig env) = head (omap id (check_errors env)).
Proof.
  unfold loadConfig, check_errors.
  assert (negb (bool_decide (env "REGIONGATE_ADMIN_TOKEN" = [])) && (blen (env "REGIONGATE_ADMIN_TOKEN") <? 32) =
    negb (bool_decide (env "REGIONGATE_ADMIN_TOKEN" = [] \/ 32 <= blen (env "REGIONGATE_ADMIN_TOKEN")))) as ->.
  { destruct (decide (env "REGIONGATE_ADMIN_TOKEN" = [])) as [->|]; [done|].
    rewrite (bool_decide_false (_ = [])) by done. destruct (Z.ltb_spec (blen (env "REGIONGATE_ADMIN_TOKEN")) 32);
      case_bool_decide; try done; naive_solver lia. }
  case_decide; [rewrite bool_decide_true by done|by rewrite bool_decide_false by done]. cbn [negb].
  cbn [app map]. rewrite first_None. do 17 (apply first_bind; intros ?).
  do 2 case_bool_decide; cbn [Bool.eqb negb err_of];
    first [rewrite decide_True by tauto; reflexivity|rewrite decide_False by tauto; reflexivity].
Qed.

(** ** Properties *)

(** C23: a loaded configuration is exactly what the environment describes. Every
    integer setting is a decimal number in the range of an [int] and positive,
    every duration is positive, the port fits 16 bits, an admin token has at least
    32 bytes, backend address and secret come together, and a variable that is
    unset leaves its documented default; conversely every environment that
    describes a configuration is accepted. *)
Theorem loadConfig_exact env c : loadConfig env = Ok c <-> describes env c.
Proof. split; [apply loadConfig_sound|apply loadConfig_complete]. Qed.

(** C31: an invalid environment is always refused, with the error of the first
    rule it violates, and a configuration is only returned when no rule is violated.
    The rules are about the environment: the admin token is absent or has at least
    32 bytes, the online mode is a boolean, the port a 16-bit number, each integer
    setting absent or a positive decimal number, each duration absent or a positive
    duration, the backend address and the secret come together. *)
Theorem loadConfig_reports_first env :
  match loadConfig env with
  | Err e => exists before rule after, rules env = (before ++ rule :: after)%list /\
      Forall (fun r => r.1) before /\ ~ rule.1 /\ rule.2 e
  | Ok _ => Forall (fun r => r.1) (rules env)
  end.
Proof.
  pose proof (loadConfig_err env) as He. pose proof (check_errors_rules env) as Hr. revert He Hr.
  generalize (check_errors env) as es, (rules env) as rs. intros es rs He Hr.
  destruct (loadConfig env) as [c|e]; cbn in He; induction Hr as [|v r vs rs Hv Hrs IH]; cbn in He; try done.
  - destruct v as [x|]; [done|]. constructor; [exact Hv|by apply IH].
  - destruct v as [x|]; cbn in He.
    + simplify_eq. exists [], r, rs. split; [done|]. split; [constructor|exact Hv].
    + destruct (IH He) as (b & r0 & a & -> & Hb & Hn). exists (r :: b), r0, a. split; [done|]. split; [by constructor|done].
Qed.

(** An operator's environment: decimal numbers and unit durations mean what they say. *)
Lemma int_setting_decimal env name fallback n :
  env name = FormatUint n -> 0 < n < 2 ^ 63 -> int_setting env name fallback n.
Proof.
  intros He Hn. destruct (FormatUint_spec n) as (Hne & Hall & Hval); [unfold in_uint64; lia|].
  split; [lia|]. right. rewrite He. split; [done|]. unfold decimal_int.
  assert (sign (FormatUint n) = (false, FormatUint n)) as ->.
  { destruct (FormatUint n) as [|c ds]; [done|]. inversion Hall as [|? ? Hc _]; subst.
    unfold sign. repeat case_bool_decide; subst; done. }
  split_and!; try done. unfold in_int64. lia.
Qed.

Lemma duration_setting_units env name fallback n u unit :
  env name = (FormatUint n ++ u)%list -> u ∈ [str "ns"; str "us"; str "ms"; str "s"; str "m"; str "h"] ->
  unitMap u = Some unit -> 0 < n -> n * unit < 2 ^ 63 -> duration_setting env name fallback (n * unit).
Proof.
  intros He Hu Hun Hn Hlt. pose proof (ParseDuration_units n u unit Hu Hun ltac:(lia) Hlt) as Hp.
  assert (0 < unit).
  { rewrite !elem_of_cons, elem_of_nil in Hu. destruct_or! Hu; try done; subst u; cbn in Hun; injection Hun as <-; done. }
  split; [nia|]. right. rewrite He. split; [|done]. intros E. by rewrite E in Hp.
Qed.

(** A complete environment, as the deployment guide shows it. *)
Definition demo_env (name : string) : gostring :=
  if bool_decide (name = "REGIONGATE_BACKEND_ADDRESS") then str "backend:25566"
  else if bool_decide (name = "REGIONGATE_VELOCITY_SECRET") then str "change-me"
  else if bool_decide (name = "REGIONGATE_BACKEND_PORT") then str "25566"
  else if bool_decide (name = "REGIONGATE_ONLINE_MODE") then str "true"
  else if bool_decide (name = "REGIONGATE_MAX_CONNECTIONS") then str "500"
  else if bool_decide (name = "REGIONGATE_LOGIN_RATE_WINDOW") then str "1m30s"
  else [].

Definition demo_config : Config := Eval vm_compute in
  match loadConfig demo_env with Ok c => c | Err _ => mkConfig [] [] [] [] [] [] 0 [] false [] 0 0 0 0 0 0 0 0 0 0 0 0 0 0 0 [] end.

Example demo_env_loads : loadConfig demo_env = Ok demo_config /\ MaxConnections demo_config = 500 /\
  LoginRateWindow demo_config = 90 * Second /\ BackendPort demo_config = 25566 /\ OnlineMode demo_config = true.
Proof. repeat split; vm_compute; reflexivity. Qed.
