(* ===== verification/Monitor.v ===== *)
(** * Metrics and the HTTP endpoints (internal/server/server.go: Metrics;
    internal/app/run.go: healthHandler, metricsHandler, adminStatusHandler)

    A handler is a function of the gateway's state and the request. Request paths
    are clean ([path.Clean] leaves them alone), so the mux never redirects. *)

From S2P Require Import Prelude Strconv Ratelimit Queue Status Backend Transfer Botfilter Server.
Local Open Scope string_scope.
Local Open Scope Z_scope.

(** ** The snapshot *)

Record MetricsSnapshot := mkSnapshot {
  ms_ActiveConnections : Z;
  ms_Sessions : Z;
  ms_QueueLength : Z;
  ms_Accepted : Z;
  ms_RejectedCapacity : Z;
  ms_RejectedPerIP : Z;
  ms_LoginRateLimited : Z;
  ms_BackendHealthState : Z;
  ms_BackendConfigured : bool;
  ms_BotFilter : Botfilter.Metrics
}.

(** The server with the components its configuration points to. *)
Record gateway := mkGateway {
  g_server : Server;
  g_queue : option (FIFO nat nat);
  g_coordinator : option Coordinator;
  g_botFilter : option Manager
}.

Definition health_number (h : HealthState) : Z :=
  match h with HealthUnknown => 0 | HealthHealthy => 1 | HealthUnhealthy => 2 end.

Definition SessionCount (s : Server) : Z := Z.of_nat (size (sessions s)).

Definition Metrics (g : gateway) : MetricsSnapshot :=
  let s := g_server g in
  mkSnapshot (uint64 (Z.of_nat (size (conns s)))) (uint64 (SessionCount s))
    (uint64 (match g_queue g with Some q => Len q | None => 0 end))
    (accepted s) (rejectedCap s) (rejectedIP s) (rateLimited s)
    (match g_coordinator g with Some _ => health_number (hl_State (BackendHealth (g_coordinator g))) | None => 0 end)
    (bool_decide (is_Some (g_coordinator g)))
    (match g_botFilter g with Some m => Manager_Metrics m | None => mkMetrics 0 0 0 0 0 0 end).

(** ** HTTP *)

Record response := mkHTTP { rs_status : Z; rs_header : list (string * gostring); rs_body : gostring }.

Definition NotFound : response :=
  mkHTTP 404 [("Content-Type", str "text/plain; charset=utf-8"); ("X-Content-Type-Options", str "nosniff")]
    (str "404 page not found" ++ [x0a])%list.

Definition json_bool (b : bool) : gostring := if b then str "true" else str "false".
Definition json_uint (z : Z) : gostring := FormatUint z.

(** An object of already encoded fields, as [json.Encoder] writes it. *)
Fixpoint json_fields (fields : list (string * gostring)) : gostring :=
  match fields with
  | [] => []
  | [(k, v)] => (json_key k ++ v)%list
  | (k, v) :: fields => (json_key k ++ v ++ str "," ++ json_fields fields)%list
  end.
Definition json_object (fields : list (string * gostring)) : gostring := (str "{" ++ json_fields fields ++ str "}")%list.

Definition ok_json (status : Z) (fields : list (string * gostring)) : response :=
  mkHTTP status [("Content-Type", str "application/json")] (json_object fields ++ [x0a])%list.

Definition healthz (g : gateway) : response :=
  ok_json 200 [("sessions", json_uint (SessionCount (g_server g))); ("status", json_string (str "ok"))].

Definition readyz (g : gateway) : response :=
  let metrics := Metrics g in
  let ready := negb (ms_BackendConfigured metrics) || negb (ms_BackendHealthState metrics =? health_number HealthUnhealthy) in
  ok_json (if ready then 200 else 503)
    [("backend_health_state", json_uint (ms_BackendHealthState metrics)); ("ready", json_bool ready)].

(** The lines of the metrics endpoint: a name and a value. *)
Definition metric_values (metrics : MetricsSnapshot) : list (string * Z) :=
  [("regiongate_connections_active", ms_ActiveConnections metrics);
   ("regiongate_sessions_active", ms_Sessions metrics);
   ("regiongate_queue_length", ms_QueueLength metrics);
   ("regiongate_connections_accepted_total", ms_Accepted metrics);
   ("regiongate_connections_rejected_capacity_total", ms_RejectedCapacity metrics);
   ("regiongate_connections_rejected_ip_total", ms_RejectedPerIP metrics);
   ("regiongate_login_rate_limited_total", ms_LoginRateLimited metrics);
   ("regiongate_backend_health_state", ms_BackendHealthState metrics);
   ("regiongate_botfilter_allowed_total", mt_Allowed (ms_BotFilter metrics));
   ("regiongate_botfilter_observed_total", mt_Observed (ms_BotFilter metrics));
   ("regiongate_botfilter_denied_total", mt_Denied (ms_BotFilter metrics));
   ("regiongate_botfilter_active_observations", mt_ActiveObservations (ms_BotFilter metrics));
   ("regiongate_botfilter_reputation_entries", mt_ReputationEntries (ms_BotFilter metrics));
   ("regiongate_botfilter_reload_failures_total", mt_ReloadFailures (ms_BotFilter metrics))].

Definition metric_line (m : string * Z) : gostring := (str m.1 ++ str " " ++ FormatUint m.2 ++ [x0a])%list.

Definition metricsHandler (g : gateway) : response :=
  mkHTTP 200 [("Content-Type", str "text/plain; version=0.0.4")] (concat (map metric_line (metric_values (Metrics g)))).

(** [json.Encoder] on a [MetricsSnapshot]: the exported fields in order. *)
Definition snapshot_json (m : MetricsSnapshot) : list (string * gostring) :=
  [("ActiveConnections", json_uint (ms_ActiveConnections m)); ("Sessions", json_uint (ms_Sessions m));
   ("QueueLength", json_uint (ms_QueueLength m)); ("Accepted", json_uint (ms_Accepted m));
   ("RejectedCapacity", json_uint (ms_RejectedCapacity m)); ("RejectedPerIP", json_uint (ms_RejectedPerIP m));
   ("LoginRateLimited", json_uint (ms_LoginRateLimited m)); ("BackendHealthState", json_uint (ms_BackendHealthState m));
   ("BackendConfigured", json_bool (ms_BackendConfigured m));
   ("BotFilter", json_object
     [("Allowed", json_uint (mt_Allowed (ms_BotFilter m))); ("Observed", json_uint (mt_Observed (ms_BotFilter m)));
      ("Denied", json_uint (mt_Denied (ms_BotFilter m)));
      ("ActiveObservations", json_uint (mt_ActiveObservations (ms_BotFilter m)));
      ("ReputationEntries", json_uint (mt_ReputationEntries (ms_BotFilter m)));
      ("ReloadFailures", json_uint (mt_ReloadFailures (ms_BotFilter m)))])].

(** [strings.CutPrefix] *)
Definition CutPrefix (s prefix : gostring) : gostring * bool :=
  if bool_decide (take (length prefix) s = prefix) then (drop (length prefix) s, true) else (s, false).

(** [subtle.ConstantTimeCompare]: the differences of all bytes are or-ed together,
    whatever they are. *)
Definition ConstantTimeCompare (x y : list byte) : Z :=
  if negb (blen x =? blen y) then 0
  else if foldl (fun v '(a, b) => Z.lor v (Z.lxor (ubyte a) (ubyte b))) 0 (zip x y) =? 0 then 1 else 0.

(** [authorization] is the Authorization header, empty when absent. *)
Definition adminStatusHandler (g : gateway) (expectedToken authorization : gostring) : response :=
  if bool_decide (expectedToken = []) then NotFound
  else
    let '(provided, ok) := CutPrefix authorization (str "Bearer ") in
    if negb ok || negb (ConstantTimeCompare provided expectedToken =? 1) then
      mkHTTP 401 [("WWW-Authenticate", (str "Bearer realm=" ++ [x22] ++ str "regiongate-admin" ++ [x22])%list)] []
    else ok_json 200 (snapshot_json (Metrics g)).

(** The mux: a "GET" pattern also serves HEAD, another method of a known path is
    answered with 405. *)
Definition healthHandler (g : gateway) (adminToken method path authorization : gostring) : response :=
  let route :=
    if bool_decide (path = str "/healthz") then Some (healthz g)
    else if bool_decide (path = str "/readyz") then Some (readyz g)
    else if bool_decide (path = str "/metrics") then Some (metricsHandler g)
    else if bool_decide (path = str "/admin/status") then Some (adminStatusHandler g adminToken authorization)
    else None in
  match route with
  | None => NotFound
  | Some r =>
    if bool_decide (method = str "GET") || bool_decide (method = str "HEAD") then r
    else mkHTTP 405 [("Allow", str "GET, HEAD"); ("Content-Type", str "text/plain; charset=utf-8"); ("X-Content-Type-Options", str "nosniff")]
           (str "Method Not Allowed" ++ [x0a])%list
  end.

(** The mux of the profiling endpoints: which function of net/http/pprof serves a
    path. The index has a subtree pattern, to which its path without the slash is
    redirected. *)
Inductive profile : Type := pprof_Index | pprof_Cmdline | pprof_Profile | pprof_Symbol | pprof_Trace.
Inductive profile_route : Type := ServeProfile (p : profile) | RedirectTo (path : gostring) | NoRoute.

Definition pprof_root : gostring := str "/debug/pprof/".

Definition pprofHandler (path : gostring) : profile_route :=
  if bool_decide (path = (pprof_root ++ str "cmdline")%list) then ServeProfile pprof_Cmdline
  else if bool_decide (path = (pprof_root ++ str "profile")%list) then ServeProfile pprof_Profile
  else if bool_decide (path = (pprof_root ++ str "symbol")%list) then ServeProfile pprof_Symbol
  else if bool_decide (path = (pprof_root ++ str "trace")%list) then ServeProfile pprof_Trace
  else if bool_decide (pprof_root `prefix_of` path) then ServeProfile pprof_Index
  else if bool_decide ((path ++ str "/")%list = pprof_root) then RedirectTo pprof_root
  else NoRoute.

(** Exactly the paths below the root are served, and the redirect leads there. *)
Lemma pprofHandler_paths path :
  match pprofHandler path with
  | ServeProfile _ => pprof_root `prefix_of` path
  | RedirectTo target => pprofHandler target = ServeProfile pprof_Index
  | NoRoute => ~ pprof_root `prefix_of` path
  end.
Proof.
  unfold pprofHandler at 1. repeat (case_bool_decide; [subst; first [done | apply prefix_app_r; done | vm_compute; reflexivity]|]). done.
Qed.

(** ** Reading the metrics back *)

(** Split at the first occurrence of a byte. *)
Fixpoint split_at (sep : byte) (s : gostring) : option (gostring * gostring) :=
  match s with
  | [] => None
  | c :: s => if bool_decide (c = sep) then Some ([], s)
              else match split_at sep s with Some (a, b) => Some (c :: a, b) | None => None end
  end.

(** A scraper: lines of a name, a space and a decimal value. *)
Fixpoint parse_exposition (fuel : nat) (s : gostring) : option (list (gostring * Z)) :=
  match s, fuel with
  | [], _ => Some []
  | _, O => None
  | _, S fuel =>
    match split_at x0a s with
    | None => None
    | Some (line, rest) =>
      match split_at x20 line with
      | None => None
      | Some (name, value) =>
        match ParseUint value 64, parse_exposition fuel rest with
        | Ok v, Some l => Some ((name, v) :: l)
        | _, _ => None
        end
      end
    end
  end.

(** ** Reachable states of the bot filter *)

Inductive bot_reachable : Manager -> Prop :=
| reach_new p path : bot_reachable (Botfilter.New p path)
| reach_evaluate m now ev : bot_reachable m -> bot_reachable (snd (Evaluate m now ev))
| reach_verified m : bot_reachable m -> bot_reachable (add_active (-1) m)
| reach_record m e : bot_reachable m -> bot_reachable (Record_ m e)
| reach_tick m now stat load : bot_reachable m -> bot_reachable (Start_tick m now stat load).

(** A gateway whose server has run any steps and whose bot filter, if any, any
    operations. *)
Definition gateway_reachable (R : nat -> gostring) (g : gateway) : Prop :=
  (exists config ts, g_server g = (run_steps R (Server.New config, ∅) ts).1) /\
  match g_botFilter g with Some m => bot_reachable m | None => True end.

Definition snapshot_typed (m : MetricsSnapshot) : Prop :=
  Forall (fun v => in_uint64 v.2) (metric_values m).

(** ** Lemmas *)

Lemma bot_reachable_typed m : bot_reachable m ->
  in_uint64 (allowed m) /\ in_uint64 (observed m) /\ in_uint64 (denied m) /\ in_uint64 (reloads m) /\ in_uint64 (active m).
Proof.
  induction 1 as [p path|m now ev _ IH|m _ IH|m e _ IH|m now stat load _ IH]; destruct_and?; try done.
  - unfold Evaluate. repeat case_match; cbn; split_and!; first [done|apply uint64_range].
  - cbn. split_and!; first [done|apply uint64_range].
  - unfold Start_tick, reload. repeat case_match; cbn; split_and!; first [done|apply uint64_range].
Qed.

Definition counters_typed (s : Server) : Prop :=
  in_uint64 (accepted s) /\ in_uint64 (rejectedCap s) /\ in_uint64 (rejectedIP s) /\ in_uint64 (rateLimited s).

Lemma run_steps_typed R ts : forall w, counters_typed w.1 -> counters_typed (run_steps R w ts).1.
Proof.
  induction ts as [|t ts IH]; intros [s st] (H1 & H2 & H3 & H4); [done|]. cbn [run_steps foldl]. apply IH.
  assert (Hu : forall z, in_uint64 (uint64 z)) by apply uint64_range. cbn in *.
  destruct t; cbn [run_step]; unfold Serve_accept, Serve_track, track, login_allowed, serveConn_cleanup; repeat case_match; simplify_eq; cbn;
    split_and!; first [done|apply Hu].
Qed.

Lemma reachable_typed R g : gateway_reachable R g -> snapshot_typed (Metrics g).
Proof.
  intros [(config & ts & Hs) Hb].
  assert (counters_typed (g_server g)) as (H1 & H2 & H3 & H4) by (rewrite Hs; by apply run_steps_typed).
  assert (Hh : in_uint64 (ms_BackendHealthState (Metrics g))).
  { cbn. destruct (g_coordinator g); [|done]. by destruct (hl_State _). }
  assert (Hm : match g_botFilter g with Some m => in_uint64 (allowed m) /\ in_uint64 (observed m) /\ in_uint64 (denied m) /\
    in_uint64 (reloads m) /\ in_uint64 (active m) | None => True end).
  { destruct (g_botFilter g); [by apply bot_reachable_typed|done]. }
  unfold snapshot_typed, metric_values. rewrite !Forall_cons. split_and!; try done; try apply uint64_range;
    cbn; destruct (g_botFilter g); cbn; try done; try apply uint64_range; tauto.
Qed.

Lemma split_at_app sep a b : sep ∉ a -> split_at sep (a ++ sep :: b) = Some (a, b).
Proof.
  induction a as [|c a IH]; intros Hn; cbn; [by rewrite bool_decide_true|].
  apply not_elem_of_cons in Hn as [Hne Hn]. by rewrite bool_decide_false, IH by congruence.
Qed.

Lemma digits_no b s : is_digit b = false -> Forall (fun c => is_digit c = true) s -> b ∉ s.
Proof. intros Hb Hs Hin. rewrite Forall_forall in Hs. specialize (Hs _ Hin). congruence. Qed.

Lemma parse_exposition_lines ms : forall fuel,
  Forall (fun m => in_uint64 m.2 /\ (x20 ∉ str m.1) /\ (x0a ∉ str m.1)) ms -> (length ms <= fuel)%nat ->
  parse_exposition fuel (concat (map metric_line ms)) = Some (map (fun m => (str m.1, m.2)) ms).
Proof.
  induction ms as [|[name v] ms IH]; intros fuel Hf Hl; [by destruct fuel|].
  inversion Hf as [|? ? (Hv & Hsp & Hnl) Hms]; subst. cbn in Hv, Hsp, Hnl.
  destruct fuel as [|fuel]; [cbn in Hl; lia|]. cbn [map concat]. unfold metric_line at 1. cbn [fst snd].
  destruct (FormatUint_spec v Hv) as (Hne & Hd & _).
  assert (Hline : ((str name ++ str " " ++ FormatUint v ++ [x0a]) ++ concat (map metric_line ms))%list
    = ((str name ++ [x20] ++ FormatUint v) ++ x0a :: concat (map metric_line ms))%list).
  { rewrite <-!app_assoc. done. }
  rewrite Hline. cbn [parse_exposition].
  rewrite split_at_app; [|rewrite !elem_of_app, elem_of_cons; intros [|[[|]|]]; try done; [by eapply not_elem_of_nil|by eapply (digits_no x0a)]].
  change ([x20] ++ FormatUint v)%list with (x20 :: FormatUint v). rewrite split_at_app by done.
  rewrite ParseUint_FormatUint by (unfold in_uint64 in Hv; lia). rewrite IH by (done || cbn in Hl; lia).
  by destruct (str name).
Qed.

Lemma foldl_lor_0 (l : list (byte * byte)) : forall v,
  foldl (fun v '(a, b) => Z.lor v (Z.lxor (ubyte a) (ubyte b))) v l = 0 <-> v = 0 /\ Forall (fun ab => ab.1 = ab.2) l.
Proof.
  induction l as [|[a b] l IH]; intros v; cbn; [by split; [|intros []]|].
  rewrite IH, Z.lor_eq_0_iff, Z.lxor_eq_0_iff, Forall_cons. cbn. split.
  - intros [[-> He] Hl]. split_and!; try done. by apply ubyte_inj.
  - intros [-> [-> Hl]]. done.
Qed.

(** The comparison is equality. *)
Lemma ConstantTimeCompare_iff x y : ConstantTimeCompare x y = 1 <-> x = y.
Proof.
  unfold ConstantTimeCompare. destruct (Z.eqb_spec (blen x) (blen y)) as [Hl|Hl]; cbn [negb]; [|split; [done|intros ->; done]].
  assert (Hlen : length x = length y) by (unfold blen in Hl; lia). clear Hl.
  destruct (Z.eqb_spec (foldl (fun v '(a, b) => Z.lor v (Z.lxor (ubyte a) (ubyte b))) 0 (zip x y)) 0) as [E|E]; split; try done; intros H.
  - apply foldl_lor_0 in E as [_ Hf]. revert y Hlen Hf. clear. induction x as [|a x IH]; intros [|b y] Hlen Hf; try done.
    cbn in Hf. apply Forall_cons in Hf as [Hab Hf]. cbn in Hab. rewrite Hab. f_equal. apply IH; [by injection Hlen|done].
  - subst y. exfalso. apply E. apply foldl_lor_0. split; [done|]. clear. induction x; constructor; done.
Qed.

Lemma CutPrefix_iff s prefix rest : CutPrefix s prefix = (rest, true) <-> s = (prefix ++ rest)%list.
Proof.
  unfold CutPrefix. split.
  - case_bool_decide as E; intros; simplify_eq. by rewrite <-E at 1; rewrite take_drop.
  - intros ->. rewrite take_app_length, bool_decide_true by done. by rewrite drop_app_length.
Qed.

(** The whole behaviour of the admin endpoint. *)
Lemma adminStatusHandler_eq g token authorization :
  adminStatusHandler g token authorization =
  if decide (token = []) then NotFound
  else if decide (authorization = (str "Bearer " ++ token)%list) then ok_json 200 (snapshot_json (Metrics g))
  else mkHTTP 401 [("WWW-Authenticate", (str "Bearer realm=" ++ [x22] ++ str "regiongate-admin" ++ [x22])%list)] [].
Proof.
  unfold adminStatusHandler. case_decide as Ht; [by rewrite bool_decide_true|]. rewrite bool_decide_false by done.
  destruct (CutPrefix authorization (str "Bearer ")) as [provided [|]] eqn:E; cbn [negb orb].
  - apply CutPrefix_iff in E as ->. pose proof (ConstantTimeCompare_iff provided token) as Hc.
    case_decide as Hd.
    + apply app_inv_head in Hd as ->. by rewrite (proj2 (Z.eqb_eq _ _)) by (by apply Hc).
    + rewrite (proj2 (Z.eqb_neq _ _)); [done|]. intros H. apply Hc in H as ->. done.
  - case_decide as Hd; [|done]. subst. assert (CutPrefix (str "Bearer " ++ token)%list (str "Bearer ") = (token, true)) by (by apply CutPrefix_iff).
    congruence.
Qed.

(** ** Properties *)

(** C32: the metrics of the admin endpoint are disclosed only to the holder of the
    token. Without a configured token the endpoint does not exist; otherwise
    exactly the header "Bearer" with the token is answered with the metrics, and
    any other request gets the same answer whatever the state of the gateway, so
    it learns nothing about it. *)
Theorem admin_status_guarded g g' token method authorization :
  (token = [] \/ authorization <> (str "Bearer " ++ token)%list ->
   healthHandler g token method (str "/admin/status") authorization =
   healthHandler g' token method (str "/admin/status") authorization) /\
  (healthHandler g [] (str "GET") (str "/admin/status") authorization = NotFound) /\
  (token <> [] ->
   healthHandler g token (str "GET") (str "/admin/status") (str "Bearer " ++ token)%list =
   ok_json 200 (snapshot_json (Metrics g)) /\
   (authorization <> (str "Bearer " ++ token)%list ->
    rs_status (healthHandler g token (str "GET") (str "/admin/status") authorization) = 401 /\
    rs_body (healthHandler g token (str "GET") (str "/admin/status") authorization) = [])).
Proof.
  assert (Hr : forall h t m a, healthHandler h t m (str "/admin/status") a =
    if bool_decide (m = str "GET") || bool_decide (m = str "HEAD") then adminStatusHandler h t a
    else mkHTTP 405 [("Allow", str "GET, HEAD"); ("Content-Type", str "text/plain; charset=utf-8"); ("X-Content-Type-Options", str "nosniff")]
           (str "Method Not Allowed" ++ [x0a])%list) by done.
  rewrite !Hr, !adminStatusHandler_eq, !(bool_decide_true (str "GET" = str "GET")) by done. cbn [orb]. split_and!.
  - intros Hx. destruct (_ || _); [|done]. destruct (decide (token = [])); [done|].
    destruct (decide (authorization = _)); [|done]. naive_solver.
  - done.
  - intros Ht. destruct (decide (token = [])); [done|]. split; [by rewrite decide_True|].
    intros Ha. by destruct (decide (authorization = _)).
Qed.

(** readiness. The endpoint answers 503 exactly when a backend is configured
    and its last recorded state is unhealthy: a gateway without a backend and one
    that has not probed its backend yet are ready; a failure recorded by the
    transfer coordinator makes it unready and a recorded success ready again. *)
Theorem readiness_follows_backend foreign g d f c now err :
  rs_status (readyz g) = (if decide (g_coordinator g <> None /\ hl_State (BackendHealth (g_coordinator g)) = HealthUnhealthy) then 503 else 200) /\
  (forall d', g_coordinator g = Some (mkCoordinator (Some d') f c) ->
    (d' = NewDialer (dl_config d') -> rs_status (readyz g) = 200) /\
    (d' = MarkHealthy foreign d now -> rs_status (readyz g) = 200) /\
    (d' = MarkUnhealthy foreign d now (Some err) -> rs_status (readyz g) = 503)).
Proof.
  assert (Hr : rs_status (readyz g) = if decide (g_coordinator g <> None /\ hl_State (BackendHealth (g_coordinator g)) = HealthUnhealthy) then 503 else 200).
  { unfold readyz, Metrics. cbn. destruct (g_coordinator g) as [co|]; cbn; [|by case_decide as H; [destruct H|]].
    destruct (hl_State _); case_decide as H; try done; naive_solver. }
  split; [done|]. intros d' Hg. rewrite Hr, Hg. cbn.
  assert (Hs : forall st e, hl_State (health_set foreign (dl_health d) now st e) = st).
  { intros st e. unfold health_set. destruct (bool_decide _ && _) eqn:E; [|done]. by bool_facts. }
  split_and!; intros ->; cbn; rewrite ?Hs; by case_decide as H; [try (destruct H; done)|try (exfalso; apply H; done)].
Qed.

Lemma metric_names_plain m : Forall (fun v => (x20 ∉ str v.1) /\ (x0a ∉ str v.1)) (metric_values m).
Proof. unfold metric_values. rewrite !Forall_cons. cbn [fst]. split_and!; try apply Forall_nil; try done; apply (bool_decide_unpack _); reflexivity. Qed.

(** C34: the metrics endpoint can be read back. In every reachable state of the
    server and the bot filter each exported value is a 64-bit counter, and a
    scraper that reads one name, a space and a decimal number per line recovers
    exactly the names and values of the snapshot, in order. *)
Theorem metrics_readable R g :
  gateway_reachable R g ->
  snapshot_typed (Metrics g) /\
  parse_exposition (length (rs_body (metricsHandler g))) (rs_body (metricsHandler g)) =
    Some (map (fun m => (str m.1, m.2)) (metric_values (Metrics g))).
Proof.
  intros Hg. pose proof (reachable_typed _ _ Hg) as Ht. split; [done|]. cbn [metricsHandler rs_body].
  set (ms := metric_values (Metrics g)). apply parse_exposition_lines.
  - pose proof (metric_names_plain (Metrics g)) as Hn. unfold snapshot_typed in Ht. fold ms in Ht, Hn.
    clear -Ht Hn. induction ms; constructor; inversion Ht; inversion Hn; subst; [tauto|auto].
  - clear. induction ms as [|m ms IH]; [done|]. cbn [map concat length]. rewrite length_app.
    unfold metric_line at 1. rewrite !length_app. cbn [length]. lia.
Qed.

(** A small history: one player connected, one address refused. *)
Definition demo_server : Server :=
  (run_steps (fun _ => str "10.0.0.1:40000") (Server.New (mkServerConfig 2 1 0 0 0 0 0 0 0 0 0 0 0), ∅)
    [SAccept 0; STrack 0; SClient 0; SSession 0; SAccept 1; STrack 1]).1.
Definition demo_gateway : gateway :=
  mkGateway demo_server None None (Some (Start_tick (Botfilter.New DefaultPolicy (str "p.yml")) 5 (Err io_EOF) (Err io_EOF))).

Lemma metrics_readable_witness :
  snapshot_typed (Metrics demo_gateway) /\
  parse_exposition (length (rs_body (metricsHandler demo_gateway))) (rs_body (metricsHandler demo_gateway)) =
    Some (map (fun m => (str m.1, m.2)) (metric_values (Metrics demo_gateway))).
Proof.
  apply (metrics_readable (fun _ => str "10.0.0.1:40000") demo_gateway). split.
  - eexists _, _. reflexivity.
  - apply reach_tick, reach_new.
Defined.

Example demo_metrics :
  metric_values (Metrics demo_gateway) !! 0%nat = Some ("regiongate_connections_active", 1) /\
  metric_values (Metrics demo_gateway) !! 5%nat = Some ("regiongate_connections_rejected_ip_total", 1) /\
  metric_values (Metrics demo_gateway) !! 13%nat = Some ("regiongate_botfilter_reload_failures_total", 1).
Proof. repeat split; vm_compute; reflexivity. Qed.

(** the gauges count what they name. In every reachable state, with limits in
    the range of an [int], the exported number of connections is the number of
    tracked connections, and neither it nor the number of sessions is ever above the
    configured maximum. *)
Theorem gauges_exact R config ts queue coordinator botFilter :
  sc_MaxConnections config < 2 ^ 63 ->
  let s := (run_steps R (Server.New config, ∅) ts).1 in
  let m := Metrics (mkGateway s queue coordinator botFilter) in
  ms_ActiveConnections m = Z.of_nat (size (conns s)) /\
  ms_ActiveConnections m <= or_default (sc_MaxConnections config) 10000 /\
  ms_Sessions m = SessionCount s /\ ms_Sessions m <= or_default (sc_MaxConnections config) 10000 /\
  (ms_BackendConfigured m = true <-> is_Some coordinator).
Proof.
  intros Hc s m. pose proof (run_steps_inv R _ ts _ (server_New_inv R config)) as [_ Hs Hb Hco _ (Hm1 & _) _ _ _].
  fold s in Hs, Hb, Hco, Hm1. set (st := (run_steps R (Server.New config, ∅) ts).2) in *.
  assert (Hsz : (size (conns s) <= size st)%nat).
  { rewrite Hco, <-size_dom. apply subseteq_size. unfold serving. apply dom_filter_subseteq. }
  assert (Hsub : (size (sessions s) <= size st)%nat).
  { etrans; [by apply subseteq_size|]. rewrite <-size_dom. apply subseteq_size. unfold held. apply dom_filter_subseteq. }
  cbn [with_defaults sc_MaxConnections] in Hb.
  assert (or_default (sc_MaxConnections config) 10000 < 2 ^ 63) by (unfold or_default; destruct (_ <=? 0); lia).
  assert (Hu : forall z, 0 <= z < 2 ^ 63 -> uint64 z = z) by (intros; apply uint64_small; unfold in_uint64; lia).
  unfold m, SessionCount. cbn. rewrite !Hu by (unfold SessionCount; lia). split_and!; try lia; try done; intros.
  - unfold SessionCount. lia.
  - apply bool_decide_eq_true.
Qed.

Lemma gauges_exact_witness :
  let m := Metrics (mkGateway demo_server None None None) in
  ms_ActiveConnections m = Z.of_nat (size (conns demo_server)) /\
  ms_ActiveConnections m <= or_default 2 10000 /\
  ms_Sessions m = SessionCount demo_server /\ ms_Sessions m <= or_default 2 10000 /\
  (ms_BackendConfigured m = true <-> is_Some (None : option Coordinator)).
Proof.
  apply (gauges_exact (fun _ => str "10.0.0.1:40000") (mkServerConfig 2 1 0 0 0 0 0 0 0 0 0 0 0)
    [SAccept 0; STrack 0; SClient 0; SSession 0; SAccept 1; STrack 1] None None None). done.
Defined.
