(* ===== verification/Shutdown.v ===== *)
(** * Serving and shutting down (internal/server/server.go: Serve, serveConn's
    deferred clean-up, closeConnections)

    The accept loop, the goroutine that waits for the context and the goroutines
    of the connections run concurrently. Every access to shared state is one step
    of [serve_step]; a connection is closed when it is in [w_closed]. *)

From S2P Require Import Prelude Ratelimit Server.

(** Where the accept loop is. *)
Inductive loop_pc : Type :=
| LAccept                        (* in listener.Accept *)
| LCheck (conn : nat)            (* accepted; before the context check *)
| LTrack (conn : nat)            (* holds a token of the semaphore *)
| LRecheck (conn : nat)          (* tracked; before the second context check *)
| LReturned (err : option error).

(** The goroutine started at the beginning of [Serve]. *)
Inductive closer_pc : Type :=
| KWait                          (* in select *)
| KListener                      (* the listener is closed *)
| KDone                          (* closeConnections has returned *)
| KExit.                         (* woken by shutdownDone *)

Record world := mkWorld {
  w_server : Server;
  w_stage : gmap nat stage;
  w_ctx : bool;                  (* ctx.Err() != nil *)
  w_listener : bool;             (* the listener is open *)
  w_closer : closer_pc;
  w_loop : loop_pc;
  w_closed : gset nat;
  w_seen : gset nat              (* connections ever accepted *)
}.

Definition set_loop (w : world) (s : Server) (st : gmap nat stage) (closed : gset nat) (pc : loop_pc) : world :=
  mkWorld s st (w_ctx w) (w_listener w) (w_closer w) pc closed (w_seen w).

Section shutdown.
Context (RemoteAddr : nat -> gostring).

(** [listener.Accept] failed. *)
Definition accept_failed (w : world) (err : error) : world :=
  set_loop w (w_server w) (w_stage w) (w_closed w)
    (LReturned (if w_ctx w || errors_Is err net_ErrClosed then None else Some err)).

(** The context check after [Accept], the counter and the semaphore. *)
Definition loop_check (w : world) (conn : nat) : world :=
  if w_ctx w then set_loop w (w_server w) (w_stage w) ({[conn]} ∪ w_closed w) (LReturned None)
  else match Serve_accept (w_server w) with
  | (true, s) => set_loop w s (<[conn := Accepting]> (w_stage w)) (w_closed w) (LTrack conn)
  | (false, s) => set_loop w s (w_stage w) ({[conn]} ∪ w_closed w) LAccept
  end.

Definition loop_track (w : world) (conn : nat) : world :=
  match Serve_track RemoteAddr (w_server w) conn with
  | (true, s) => set_loop w s (<[conn := Serving]> (w_stage w)) (w_closed w) (LRecheck conn)
  | (false, s) => set_loop w s (delete conn (w_stage w)) ({[conn]} ∪ w_closed w) LAccept
  end.

(** The second check, then the goroutine is started. *)
Definition loop_recheck (w : world) (conn : nat) : world :=
  set_loop w (w_server w) (w_stage w) (if w_ctx w then {[conn]} ∪ w_closed w else w_closed w) LAccept.

Definition closeConnections (w : world) : world :=
  mkWorld (w_server w) (w_stage w) (w_ctx w) (w_listener w) KDone (w_loop w) (conns (w_server w) ∪ w_closed w) (w_seen w).

(** A step of a connection's own goroutine. *)
Definition conn_step (w : world) (t : server_step) : world :=
  let '(s, st) := run_step RemoteAddr (w_server w, w_stage w) t in
  mkWorld s st (w_ctx w) (w_listener w) (w_closer w) (w_loop w) (w_closed w) (w_seen w).

(** The deferred [client.Close()], which runs before the deferred clean-up. *)
Definition conn_close (w : world) (conn : nat) : world :=
  mkWorld (w_server w) (w_stage w) (w_ctx w) (w_listener w) (w_closer w) (w_loop w) ({[conn]} ∪ w_closed w) (w_seen w).

Definition step_conn (t : server_step) : option nat :=
  match t with SAccept _ | STrack _ => None | SClient c | SSession c | SAdmission c | SLogin c _ | SCleanup c | SRelease c => Some c end.

Inductive serve_step : world -> world -> Prop :=
| step_cancel w :
    serve_step w (mkWorld (w_server w) (w_stage w) true (w_listener w) (w_closer w) (w_loop w) (w_closed w) (w_seen w))
| step_accept w conn :
    w_loop w = LAccept -> w_listener w = true -> conn ∉ w_seen w ->
    serve_step w (mkWorld (w_server w) (w_stage w) (w_ctx w) (w_listener w) (w_closer w) (LCheck conn) (w_closed w) ({[conn]} ∪ w_seen w))
| step_accept_error w err :
    w_loop w = LAccept -> (w_listener w = false -> err = net_ErrClosed) -> serve_step w (accept_failed w err)
| step_check w conn : w_loop w = LCheck conn -> serve_step w (loop_check w conn)
| step_track w conn : w_loop w = LTrack conn -> serve_step w (loop_track w conn)
| step_recheck w conn : w_loop w = LRecheck conn -> serve_step w (loop_recheck w conn)
| step_close_listener w :
    w_closer w = KWait -> w_ctx w = true ->
    serve_step w (mkWorld (w_server w) (w_stage w) (w_ctx w) false KListener (w_loop w) (w_closed w) (w_seen w))
| step_close_connections w : w_closer w = KListener -> serve_step w (closeConnections w)
| step_closer_exit w err :
    w_closer w = KWait -> w_loop w = LReturned err ->
    serve_step w (mkWorld (w_server w) (w_stage w) (w_ctx w) (w_listener w) KExit (w_loop w) (w_closed w) (w_seen w))
| step_conn_work w t conn :
    step_conn t = Some conn -> w_loop w <> LRecheck conn -> (t = SCleanup conn -> conn ∈ w_closed w) -> serve_step w (conn_step w t)
| step_conn_close w conn :
    w_loop w <> LRecheck conn -> w_stage w !! conn = Some Serving -> serve_step w (conn_close w conn).

Definition serve_start (config : ServerConfig) : world :=
  mkWorld (New config) ∅ false true KWait LAccept ∅ ∅.

(** [ListenAndServe]: bind, then serve. *)
Definition ListenAndServe (address : string) (listen : res unit) (config : ServerConfig) : res world :=
  match listen with
  | Err err => Err (ErrWrap ("listen " +:+ address) err)
  | Ok _ => Ok (serve_start config)
  end.

Definition in_loop (pc : loop_pc) : gset nat :=
  match pc with LCheck c | LTrack c | LRecheck c => {[c]} | _ => ∅ end.

Definition rechecked (pc : loop_pc) : gset nat := match pc with LRecheck c => {[c]} | _ => ∅ end.

(** ** Invariant *)

Record serve_inv (w : world) : Prop := {
  sv_no_leak : w_seen w ⊆ w_closed w ∪ conns (w_server w) ∪ in_loop (w_loop w);
  sv_tracked : rechecked (w_loop w) ⊆ conns (w_server w);
  sv_closer : w_closer w = KListener \/ w_closer w = KDone -> w_ctx w = true;
  sv_listener : w_listener w = false -> w_ctx w = true;
  sv_all_closed : w_closer w = KDone -> conns (w_server w) ⊆ w_closed w ∪ rechecked (w_loop w);
  sv_result : forall e, w_loop w = LReturned (Some e) -> errors_Is e net_ErrClosed = false
}.

(** ** Lemmas *)

Lemma Serve_accept_conns s : conns (Serve_accept s).2 = conns s.
Proof. unfold Serve_accept. by case_match. Qed.

Lemma Serve_track_conns s conn b s' :
  Serve_track RemoteAddr s conn = (b, s') -> conns s' = if b then {[conn]} ∪ conns s else conns s.
Proof.
  unfold Serve_track. destruct (track _ s conn) as [ok s1] eqn:E. unfold track in E.
  destruct (_ <=? _); simplify_eq; intros; simplify_eq; done.
Qed.

(** The goroutine of a connection only ever forgets that connection. *)
Lemma run_step_conns s st t s' st' :
  run_step RemoteAddr (s, st) t = (s', st') -> step_conn t <> None ->
  conns s' = conns s \/ exists c, t = SCleanup c /\ conns s' = conns s ∖ {[c]}.
Proof.
  destruct t; cbn [run_step step_conn]; intros E Hs; try done; [case_bool_decide; simplify_eq; cbn; by left..| |case_bool_decide; simplify_eq; cbn; by left].
  destruct (st !! conn) as [[| |[]|]|]; cbn in E; simplify_eq; cbn; eauto.
Qed.

Lemma serve_step_inv w w' : serve_inv w -> serve_step w w' -> serve_inv w'.
Proof.
  intros [Hl Ht Hk Hli Ha Hr] Hs.
  destruct Hs as [w|w conn Hpc Ho Hn|w err Hpc He|w conn Hpc|w conn Hpc|w conn Hpc|w Hc Hx|w Hc|w err Hc Hpc|w t conn Hsc Hpc Hnc|w conn Hpc Hst].
  - split; cbn; auto.
  - rewrite Hpc in *. split; cbn in *; auto; [clear -Hl; set_solver|done].
  - rewrite Hpc in *. split; cbn in *; auto. intros e [= E]. destruct (w_ctx w), (errors_Is err net_ErrClosed) eqn:Ee; cbn in E; by simplify_eq.
  - unfold loop_check. rewrite Hpc in *. cbn in *. pose proof (Serve_accept_conns (w_server w)) as Hcs. destruct (w_ctx w) eqn:Hx.
    + split; cbn; auto; [clear -Hl; set_solver|clear -Ha; set_solver|done].
    + destruct (Serve_accept (w_server w)) as [[] s]; cbn in Hcs; split; cbn; rewrite ?Hcs; auto; try done; try congruence.
      all: try (clear -Hl; set_solver). all: naive_solver.
  - unfold loop_track. rewrite Hpc in *. cbn in *.
    destruct (Serve_track _ (w_server w) conn) as [[] s] eqn:E; apply Serve_track_conns in E; split; cbn; rewrite ?E; auto; try done.
    all: clear -Hl Ha; set_solver.
  - unfold loop_recheck. rewrite Hpc in *. cbn in *. split; cbn; auto; try done.
    + clear -Hl Ht. destruct (w_ctx w); set_solver.
    + intros Hd. rewrite Hk by auto. specialize (Ha Hd). clear -Ha. set_solver.
  - split; cbn; auto; try done.
  - split; cbn; auto; [clear -Hl; set_solver|clear; set_solver].
  - split; cbn; auto; try done. intros [?|?]; done.
  - unfold conn_step. destruct (run_step _ _ t) as [s st] eqn:E. apply run_step_conns in E as [E|(c & -> & E)]; [| |by rewrite Hsc].
    + split; cbn; rewrite ?E; auto.
    + cbn in Hsc. injection Hsc as ->. specialize (Hnc eq_refl).
      assert (Hne : conn ∉ rechecked (w_loop w)) by (destruct (w_loop w); cbn; set_solver).
      split; cbn; rewrite ?E; auto; clear -Hl Ha Ht Hne Hnc; try set_solver.
      intros x Hx. destruct (decide (x = conn)); set_solver.
  - split; cbn; auto; clear -Hl Ha; set_solver.
Qed.

Lemma serve_start_inv config : serve_inv (serve_start config).
Proof. split; cbn; try done; set_solver. Qed.

Lemma serve_reachable_inv config w : rtc serve_step (serve_start config) w -> serve_inv w.
Proof.
  intros Hr. remember (serve_start config) as w0 eqn:E. assert (serve_inv w0) as Hi by (subst; apply serve_start_inv).
  clear E. induction Hr as [w|w w1 w2 Hs _ IH]; [done|]. apply IH. by eapply serve_step_inv.
Qed.

(** The watching goroutine leaves early only when [Serve] has returned. *)
Lemma serve_reachable_exit config w :
  rtc serve_step (serve_start config) w -> w_closer w = KExit -> exists r, w_loop w = LReturned r.
Proof.
  intros Hr. remember (serve_start config) as w0 eqn:E. assert (H0 : w_closer w0 = KExit -> exists r, w_loop w0 = LReturned r) by (by subst).
  clear E. induction Hr as [w|w w1 w2 Hs _ IH]; [done|]. apply IH. clear IH.
  destruct Hs as [w|w conn Hpc Ho Hn|w err Hpc He|w conn Hpc|w conn Hpc|w conn Hpc|w Hc Hx|w Hc|w err Hc Hpc|w t conn Hsc Hpc Hnc|w conn Hpc Hst];
    try rewrite Hpc in H0; cbn; eauto; try done.
  - intros Hk. by destruct (H0 Hk).
  - unfold loop_check. repeat case_match; cbn; intros Hk; by destruct (H0 Hk).
  - unfold loop_track. repeat case_match; cbn; intros Hk; by destruct (H0 Hk).
  - intros Hk. by destruct (H0 Hk).
  - unfold conn_step. by destruct (run_step _ _ t).
Qed.

(** ** The accounting model *)

(** The server part of a world is a state of the accounting model of Server.v. *)
Record accounted (config : ServerConfig) (w : world) : Prop := {
  ac_run : exists ts, run_steps RemoteAddr (New config, ∅) ts = (w_server w, w_stage w);
  ac_seen : dom (w_stage w) ⊆ w_seen w;
  ac_loop : match w_loop w with
            | LCheck c => c ∈ w_seen w /\ w_stage w !! c = None
            | LTrack c => w_stage w !! c = Some Accepting
            | _ => True
            end
}.

Lemma run_steps_snoc w ts t :
  run_steps RemoteAddr w (ts ++ [t]) = run_step RemoteAddr (run_steps RemoteAddr w ts) t.
Proof. unfold run_steps. by rewrite foldl_app. Qed.

(** Steps of a connection's goroutine leave the stages of other connections alone
    and never touch one that is not served yet. *)
Lemma run_step_stage s st t s' st' c :
  run_step RemoteAddr (s, st) t = (s', st') -> step_conn t <> None ->
  dom st' ⊆ dom st /\ (st !! c = Some Accepting -> st' !! c = Some Accepting).
Proof.
  destruct t; cbn [run_step step_conn]; intros E Hs; try done; try (case_bool_decide as Hc; simplify_eq; done).
  - assert (Hx : s' = s /\ st' = st \/ exists g, st !! conn <> Some Accepting /\ is_Some (st !! conn) /\ st' = <[conn := g]> st).
    { destruct (st !! conn) as [[| |d|]|] eqn:Es; try (simplify_eq; by left).
      - cbn in E. simplify_eq. right. eauto.
      - destruct (serveConn_cleanup _ _ _ d). simplify_eq. right. eauto. }
    destruct Hx as [[-> ->]|(g & H1 & H2 & ->)]; [done|].
    split; [by rewrite dom_insert_lookup_L|]. intros H. rewrite lookup_insert_ne; [done|]. congruence.
  - case_bool_decide as Hc; simplify_eq; [|done].
    split; [rewrite dom_delete_L; set_solver|]. intros H. rewrite lookup_delete_ne; [done|]. congruence.
Qed.

Lemma serve_step_accounted config w w' : accounted config w -> serve_step w w' -> accounted config w'.
Proof.
  intros [[ts Hts] Hse Hlo] Hs. destruct Hs as [w|w conn Hpc Ho Hn|w err Hpc He|w conn Hpc|w conn Hpc|w conn Hpc|w Hc Hx|w Hc|w err Hc Hpc|w t conn Hsc Hpc Hnc|w conn Hpc Hst];
    try (split; cbn; [by exists ts|done|by rewrite ?Hpc in *]; fail).
  - split; cbn; [by exists ts|set_solver|]. split; [set_solver|]. apply not_elem_of_dom. set_solver.
  - rewrite Hpc in Hlo. destruct Hlo as [Hin Hno]. unfold loop_check.
    destruct (w_ctx w); [split; cbn; [by exists ts|done|done]|].
    destruct (Serve_accept (w_server w)) as [[] s] eqn:Ea; split; cbn; try done.
    1, 4: exists (ts ++ [SAccept conn]); by rewrite run_steps_snoc, Hts; cbn [run_step]; rewrite Hno, Ea.
    + rewrite dom_insert_L. set_solver.
    + apply lookup_insert_eq.
  - rewrite Hpc in Hlo. unfold loop_track.
    destruct (Serve_track _ (w_server w) conn) as [[] s] eqn:Ea; split; cbn; try done.
    1, 3: exists (ts ++ [STrack conn]); by rewrite run_steps_snoc, Hts; cbn [run_step]; rewrite bool_decide_true, Ea by done.
    + rewrite dom_insert_lookup_L by eauto. done.
    + rewrite dom_delete_L. set_solver.
  - unfold conn_step. destruct (run_step _ _ t) as [s st] eqn:E. cbn. split; cbn.
    + exists (ts ++ [t]). by rewrite run_steps_snoc, Hts.
    + destruct (run_step_stage _ _ _ _ _ 0%nat E) as [Hd _]; [by rewrite Hsc|]. set_solver.
    + destruct (w_loop w) as [|c|c|c|]; try done; destruct (run_step_stage _ _ _ _ _ c E) as [Hd Ha]; try (by rewrite Hsc); [|auto].
      destruct Hlo as [Hin Hno]. split; [done|]. apply not_elem_of_dom. apply not_elem_of_dom in Hno. set_solver.
Qed.

Lemma serve_reachable_accounted config w : rtc serve_step (serve_start config) w -> accounted config w.
Proof.
  intros Hr. remember (serve_start config) as w0 eqn:E. assert (accounted config w0) as Hi.
  { subst. split; cbn; [by exists []|set_solver|done]. }
  clear E. induction Hr as [w|w w1 w2 Hs _ IH]; [done|]. apply IH. by eapply serve_step_accounted.
Qed.
End shutdown.

(** How many more steps of the accept loop there can be without a new connection. *)
Definition loop_rank (pc : loop_pc) : nat :=
  match pc with LReturned _ => 0 | LAccept => 1 | LRecheck _ => 2 | LTrack _ => 3 | LCheck _ => 4 end.

(** A closed listener stays closed, and the accept loop only gets closer to its
    end. *)
Lemma closed_listener_step RemoteAddr w w' :
  w_listener w = false -> serve_step RemoteAddr w w' ->
  w_listener w' = false /\ (w_loop w' = w_loop w \/ (loop_rank (w_loop w') < loop_rank (w_loop w))%nat).
Proof.
  intros Ho Hs.
  inversion Hs as [|? conn Hpc Hop|? err Hpc|? conn Hpc|? conn Hpc|? conn Hpc| | | |? t conn Hsc|? conn Hpc Hst]; subst; cbn; rewrite ?Hpc; cbn;
    try (split; [done|]; auto; fail); try congruence.
  - unfold loop_check. repeat case_match; cbn; auto with lia.
  - unfold loop_track. repeat case_match; cbn; auto with lia.
  - unfold conn_step. destruct (run_step _ _ t). auto.
Qed.

(** The loop can take a step of its own towards its end; it does not end the context. *)
Lemma closed_listener_progress RemoteAddr w :
  w_listener w = false ->
  (exists r, w_loop w = LReturned r) \/
  exists w', serve_step RemoteAddr w w' /\ (loop_rank (w_loop w') < loop_rank (w_loop w) <= 4)%nat /\
    w_ctx w' = w_ctx w /\ w_closer w' = w_closer w.
Proof.
  intros Ho. destruct (w_loop w) as [|c|c|c|r] eqn:E; [| | | |by left; exists r]; right.
  - exists (accept_failed w net_ErrClosed). split; [by apply step_accept_error|]. cbn. split_and!; try done; lia.
  - exists (loop_check w c). split; [by apply step_check|]. unfold loop_check. repeat case_match; cbn; split_and!; try done; lia.
  - exists (loop_track RemoteAddr w c). split; [by apply step_track|]. unfold loop_track. repeat case_match; cbn; split_and!; try done; lia.
  - exists (loop_recheck w c). split; [by apply step_recheck|]. cbn. split_and!; try done; lia.
Qed.

(** ** Properties *)

(** C19: no connection is lost, and shutting down closes them. Under any
    interleaving of the accept loop, the goroutine watching the context and the
    connections' own goroutines: every connection ever accepted is closed, tracked
    (and served by its goroutine) or in the hands of the accept loop. Once the
    watching goroutine has run to its end, every tracked connection is closed,
    except one the loop has just tracked and is about to close, so that when the
    loop has returned as well every accepted connection is closed. When the context
    has ended the watching goroutine gets there in at most two steps of its own,
    unless it left because [Serve] had returned before it looked at the context
    (which can leave connections open: [shutdown_race]). The error returned is
    never that of the closed listener. The server's accounting goes through the
    states of the accounting model. *)
Theorem shutdown_closes_connections RemoteAddr config w :
  rtc (serve_step RemoteAddr) (serve_start config) w ->
  (w_seen w ⊆ w_closed w ∪ conns (w_server w) ∪ in_loop (w_loop w)) /\
  (w_closer w = KDone -> conns (w_server w) ⊆ w_closed w ∪ rechecked (w_loop w)) /\
  (forall r, w_closer w = KDone -> w_loop w = LReturned r -> w_seen w ⊆ w_closed w) /\
  (w_closer w = KExit -> exists r, w_loop w = LReturned r) /\
  (w_ctx w = true -> w_closer w <> KExit ->
     exists n w', (n <= 2)%nat /\ nsteps (serve_step RemoteAddr) n w w' /\ w_closer w' = KDone /\
       w_loop w' = w_loop w /\ w_closed w' ⊆ w_closed w ∪ conns (w_server w)) /\
  (forall e, w_loop w = LReturned (Some e) -> errors_Is e net_ErrClosed = false) /\
  (exists ts, run_steps RemoteAddr (New config, ∅) ts = (w_server w, w_stage w)).
Proof.
  intros Hr. destruct (serve_reachable_inv _ _ _ Hr) as [Hl _ _ _ Ha Hres].
  destruct (serve_reachable_accounted _ _ _ Hr) as [Hts _ _]. pose proof (serve_reachable_exit _ _ _ Hr) as Hex. split_and!; try done.
  - intros r Hd Hpc. specialize (Ha Hd). rewrite Hpc in Hl, Ha. clear -Hl Ha. set_solver.
  - intros Hc Hx. destruct (w_closer w) eqn:E; [| | |done].
    + set (w1 := mkWorld (w_server w) (w_stage w) (w_ctx w) false KListener (w_loop w) (w_closed w) (w_seen w)).
      exists 2%nat, (closeConnections w1). split_and!; [done| |done|done|cbn; set_solver].
      eapply nsteps_l; [exact (step_close_listener _ w E Hc)|]. eapply nsteps_l; [exact (step_close_connections _ w1 eq_refl)|constructor].
    + exists 1%nat, (closeConnections w). split_and!; [lia| |done|done|cbn; set_solver]. apply nsteps_once. by apply step_close_connections.
    + exists 0%nat, w. split_and!; [lia|constructor|done|done|set_solver].
Qed.

(** [Serve] returns on shutdown. Once the listener is closed no step of any
    goroutine reopens it or moves the accept loop away from returning, and as
    long as the loop has not returned it can take a step that brings it closer;
    at most four such steps remain, so under any fair schedule it returns. *)
Theorem serve_returns RemoteAddr w :
  w_listener w = false ->
  (forall w', serve_step RemoteAddr w w' ->
     w_listener w' = false /\ (w_loop w' = w_loop w \/ (loop_rank (w_loop w') < loop_rank (w_loop w))%nat)) /\
  ((exists r, w_loop w = LReturned r) \/
   exists w', serve_step RemoteAddr w w' /\ (loop_rank (w_loop w') < loop_rank (w_loop w) <= 4)%nat).
Proof.
  intros Ho. split; [intros w'; by apply closed_listener_step|].
  destruct (closed_listener_progress RemoteAddr w Ho) as [|(w' & Hs & Hr & _)]; [by left|right]. by exists w'.
Qed.

(** The race at the end of [Serve]: when the context ends while a connection is
    being accepted, the loop may return before the watching goroutine has looked
    at the context; that goroutine can then leave through [shutdownDone], and the
    connections that were being served are never closed. *)
Lemma shutdown_race RemoteAddr :
  exists w, rtc (serve_step RemoteAddr) (serve_start (mkServerConfig 0 0 0 0 0 0 0 0 0 0 0 0 0)) w /\
    w_ctx w = true /\ w_closer w = KExit /\ w_loop w = LReturned None /\
    (0%nat ∈ conns (w_server w)) /\ (0%nat ∉ w_closed w) /\
    forall w', rtc (serve_step RemoteAddr) w w' -> w_closer w' = KExit.
Proof.
  set (step := serve_step RemoteAddr). set (w0 := serve_start _).
  set (w1 := mkWorld (w_server w0) ∅ false true KWait (LCheck 0) ∅ ({[0%nat]} ∪ ∅)).
  set (w2 := loop_check w1 0). set (w3 := loop_track RemoteAddr w2 0).
  set (w4 := loop_recheck w3 0).
  set (w5 := mkWorld (w_server w4) (w_stage w4) true true KWait LAccept (w_closed w4) (w_seen w4)).
  set (w6 := mkWorld (w_server w5) (w_stage w5) true true KWait (LCheck 1) (w_closed w5) ({[1%nat]} ∪ w_seen w5)).
  set (w7 := loop_check w6 1).
  set (w8 := mkWorld (w_server w7) (w_stage w7) true true KExit (LReturned None) (w_closed w7) (w_seen w7)).
  exists w8. split_and!; try done.
  - eapply rtc_l; [apply (step_accept _ w0 0); [done|done|set_solver]|].
    eapply rtc_l; [exact (step_check _ w1 0 eq_refl)|]. eapply rtc_l; [exact (step_track _ w2 0 eq_refl)|].
    eapply rtc_l; [exact (step_recheck _ w3 0 eq_refl)|]. eapply rtc_l; [exact (step_cancel _ w4)|].
    eapply rtc_l; [apply (step_accept _ w5 1); [done|done|cbn; set_solver]|].
    eapply rtc_l; [exact (step_check _ w6 1 eq_refl)|]. apply rtc_once. exact (step_closer_exit _ w7 None eq_refl eq_refl).
  - intros w' Hr. assert (He : w_closer w8 = KExit) by done. clearbody w8. induction Hr as [w|w wa wb Hs _ IH]; [done|].
    apply IH. inversion Hs; subst; try done; cbn; try congruence.
    + unfold loop_check. by repeat case_match.
    + unfold loop_track. by repeat case_match.
    + unfold conn_step. by destruct (run_step _ _ _).
Qed.

(** A shutdown with one connection being served. *)
Definition demo_host : nat -> gostring := fun _ => str "10.0.0.1:40000".
Definition demo_served : world :=
  let w0 := serve_start (mkServerConfig 0 0 0 0 0 0 0 0 0 0 0 0 0) in
  let w1 := mkWorld (w_server w0) ∅ false true KWait (LCheck 0) ∅ ({[0%nat]} ∪ ∅) in
  loop_recheck (loop_track demo_host (loop_check w1 0) 0) 0.
Definition demo_closing : world :=
  mkWorld (w_server demo_served) (w_stage demo_served) true false KListener LAccept (w_closed demo_served) (w_seen demo_served).
Definition demo_final : world := accept_failed (closeConnections demo_closing) net_ErrClosed.

Lemma demo_final_reachable :
  rtc (serve_step demo_host) (serve_start (mkServerConfig 0 0 0 0 0 0 0 0 0 0 0 0 0)) demo_final.
Proof.
  set (w0 := serve_start _). set (w1 := mkWorld (w_server w0) ∅ false true KWait (LCheck 0) ∅ ({[0%nat]} ∪ ∅)).
  eapply rtc_l; [apply (step_accept _ w0 0); [done|done|set_solver]|].
  eapply rtc_l; [exact (step_check _ w1 0 eq_refl)|].
  eapply rtc_l; [exact (step_track _ (loop_check w1 0) 0 eq_refl)|].
  eapply rtc_l; [exact (step_recheck _ (loop_track demo_host (loop_check w1 0) 0) 0 eq_refl)|].
  eapply rtc_l; [exact (step_cancel _ demo_served)|].
  eapply rtc_l; [apply step_close_listener; done|].
  eapply rtc_l; [exact (step_close_connections _ demo_closing eq_refl)|].
  apply rtc_once. by apply step_accept_error.
Qed.

Lemma shutdown_closes_connections_witness :
  w_loop demo_final = LReturned None /\ w_closer demo_final = KDone /\
  w_seen demo_final = {[0%nat]} /\ w_seen demo_final ⊆ w_closed demo_final.
Proof.
  split_and!; [done|done|vm_compute; reflexivity|].
  apply (shutdown_closes_connections demo_host _ demo_final demo_final_reachable) with (r := None); done.
Defined.

Lemma serve_returns_witness :
  (exists r, w_loop demo_closing = LReturned r) \/
  exists w', serve_step demo_host demo_closing w' /\ (loop_rank (w_loop w') < loop_rank (w_loop demo_closing) <= 4)%nat.
Proof. apply (serve_returns demo_host demo_closing). reflexivity. Defined.
