(* ===== verification/Goroutines.v ===== *)
(** * Helper goroutines (internal/backend/context.go: interruptOnDone;
    internal/server/server.go: prepareTransfer, Admit)

    Small concurrent protocols as step relations: the steps of the goroutine, of
    its caller and of the environment interleave freely. *)

From S2P Require Import Prelude Session Link Transfer Server.

(** ** interruptOnDone *)

Module Interrupt.

(** The function given to [context.AfterFunc]: armed, stopped before it started,
    running [interrupt], or finished with [done] closed. *)
Inductive func_pc : Type := FArmed | FStopped | FRunning | FFinished.

(** The caller of the returned function: not called yet, blocked on [<-done], or
    past [once.Do]. *)
Inductive caller_pc : Type := CBefore | CWaiting | CReturned.

Record interrupt_state := mkState {
  ctx_done : bool;
  func : func_pc;
  caller : caller_pc;
  interrupts : nat               (* calls of [interrupt] so far *)
}.

Inductive interrupt_step : interrupt_state -> interrupt_state -> Prop :=
| step_cancel s : interrupt_step s (mkState true (func s) (caller s) (interrupts s))
| step_start s :
    ctx_done s = true -> func s = FArmed -> interrupt_step s (mkState (ctx_done s) FRunning (caller s) (interrupts s))
| step_interrupt s :
    func s = FRunning -> interrupt_step s (mkState (ctx_done s) FFinished (caller s) (S (interrupts s)))
| step_stop s :     (* [stop()] returns true: the function was still armed *)
    caller s = CBefore -> func s = FArmed -> interrupt_step s (mkState (ctx_done s) FStopped CReturned (interrupts s))
| step_stop_late s :     (* [stop()] returns false *)
    caller s = CBefore -> func s <> FArmed -> interrupt_step s (mkState (ctx_done s) (func s) CWaiting (interrupts s))
| step_done s :
    caller s = CWaiting -> func s = FFinished -> interrupt_step s (mkState (ctx_done s) (func s) CReturned (interrupts s))
| step_again s : caller s = CReturned -> interrupt_step s s.     (* [once.Do] does nothing *)

Definition start (ctx : bool) : interrupt_state := mkState ctx FArmed CBefore 0.

Definition inv (s : interrupt_state) : Prop :=
  match func s with
  | FArmed => interrupts s = 0%nat /\ caller s = CBefore
  | FStopped => interrupts s = 0%nat /\ caller s = CReturned
  | FRunning => interrupts s = 0%nat /\ caller s <> CReturned
  | FFinished => interrupts s = 1%nat
  end.

Lemma step_inv s s' : inv s -> interrupt_step s s' -> inv s'.
Proof.
  unfold inv. intros Hi Hs. destruct Hs as [s|s Hx Hf|s Hf|s Hc Hf|s Hc Hf|s Hc Hf|s Hc]; cbn; try done.
  - by rewrite Hf in Hi; destruct Hi as [Hi Hc]; rewrite Hc.
  - by rewrite Hf in Hi; destruct Hi as [-> _].
  - by rewrite Hf in Hi; destruct Hi.
  - revert Hi Hf. rewrite Hc. destruct (func s); naive_solver.
  - by rewrite Hf in Hi |- *.
Qed.

Lemma reachable_inv ctx s : rtc interrupt_step (start ctx) s -> inv s.
Proof.
  intros Hr. remember (start ctx) as s0 eqn:E. assert (inv s0) as Hi by (by subst).
  clear E. induction Hr as [s|s s1 s2 Hs _ IH]; [done|]. apply IH. by eapply step_inv.
Qed.

Lemma returned_stable s s' : inv s -> caller s = CReturned -> rtc interrupt_step s s' ->
  caller s' = CReturned /\ func s' = func s /\ interrupts s' = interrupts s.
Proof.
  intros Hi Hc Hr. induction Hr as [s|s s1 s2 Hs _ IH]; [done|].
  assert (caller s1 = CReturned /\ func s1 = func s /\ interrupts s1 = interrupts s) as (H1 & H2 & H3).
  { unfold inv in Hi. inversion Hs as [|? Hx Hf|? Hf|? Hb Hf|? Hb Hf|? Hb Hf|]; subst; cbn; try done; try congruence.
    all: rewrite Hf in Hi; destruct Hi; congruence. }
  destruct (IH (step_inv _ _ Hi Hs) H1) as (? & ? & ?). split_and!; congruence.
Qed.
End Interrupt.

(** C33: once the function returned by [interruptOnDone] has returned, the
    interrupt is over. Under any interleaving with the end of the context the
    interrupt runs at most once; when the caller has been let go it has either run
    to its end or never will, so a read deadline cleared after that stays
    cleared; and the caller only ever waits for an interrupt that is running. *)
Theorem interrupt_over_when_stopped ctx s s' :
  rtc Interrupt.interrupt_step (Interrupt.start ctx) s -> rtc Interrupt.interrupt_step s s' ->
  (Interrupt.interrupts s' <= 1)%nat /\
  (Interrupt.caller s = Interrupt.CReturned -> Interrupt.interrupts s' = Interrupt.interrupts s) /\
  (Interrupt.caller s = Interrupt.CWaiting ->
   Interrupt.func s = Interrupt.FRunning \/ Interrupt.func s = Interrupt.FFinished).
Proof.
  intros Hr Hr'. pose proof (Interrupt.reachable_inv _ _ Hr) as Hi.
  pose proof (Interrupt.reachable_inv ctx s' ltac:(by etrans)) as Hi'. split_and!.
  - unfold Interrupt.inv in Hi'. revert Hi'. destruct (Interrupt.func s'); naive_solver lia.
  - intros Hc. by destruct (Interrupt.returned_stable _ _ Hi Hc Hr') as (_ & _ & ->).
  - intros Hc. unfold Interrupt.inv in Hi. revert Hi. rewrite Hc. destruct (Interrupt.func s); naive_solver.
Qed.

Lemma interrupt_over_when_stopped_witness :
  let s := Interrupt.mkState true Interrupt.FStopped Interrupt.CReturned 0 in
  (Interrupt.interrupts s <= 1)%nat /\
  (Interrupt.caller s = Interrupt.CReturned -> Interrupt.interrupts s = Interrupt.interrupts s) /\
  (Interrupt.caller s = Interrupt.CWaiting -> Interrupt.func s = Interrupt.FRunning \/ Interrupt.func s = Interrupt.FFinished).
Proof.
  set (s1 := Interrupt.mkState false Interrupt.FStopped Interrupt.CReturned 0).
  apply (interrupt_over_when_stopped false (Interrupt.mkState true Interrupt.FStopped Interrupt.CReturned 0)
    (Interrupt.mkState true Interrupt.FStopped Interrupt.CReturned 0)); [|reflexivity].
  eapply rtc_l; [apply (Interrupt.step_stop (Interrupt.start false)); reflexivity|].
  apply rtc_once. exact (Interrupt.step_cancel s1).
Defined.

(** ** prepareTransfer *)

(** The goroutine: in [prepare]; at the select with its outcome, a prepared
    transfer or an error; the outcome was received; the outcome was dropped. *)
Inductive prepare_pc : Type :=
| PRunning
| PSelect (o : res tworld)
| PSent (o : res tworld)
| PGone (o : res tworld).

(** [pt_ctx]: the context derived from the request is done, because the request
    or the session ended. [pt_receiver]: the session loop still reads the channel. *)
Record prepare_state := mkPrepareState { pt_ctx : bool; pt_receiver : bool; pt_pc : prepare_pc }.

(** What others do to a prepared transfer that was not handed over yet: the timer
    of the barrier fires, the session loop feeds client packets to the barrier. *)
Definition meanwhile (a : atomic) : bool :=
  match a with ATimeout | AInput _ | AAdvanceStart | AAdvanceReady => true | _ => false end.

Inductive prepare_step (w0 : res tworld) : prepare_state -> prepare_state -> Prop :=
| prep_cancel s : prepare_step w0 s (mkPrepareState true (pt_receiver s) (pt_pc s))
| prep_leave s : prepare_step w0 s (mkPrepareState true false (pt_pc s))     (* the session ends *)
| prep_prepared s : pt_pc s = PRunning -> prepare_step w0 s (mkPrepareState (pt_ctx s) (pt_receiver s) (PSelect w0))
| prep_meanwhile s w a w' :
    pt_pc s = PSelect (Ok w) -> meanwhile a = true -> run_atomic w a = Some w' ->
    prepare_step w0 s (mkPrepareState (pt_ctx s) (pt_receiver s) (PSelect (Ok w')))
| prep_send s o :
    pt_pc s = PSelect o -> pt_receiver s = true -> prepare_step w0 s (mkPrepareState (pt_ctx s) (pt_receiver s) (PSent o))
| prep_drop s w w' :
    pt_pc s = PSelect (Ok w) -> pt_ctx s = true -> run_atomic w ARollback = Some w' ->
    prepare_step w0 s (mkPrepareState (pt_ctx s) (pt_receiver s) (PGone (Ok w')))
| prep_drop_error s err :
    pt_pc s = PSelect (Err err) -> pt_ctx s = true ->
    prepare_step w0 s (mkPrepareState (pt_ctx s) (pt_receiver s) (PGone (Err err))).

Definition prepare_start : prepare_state := mkPrepareState false true PRunning.

(** A prepared transfer stays well-formed in the hands of the goroutine, and
    dropping it undoes it. *)
Definition prepare_inv (b0 : barrierState) (packets : list (list byte)) (s : prepare_state) : Prop :=
  match pt_pc s with
  | PRunning => True
  | PSelect (Ok w) | PSent (Ok w) => transfer_inv b0 packets w /\ ~ Exists (fun ev => exists r, ev = EvRelease (Ok r)) (tw_log w)
  | PGone (Ok w) => tw_session w = mkSession StateLimboPlay None /\ lk_closed (tw_conn w) = true /\ pp_finalized (tw_prepared w) = true
  | PSelect (Err _) | PSent (Err _) | PGone (Err _) => True
  end.

Definition released (log : list event) : Prop := Exists (fun ev => exists r, ev = EvRelease (Ok r)) log.

Lemma released_snoc log ev : released (log ++ [ev]) <-> released log \/ exists r, ev = EvRelease (Ok r).
Proof. unfold released. rewrite Exists_app, Exists_cons, Exists_nil. tauto. Qed.

(** The environment never releases the transfer. *)
Lemma meanwhile_unreleased w a w' :
  meanwhile a = true -> run_atomic w a = Some w' -> ~ released (tw_log w) -> ~ released (tw_log w').
Proof.
  intros Hm E Hn. assert (Hl : exists ev, tw_log w' = tw_log w ++ [ev] /\ ~ exists r, ev = EvRelease (Ok r)).
  { destruct a; try done; cbn [run_atomic] in E.
    - unfold Prepared_timeout in E. repeat case_match; cbn in E; simplify_eq; cbn; eexists; split; try done; by intros [].
    - destruct (HandleBarrierInput _ _) as [[d e] s0]. simplify_eq. cbn. eexists. split; [done|by intros []].
    - destruct (AdvanceBarrier _ _). simplify_eq. cbn. eexists. split; [done|by intros []].
    - destruct (AdvanceBarrier _ _). simplify_eq. cbn. eexists. split; [done|by intros []]. }
  destruct Hl as (ev & -> & Hev). rewrite released_snoc. tauto.
Qed.

(** Rolling back a transfer that was not released leaves it undone. *)
Lemma rollback_undoes b0 packets w w' :
  transfer_inv b0 packets w -> ~ released (tw_log w) -> run_atomic w ARollback = Some w' ->
  tw_session w' = mkSession StateLimboPlay None /\ lk_closed (tw_conn w') = true /\ pp_finalized (tw_prepared w') = true.
Proof.
  intros Hi Hn E. cbn [run_atomic] in E. destruct (transfer_inv_rollback _ _ _ Hi) as (e & w1 & Hr & Hi1 & _).
  rewrite Hr in E. cbn in E. injection E as <-. cbn.
  assert (Hn1 : ~ released (tw_log (logged (EvRollback e) w1))).
  { cbn. assert (tw_log w1 = tw_log w) as ->.
    { unfold Rollback in Hr. case_match; [by simplify_eq|]. case_match; [|done]. by destruct (RollbackTransfer _); simplify_eq. }
    rewrite released_snoc. intros [|[r ?]]; done. }
  assert (Hf1 : pp_finalized (tw_prepared w1) = true).
  { unfold Rollback in Hr. destruct (pp_finalized (tw_prepared w)) eqn:Hf; [by simplify_eq|]. case_match; [|done]. by destruct (RollbackTransfer _); simplify_eq. }
  destruct Hi1 as [k ? ? Hp|pre post Hl|pre ev post fe Hl ? ? ? Hs Hp Hc]; cbn in *; [by rewrite Hp in Hf1| |done].
  destruct Hn1. rewrite Hl. unfold released. apply Exists_app. right. apply Exists_cons_hd. eauto.
Qed.

Lemma prepare_step_inv b0 packets w0 s s' :
  match w0 with Ok w => transfer_inv b0 packets w /\ ~ released (tw_log w) | Err _ => True end ->
  prepare_inv b0 packets s -> prepare_step w0 s s' -> prepare_inv b0 packets s'.
Proof.
  intros H0 Hi Hs. unfold prepare_inv in *. destruct Hs as [s|s|s Hpc|s w a w' Hpc Hm E|s o Hpc Hr|s w w' Hpc Hx E|s err Hpc Hx]; cbn; try done.
  - rewrite Hpc in Hi. destruct Hi as [Hi Hn]. destruct (transfer_inv_atomic _ _ _ a Hi) as (w1 & E1 & Hi1 & _).
    rewrite E in E1. simplify_eq. split; [done|]. by eapply meanwhile_unreleased.
  - by rewrite Hpc in Hi.
  - rewrite Hpc in Hi. destruct Hi as [Hi Hn]. by eapply rollback_undoes.
Qed.

Lemma prepare_reachable_inv b0 packets w0 s :
  match w0 with Ok w => transfer_inv b0 packets w /\ ~ released (tw_log w) | Err _ => True end ->
  rtc (prepare_step w0) prepare_start s -> prepare_inv b0 packets s.
Proof.
  intros H0 Hr. remember prepare_start as s0 eqn:E. assert (prepare_inv b0 packets s0) as Hi by (by subst).
  clear E. induction Hr as [s|s s1 s2 Hs _ IH]; [done|]. apply IH. by eapply prepare_step_inv.
Qed.

(** The goroutine's outcome never changes once it is sent or dropped. *)
Definition settled (s : prepare_state) : bool := match pt_pc s with PSent _ | PGone _ => true | _ => false end.

Lemma settled_stable w0 s s' : prepare_step w0 s s' -> settled s = true -> pt_pc s' = pt_pc s.
Proof. unfold settled. intros []; cbn; try done; intros Hx; by rewrite H in Hx. Qed.

(** ** Admit *)

(** The two selects of [Admit]: whether the session loop took the request, and
    what came first afterwards. *)
Inductive admit_wait : Type :=
| AwAnswer (err : option error)     (* from the request's result channel *)
| AwContext (err : error).
Inductive admit_send : Type :=
| AsTaken (wait : admit_wait)
| AsContext (err : error).

Definition Admit (s : Server) (conn : nat) (send : admit_send) : option error :=
  if bool_decide (conn ∈ admissions s) then
    match send with
    | AsContext err => Some err
    | AsTaken (AwAnswer err) => err
    | AsTaken (AwContext err) => Some err
    end
  else Some ErrNotInLimbo.

(** ** Properties *)

(** C21: a prepared transfer is never lost between the preparing goroutine and the
    session loop. Whenever the request or the session ends, and whatever the
    barrier timer and client packets do meanwhile, the outcome is either handed
    to the loop once or dropped; a transfer that is dropped has been undone: its
    backend connection is closed and the session is back in Limbo; one that is
    handed over is still open or was undone by its timer. The goroutine is never
    stuck: as soon as the request or the session is over it can finish. *)
Theorem prepared_transfer_not_lost foreign json c env s identity olds p s' c' conn client st :
  Prepare foreign json c env s identity olds = (Ok p, s', c', Some conn) ->
  let w0 := prepared_world s' conn p client in
  rtc (prepare_step (Ok w0)) prepare_start st ->
  (forall w, pt_pc st = PGone (Ok w) ->
     tw_session w = mkSession StateLimboPlay None /\ lk_closed (tw_conn w) = true /\ pp_finalized (tw_prepared w) = true) /\
  (forall w, pt_pc st = PSent (Ok w) ->
     pp_finalized (tw_prepared w) = false /\ lk_closed (tw_conn w) = false /\ state (tw_session w) = StateTransferBarrier \/
     pp_finalized (tw_prepared w) = true /\ lk_closed (tw_conn w) = true /\ tw_session w = mkSession StateLimboPlay None) /\
  (settled st = true -> forall st', rtc (prepare_step (Ok w0)) st st' -> pt_pc st' = pt_pc st) /\
  (settled st = false -> pt_ctx st = true -> pt_pc st <> PRunning ->
     exists st', prepare_step (Ok w0) st st' /\ settled st' = true).
Proof.
  intros HP w0 Hr. pose proof (prepared_world_inv _ _ _ _ _ _ _ _ _ _ _ client HP) as Hi0.
  assert (H0 : transfer_inv (handle_all (newBarrier (pe_now env) olds (tc_MaxPendingCommands (co_config c))) (env_inputs env))
    (pp_packets p) w0 /\ ~ released (tw_log w0)) by (split; [done|intros H; inversion H]).
  pose proof (prepare_reachable_inv _ _ (Ok w0) st H0 Hr) as Hi. unfold prepare_inv in Hi. split_and!.
  - intros w E. by rewrite E in Hi.
  - intros w E. rewrite E in Hi. destruct Hi as [[k ? Hs Hp Hc|pre post Hl|pre ev post fe Hl ? ? ? Hs Hp Hc] Hn].
    + left. by rewrite Hs, Hp.
    + destruct Hn. rewrite Hl. apply Exists_app. right. apply Exists_cons_hd. eauto.
    + right. by rewrite Hs, Hp.
  - intros Hset st' Hst. clear -Hset Hst. induction Hst as [|a b d Hab _ IH]; [done|].
    pose proof (settled_stable _ _ _ Hab Hset) as E. rewrite <-E. apply IH. unfold settled. by rewrite E.
  - intros Hset Hx Hpc. unfold settled in Hset. destruct (pt_pc st) as [|[w|err]|o|o] eqn:E; try done.
    + destruct Hi as [Hi _]. destruct (transfer_inv_atomic _ _ _ ARollback Hi) as (w1 & Er & _).
      eexists. split; [by eapply prep_drop|done].
    + eexists. split; [by eapply prep_drop_error|done].
Qed.

Lemma prepared_transfer_not_lost_witness :
  exists w, rtc (prepare_step (Ok (prepared_world demo_session demo_conn demo_prepared demo_client))) prepare_start
      (mkPrepareState true false (PGone (Ok w))) /\
    tw_session w = mkSession StateLimboPlay None /\ lk_closed (tw_conn w) = true /\ pp_finalized (tw_prepared w) = true.
Proof.
  set (w0 := prepared_world demo_session demo_conn demo_prepared demo_client).
  set (w1 := match run_atomic w0 ARollback with Some w => w | None => w0 end). exists w1.
  assert (Hr : rtc (prepare_step (Ok w0)) prepare_start (mkPrepareState true false (PGone (Ok w1)))).
  { eapply rtc_l; [apply (prep_prepared _ prepare_start); reflexivity|]. eapply rtc_l; [apply prep_leave|].
    apply rtc_once. eapply (prep_drop _ (mkPrepareState true false (PSelect (Ok w0))) w0 w1); reflexivity. }
  split; [exact Hr|].
  apply (prepared_transfer_not_lost _ _ _ _ _ _ _ _ _ _ _ demo_client _ demo_prepare_ok Hr). reflexivity.
Defined.
