(* ===== verification/System.v ===== *)
(** * The gateway as a whole (internal/server/server.go with internal/queue/queue.go)

    Many connections at once: each runs serveConn from its acceptance to its
    deferred clean-up, through status or login, Limbo, the transfer and the bridge;
    they share the server's maps and limiter and the admission queue, whose
    scheduler calls Admit one item at a time. The components are those of
    Server.v, ServeLogin.v, Limbo.v, Bridge.v and Queue.v; here they are put
    together as serveConn, serveLogin, serveLimbo and Scheduler.Run put them
    together, and every access to something shared is a step of its own. *)

From S2P Require Import Prelude GoIO Varint Frame Crypto Status Handshake Login Configuration Play Forwarding Auth Ratelimit Link Backend Bridge.
From S2P Require Import Queue Session Transfer BarrierClient Limbo LimboShared Server ServeLogin.

(** ** State *)

(** Where the goroutine of a connection is. The log of a session that has left
    the loop is what it sent on the result channels, among other things. *)
Inductive conn_phase : Type :=
| Accepted (client : link)                                  (* holds a token; before track *)
| Greeting (client : link)                                  (* serveConn, before trackClient *)
| Reading (client : link)                                   (* before the handshake *)
| LoggingIn (client : link)                                 (* serveLogin, before trackSession *)
| Exchanging (client : link)                                (* the login exchange *)
| Joining (client : link) (state : Session) (player : PlayerIdentity)   (* serveLimbo, before its loop *)
| InLoop (player : PlayerIdentity) (l : limbo)
| InBridge (player : PlayerIdentity) (l : limbo) (b : bridge_state)
| Blocked (log : list note)                                 (* a send on a nil channel *)
| Leaving (player : PlayerIdentity) (log : list note)       (* before the deferred Cancel *)
| Unqueued (log : list note)                                (* before cancelQueue *)
| Finishing (next : deferred) (log : list note)             (* in the clean-up of serveConn, before [next] *)
| Releasing (log : list note)                               (* before the token is given back *)
| Gone (log : list note).

Definition phase_log (p : conn_phase) : list note :=
  match p with
  | InLoop _ l | InBridge _ l _ => lb_log l
  | Blocked log | Leaving _ log | Unqueued log | Finishing _ log | Releasing log | Gone log => log
  | _ => []
  end.

(** The scheduler: at its select; with a popped item, at the lookup in Admit; at
    the two selects of Admit; returned. *)
Inductive sched_pc : Type :=
| SchedIdle
| SchedAdmit (conn : nat)
| SchedSend (conn req : nat)
| SchedWait (conn req : nat)
| SchedDone.

(** [sy_chans]: the one-place channels of admission requests, with their content;
    [sy_ctx]: the connections whose queueCtx is cancelled; [sy_next]: a request
    not made yet. *)
Record system := mkSystem {
  sy_server : Server;
  sy_queue : option (FIFO nat nat);
  sy_phases : gmap nat conn_phase;
  sy_chans : gmap nat (option nat);
  sy_ctx : gset nat;
  sy_sched : sched_pc;
  sy_next : nat
}.

Definition sys_phase (s : system) (conn : nat) (p : conn_phase) : system :=
  mkSystem (sy_server s) (sy_queue s) (<[conn := p]> (sy_phases s)) (sy_chans s) (sy_ctx s) (sy_sched s) (sy_next s).
Definition sys_server (s : system) (sv : Server) : system :=
  mkSystem sv (sy_queue s) (sy_phases s) (sy_chans s) (sy_ctx s) (sy_sched s) (sy_next s).
Definition sys_queue (s : system) (q : option (FIFO nat nat)) : system :=
  mkSystem (sy_server s) q (sy_phases s) (sy_chans s) (sy_ctx s) (sy_sched s) (sy_next s).
Definition sys_chan (s : system) (conn : nat) (content : option nat) : system :=
  mkSystem (sy_server s) (sy_queue s) (sy_phases s) (<[conn := content]> (sy_chans s)) (sy_ctx s) (sy_sched s) (sy_next s).
Definition sys_done (s : system) (conn : nat) : system :=
  mkSystem (sy_server s) (sy_queue s) (sy_phases s) (sy_chans s) ({[conn]} ∪ sy_ctx s) (sy_sched s) (sy_next s).
Definition sys_sched (s : system) (pc : sched_pc) : system :=
  mkSystem (sy_server s) (sy_queue s) (sy_phases s) (sy_chans s) (sy_ctx s) pc (sy_next s).

(** The log of a connection's session, empty before its loop. *)
Definition conn_log (s : system) (conn : nat) : list note := from_option phase_log [] (sy_phases s !! conn).

(** ** Steps *)

Section system.
(** The remote addresses, RSA decryption, what online mode
    needs for each connection ([None] in offline mode), and the rest of the server
    configuration: the status, whether there is a coordinator, and the challenge
    hook with the keep-alives it requires of a player. *)
Context (RemoteAddr : nat -> gostring).
Context {Key : Type} (DecryptPKCS1v15 : Key -> list byte -> res (list byte)) (authenticator : nat -> option (@online Key)).
Context (status : Response) (coordinator : bool) (hook : PlayerIdentity -> option (option Z)).

Definition limbo_cfg (conn : nat) (player : PlayerIdentity) : limbo_config :=
  mkLimboConfig coordinator (hook player) player conn.

(** The events of the loop that come from outside: every case but the admission
    requests, which come from the channel. Other goroutines may change the session
    and the prepared transfer, but the queue only by the steps below. *)
Definition outside (s : system) (ev : limbo_event) : Prop :=
  match ev with
  | EAdmission _ => False
  | EFrame _ _ _ play => play = []
  | EOther _ q _ => sy_queue s = Some q \/ sy_queue s = None
  | _ => True
  end.

(** One round of the loop on the shared queue. A panic ends the process: there is
    no next state. *)
Definition loop_round (s : system) (conn : nat) (player : PlayerIdentity) (l : limbo) (ev : limbo_event) : option system :=
  match limbo_step (limbo_cfg conn player) (set_queue (sy_queue s) l) ev with
  | Continue l => Some (sys_queue (sys_phase s conn (InLoop player l)) (lb_queue l))
  | Return _ l => Some (sys_queue (sys_phase s conn (Leaving player (lb_log l))) (lb_queue l))
  | Playing l b => Some (sys_queue (sys_phase s conn (InBridge player l b)) (lb_queue l))
  | Deadlock => Some (sys_phase s conn (Blocked (lb_log l)))
  | Panic => None
  end.

(** The bridge of a session receives a frame or an error. *)
Definition bridge_round (s : system) (conn : nat) (player : PlayerIdentity) (l : limbo) (b : bridge_state) (ev : bridge_event) : system :=
  match bridge_step (effective_MaxPending 0) None b ev with
  | (None, b) => sys_phase s conn (InBridge player l b)
  | (Some _, _) => sys_phase s conn (Leaving player (lb_log l))
  end.

(** After a call of the clean-up. *)
Definition cleanup_phase (next : option deferred) (log : list note) : conn_phase :=
  match next with Some d => Finishing d log | None => Releasing log end.

(** serveConn. *)
Inductive conn_step (s : system) : system -> Prop :=
| conn_accept conn client sv :
    sy_phases s !! conn = None -> Serve_accept (sy_server s) = (true, sv) ->
    conn_step s (sys_phase (sys_server s sv) conn (Accepted client))
| conn_refused conn sv :
    sy_phases s !! conn = None -> Serve_accept (sy_server s) = (false, sv) ->
    conn_step s (sys_phase (sys_server s sv) conn (Gone []))
| conn_track conn client ok sv :
    sy_phases s !! conn = Some (Accepted client) -> Serve_track RemoteAddr (sy_server s) conn = (ok, sv) ->
    conn_step s (sys_phase (sys_server s sv) conn (if ok then Greeting client else Gone []))
| conn_client conn client :
    sy_phases s !! conn = Some (Greeting client) ->
    conn_step s (sys_phase (sys_server s (trackClient (sy_server s) conn)) conn (Reading client))
| conn_drop conn client client' :
    sy_phases s !! conn = Some (Reading client) -> serveConn_dispatch client = (DropConnection, client') ->
    conn_step s (sys_phase s conn (Finishing UntrackConn []))
| conn_status conn client client' client'' :
    sy_phases s !! conn = Some (Reading client) -> serveConn_dispatch client = (ServeStatus, client') ->
    serveStatus status client' = client'' ->
    conn_step s (sys_phase s conn (Finishing UntrackConn []))
| conn_limit conn client client' now ok sv :
    sy_phases s !! conn = Some (Reading client) -> serveConn_dispatch client = (ServeLogin, client') ->
    login_allowed RemoteAddr (sy_server s) conn now = (ok, sv) ->
    conn_step s (sys_phase (sys_server s sv) conn (if ok then LoggingIn client' else Finishing UntrackConn []))
| conn_session conn client :
    sy_phases s !! conn = Some (LoggingIn client) ->
    conn_step s (sys_phase (sys_server s (trackSession (sy_server s) conn)) conn (Exchanging client))
| conn_login_failed conn client state client' :
    sy_phases s !! conn = Some (Exchanging client) ->
    serveLogin DecryptPKCS1v15 (authenticator conn) (host RemoteAddr conn) client = (None, state, client') ->
    conn_step s (sys_phase s conn (Finishing UntrackConn []))
| conn_login conn client state client' player :
    sy_phases s !! conn = Some (Exchanging client) ->
    serveLogin DecryptPKCS1v15 (authenticator conn) (host RemoteAddr conn) client = (Some player, state, client') ->
    conn_step s (sys_chan (sys_phase (sys_server s (trackAdmission (sy_server s) conn)) conn (Joining client' state player)) conn None)
| conn_loop conn client state player l client' :
    sy_phases s !! conn = Some (Joining client state player) -> limbo_start client state (sy_queue s) = (Ok l, client') ->
    conn_step s (sys_phase s conn (InLoop player l))
| conn_no_loop conn client state player err client' :
    sy_phases s !! conn = Some (Joining client state player) -> limbo_start client state (sy_queue s) = (Err err, client') ->
    conn_step s (sys_phase s conn (Leaving player []))
| conn_round conn player l ev s' :
    sy_phases s !! conn = Some (InLoop player l) -> outside s ev -> loop_round s conn player l ev = Some s' ->
    conn_step s s'
| conn_request conn player l req s' :
    sy_phases s !! conn = Some (InLoop player l) -> sy_chans s !! conn = Some (Some req) ->
    loop_round (sys_chan s conn None) conn player l (EAdmission req) = Some s' ->
    conn_step s s'
| conn_bridge conn player l b ev :
    sy_phases s !! conn = Some (InBridge player l b) ->
    conn_step s (bridge_round s conn player l b ev)
| conn_unqueue conn player log :
    sy_phases s !! conn = Some (Leaving player log) ->
    conn_step s (sys_phase (sys_queue s ((fun q => snd (Cancel q (queueID (limbo_cfg conn player)))) <$> sy_queue s)) conn (Unqueued log))
| conn_cancel conn log :
    sy_phases s !! conn = Some (Unqueued log) -> conn_step s (sys_phase (sys_done s conn) conn (Finishing UntrackConn log))
| conn_cleanup conn d log sv next :
    sy_phases s !! conn = Some (Finishing d log) -> serveConn_cleanup RemoteAddr (sy_server s) conn d = (sv, next) ->
    conn_step s (sys_phase (sys_server s sv) conn (cleanup_phase next log))
| conn_release conn log :
    sy_phases s !! conn = Some (Releasing log) ->
    conn_step s (sys_phase (sys_server s (set_sem (sy_server s) (sem (sy_server s) - 1))) conn (Gone log)).

(** Scheduler.Run and the calls of Admit it makes, with the context of the item. *)
Inductive sched_step (s : system) : system -> Prop :=
| sched_stop : sy_sched s = SchedIdle -> sched_step s (sys_sched s SchedDone)
| sched_pop q item q' ctx conn :
    sy_sched s = SchedIdle -> sy_queue s = Some q -> Pop q = (Some item, q') ->
    Context_ item = Some ctx -> Queue.Admit item = Some conn ->
    sched_step s (sys_sched (sys_queue s (Some q')) (if bool_decide (ctx ∈ sy_ctx s) then SchedIdle else SchedAdmit conn))
| sched_lookup conn :
    sy_sched s = SchedAdmit conn -> conn ∈ admissions (sy_server s) ->
    sched_step s (mkSystem (sy_server s) (sy_queue s) (sy_phases s) (sy_chans s) (sy_ctx s) (SchedSend conn (sy_next s)) (S (sy_next s)))
| sched_not_in_limbo conn :
    sy_sched s = SchedAdmit conn -> conn ∉ admissions (sy_server s) -> sched_step s (sys_sched s SchedIdle)
| sched_send conn req :
    sy_sched s = SchedSend conn req -> sy_chans s !! conn = Some None ->
    sched_step s (sys_sched (sys_chan s conn (Some req)) (SchedWait conn req))
| sched_answer conn req err :
    sy_sched s = SchedWait conn req -> NReply req err ∈ conn_log s conn -> sched_step s (sys_sched s SchedIdle)
| sched_context conn req :
    sy_sched s = SchedSend conn req \/ sy_sched s = SchedWait conn req -> conn ∈ sy_ctx s ->
    sched_step s (sys_sched s SchedIdle).

Inductive sys_step (s s' : system) : Prop :=
| sys_conn : conn_step s s' -> sys_step s s'
| sys_scheduler : sched_step s s' -> sys_step s s'.

(** The initial state. *)
Definition sys_start (config : ServerConfig) (queueSize : option Z) : system :=
  mkSystem (Server.New config) (Queue.New <$> queueSize) ∅ ∅ ∅ SchedIdle 0.

(** ** Executable schedules *)

Inductive action : Type :=
| DoAccept (conn : nat) (client : link)
| DoTrack (conn : nat)
| DoClient (conn : nat)
| DoDispatch (conn : nat) (now : Z)
| DoSession (conn : nat)
| DoLogin (conn : nat)
| DoLoop (conn : nat)
| DoRound (conn : nat) (ev : limbo_event)
| DoRequest (conn : nat)
| DoBridge (conn : nat) (ev : bridge_event)
| DoUnqueue (conn : nat)
| DoCancel (conn : nat)
| DoCleanup (conn : nat)
| DoRelease (conn : nat)
| DoSchedule
| DoStop.

(** The next step of the scheduler, if it can move. *)
Definition exec_sched (s : system) : option system :=
  match sy_sched s with
  | SchedIdle =>
    match sy_queue s with
    | Some q =>
      match Pop q with
      | (Some item, q') =>
        match Context_ item, Queue.Admit item with
        | Some ctx, Some conn => Some (sys_sched (sys_queue s (Some q')) (if bool_decide (ctx ∈ sy_ctx s) then SchedIdle else SchedAdmit conn))
        | _, _ => None
        end
      | (None, _) => None
      end
    | None => None
    end
  | SchedAdmit conn =>
    if bool_decide (conn ∈ admissions (sy_server s)) then
      Some (mkSystem (sy_server s) (sy_queue s) (sy_phases s) (sy_chans s) (sy_ctx s) (SchedSend conn (sy_next s)) (S (sy_next s)))
    else Some (sys_sched s SchedIdle)
  | SchedSend conn req =>
    if bool_decide (conn ∈ sy_ctx s) then Some (sys_sched s SchedIdle)
    else match sy_chans s !! conn with
    | Some None => Some (sys_sched (sys_chan s conn (Some req)) (SchedWait conn req))
    | _ => None
    end
  | SchedWait conn req =>
    if bool_decide (conn ∈ sy_ctx s) || bool_decide (req ∈ replied (conn_log s conn)) then Some (sys_sched s SchedIdle) else None
  | SchedDone => None
  end.

Definition exec (s : system) (a : action) : option system :=
  match a with
  | DoAccept conn client =>
    match sy_phases s !! conn, Serve_accept (sy_server s) with
    | None, (true, sv) => Some (sys_phase (sys_server s sv) conn (Accepted client))
    | None, (false, sv) => Some (sys_phase (sys_server s sv) conn (Gone []))
    | _, _ => None
    end
  | DoTrack conn =>
    match sy_phases s !! conn, Serve_track RemoteAddr (sy_server s) conn with
    | Some (Accepted client), (ok, sv) => Some (sys_phase (sys_server s sv) conn (if ok : bool then Greeting client else Gone []))
    | _, _ => None
    end
  | DoClient conn =>
    match sy_phases s !! conn with
    | Some (Greeting client) => Some (sys_phase (sys_server s (trackClient (sy_server s) conn)) conn (Reading client))
    | _ => None
    end
  | DoDispatch conn now =>
    match sy_phases s !! conn with
    | Some (Reading client) =>
      match serveConn_dispatch client with
      | (ServeLogin, client') =>
        let '(ok, sv) := login_allowed RemoteAddr (sy_server s) conn now in
        Some (sys_phase (sys_server s sv) conn (if ok : bool then LoggingIn client' else Finishing UntrackConn []))
      | _ => Some (sys_phase s conn (Finishing UntrackConn []))
      end
    | _ => None
    end
  | DoSession conn =>
    match sy_phases s !! conn with
    | Some (LoggingIn client) => Some (sys_phase (sys_server s (trackSession (sy_server s) conn)) conn (Exchanging client))
    | _ => None
    end
  | DoLogin conn =>
    match sy_phases s !! conn with
    | Some (Exchanging client) =>
      match serveLogin DecryptPKCS1v15 (authenticator conn) (host RemoteAddr conn) client with
      | (Some player, state, client') =>
        Some (sys_chan (sys_phase (sys_server s (trackAdmission (sy_server s) conn)) conn (Joining client' state player)) conn None)
      | (None, _, _) => Some (sys_phase s conn (Finishing UntrackConn []))
      end
    | _ => None
    end
  | DoLoop conn =>
    match sy_phases s !! conn with
    | Some (Joining client state player) =>
      match limbo_start client state (sy_queue s) with
      | (Ok l, _) => Some (sys_phase s conn (InLoop player l))
      | (Err _, _) => Some (sys_phase s conn (Leaving player []))
      end
    | _ => None
    end
  | DoRound conn ev =>
    match sy_phases s !! conn with
    | Some (InLoop player l) =>
      match ev with
      | EAdmission _ => None
      | EFrame frame between gap _ => loop_round s conn player l (EFrame frame between gap [])
      | EOther st q p => loop_round s conn player l (EOther st (default q (sy_queue s)) p)
      | _ => loop_round s conn player l ev
      end
    | _ => None
    end
  | DoRequest conn =>
    match sy_phases s !! conn, sy_chans s !! conn with
    | Some (InLoop player l), Some (Some req) => loop_round (sys_chan s conn None) conn player l (EAdmission req)
    | _, _ => None
    end
  | DoBridge conn ev =>
    match sy_phases s !! conn with
    | Some (InBridge player l b) => Some (bridge_round s conn player l b ev)
    | _ => None
    end
  | DoUnqueue conn =>
    match sy_phases s !! conn with
    | Some (Leaving player log) =>
      Some (sys_phase (sys_queue s ((fun q => snd (Cancel q (queueID (limbo_cfg conn player)))) <$> sy_queue s)) conn (Unqueued log))
    | _ => None
    end
  | DoCancel conn =>
    match sy_phases s !! conn with Some (Unqueued log) => Some (sys_phase (sys_done s conn) conn (Finishing UntrackConn log)) | _ => None end
  | DoCleanup conn =>
    match sy_phases s !! conn with
    | Some (Finishing d log) =>
      let '(sv, next) := serveConn_cleanup RemoteAddr (sy_server s) conn d in Some (sys_phase (sys_server s sv) conn (cleanup_phase next log))
    | _ => None
    end
  | DoRelease conn =>
    match sy_phases s !! conn with
    | Some (Releasing log) => Some (sys_phase (sys_server s (set_sem (sy_server s) (sem (sy_server s) - 1))) conn (Gone log))
    | _ => None
    end
  | DoSchedule => exec_sched s
  | DoStop => match sy_sched s with SchedIdle => Some (sys_sched s SchedDone) | _ => None end
  end.

Fixpoint execs (s : system) (acts : list action) : option system :=
  match acts with [] => Some s | a :: acts => s' ← exec s a; execs s' acts end.

(** ** Invariant *)

(** A player that logged in on this connection. *)
Definition vetted (conn : nat) (player : PlayerIdentity) : Prop :=
  exists client client', logged_in DecryptPKCS1v15 (authenticator conn) (host RemoteAddr conn) client client' player.

(** The history of a session: it is asked for at most once, after it was queued. *)
Record history (log : list note) : Prop := {
  hi_order : forall pre r post, log = pre ++ NRequest r :: post -> NEnqueued ∈ pre;
  hi_replies : replies_ok log;
  hi_one : (length (requested log) <= 1)%nat
}.

Definition gated (conn : nat) (player : PlayerIdentity) (log : list note) : Prop :=
  forall pre post, log = pre ++ NEnqueued :: post -> admissible (limbo_cfg conn player) pre.

Definition phase_ok (n : nat) (conn : nat) (p : conn_phase) : Prop :=
  match p with
  | Joining _ _ player => vetted conn player
  | InLoop player l =>
    vetted conn player /\ gate_inv (limbo_cfg conn player) l /\ reply_inv l /\ keepAliveID (lb_ka l) <= 1 + Z.of_nat n
  | InBridge player l _ =>
    vetted conn player /\ gated conn player (lb_log l) /\ exists log r, lb_log l = log ++ [NReply r None] /\ r ∈ requested log
  | Blocked _ => False
  | _ => True
  end.

Definition over (p : conn_phase) : bool := match p with Finishing _ _ | Releasing _ | Gone _ => true | _ => false end.

(** In [serveLimbo]: from the entry into Limbo to the end of its context. *)
Definition attached (p : conn_phase) : bool :=
  match p with Joining _ _ _ | InLoop _ _ | InBridge _ _ _ | Leaving _ _ | Unqueued _ => true | _ => false end.

(** The connections that are queued, and those whose request is on its way. *)
Definition queued_for (s : system) : list (option nat) := from_option (fun q => Queue.Admit <$> items q) [] (sy_queue s).
Definition sched_holds (s : system) (conn : nat) : Prop :=
  match sy_sched s with SchedAdmit c | SchedSend c _ => c = conn | _ => False end.
Definition in_channel (s : system) (conn : nat) : Prop := exists r, sy_chans s !! conn = Some (Some r).

Record sys_inv (n : nat) (s : system) : Prop := {
  sy_ok : forall conn p, sy_phases s !! conn = Some p -> phase_ok n conn p /\ history (phase_log p);
  sy_nodup : NoDup (queued_for s);
  sy_unserved : forall conn, Some conn ∈ queued_for s \/ sched_holds s conn \/ in_channel s conn ->
    NEnqueued ∈ conn_log s conn /\ requested (conn_log s conn) = [];
  sy_queued_only : forall conn, Some conn ∈ queued_for s -> ~ sched_holds s conn /\ ~ in_channel s conn;
  sy_held_only : forall conn, sched_holds s conn -> ~ in_channel s conn;
  sy_waits : forall conn r, sy_chans s !! conn = Some (Some r) -> sy_sched s = SchedWait conn r \/ conn ∈ sy_ctx s;
  sy_progress : forall conn r, r ∈ requested (conn_log s conn) -> r ∉ replied (conn_log s conn) ->
    sy_sched s = SchedWait conn r \/ conn ∈ sy_ctx s;
  sy_over : forall conn, conn ∈ sy_ctx s -> exists p, sy_phases s !! conn = Some p /\ over p = true;
  sy_joined : forall conn, conn ∈ dom (sy_chans s) -> conn ∈ sy_ctx s \/ exists p, sy_phases s !! conn = Some p /\ attached p = true;
  sy_admissions : admissions (sy_server s) ⊆ dom (sy_chans s);
  sy_target : forall conn r, sy_sched s = SchedSend conn r \/ sy_sched s = SchedWait conn r -> conn ∈ dom (sy_chans s);
  sy_asked : forall conn r, sy_sched s = SchedWait conn r -> sy_chans s !! conn = Some (Some r) \/ r ∈ requested (conn_log s conn)
}.

(** ** Lemmas *)

(** A schedule is a sequence of steps. *)
Lemma exec_sched_step s s' : exec_sched s = Some s' -> sched_step s s'.
Proof.
  unfold exec_sched. destruct (sy_sched s) as [|conn|conn req|conn req|] eqn:Hp; [| | | |done].
  - destruct (sy_queue s) as [q|] eqn:Hq; [|done]. destruct (Pop q) as [[item|] q'] eqn:Hpop; [|done].
    destruct (Context_ item) as [ctx|] eqn:Hx; [|done]. destruct (Queue.Admit item) as [conn|] eqn:Ha; [|done].
    intros [= <-]. by eapply sched_pop.
  - case_bool_decide; intros [= <-]; [by apply sched_lookup|by eapply sched_not_in_limbo].
  - case_bool_decide; [intros [= <-]; eapply sched_context; eauto|].
    destruct (sy_chans s !! conn) as [[]|] eqn:Hc; [done| |done]. intros [= <-]. by apply sched_send.
  - case_bool_decide; cbn [orb]; [intros [= <-]; eapply sched_context; eauto|]. case_bool_decide as Hr; [|done].
    intros [= <-]. unfold replied in Hr. apply list_elem_of_omap in Hr as (n & Hn & E). destruct n; simplify_eq. by eapply sched_answer.
Qed.

Lemma exec_step s a s' : exec s a = Some s' -> sys_step s s'.
Proof.
  destruct a as [conn client|conn|conn|conn now|conn|conn|conn|conn ev|conn|conn ev|conn|conn|conn|conn| |]; cbn [exec].
  15: { intros H. by apply sys_scheduler, exec_sched_step. }
  15: { destruct (sy_sched s) eqn:Hp; try done. intros [= <-]. by apply sys_scheduler, sched_stop. }
  all: intros H; apply sys_conn; destruct (sy_phases s !! conn) as [p|] eqn:Hp; try done; try (destruct p; try done); revert H.
  - destruct (Serve_accept _) as [[] sv] eqn:Hs; intros [= <-]; [by apply conn_accept|by apply conn_refused].
  - destruct (Serve_track _ _ _) as [ok sv] eqn:Hs. intros [= <-]. by apply conn_track.
  - intros [= <-]. by apply conn_client.
  - destruct (serveConn_dispatch client) as [[] client'] eqn:Hd.
    + intros [= <-]. by eapply conn_drop.
    + intros [= <-]. by eapply conn_status.
    + destruct (login_allowed _ _ _ _) as [ok sv] eqn:Hl. intros [= <-]. by eapply conn_limit.
  - intros [= <-]. by apply conn_session.
  - destruct (serveLogin _ _ _ _) as [[[player|] state] client'] eqn:Hs; intros [= <-]; [by eapply conn_login|by eapply conn_login_failed].
  - destruct (limbo_start _ _ _) as [[l|err] client'] eqn:Hs; intros [= <-]; [by eapply conn_loop|by eapply conn_no_loop].
  - destruct ev; try done; intros H; eapply conn_round; try done; cbn; try done. destruct (sy_queue s); auto.
  - destruct (sy_chans s !! conn) as [[req|]|] eqn:Hc; [|done|done]. intros H. by eapply conn_request.
  - intros [= <-]. by apply conn_bridge.
  - intros [= <-]. by apply conn_unqueue.
  - intros [= <-]. by apply conn_cancel.
  - destruct (serveConn_cleanup _ _ _ _) as [sv d] eqn:Hd. intros [= <-]. by eapply conn_cleanup.
  - intros [= <-]. by apply conn_release.
Qed.

Lemma execs_steps acts : forall s s', execs s acts = Some s' -> nsteps sys_step (length acts) s s'.
Proof.
  induction acts as [|a acts IH]; intros s s'; cbn [execs length].
  - intros [= <-]. constructor.
  - destruct (exec s a) as [s1|] eqn:E; cbn; [|done]. intros H. econstructor; [by eapply exec_step|by apply IH].
Qed.

Lemma elem_of_requested r log : r ∈ requested log <-> NRequest r ∈ log.
Proof.
  unfold requested. rewrite list_elem_of_omap. split; [|by intros; exists (NRequest r)].
  intros (n & Hn & E). by destruct n; simplify_eq.
Qed.

Lemma replied_prefix log log' r : log `prefix_of` log' -> r ∈ replied log -> r ∈ replied log'.
Proof. intros [ns ->]. rewrite replied_app. set_solver. Qed.

(** A session that was not queued was not asked for. *)
Lemma history_unasked log : history log -> NEnqueued ∉ log -> requested log = [].
Proof.
  intros [Ho _ _] Hn. destruct (requested log) as [|r rs] eqn:E; [done|]. exfalso.
  assert (Hr : NRequest r ∈ log) by (apply elem_of_requested; rewrite E; set_solver).
  apply list_elem_of_split in Hr as (pre & post & ->). specialize (Ho pre r post eq_refl). set_solver.
Qed.

Lemma history_nil : history [].
Proof. split; [by intros []|by split; [constructor|]|cbn; lia]. Qed.

(** A longer log is still in order when the player was queued before. *)
Lemma history_prefix log log' :
  history log -> log `prefix_of` log' -> replies_ok log' -> requested log' = requested log \/ NEnqueued ∈ log ->
  (length (requested log') <= 1)%nat -> history log'.
Proof.
  intros [Ho _ _] [ns ->] Hr Hn Hl. split; [|done|done]. intros pre r post E.
  apply app_eq_inv in E as [(k & -> & E)|(k & -> & E)].
  - destruct k as [|n k]; cbn in E.
    + destruct Hn as [Hn|Hn]; [|by rewrite app_nil_r in Hn].
      subst ns. rewrite requested_app in Hn. apply (f_equal length) in Hn. rewrite length_app in Hn. cbn in Hn. lia.
    + injection E as <- ->. by eapply Ho.
  - destruct Hn as [Hn|Hn]; [|set_solver].
    rewrite requested_app, E, requested_app in Hn. apply (f_equal length) in Hn. rewrite !length_app in Hn. cbn in Hn. lia.
Qed.

Lemma phase_ok_mono n conn p : phase_ok n conn p -> phase_ok (S n) conn p.
Proof. destruct p; cbn; try done. intros (? & ? & ? & ?). split_and!; try done. lia. Qed.

Lemma inv_mono n s : sys_inv n s -> sys_inv (S n) s.
Proof. intros [H1 H2 H3 H4 H5 H6 H7 H8 H9 H10 H11 H12]. split; auto. intros conn p E. destruct (H1 conn p E). auto using phase_ok_mono. Qed.

Lemma conn_log_at s conn p : sy_phases s !! conn = Some p -> conn_log s conn = phase_log p.
Proof. intros E. unfold conn_log. by rewrite E. Qed.

Lemma history_conn n s conn : sys_inv n s -> history (conn_log s conn).
Proof. intros Hi. unfold conn_log. destruct (sy_phases s !! conn) eqn:E; [by apply (sy_ok _ _ Hi conn)|apply history_nil]. Qed.

(** A step of one connection. *)
Lemma inv_step n s s' conn p :
  sys_inv n s -> sy_phases s' = <[conn := p]> (sy_phases s) -> sy_sched s' = sy_sched s ->
  sy_ctx s ⊆ sy_ctx s' -> (forall c, c ∈ sy_ctx s' -> c ∈ sy_ctx s \/ c = conn) ->
  phase_ok (S n) conn p -> history (phase_log p) -> conn_log s conn `prefix_of` phase_log p ->
  (conn ∈ sy_ctx s' -> over p = true) ->
  (conn ∈ dom (sy_chans s') -> conn ∈ sy_ctx s' \/ attached p = true) -> admissions (sy_server s') ⊆ dom (sy_chans s') ->
  NoDup (queued_for s') ->
  (forall c, Some c ∈ queued_for s' -> Some c ∈ queued_for s \/ c = conn /\ NEnqueued ∈ phase_log p /\ NEnqueued ∉ conn_log s conn) ->
  (forall c, sy_chans s' !! c = sy_chans s !! c \/ c = conn /\ sy_chans s' !! c = Some None) ->
  (forall r, sy_chans s !! conn = Some (Some r) -> sy_chans s' !! conn = Some (Some r) \/ requested (phase_log p) = [r]) ->
  (requested (phase_log p) = requested (conn_log s conn) \/
   exists r, sy_chans s !! conn = Some (Some r) /\ sy_chans s' !! conn = Some None /\ requested (phase_log p) = [r]) ->
  sys_inv (S n) s'.
Proof.
  intros Hi Hph Hsc Hctx Hctx' Hok Hhist Hpre Hov Hjo Had Hnd Hq Hch Hta Hrq.
  assert (Hsame : forall c, c <> conn -> conn_log s' c = conn_log s c).
  { intros c Hc. unfold conn_log. rewrite Hph, lookup_insert_ne by done. done. }
  assert (Hnew : conn_log s' conn = phase_log p) by (unfold conn_log; by rewrite Hph, lookup_insert_eq).
  assert (Hh : forall c, sched_holds s' c <-> sched_holds s c) by (intros c; unfold sched_holds; by rewrite Hsc).
  assert (Hc : forall c, in_channel s' c -> in_channel s c /\ sy_chans s' !! c = sy_chans s !! c).
  { intros c [r Hr]. destruct (Hch c) as [E|[-> E]]; [|congruence]. split; [|done]. exists r. by rewrite <-E. }
  assert (Hdom : forall c, c ∈ dom (sy_chans s') -> c <> conn -> c ∈ dom (sy_chans s)).
  { intros c Hx Hne. apply elem_of_dom in Hx. apply elem_of_dom. by destruct (Hch c) as [<-|[? _]]. }
  assert (Hkeep : dom (sy_chans s) ⊆ dom (sy_chans s')).
  { intros c Hx. apply elem_of_dom in Hx as [o Hx]. apply elem_of_dom. destruct (Hch c) as [E|[_ E]]; rewrite E; [by exists o|by eexists]. }
  destruct Hi as [H1 H2 H3 H4 H5 H6 H7 H8 H9 H10 H11 H12].
  assert (Hun : Some conn ∈ queued_for s \/ sched_holds s conn \/ in_channel s conn /\ sy_chans s' !! conn = sy_chans s !! conn ->
    NEnqueued ∈ phase_log p /\ requested (phase_log p) = []).
  { intros Hx. destruct (H3 conn ltac:(tauto)) as [He Hr]. split; [destruct Hpre as [ns ->]; set_solver|].
    destruct Hrq as [E|(r & Er & En & _)]; [congruence|]. exfalso. destruct Hx as [Hx|[Hx|[_ Hx]]].
    - by apply (proj2 (H4 _ Hx)); exists r.
    - by apply (H5 _ Hx); exists r.
    - congruence. }
  split.
  - intros c p' E. rewrite Hph in E. destruct (decide (c = conn)) as [->|Hne].
    + rewrite lookup_insert_eq in E. by simplify_eq.
    + rewrite lookup_insert_ne in E by done. destruct (H1 c p' E). auto using phase_ok_mono.
  - done.
  - intros c Hx. rewrite Hh in Hx. destruct (decide (c = conn)) as [->|Hne].
    + rewrite Hnew. destruct Hx as [Hx|[Hx|Hx]]; [|by apply Hun; auto|by apply Hun; auto].
      destruct (Hq _ Hx) as [Hx'|(_ & Hin & Hout)]; [by apply Hun; auto|]. split; [done|].
      destruct Hrq as [->|(r & Er & _)]; [apply history_unasked; [|done]|].
      * unfold conn_log in *. destruct (sy_phases s !! conn) eqn:E; [by apply (H1 _ _ E)|apply history_nil].
      * destruct Hout. apply (H3 conn). right. right. by exists r.
    + rewrite Hsame by done. apply H3. destruct Hx as [Hx|[Hx|Hx]]; [|by auto|by apply Hc in Hx as [? _]; auto].
      destruct (Hq _ Hx) as [|[-> _]]; [by auto|done].
  - intros c Hx. rewrite Hh. destruct (Hq _ Hx) as [Hx'|(-> & _ & Hout)].
    + destruct (H4 _ Hx') as [Ha Hb]. split; [done|]. intros Hin. by apply Hc in Hin as [? _].
    + split; intros Hin; destruct Hout; apply H3; [by auto|]. apply Hc in Hin as [? _]. auto.
  - intros c Hx Hin. apply Hh in Hx. apply Hc in Hin as [? _]. by apply (H5 c).
  - intros c r E. rewrite Hsc. destruct (H6 c r) as [|?%Hctx]; auto. by destruct (Hch c) as [<-|[_ E']]; [|congruence].
  - intros c r Hr Hn. rewrite Hsc. cut (sy_sched s = SchedWait c r \/ c ∈ sy_ctx s); [intros [|?%Hctx]; auto|].
    destruct (decide (c = conn)) as [->|Hne]; [|rewrite Hsame in Hr, Hn by done; auto].
    rewrite Hnew in Hr, Hn. destruct Hrq as [E|(r' & Er & _ & E)].
    + rewrite E in Hr. apply H7; [done|]. intros Hx. apply Hn. by eapply replied_prefix.
    + rewrite E in Hr. apply list_elem_of_singleton in Hr as ->. by apply H6.
  - intros c Hx. rewrite Hph. destruct (decide (c = conn)) as [->|Hne].
    + rewrite lookup_insert_eq. eauto.
    + rewrite lookup_insert_ne by done. apply H8. by destruct (Hctx' c Hx).
  - intros c Hx. rewrite Hph. destruct (decide (c = conn)) as [->|Hne].
    + rewrite lookup_insert_eq. destruct (Hjo Hx); eauto.
    + rewrite lookup_insert_ne by done. destruct (H9 c) as [?%Hctx|]; auto.
  - done.
  - intros c r. rewrite Hsc. intros Hx. by apply Hkeep, (H11 c r).
  - intros c r. rewrite Hsc. intros Hx. destruct (decide (c = conn)) as [->|Hne].
    + rewrite Hnew. destruct (H12 conn r Hx) as [Hr|Hr]; [destruct (Hta r Hr) as [|E]; [by left|right; rewrite E; set_solver]|right].
      destruct Hrq as [->|(r' & Er & _)]; [done|]. destruct (H3 conn) as [_ E]; [right; right; by exists r'|]. rewrite E in Hr. set_solver.
    + rewrite Hsame by done. destruct (Hch c) as [->|[? _]]; [by apply H12|done].
Qed.

(** A step of one connection that leaves its log and the queue alone. *)
Lemma inv_phase n s sv conn p :
  sys_inv n s -> phase_log p = conn_log s conn -> phase_ok (S n) conn p -> (conn ∈ sy_ctx s -> over p = true) ->
  (conn ∈ dom (sy_chans s) -> conn ∈ sy_ctx s \/ attached p = true) -> admissions sv ⊆ admissions (sy_server s) ->
  sys_inv (S n) (sys_phase (sys_server s sv) conn p).
Proof.
  intros Hi Hl Hok Hov Hjo Had. apply (inv_step n s _ conn p); try done.
  - intros c Hc. by left.
  - rewrite Hl. by eapply history_conn.
  - by rewrite Hl.
  - etrans; [exact Had|exact (sy_admissions _ _ Hi)].
  - exact (sy_nodup _ _ Hi).
  - intros c Hc. by left.
  - intros c. by left.
  - intros r Hr. by left.
  - left. by rewrite Hl.
Qed.

(** A connection that has not reached a context is not over. *)
Lemma not_over n s conn p : sys_inv n s -> sy_phases s !! conn = Some p -> over p = false -> conn ∉ sy_ctx s.
Proof. intros Hi E Ho Hx. destruct (sy_over _ _ Hi _ Hx) as (p' & E' & ?). congruence. Qed.

(** *** Rounds of the loop *)

Lemma outcome_all_and D (P Q : limbo -> Prop) o : outcome_all D P o -> outcome_all D Q o -> outcome_all D (fun l => P l /\ Q l) o.
Proof. destruct o; cbn; auto. Qed.

Lemma loop_ok_log o : loop_ok o -> outcome_all False (fun l => replies_ok (lb_log l)) o.
Proof. destruct o; cbn; auto. by intros []. Qed.

(** What every state reached by a round satisfies. *)
Record rounded (n : nat) (conn : nat) (player : PlayerIdentity) (l : limbo) (ev : limbo_event) (l' : limbo) : Prop := {
  rd_gate : gate_inv (limbo_cfg conn player) l';
  rd_id : keepAliveID (lb_ka l') <= 1 + Z.of_nat (S n);
  rd_shares : shares (limbo_cfg conn player) l l';
  rd_requested : requested (lb_log l') = requested (lb_log l) ++ event_requests [ev]
}.

Lemma round_rounded n conn player l ev :
  gate_inv (limbo_cfg conn player) l -> keepAliveID (lb_ka l) <= 1 + Z.of_nat n -> Z.of_nat n + 2 < 2 ^ 63 ->
  (forall st q p, ev = EOther st q p -> lb_queue l = Some q \/ lb_queue l = None) ->
  outcome_all True (rounded n conn player l ev) (limbo_step (limbo_cfg conn player) l ev).
Proof.
  intros Hg Hk Hn Ho. pose proof (gi_id _ _ Hg) as Hid.
  pose proof (limbo_step_gate _ l ev Hg ltac:(lia)) as H1.
  pose proof (limbo_step_id (limbo_cfg conn player) l ev ltac:(unfold in_int64; lia)) as H2.
  pose proof (limbo_step_shares (limbo_cfg conn player) l ev Ho) as H3.
  pose proof (limbo_step_requested (limbo_cfg conn player) l ev) as H4.
  destruct (limbo_step _ l ev); cbn in *; try done; split; try done; lia.
Qed.

(** The state after a round that ends in [l'] and puts the connection in [p]. *)
Lemma inv_round n s s0 conn player l ev l' p :
  sys_inv n s -> sy_phases s !! conn = Some (InLoop player l) ->
  (s0 = s /\ event_requests [ev] = []) \/
    (exists r, s0 = sys_chan s conn None /\ sy_chans s !! conn = Some (Some r) /\ ev = EAdmission r) ->
  rounded n conn player (set_queue (sy_queue s) l) ev l' -> replies_ok (lb_log l') ->
  phase_log p = lb_log l' -> phase_ok (S n) conn p -> attached p = true ->
  sys_inv (S n) (sys_queue (sys_phase s0 conn p) (lb_queue l')).
Proof.
  intros Hi Hl Hs0 [Hg _ [Hpre _ Hq] Hreq] Hrep Hlog Hok Hlimbo. change (lb_log (set_queue _ l)) with (lb_log l) in *.
  assert (Hcl : conn_log s conn = lb_log l) by (by rewrite (conn_log_at _ _ _ Hl)).
  destruct (sy_ok _ _ Hi _ _ Hl) as [(_ & Hgl & _) Hh]. cbn [phase_log] in Hh.
  assert (Hctx : conn ∉ sy_ctx s) by (by eapply not_over).
  assert (Hone : requested (lb_log l') = requested (lb_log l) \/
    exists r, sy_chans s !! conn = Some (Some r) /\ s0 = sys_chan s conn None /\ requested (lb_log l') = [r] /\ NEnqueued ∈ lb_log l).
  { destruct Hs0 as [[_ E]|(r & -> & Er & ->)]; [left; by rewrite Hreq, E, app_nil_r|right].
    destruct (sy_unserved _ _ Hi conn) as [He Hr]; [right; right; by exists r|]. rewrite Hcl in He, Hr.
    exists r. rewrite Hreq, Hr. done. }
  assert (Hs0q : sy_queue s0 = sy_queue s /\ sy_phases s0 = sy_phases s /\ sy_sched s0 = sy_sched s /\ sy_ctx s0 = sy_ctx s).
  { by destruct Hs0 as [[-> _]|(r & -> & _)]. }
  destruct Hs0q as (_ & Ep & Es & Ec).
  assert (Hjoin : lb_queue l' = sy_queue s \/
    (Some conn ∉ queued_for s) /\ NEnqueued ∈ lb_log l' /\ (NEnqueued ∉ lb_log l) /\
      from_option (fun q => Queue.Admit <$> items q) [] (lb_queue l') = queued_for s ++ [Some conn]).
  { destruct Hq as [Hq|(Hf & _ & He & q & q' & E1 & E2 & E3)]; [by left|right]. pose proof (gi_enqueued _ _ Hgl Hf) as Hn.
    split_and!; [|done|done|].
    - intros Hx. apply Hn. rewrite <-Hcl. apply (sy_unserved _ _ Hi). by left.
    - unfold queued_for. cbn in E1. rewrite E1, E2. cbn. rewrite E3, fmap_app. done. }
  assert (Hdom : dom (sy_chans s0) ⊆ dom (sy_chans s) /\ admissions (sy_server s0) ⊆ dom (sy_chans s0)).
  { destruct Hs0 as [[-> _]|(r & -> & Er & _)]; [split; [done|exact (sy_admissions _ _ Hi)]|]. cbn. rewrite dom_insert.
    assert (conn ∈ dom (sy_chans s)) by (apply elem_of_dom; by eexists). pose proof (sy_admissions _ _ Hi). set_solver. }
  apply (inv_step n s _ conn p); cbn; rewrite ?Hcl, ?Hlog, ?Ep, ?Ec; try done.
  - intros c Hc. by left.
  - apply (history_prefix (lb_log l)); [done|done|done| |].
    + destruct Hone as [|(r & _ & _ & _ & ?)]; auto.
    + destruct Hone as [->|(r & _ & _ & -> & _)]; [by apply hi_one|done].
  - intros _. by right.
  - apply Hdom.
  - unfold queued_for. cbn. destruct Hjoin as [->|(Hn & _ & _ & ->)]; [exact (sy_nodup _ _ Hi)|].
    apply NoDup_app. split_and!; [exact (sy_nodup _ _ Hi)| |apply NoDup_singleton]. intros x Hx ->%list_elem_of_singleton. done.
  - intros c. unfold queued_for at 1. cbn. destruct Hjoin as [->|(Hn & Hin & Hout & ->)]; [by left|].
    intros [Hx|Hx]%elem_of_app; [by left|]. apply list_elem_of_singleton in Hx as [= ->]. by right.
  - intros c. destruct Hs0 as [[-> _]|(r & -> & _)]; [by left|]. cbn.
    destruct (decide (c = conn)) as [->|]; [right; by rewrite lookup_insert_eq|left; by rewrite lookup_insert_ne].
  - intros r Hr. destruct Hs0 as [[-> E]|(r' & -> & Er & ->)]; [by left|right]. rewrite Hr in Er. injection Er as ->.
    destruct (sy_unserved _ _ Hi conn) as [_ Eq]; [right; right; by eexists|]. rewrite Hcl in Eq. by rewrite Hreq, Eq.
  - destruct Hone as [->|(r & Hr & -> & -> & _)]; [by left|right]. exists r. cbn. by rewrite lookup_insert_eq.
Qed.

Lemma reply_inv_queue q l : reply_inv l -> reply_inv (set_queue q l).
Proof. intros []. by split. Qed.

Lemma loop_round_inv n s s0 conn player l ev s' :
  sys_inv n s -> Z.of_nat n + 2 < 2 ^ 63 -> sy_phases s !! conn = Some (InLoop player l) ->
  (s0 = s /\ outside s ev) \/ (exists r, s0 = sys_chan s conn None /\ sy_chans s !! conn = Some (Some r) /\ ev = EAdmission r) ->
  loop_round s0 conn player l ev = Some s' -> sys_inv (S n) s'.
Proof.
  intros Hi Hn Hl Hs0. destruct (sy_ok _ _ Hi _ _ Hl) as [(Hv & Hg & Hr & Hk) Hh].
  assert (Hq0 : sy_queue s0 = sy_queue s) by (by destruct Hs0 as [[-> _]|(r & -> & _)]).
  unfold loop_round. rewrite Hq0. set (l0 := set_queue (sy_queue s) l).
  assert (Hrd : outcome_all True (rounded n conn player l0 ev) (limbo_step (limbo_cfg conn player) l0 ev)).
  { apply round_rounded; try done; [by apply (gate_inv_ext _ l)|]. intros st q p ->. destruct Hs0 as [[_ Ho]|(r & _ & _ & ?)]; [|done].
    unfold l0. cbn. destruct Ho as [->| ->]; auto. }
  assert (Hlo : loop_ok (limbo_step (limbo_cfg conn player) l0 ev)).
  { apply limbo_step_replies; [by apply reply_inv_queue|]. intros r ->. destruct Hs0 as [[_ []]|(r' & _ & Er & [= <-])].
    destruct (sy_unserved _ _ Hi conn) as [_ E]; [right; right; by exists r|].
    rewrite (conn_log_at _ _ _ Hl) in E. cbn in E |- *. rewrite E. set_solver. }
  assert (Hs0' : (s0 = s /\ event_requests [ev] = []) \/
    (exists r, s0 = sys_chan s conn None /\ sy_chans s !! conn = Some (Some r) /\ ev = EAdmission r)).
  { destruct Hs0 as [[-> Ho]|]; [left|by right]. split; [done|]. by destruct ev. }
  pose proof (loop_ok_log _ Hlo) as Hlog.
  destruct (limbo_step (limbo_cfg conn player) l0 ev) as [l'|e l'|l' b| |] eqn:E; cbn in Hrd, Hlo, Hlog; try done; intros [= <-].
  - apply (inv_round n s s0 conn player l ev l'); try done. cbn. split_and!; try done; apply Hrd.
  - by apply (inv_round n s s0 conn player l ev l').
  - apply (inv_round n s s0 conn player l ev l'); try done. cbn. split; [done|].
    destruct (limbo_step_playing (limbo_cfg conn player) l0 ev l' b) as [r Hlast]; [|done|].
    { destruct Hs0 as [[_ Ho]|(r & _ & _ & ->)]; [|done]. by destruct ev. }
    split.
    + intros pre post Ep. by apply (gi_gate _ _ (rd_gate _ _ _ _ _ _ Hrd)) in Ep as [? _].
    + exists (lb_log l), r. split; [done|]. destruct Hlog as [_ Hsub]. rewrite Hlast in Hsub.
      specialize (Hsub r). rewrite replied_app, requested_app in Hsub. cbn in Hsub. rewrite app_nil_r in Hsub. apply Hsub. set_solver.
Qed.

(** *** Steps of a connection *)

(** The deferred Cancel may remove an entry, whoever made it. *)
Lemma Cancel_sublist {C F} (q : @FIFO C F) id : items (snd (Cancel q id)) `sublist_of` items q.
Proof.
  unfold Cancel. destruct (find_index _ _ _) as [i|]; [|done]. cbn. unfold remove_at. rewrite <-(take_drop i (items q)) at 3.
  apply sublist_app; [done|]. replace (S i) with (i + 1)%nat by lia. rewrite <-drop_drop. apply sublist_drop.
Qed.

Lemma conn_cancel_inv n s conn log :
  sys_inv n s -> sy_phases s !! conn = Some (Unqueued log) -> sys_inv (S n) (sys_phase (sys_done s conn) conn (Finishing UntrackConn log)).
Proof.
  intros Hi Hp. pose proof (conn_log_at _ _ _ Hp) as Hl. apply (inv_step n s _ conn (Finishing UntrackConn log)); cbn; rewrite ?Hl; try done.
  - set_solver.
  - intros c. set_solver.
  - exact (proj2 (sy_ok _ _ Hi _ _ Hp)).
  - intros _. left. set_solver.
  - exact (sy_admissions _ _ Hi).
  - exact (sy_nodup _ _ Hi).
  - intros c Hx. by left.
  - intros c. by left.
  - intros r Hr. by left.
  - by left.
Qed.

Lemma bridge_round_inv n s conn player l b ev :
  sys_inv n s -> sy_phases s !! conn = Some (InBridge player l b) -> sys_inv (S n) (bridge_round s conn player l b ev).
Proof.
  intros Hi Hp. pose proof (not_over _ _ _ _ Hi Hp eq_refl) as Hc. pose proof (conn_log_at _ _ _ Hp) as Hl.
  unfold bridge_round. destruct (bridge_step _ _ _ _) as [[e|] b'];
    [apply (inv_phase n s (sy_server s) conn (Leaving player (lb_log l)))|apply (inv_phase n s (sy_server s) conn (InBridge player l b'))];
    try done; try (by right). exact (proj1 (sy_ok _ _ Hi _ _ Hp)).
Qed.

Lemma conn_unqueue_inv n s conn player log :
  sys_inv n s -> sy_phases s !! conn = Some (Leaving player log) ->
  sys_inv (S n) (sys_phase (sys_queue s ((fun q => snd (Cancel q (queueID (limbo_cfg conn player)))) <$> sy_queue s)) conn (Unqueued log)).
Proof.
  intros Hi Hp. pose proof (not_over _ _ _ _ Hi Hp eq_refl) as Hc. pose proof (conn_log_at _ _ _ Hp) as Hl.
  assert (Hsub : queued_for (sys_phase (sys_queue s ((fun q => snd (Cancel q (queueID (limbo_cfg conn player)))) <$> sy_queue s)) conn (Unqueued log))
    `sublist_of` queued_for s).
  { unfold queued_for. cbn. destruct (sy_queue s) as [q|]; [|done]. cbn. apply fmap_sublist, Cancel_sublist. }
  eapply (inv_step n s _ conn (Unqueued log)); rewrite ?Hl; try done.
  - intros c Hx. by left.
  - exact (proj2 (sy_ok _ _ Hi _ _ Hp)).
  - intros _. by right.
  - exact (sy_admissions _ _ Hi).
  - eapply sublist_NoDup; [exact (sy_nodup _ _ Hi)|exact Hsub].
  - intros c Hx. left. by eapply elem_of_sublist.
  - intros c. by left.
  - intros r Hr. by left.
  - by left.
Qed.

Lemma conn_login_inv n s conn client state client' player :
  sys_inv n s -> sy_phases s !! conn = Some (Exchanging client) ->
  serveLogin DecryptPKCS1v15 (authenticator conn) (host RemoteAddr conn) client = (Some player, state, client') ->
  sys_inv (S n) (sys_chan (sys_phase (sys_server s (trackAdmission (sy_server s) conn)) conn (Joining client' state player)) conn None).
Proof.
  intros Hi Hp Hs. pose proof (not_over _ _ _ _ Hi Hp eq_refl) as Hc. pose proof (conn_log_at _ _ _ Hp) as Hl.
  apply serveLogin_sound in Hs as [_ Hs]. eapply (inv_step n s _ conn (Joining client' state player)); rewrite ?Hl; try done.
  - intros c Hx. by left.
  - by exists client, client'.
  - apply history_nil.
  - intros _. by right.
  - cbn. pose proof (sy_admissions _ _ Hi). set_solver.
  - exact (sy_nodup _ _ Hi).
  - intros c Hx. by left.
  - intros c. cbn. destruct (decide (c = conn)) as [->|]; [right; by rewrite lookup_insert_eq|left; by rewrite lookup_insert_ne].
  - intros r Hr. exfalso. destruct (sy_joined _ _ Hi conn) as [|(p & E & Ha)]; [apply elem_of_dom; by eexists|done|].
    rewrite Hp in E. by injection E as <-.
  - by left.
Qed.

Lemma conn_loop_inv n s conn client state player l client' :
  sys_inv n s -> sy_phases s !! conn = Some (Joining client state player) -> limbo_start client state (sy_queue s) = (Ok l, client') ->
  sys_inv (S n) (sys_phase s conn (InLoop player l)).
Proof.
  intros Hi Hp Hs. pose proof (not_over _ _ _ _ Hi Hp eq_refl) as Hc. pose proof (conn_log_at _ _ _ Hp) as Hl.
  assert (Hlog : lb_log l = [NSent 1] /\ keepAliveID (lb_ka l) = 1).
  { revert Hs. unfold limbo_start. repeat (case_match; try done). intros; by simplify_eq. }
  destruct Hlog as [Hlog Hk]. eapply (inv_step n s _ conn (InLoop player l)); cbn [phase_log]; rewrite ?Hlog, ?Hl; try done.
  - intros c Hx. by left.
  - cbn. split_and!; [exact (proj1 (sy_ok _ _ Hi _ _ Hp))|by eapply limbo_start_gate|by eapply limbo_start_replies|lia].
  - split; [|split; [constructor|cbn; set_solver]|cbn; lia]. intros pre r post E. by destruct pre as [|? [|? ?]].
  - apply prefix_nil.
  - intros _. by right.
  - exact (sy_admissions _ _ Hi).
  - exact (sy_nodup _ _ Hi).
  - intros c Hx. by left.
  - intros c. by left.
  - intros r Hr. by left.
  - by left.
Qed.

(** The server's maps do not touch the admissions before Limbo. *)
Lemma Serve_accept_admissions sv ok sv' : Serve_accept sv = (ok, sv') -> admissions sv' ⊆ admissions sv.
Proof. unfold Serve_accept. case_match; intros [= <- <-]; done. Qed.
Lemma Serve_track_admissions sv conn ok sv' :
  Serve_track RemoteAddr sv conn = (ok, sv') -> admissions sv' ⊆ admissions sv.
Proof. unfold Serve_track, track. destruct (_ <=? _); intros [= <- <-]; done. Qed.
Lemma login_allowed_admissions sv conn now ok sv' :
  login_allowed RemoteAddr sv conn now = (ok, sv') -> admissions sv' ⊆ admissions sv.
Proof. unfold login_allowed. destruct (Allow _ _ _). intros [= <- <-]. done. Qed.

(** Phases before Limbo and after it. *)
Lemma inv_outside n s sv conn p p' :
  sys_inv n s -> sy_phases s !! conn = Some p -> attached p = false -> phase_log p' = phase_log p -> phase_ok (S n) conn p' ->
  (over p = true -> over p' = true) -> admissions sv ⊆ admissions (sy_server s) -> sys_inv (S n) (sys_phase (sys_server s sv) conn p').
Proof.
  intros Hi Hp Hlim Hl Hok Ho Had. apply inv_phase; [done|by rewrite (conn_log_at _ _ _ Hp)|done| |intros Hd|done].
  - intros Hc. destruct (over p) eqn:E; [by apply Ho|]. by destruct (not_over _ _ _ _ Hi Hp E).
  - left. destruct (sy_joined _ _ Hi _ Hd) as [|(p0 & E & ?)]; [done|congruence].
Qed.

Lemma inv_fresh n s sv conn p :
  sys_inv n s -> sy_phases s !! conn = None -> phase_log p = [] -> phase_ok (S n) conn p ->
  admissions sv ⊆ admissions (sy_server s) -> sys_inv (S n) (sys_phase (sys_server s sv) conn p).
Proof.
  intros Hi Hp Hl Hok Had. apply inv_phase; [done|unfold conn_log; by rewrite Hp|done| |intros Hd|done].
  - intros Hc. destruct (sy_over _ _ Hi _ Hc) as (p0 & E & _). congruence.
  - destruct (sy_joined _ _ Hi _ Hd) as [|(p0 & E & _)]; [by left|congruence].
Qed.

Lemma conn_step_inv n s s' : sys_inv n s -> Z.of_nat n + 2 < 2 ^ 63 -> conn_step s s' -> sys_inv (S n) s'.
Proof.
  intros Hi Hn Hs.
  destruct Hs as [conn client sv Hp Hsv|conn sv Hp Hsv|conn client ok sv Hp Hsv|conn client Hp|conn client c' Hp _|conn client c' c'' Hp _ _
    |conn client c' now ok sv Hp _ Hsv|conn client Hp|conn client st c' Hp _|conn client st c' player Hp Hs|conn client st player l c' Hp Hs
    |conn client st player e c' Hp _|conn player l ev s' Hp Ho Hs|conn player l req s' Hp Hc Hs|conn player l b ev Hp|conn player log Hp
    |conn log Hp|conn d log sv next Hp Hsv|conn log Hp].
  - apply inv_fresh; try done. by eapply Serve_accept_admissions.
  - apply inv_fresh; try done. by eapply Serve_accept_admissions.
  - apply Serve_track_admissions in Hsv. by destruct ok; eapply inv_outside.
  - by eapply inv_outside.
  - by apply (inv_outside n s (sy_server s) conn _ _ Hi Hp).
  - by apply (inv_outside n s (sy_server s) conn _ _ Hi Hp).
  - apply login_allowed_admissions in Hsv. by destruct ok; eapply inv_outside.
  - by eapply inv_outside.
  - by apply (inv_outside n s (sy_server s) conn _ _ Hi Hp).
  - by eapply conn_login_inv.
  - by eapply conn_loop_inv.
  - pose proof (not_over _ _ _ _ Hi Hp eq_refl). apply (inv_phase n s (sy_server s) conn (Leaving player [])); try done.
    + by rewrite (conn_log_at _ _ _ Hp).
    + by right.
  - eapply (loop_round_inv n s s); try done. by left.
  - eapply (loop_round_inv n s (sys_chan s conn None)); try done. right. by exists req.
  - by apply bridge_round_inv.
  - by apply conn_unqueue_inv.
  - by apply conn_cancel_inv.
  - assert (Had : admissions sv ⊆ admissions (sy_server s)) by (destruct d; cbn in Hsv; simplify_eq; cbn; set_solver).
    destruct next; by eapply inv_outside.
  - by eapply inv_outside.
Qed.

(** *** Steps of the scheduler *)

(** The scheduler goes back to its select when nothing depends on it. *)
Lemma inv_idle n s pc :
  sys_inv n s -> pc = SchedIdle \/ pc = SchedDone ->
  (forall c r, sy_sched s = SchedWait c r -> r ∈ replied (conn_log s c) \/ c ∈ sy_ctx s) ->
  sys_inv n (sys_sched s pc).
Proof.
  intros Hi Hpc Hw. pose proof Hi as [H1 H2 H3 H4 H5 H6 H7 H8 H9 H10 H11 H12].
  assert (Hno : forall c, ~ sched_holds (sys_sched s pc) c) by (intros c; destruct Hpc as [-> | ->]; unfold sched_holds; cbn; tauto).
  split; try done.
  - intros c [Hx|[Hx|Hx]]; [by apply H3; auto|by destruct (Hno c)|by apply H3; auto].
  - intros c Hx. split; [done|by apply H4].
  - intros c Hx. by destruct (Hno c).
  - intros c r E. right. destruct (H6 c r E) as [Es|]; [|done]. destruct (Hw c r Es) as [Hr|]; [|done].
    destruct (H3 c) as [_ Eq]; [right; right; by exists r|]. apply (ro_sub _ (hi_replies _ (history_conn n s c Hi))) in Hr. rewrite Eq in Hr. set_solver.
  - intros c r Hr Hn. right. destruct (H7 c r Hr Hn) as [Es|]; [|done]. by destruct (Hw c r Es).
  - intros c r. cbn. by destruct Hpc as [-> | ->]; intros [].
  - intros c r. cbn. by destruct Hpc as [-> | ->].
Qed.

Lemma sched_step_inv n s s' : sys_inv n s -> sched_step s s' -> sys_inv n s'.
Proof.
  intros Hi Hs. pose proof Hi as [H1 H2 H3 H4 H5 H6 H7 H8 H9 H10 H11 H12].
  destruct Hs as [Hp|q item q' ctx conn Hp Hq Hpop Hx Ha|conn Hp Hc|conn Hp Hc|conn req Hp Hc|conn req err Hp Hr|conn req Hp Hc].
  - apply inv_idle; [done|by right|]. rewrite Hp. done.
  - assert (Hqf : queued_for s = Some conn :: (Queue.Admit <$> items q')).
    { unfold queued_for. rewrite Hq. cbn. unfold Pop in Hpop. destruct (items q) as [|i rest]; [done|]. simplify_eq. cbn. by rewrite Ha. }
    rewrite Hqf in H2. apply NoDup_cons in H2 as [Hnin Hnd].
    destruct (H4 conn) as [Hnh Hnc]; [rewrite Hqf; set_solver|]. destruct (H3 conn) as [He Hreq]; [left; rewrite Hqf; set_solver|].
    assert (Hs' : sys_inv n (sys_queue s (Some q'))).
    { split; try done.
      - intros c [Hy|Hy]; apply H3; [left; rewrite Hqf; by right|by right].
      - intros c Hy. apply H4. rewrite Hqf. by right. }
    case_bool_decide; [apply inv_idle; [done|by left|cbn; by rewrite Hp]|].
    destruct Hs' as [G1 G2 G3 G4 G5 G6 G7 G8 G9 G10 G11 G12]. split; try done.
    + intros c [Hy|[Hy|Hy]]; [by apply G3; auto|cbn in Hy; by subst c|by apply G3; auto].
    + intros c Hy. destruct (G4 c Hy) as [_ ?]. split; [|done]. cbn. intros ->. done.
    + intros c Hy Hz. cbn in Hy. subst c. done.
    + intros c r E. right. cbn. destruct (G6 c r E) as [Es|]; [|done]. cbn in Es. congruence.
    + intros c r E1 E2. right. cbn. destruct (G7 c r E1 E2) as [Es|]; [|done]. cbn in Es. congruence.
    + intros c r. cbn. by intros [].
  - assert (Hh : forall c, sched_holds s c <-> conn = c) by (intros c; unfold sched_holds; by rewrite Hp).
    split; try done.
    + intros c [Hy|[Hy|Hy]]; apply H3; [by left|right; left; by apply Hh|by right; right].
    + intros c Hy. destruct (H4 c Hy) as [Ha Hb]. split; [|done]. intros Hz. by apply Ha, Hh.
    + intros c Hy. apply H5. by apply Hh.
    + intros c r E. right. destruct (H6 c r E) as [Es|]; [congruence|done].
    + intros c r E1 E2. right. destruct (H7 c r E1 E2) as [Es|]; [congruence|done].
    + intros c r. cbn. intros [[= -> _]|]; [by apply H10|done].
  - apply inv_idle; [done|by left|]. rewrite Hp. done.
  - assert (Hh : sched_holds s conn) by (unfold sched_holds; by rewrite Hp).
    assert (Hch : forall c, in_channel (sys_sched (sys_chan s conn (Some req)) (SchedWait conn req)) c -> c = conn \/ in_channel s c).
    { intros c [r E]. cbn in E. destruct (decide (c = conn)) as [->|]; [by left|right]. rewrite lookup_insert_ne in E by done. by exists r. }
    split; try done.
    + intros c [Hy|[Hy|Hy]]; [by apply H3; auto|by destruct Hy|]. apply Hch in Hy as [->|]; apply H3; auto.
    + intros c Hy. destruct (H4 c Hy) as [Ha Hb]. split; [by intros []|]. intros Hz. apply Hch in Hz as [->|]; auto.
    + intros c r E. cbn in E |- *. destruct (decide (c = conn)) as [->|]; [rewrite lookup_insert_eq in E; left; congruence|].
      rewrite lookup_insert_ne in E by done. right. destruct (H6 c r E) as [Es|]; [congruence|done].
    + intros c r E1 E2. cbn. right. destruct (H7 c r E1 E2) as [Es|]; [congruence|done].
    + intros c Hx. cbn in Hx |- *. apply H9. rewrite dom_insert in Hx. pose proof (H11 conn req (or_introl Hp)). set_solver.
    + cbn. set_solver.
    + intros c r. cbn. intros [|[= -> _]]; [done|]. set_solver.
    + intros c r. cbn. intros [= -> ->]. left. apply lookup_insert_eq.
  - apply inv_idle; [done|by left|]. intros c r Es. rewrite Hp in Es. simplify_eq. left. unfold replied.
    rewrite list_elem_of_omap. by exists (NReply r err).
  - apply inv_idle; [done|by left|]. intros c r Es. destruct Hp as [Hp|Hp]; rewrite Hp in Es; simplify_eq. by right.
Qed.

Lemma sys_start_inv config queueSize : sys_inv 0 (sys_start config queueSize).
Proof.
  assert (Hqf : queued_for (sys_start config queueSize) = []) by (by destruct queueSize).
  split; rewrite ?Hqf; cbn; try done; try set_solver; [constructor|..].
  intros c [Hx|[Hx|[r Hx]]]; [set_solver|done|cbn in Hx; by rewrite lookup_empty in Hx].
Qed.

Lemma sys_steps_inv n : forall n0 s s',
  nsteps sys_step n s s' -> sys_inv n0 s -> Z.of_nat n0 + Z.of_nat n + 2 < 2 ^ 63 -> sys_inv (n0 + n) s'.
Proof.
  induction n as [|n IH]; intros n0 s s' Hs Hi Hn.
  - inversion Hs; subst. by rewrite Nat.add_0_r.
  - inversion Hs as [|? ? s1 ? H1 H2]; subst. rewrite <-Nat.add_succ_comm. apply (IH (S n0) s1); [done| |lia].
    destruct H1 as [H1|H1]; [eapply conn_step_inv; [done|lia|done]|]. by apply inv_mono, (sched_step_inv _ s).
Qed.

Lemma sys_reachable config queueSize n s :
  Z.of_nat n + 2 < 2 ^ 63 -> nsteps sys_step n (sys_start config queueSize) s -> sys_inv n s.
Proof. intros Hn Hs. by apply (sys_steps_inv n 0 _ _ Hs (sys_start_inv config queueSize)). Qed.

(** ** Properties *)

(** C2: only vetted players reach the backend. In every interleaving of any number
    of connections with the scheduler, a connection whose packets are forwarded to
    a backend has logged in with the identity it plays with; after that its
    session passed the challenge, if there is a hook, and answered as many
    keep-alives as required, then it was put in the admission queue, then it was
    asked for by the scheduler, and it answered that request with success before
    the bridge started. *)
Theorem only_vetted_players_transferred config queueSize n s conn player l b :
  Z.of_nat n + 2 < 2 ^ 63 -> nsteps sys_step n (sys_start config queueSize) s ->
  sy_phases s !! conn = Some (InBridge player l b) ->
  vetted conn player /\
  exists vetting waiting r transfer,
    lb_log l = vetting ++ NEnqueued :: waiting ++ NRequest r :: transfer ++ [NReply r None] /\
    (hook player = None \/ NPassed ∈ vetting) /\
    match hook player with Some (Some required) => Z.max 1 required | _ => 1 end <= blen (answered_ids vetting).
Proof.
  intros Hn Hs Hp. pose proof (sys_reachable _ _ _ _ Hn Hs) as Hi.
  destruct (sy_ok _ _ Hi _ _ Hp) as [(Hv & Hg & log & r & Hl & Hr) [Ho _ _]]. split; [done|]. cbn [phase_log] in Ho.
  apply elem_of_requested, list_elem_of_split in Hr as (pre & transfer & ->).
  assert (He : NEnqueued ∈ pre) by (eapply (Ho pre r); by rewrite Hl, <-app_assoc).
  apply list_elem_of_split in He as (vetting & waiting & ->).
  exists vetting, waiting, r, transfer. rewrite Hl, <-!app_assoc. split; [done|].
  assert (Ha : admissible (limbo_cfg conn player) vetting) by (eapply Hg; by rewrite Hl, <-!app_assoc). exact Ha.
Qed.

(** A request on its way to the session or being worked on there. *)
Definition pending (s : system) (conn r : nat) : Prop :=
  sy_chans s !! conn = Some (Some r) \/ r ∈ requested (conn_log s conn) /\ (r ∉ replied (conn_log s conn)).

(** What the scheduler waits for, at the result of request [r]: the session of
    [conn] is in its Limbo loop with the request pending; or it has left the loop,
    and then the deferred calls of its own goroutine let the scheduler go on. *)
Definition held_up (s : system) (conn r : nat) : Prop :=
  pending s conn r /\
  ((exists player l, sy_phases s !! conn = Some (InLoop player l)) \/
   (exists player log, sy_phases s !! conn = Some (Leaving player log) /\ is_Some (execs s [DoUnqueue conn; DoCancel conn; DoSchedule])) \/
   (exists log, sy_phases s !! conn = Some (Unqueued log) /\ is_Some (execs s [DoCancel conn; DoSchedule]))).

Lemma in_ctx_moves s conn r : sy_sched s = SchedWait conn r -> conn ∈ sy_ctx s -> is_Some (exec_sched s).
Proof. intros Hp Hc. unfold exec_sched. rewrite Hp, bool_decide_true by done. by eexists. Qed.

Lemma unqueued_moves s conn log r :
  sy_phases s !! conn = Some (Unqueued log) -> sy_sched s = SchedWait conn r -> is_Some (execs s [DoCancel conn; DoSchedule]).
Proof.
  intros E Hp. set (s1 := sys_phase (sys_done s conn) conn (Finishing UntrackConn log)).
  assert (E1 : exec s (DoCancel conn) = Some s1) by (cbn; by rewrite E).
  cbn [execs]. rewrite E1. cbn [mbind option_bind exec].
  destruct (in_ctx_moves s1 conn r) as [s2 E2]; [exact Hp|cbn; set_solver|]. rewrite E2. by eexists.
Qed.

Lemma held_up_or_moves n s conn r :
  sys_inv n s -> sy_sched s = SchedWait conn r -> (exists s', sched_step s s') \/ held_up s conn r.
Proof.
  intros Hi Hp. pose proof (history_conn n s conn Hi) as Hh.
  destruct (sy_joined _ _ Hi _ (sy_target _ _ Hi conn r (or_intror Hp))) as [Hc|(p & E & Hat)].
  { left. eexists. eapply sched_context; eauto. }
  destruct (decide (r ∈ replied (conn_log s conn))) as [Hr|Hr].
  { left. apply list_elem_of_omap in Hr as (m & Hm & Em). destruct m; simplify_eq. eexists. by eapply sched_answer. }
  assert (Hpe : pending s conn r) by (destruct (sy_asked _ _ Hi conn r Hp); [by left|by right]).
  assert (Hq : NEnqueued ∈ conn_log s conn).
  { destruct (sy_asked _ _ Hi conn r Hp) as [Hx|Hx]; [apply (sy_unserved _ _ Hi); right; right; by exists r|].
    apply elem_of_requested, list_elem_of_split in Hx as (pre & post & Hx). rewrite Hx. pose proof (hi_order _ Hh pre r post Hx). set_solver. }
  right. split; [done|]. pose proof (conn_log_at _ _ _ E) as Hl. destruct p as [| | | | |client st player|player l|player l b| |player log|log| | |]; try done.
  - rewrite Hl in Hq. cbn in Hq. set_solver.
  - left. eauto.
  - exfalso. destruct (sy_ok _ _ Hi _ _ E) as [(_ & _ & log & r' & Elog & Hr') _]. cbn in Hl. rewrite Hl in *.
    assert (Hreq : r' ∈ requested (lb_log l)) by (rewrite Elog, requested_app; set_solver).
    assert (Heq : r = r').
    { destruct (sy_asked _ _ Hi conn r Hp) as [Hx|Hx].
      - destruct (sy_unserved _ _ Hi conn) as [_ Eq]; [right; right; by exists r|]. rewrite Hl in Eq. rewrite Eq in Hreq. set_solver.
      - rewrite Hl in Hx. pose proof (hi_one _ Hh) as Hone. destruct (requested (lb_log l)) as [|a [|? ?]]; [set_solver|set_solver|cbn in Hone; lia]. }
    apply Hr. subst r'. rewrite Elog, replied_app. cbn. set_solver.
  - right. left. exists player, log. split; [done|].
    set (s1 := sys_phase (sys_queue s ((fun q => snd (Cancel q (queueID (limbo_cfg conn player)))) <$> sy_queue s)) conn (Unqueued log)).
    assert (E1 : exec s (DoUnqueue conn) = Some s1) by (cbn; by rewrite E).
    cbn [execs]. rewrite E1. cbn [mbind option_bind]. apply (unqueued_moves s1 conn log r); [apply lookup_insert_eq|done].
  - right. right. exists log. split; [done|]. by apply (unqueued_moves s conn log r).
Qed.

(** C4: admissions are orderly. In every interleaving, a connection is asked for
    at most once, and its session never blocks on an answer; among the
    connections whose session is not over at most one has a pending request; the
    scheduler can always move, except while it waits for a request that is pending
    at a session in its Limbo loop, or at one that just left the loop, whose
    goroutine lets the scheduler go on with its next one or two deferred calls: a
    session that plays or has ended, in whatever way, never holds up the queue. *)
Theorem admissions_one_at_a_time config queueSize n s :
  Z.of_nat n + 2 < 2 ^ 63 -> nsteps sys_step n (sys_start config queueSize) s ->
  (forall conn, (length (requested (conn_log s conn)) <= 1)%nat) /\
  (forall conn log, sy_phases s !! conn <> Some (Blocked log)) /\
  (forall c1 r1 c2 r2, pending s c1 r1 -> pending s c2 r2 -> c1 ∉ sy_ctx s -> c2 ∉ sy_ctx s -> c1 = c2 /\ r1 = r2) /\
  (sy_sched s <> SchedDone -> (exists s', sched_step s s') \/ exists conn r, sy_sched s = SchedWait conn r /\ held_up s conn r).
Proof.
  intros Hn Hs. pose proof (sys_reachable _ _ _ _ Hn Hs) as Hi.
  assert (Hw : forall c r, pending s c r -> c ∉ sy_ctx s -> sy_sched s = SchedWait c r).
  { intros c r [Hx|[Hx Hy]] Hc; [destruct (sy_waits _ _ Hi c r Hx)|destruct (sy_progress _ _ Hi c r Hx Hy)]; done. }
  split_and!.
  - intros conn. apply hi_one. by eapply history_conn.
  - intros conn log E. by destruct (sy_ok _ _ Hi _ _ E).
  - intros c1 r1 c2 r2 H1 H2 N1 N2. pose proof (Hw _ _ H1 N1). pose proof (Hw _ _ H2 N2). split; congruence.
  - destruct (sy_sched s) as [|conn|conn req|conn req|] eqn:Hp; [| | | |by intros []]; intros _.
    + left. eexists. by apply sched_stop.
    + left. destruct (decide (conn ∈ admissions (sy_server s))); eexists; [by apply sched_lookup|by eapply sched_not_in_limbo].
    + left. pose proof (sy_target _ _ Hi conn req (or_introl Hp)) as Hd. apply elem_of_dom in Hd as [[r|] Hd].
      * destruct (sy_held_only _ _ Hi conn); [unfold sched_holds; by rewrite Hp|by exists r].
      * eexists. by apply sched_send.
    + destruct (held_up_or_moves n s conn req Hi Hp); [by left|right; eauto].
Qed.

End system.

(** ** Witnesses: an offline player from the first byte to the bridge *)

Definition demo_arrival : link :=
  mkLink (Ok <$> [Payload (mkPacket ProtocolVersion (str "mc.example") 25565 NextLogin); StartPayload (str "Steve") (replicate 16 x00);
                  varint 3; varint 2; varint 0 ++ varint 1])
    os_ErrDeadlineExceeded [] None net_ErrClosed false None 0.

Definition demo_schedule : list action :=
  [DoAccept 1 demo_arrival; DoTrack 1; DoClient 1; DoDispatch 1 0; DoSession 1; DoLogin 1; DoLoop 1;
   DoRound 1 (EFrame (Ok (demo_answer 1)) [] [] []); DoSchedule; DoSchedule; DoSchedule; DoRequest 1;
   DoRound 1 (EOther demo_session (Queue.New 8) (demo_prepared, demo_conn));
   DoRound 1 (EPrepareResult (Ok (demo_prepared, demo_conn)) []);
   DoRound 1 (EFrame (Ok (varint 0x0B)) [] [] []); DoRound 1 (EFrame (Ok (varint 2)) [] [] [])].

Definition demo_begin : system := sys_start (mkServerConfig 0 0 0 0 0 0 0 0 0 0 0 0 0) (Some 8).
Definition demo_remote (conn : nat) : gostring := str "203.0.113.9:51234".
Definition demo_rsa (_ : unit) (l : list byte) : res (list byte) := Ok l.
Definition demo_run (acts : list action) : option system :=
  execs demo_remote demo_rsa (fun _ => None) true (fun _ => None) demo_begin acts.

Definition demo_played : system := Eval vm_compute in default demo_begin (demo_run demo_schedule).
Definition demo_asked : system := Eval vm_compute in default demo_begin (demo_run (take 12 demo_schedule)).

Lemma only_vetted_players_transferred_witness :
  exists player l b, sy_phases demo_played !! 1%nat = Some (InBridge player l b) /\
    vetted demo_remote demo_rsa (fun _ => None) 1 player /\
    exists vetting waiting r transfer,
      lb_log l = vetting ++ NEnqueued :: waiting ++ NRequest r :: transfer ++ [NReply r None] /\
      (@None (option Z) = None \/ NPassed ∈ vetting) /\ 1 <= blen (answered_ids vetting).
Proof.
  destruct (sy_phases demo_played !! 1%nat) as [p|] eqn:E; [|vm_compute in E; discriminate E].
  destruct p; try (vm_compute in E; discriminate E). exists player, l, b. split; [reflexivity|].
  apply (only_vetted_players_transferred demo_remote demo_rsa (fun _ => None) (mkResponse (mkVersion [] 0) (mkPlayers 0 0) (mkDescription []))
    true (fun _ => None) (mkServerConfig 0 0 0 0 0 0 0 0 0 0 0 0 0) (Some 8) (length demo_schedule) demo_played 1 player l b); [done| |exact E].
  apply execs_steps. vm_compute. reflexivity.
Defined.

Lemma admissions_one_at_a_time_witness :
  pending demo_asked 1 0 /\ (length (requested (conn_log demo_asked 1)) <= 1)%nat /\
  ((exists s', sched_step demo_asked s') \/
   exists conn r, sy_sched demo_asked = SchedWait conn r /\ held_up demo_remote demo_rsa (fun _ => None) true (fun _ => None) demo_asked conn r).
Proof.
  destruct (admissions_one_at_a_time demo_remote demo_rsa (fun _ => None) (mkResponse (mkVersion [] 0) (mkPlayers 0 0) (mkDescription []))
    true (fun _ => None) (mkServerConfig 0 0 0 0 0 0 0 0 0 0 0 0 0) (Some 8) 12 demo_asked) as (H1 & _ & _ & H4).
  - done.
  - apply (execs_steps demo_remote demo_rsa _ _ true (fun _ => None) (take 12 demo_schedule)). vm_compute. reflexivity.
  - split; [|split; [apply H1|apply H4; vm_compute; discriminate]].
    assert (E : conn_log demo_asked 1 = [NSent 1; NAnswered 1; NEnqueued; NRequest 0; NPrepare []]) by (vm_compute; reflexivity).
    right. rewrite E. split; [apply list_elem_of_singleton; reflexivity|apply not_elem_of_nil].
Defined.
