(* ===== verification/App.v ===== *)
(** * Wiring of the gateway (internal/app/run.go: Run)

    The construction of the components from the configuration, in the order of
    [Run], and the value it returns. Reading the policy file, decoding YAML,
    drawing keys and binding the listening socket are inputs; the HTTP endpoints
    are in Monitor.v, the server in Server.v and the files it uses. *)

From S2P Require Import AppConfig.
From S2P Require Import Prelude GoIO Strconv Frame Ratelimit Queue Handshake Status Login Forwarding Auth Botfilter.
From S2P Require Import Link Backend Transfer Server Monitor.

(** ** Set-up *)

(** The components [Run] builds; [rn_hook] tells whether the bot filter is also
    the challenge hook, [rn_scheduler] is the scheduler's interval. *)
Record wiring (Key : Type) := mkWiring {
  rn_bot : option Manager;
  rn_hook : bool;
  rn_auth : option (Authenticator Key);
  rn_coordinator : option Coordinator;
  rn_queue : option (FIFO nat nat);
  rn_config : ServerConfig;
  rn_status : Response;
  rn_scheduler : option Z
}.
Arguments mkWiring {Key}.
Arguments rn_bot {Key}.
Arguments rn_hook {Key}.
Arguments rn_auth {Key}.
Arguments rn_coordinator {Key}.
Arguments rn_queue {Key}.
Arguments rn_config {Key}.
Arguments rn_status {Key}.
Arguments rn_scheduler {Key}.

(** [os.IsNotExist], which does not look through wrapped errors. *)
Definition os_IsNotExist (err : error) : bool := bool_decide (err = os_ErrNotExist).

Section run.
Context {Key : Type} (GenerateKey : reader -> res Key * reader) (MarshalPKIXPublicKey : Key -> res (list byte)).
Context (unmarshal : list byte -> Policy -> res Policy).
(** [SessionService{URL: url}.HasJoined] *)
Context (SessionService_ : gostring -> Verifier).

Definition run_bot (config : AppConfig.Config) (file : res (list byte)) : res (option Manager * bool) :=
  let path := AppConfig.BotFilterConfigFile config in
  if bool_decide (path = []) then Ok (None, false)
  else match LoadFile file unmarshal with
  | Err err => if os_IsNotExist err then Ok (None, false) else Err (ErrWrap "load bot filter policy" err)
  | Ok policy => Ok (Some (Botfilter.New policy path), Enabled (BotFilter policy))
  end.

Definition run_auth (config : AppConfig.Config) (random : reader) : res (option (Authenticator Key)) :=
  if AppConfig.OnlineMode config then
    let! a := fst (NewAuthenticator GenerateKey MarshalPKIXPublicKey (SessionService_ [])
                     (Some (SessionService_ (AppConfig.SessionServerURL config))) random) in
    Ok (Some a)
  else Ok None.

Definition run_backend (config : AppConfig.Config) : res (option Coordinator * option (FIFO nat nat)) :=
  if bool_decide (AppConfig.BackendAddress config = []) then Ok (None, None)
  else
    let! forwarder := NewModernForwarding (AppConfig.VelocitySecret config) in
    let dialer := NewDialer (Backend.mkConfig (AppConfig.BackendAddress config) (AppConfig.BackendHost config)
      (AppConfig.BackendPort config) (AppConfig.MaxPacketSize config) 0) in
    Ok (Some (NewCoordinator (Some dialer) (Some forwarder) (mkTransferConfig 0 0 0 (mkConfigurationConfig 0 0 0))),
        Some (Queue.New (AppConfig.QueueSize config))).

Definition server_config (config : AppConfig.Config) : ServerConfig :=
  mkServerConfig (AppConfig.MaxConnections config) (AppConfig.MaxConnectionsPerIP config) (AppConfig.MaxPacketSize config)
    (AppConfig.HandshakeTimeout config) (AppConfig.StatusTimeout config) (AppConfig.LoginTimeout config)
    (AppConfig.WriteTimeout config) (AppConfig.KeepAliveInterval config) (AppConfig.KeepAliveTimeout config)
    (AppConfig.QueueStatusInterval config) (AppConfig.LoginRateLimit config) (AppConfig.LoginRateWindow config)
    (AppConfig.ChallengeTimeout config).

Definition run_status (config : AppConfig.Config) : Response :=
  mkResponse (mkVersion (str "1.20.4") ProtocolVersion) (mkPlayers (AppConfig.MaxConnections config) 0)
    (mkDescription (str "RegionGate")).

(** Everything before the goroutines that serve are started. *)
Definition Run_setup (config : AppConfig.Config) (file : res (list byte)) (random : reader) (listen : res unit)
    : res (wiring Key) :=
  let! (bot, hook) := run_bot config file in
  let! authenticator := run_auth config random in
  let! (coordinator, fifo) := run_backend config in
  let! _ := listen in
  Ok (mkWiring bot hook authenticator coordinator fifo (server_config config) (run_status config)
        ((fun _ => AppConfig.AdmissionInterval config) <$> fifo)).

(** The server the wiring describes, as the monitoring endpoints see it. *)
Definition wired_gateway (w : wiring Key) : gateway :=
  mkGateway (Server.New (rn_config w)) (rn_queue w) (rn_coordinator w) (rn_bot w).
End run.

(** ** The end of [Run] *)

(** What the final select received first. *)
Inductive run_event : Type :=
| RServe (err : option error)
| RHealth (err : error)
| RPprof (err : error)
| RDone (serve : option error).     (* the context, then the result of Serve *)

Definition http_stopped (ctx : bool) (err : error) : option error :=
  if errors_Is err http_ErrServerClosed && ctx then None else Some err.

(** [ctx]: [runCtx.Err() != nil]. *)
Definition Run_result (ctx : bool) (ev : run_event) : option error :=
  match ev with
  | RServe err => err
  | RHealth err | RPprof err => http_stopped ctx err
  | RDone err => err
  end.

(** ** Lemmas *)

Lemma or_default_id v d : 0 < v -> or_default v d = v.
Proof. intros. unfold or_default. by rewrite (proj2 (Z.leb_gt _ _)) by lia. Qed.

(** A loaded configuration leaves nothing for the server's defaults to replace. *)
Lemma server_config_kept env c : AppConfig.loadConfig env = Ok c -> with_defaults (server_config c) = server_config c.
Proof.
  intros Hc. apply AppConfig.loadConfig_sound in Hc.
  destruct Hc as (_ & _ & _ & _ & _ & _ & _ & _ & _ & _ & [H1 _] & [H2 _] & [H3 _] & [H4 _] & [H5 _] & [H6 _] & [H7 _] & [H8 _] & [H9 _]
    & _ & _ & [H10 _] & [H11 _] & [H12 _] & [H13 _] & _).
  unfold with_defaults, server_config. cbn. by rewrite !or_default_id.
Qed.

Lemma run_backend_ok env c :
  AppConfig.loadConfig env = Ok c ->
  exists co q, run_backend c = Ok (co, q) /\
    (AppConfig.BackendAddress c = [] /\ co = None /\ q = None \/
     AppConfig.BackendAddress c <> [] /\ q = Some (mkFIFO (AppConfig.QueueSize c) [] ∅) /\
     exists d f, co = Some (mkCoordinator (Some d) (Some f) (mkTransferConfig 0 0 0 (mkConfigurationConfig 0 0 0))) /\
       secret f = AppConfig.VelocitySecret c /\ secret f <> [] /\ dl_health d = initial_health /\
       cf_Address (dl_config d) = AppConfig.BackendAddress c /\ cf_Host (dl_config d) = AppConfig.BackendHost c /\
       cf_Port (dl_config d) = AppConfig.BackendPort c /\ cf_MaxPacketSize (dl_config d) = AppConfig.MaxPacketSize c /\
       cf_ConnectTimeout (dl_config d) = 10 * ns_second /\ 0 <= cf_Port (dl_config d) < 2 ^ 16).
Proof.
  intros Hc. apply AppConfig.loadConfig_sound in Hc.
  destruct Hc as (_ & _ & _ & _ & _ & _ & Hport & [_ Hsec] & _ & _ & _ & _ & _ & _ & _ & _ & _ & _ & _ & [Hq _] & _).
  unfold run_backend. case_bool_decide as Hb; [by eexists _, _; split; [done|left]|].
  assert (Hs : AppConfig.VelocitySecret c <> []) by tauto. unfold NewModernForwarding.
  rewrite (proj2 (Z.eqb_neq _ _)) by (by rewrite blen_0). eexists _, _. split; [done|]. right. split; [done|]. split.
  { unfold Queue.New. by rewrite (proj2 (Z.leb_gt _ _)) by lia. }
  eexists _, _. split; [done|]. cbn. split_and!; try done.
  - destruct Hport as [[_ ->]|(_ & Hd & -> & _)]; [done|]. by apply digits_value_ge.
  - destruct Hport as [[_ ->]|(_ & _ & _ & Hlt)]; [done|]. exact Hlt.
Qed.

(** ** Properties *)

Section wiring.
Context {Key : Type} (GenerateKey : reader -> res Key * reader) (MarshalPKIXPublicKey : Key -> res (list byte)).
Context (unmarshal : list byte -> Policy -> res Policy) (SessionService_ : gostring -> Verifier).

(** C24: a loaded configuration is put into effect. [Run] fails before serving
    only because the policy file exists and is unreadable or invalid, because no
    key can be made in online mode, or because the address cannot be bound, never
    because of the forwarding secret. Otherwise each limit and each timeout of the
    server is the configured one of that name, none replaced by a default, and the
    status shows the configured maximum of players; a coordinator with the
    configured secret, whose dialer has the configured address, host, port and
    packet size, an empty queue of the configured size and a scheduler with the
    configured interval exist exactly when a backend is configured; online mode has
    an authenticator, which asks the configured session server, exactly when it is
    on; the bot
    filter challenges players exactly when its policy was loaded and is enabled,
    and that policy is valid; and the gateway reports itself ready. *)
Theorem run_wires_configuration env c file random listen :
  AppConfig.loadConfig env = Ok c ->
  match Run_setup GenerateKey MarshalPKIXPublicKey unmarshal SessionService_ c file random listen with
  | Err err =>
    AppConfig.BotFilterConfigFile c <> [] /\ (exists e, LoadFile file unmarshal = Err e /\ e <> os_ErrNotExist /\ err = ErrWrap "load bot filter policy" e) \/
    AppConfig.OnlineMode c = true /\ (exists r, NewAuthenticator GenerateKey MarshalPKIXPublicKey (SessionService_ []) (Some (SessionService_ (AppConfig.SessionServerURL c))) random = (Err err, r)) \/
    listen = Err err
  | Ok w =>
    let sc := sv_config (Server.New (rn_config w)) in
    (sc_MaxConnections sc = AppConfig.MaxConnections c /\ sc_MaxConnectionsPerIP sc = AppConfig.MaxConnectionsPerIP c /\
     sc_MaxPacketSize sc = AppConfig.MaxPacketSize c /\
     sc_HandshakeTimeout sc = AppConfig.HandshakeTimeout c /\ sc_StatusTimeout sc = AppConfig.StatusTimeout c /\
     sc_LoginTimeout sc = AppConfig.LoginTimeout c /\ sc_WriteTimeout sc = AppConfig.WriteTimeout c /\
     sc_KeepAliveInterval sc = AppConfig.KeepAliveInterval c /\ sc_KeepAliveTimeout sc = AppConfig.KeepAliveTimeout c /\
     sc_QueueStatusInterval sc = AppConfig.QueueStatusInterval c /\ sc_ChallengeTimeout sc = AppConfig.ChallengeTimeout c /\
     sc_LoginRateLimit sc = AppConfig.LoginRateLimit c /\ sc_LoginRateWindow sc = AppConfig.LoginRateWindow c) /\
    (v_Protocol (r_Version (rn_status w)) = 765 /\ pl_Max (r_Players (rn_status w)) = AppConfig.MaxConnections c) /\
    (is_Some (rn_coordinator w) <-> AppConfig.BackendAddress c <> []) /\
    (forall co, rn_coordinator w = Some co -> exists f d, co_forwarder co = Some f /\ secret f = AppConfig.VelocitySecret c /\
       secret f <> [] /\ co_dialer co = Some d /\ cf_Address (dl_config d) = AppConfig.BackendAddress c /\
       cf_Host (dl_config d) = AppConfig.BackendHost c /\ cf_Port (dl_config d) = AppConfig.BackendPort c /\
       0 <= cf_Port (dl_config d) < 2 ^ 16 /\ cf_MaxPacketSize (dl_config d) = AppConfig.MaxPacketSize c) /\
    rn_queue w = (fun _ => mkFIFO (AppConfig.QueueSize c) [] ∅) <$> rn_coordinator w /\
    rn_scheduler w = (fun _ => AppConfig.AdmissionInterval c) <$> rn_coordinator w /\
    (is_Some (rn_auth w) <-> AppConfig.OnlineMode c = true) /\
    (forall a, rn_auth w = Some a -> au_verifier a = SessionService_ (AppConfig.SessionServerURL c)) /\
    (rn_hook w = true <-> exists m, rn_bot w = Some m /\ Enabled (BotFilter (policy m)) = true) /\
    (forall m, rn_bot w = Some m -> Validate (policy m) = None /\ path m = AppConfig.BotFilterConfigFile c) /\
    rs_status (readyz (wired_gateway w)) = 200
  end.
Proof.
  intros Hc. pose proof (server_config_kept _ _ Hc) as Hsc. destruct (run_backend_ok _ _ Hc) as (co & q & Hbe & Hcase).
  unfold Run_setup. destruct (run_bot unmarshal c file) as [[bot hook]|err] eqn:Hbot.
  2: { left. unfold run_bot in Hbot. case_bool_decide; [done|]. split; [done|]. destruct (LoadFile file unmarshal) as [|e]; [done|].
    exists e. unfold os_IsNotExist in Hbot. case_bool_decide; [done|]. by simplify_eq. }
  destruct (run_auth _ _ _ c random) as [a|err] eqn:Hau.
  2: { right. left. unfold run_auth in Hau. destruct (AppConfig.OnlineMode c); [|done]. split; [done|].
    destruct (NewAuthenticator _ _ _ _ random) as [[x|e] r]; cbn in Hau; simplify_eq. by exists r. }
  rewrite Hbe. destruct listen as [u|err]; [|by right; right].
  assert (Hbots : forall m, bot = Some m -> Validate (policy m) = None /\ path m = AppConfig.BotFilterConfigFile c /\ hook = Enabled (BotFilter (policy m))).
  { intros m ->. unfold run_bot in Hbot. case_bool_decide; [done|]. destruct (LoadFile file unmarshal) as [p|e] eqn:El; [|by destruct (os_IsNotExist e)].
    simplify_eq. cbn. unfold LoadFile in El. repeat case_match; by simplify_eq. }
  assert (Hnone : bot = None -> hook = false).
  { intros ->. unfold run_bot in Hbot. case_bool_decide; [by simplify_eq|]. destruct (LoadFile file unmarshal); [done|]. by destruct (os_IsNotExist e); simplify_eq. }
  cbn [rn_config rn_coordinator rn_queue rn_scheduler rn_auth rn_hook rn_bot rn_status wired_gateway]. cbn zeta.
  change (sv_config (Server.New (server_config c))) with (with_defaults (server_config c)). rewrite Hsc. split; [done|]. split; [done|]. split_and!.
  - destruct Hcase as [(-> & -> & _)|(Hne & _ & d & f & -> & _)]; [by split; [intros [x ?]|]|by split; [|eauto]].
  - intros co' ->. destruct Hcase as [(_ & ? & _)|(_ & _ & d & f & E & Hs & Hs' & _ & Ha & Hh & Hp & Hm & _ & Hr)]; [done|]. injection E as ->. exists f, d. split_and!; try done; lia.
  - destruct Hcase as [(_ & -> & ->)|(_ & -> & d & f & -> & _)]; done.
  - destruct Hcase as [(_ & -> & ->)|(_ & -> & d & f & -> & _)]; done.
  - unfold run_auth in Hau. destruct (AppConfig.OnlineMode c); [|simplify_eq; by split; [intros []|]].
    destruct (NewAuthenticator _ _ _ _ random) as [[x|e] r]; cbn in Hau; simplify_eq. by split; [|eauto].
  - intros x ->. unfold run_auth in Hau. destruct (AppConfig.OnlineMode c); [|done]. unfold NewAuthenticator in Hau.
    destruct (GenerateKey random) as [[k|] r]; cbn in Hau; [|done]. destruct (MarshalPKIXPublicKey k); cbn in Hau; by simplify_eq.
  - destruct bot as [m|]; [|rewrite Hnone by done; by split; [|intros (? & ? & _)]].
    destruct (Hbots m eq_refl) as (_ & _ & ->). split; [eauto|by intros (? & [= <-] & ?)].
  - intros m E. by destruct (Hbots m E) as (? & ? & _).
  - unfold readyz, Metrics. cbn. destruct Hcase as [(_ & -> & _)|(_ & _ & d & f & -> & _ & _ & Hh & _)]; cbn; [done|by rewrite Hh].
Qed.
End wiring.

Lemma run_wires_configuration_witness :
  exists w, Run_setup (fun r => (Ok tt, r)) (fun _ => Ok [x01]) (fun _ p => Ok p) (fun _ _ _ _ => Err ErrNotJoined)
      AppConfig.demo_config (Err os_ErrNotExist) (Reader [] io_EOF) (Ok tt) = Ok w /\
    sc_LoginTimeout (sv_config (Server.New (rn_config w))) = AppConfig.LoginTimeout AppConfig.demo_config /\ is_Some (rn_auth w).
Proof.
  pose proof (run_wires_configuration (fun r => (Ok tt, r)) (fun _ => Ok [x01]) (fun _ p => Ok p) (fun _ _ _ _ => Err ErrNotJoined)
    AppConfig.demo_env AppConfig.demo_config (Err os_ErrNotExist) (Reader [] io_EOF) (Ok tt)) as H.
  eexists. split; [reflexivity|]. cbn [Run_setup] in H.
  destruct (H ltac:(vm_compute; reflexivity)) as (H1 & _ & _ & _ & _ & _ & H2 & _). split; [apply H1|]. apply H2. reflexivity.
Defined.

(** ** The process (cmd/regiongate/main.go) *)

(** [Run] as a whole: the set-up, then the result of the select. *)
Definition Run {Key} (setup : res (wiring Key)) (ctx : bool) (ev : run_event) : option error :=
  match setup with Err err => Some err | Ok _ => Run_result ctx ev end.

(** The exit status of [main]; [run] is [app.Run] on the loaded configuration. *)
Definition main (env : string -> gostring) (run : AppConfig.Config -> option error) : Z :=
  match AppConfig.loadConfig env with
  | Err _ => 1
  | Ok config => match run config with Some _ => 1 | None => 0 end
  end.

(** A process that exits with status 0 had a valid configuration and all its
    components, and was stopped: the accept loop returned without an error, or an
    HTTP server was shut down after the context had ended. *)
Lemma main_success {Key} GenerateKey Marshal unmarshal Service env file random listen ctx ev :
  main env (fun c => Run (Run_setup (Key:=Key) GenerateKey Marshal unmarshal Service c file random listen) ctx ev) = 0 ->
  exists c w, AppConfig.describes env c /\ Run_setup GenerateKey Marshal unmarshal Service c file random listen = Ok w /\
    match ev with
    | RServe err | RDone err => err = None
    | RHealth err | RPprof err => ctx = true /\ errors_Is err http_ErrServerClosed = true
    end.
Proof.
  unfold main, Run. destruct (AppConfig.loadConfig env) as [c|] eqn:E; [|done]. apply AppConfig.loadConfig_sound in E.
  destruct (Run_setup _ _ _ _ c file random listen) as [w|] eqn:Es; [|done]. intros Hr. exists c, w. split_and!; [done|done|].
  destruct ev as [[]|err|err|[]]; cbn in Hr; try done; unfold http_stopped in Hr;
    destruct (errors_Is err http_ErrServerClosed), ctx; done.
Qed.
