(* ===== verification/Lifecycle.v ===== *)
(** * The running process (internal/app/run.go: Run after its set-up)

    The goroutines of [Run]: the accept loop of Shutdown.v with its closer and its
    connections, the HTTP server of the health endpoints, the optional one of the
    profiling endpoints, the two goroutines that shut these down when the context
    ends, the loops on a ticker of the bot filter and of the scheduler, and [Run]
    itself at its select and in its deferred calls. The channels have a place for
    their only value, so a send never blocks. *)

From S2P Require Import AppConfig.
From S2P Require Import Prelude GoIO Ratelimit Server Shutdown App.

(** ** State *)

(** [ListenAndServe] of an HTTP server: serving, told to shut down, returned. *)
Inductive http_pc : Type := HServing | HShut | HStopped (err : error).
(** The goroutine that waits for the context and calls [Shutdown]. *)
Inductive watch_pc : Type := WWait | WShutting | WDone.
Record http_server := mkHttp { ht_pc : http_pc; ht_watch : watch_pc }.

(** A loop on a ticker ([botManager.Start], [scheduler.Run]): at its select, at
    the work of a tick, returned. The work of the scheduler is a call of Admit, which
    System.v has in detail. *)
Inductive ticker_pc : Type := TSelect | TWorking | TEnded.
Record tickers := mkTickers { tk_bot : option ticker_pc; tk_sched : option ticker_pc }.

(** [Run]: at the select; at [<-serveErrors] after the end of the context; with a
    result, before [listener.Close()]; before [cancelRun()]; returned. *)
Inductive main_pc : Type :=
| MSelect
| MWait
| MReturning (result : option error)
| MClosed (result : option error)
| MExited (result : option error).

Record lifecycle := mkLifecycle {
  lc_world : Shutdown.world;       (* its context is runCtx *)
  lc_health : http_server;
  lc_pprof : option http_server;
  lc_main : main_pc;
  lc_tick : tickers                (* None: not started *)
}.

(** ** Steps *)

(** [http.Server]: [ErrServerClosed] is returned after, and only after, [Shutdown]. *)
Inductive http_step (ctx : bool) (h : http_server) : http_server -> Prop :=
| http_fail err :
    ht_pc h = HServing -> errors_Is err http_ErrServerClosed = false -> http_step ctx h (mkHttp (HStopped err) (ht_watch h))
| http_shutdown :
    ht_watch h = WWait -> ctx = true ->
    http_step ctx h (mkHttp (match ht_pc h with HServing => HShut | pc => pc end) WShutting)
| http_closed : ht_pc h = HShut -> http_step ctx h (mkHttp (HStopped http_ErrServerClosed) (ht_watch h))
| http_shut : ht_watch h = WShutting -> http_step ctx h (mkHttp (ht_pc h) WDone).

(** A loop on a ticker; its select may take the tick when both are ready. *)
Inductive ticker_step (ctx : bool) : ticker_pc -> ticker_pc -> Prop :=
| tick_start : ticker_step ctx TSelect TWorking
| tick_done : ticker_step ctx TWorking TSelect
| tick_end : ctx = true -> ticker_step ctx TSelect TEnded.

Definition end_context (w : Shutdown.world) : Shutdown.world :=
  mkWorld (w_server w) (w_stage w) true (w_listener w) (w_closer w) (w_loop w) (w_closed w) (w_seen w).
Definition close_listener (w : Shutdown.world) : Shutdown.world :=
  mkWorld (w_server w) (w_stage w) (w_ctx w) false (w_closer w) (w_loop w) (w_closed w) (w_seen w).

Section lifecycle.
Context (RemoteAddr : nat -> gostring).

Definition lc_set_main (s : lifecycle) (pc : main_pc) : lifecycle := mkLifecycle (lc_world s) (lc_health s) (lc_pprof s) pc (lc_tick s).

Inductive lifecycle_step (s : lifecycle) : lifecycle -> Prop :=
| lc_serve w :     (* the accept loop, its closer and its connections *)
    serve_step RemoteAddr (lc_world s) w -> w_ctx w = w_ctx (lc_world s) ->
    lifecycle_step s (mkLifecycle w (lc_health s) (lc_pprof s) (lc_main s) (lc_tick s))
| lc_signal :      (* the context given to Run ends *)
    lifecycle_step s (mkLifecycle (end_context (lc_world s)) (lc_health s) (lc_pprof s) (lc_main s) (lc_tick s))
| lc_http h :
    http_step (w_ctx (lc_world s)) (lc_health s) h -> lifecycle_step s (mkLifecycle (lc_world s) h (lc_pprof s) (lc_main s) (lc_tick s))
| lc_profile p p' :
    lc_pprof s = Some p -> http_step (w_ctx (lc_world s)) p p' ->
    lifecycle_step s (mkLifecycle (lc_world s) (lc_health s) (Some p') (lc_main s) (lc_tick s))
| lc_serve_errors err :
    lc_main s = MSelect -> w_loop (lc_world s) = LReturned err -> lifecycle_step s (lc_set_main s (MReturning err))
| lc_health_errors err :
    lc_main s = MSelect -> ht_pc (lc_health s) = HStopped err ->
    lifecycle_step s (lc_set_main s (MReturning (http_stopped (w_ctx (lc_world s)) err)))
| lc_pprof_errors p err :
    lc_main s = MSelect -> lc_pprof s = Some p -> ht_pc p = HStopped err ->
    lifecycle_step s (lc_set_main s (MReturning (http_stopped (w_ctx (lc_world s)) err)))
| lc_done : lc_main s = MSelect -> w_ctx (lc_world s) = true -> lifecycle_step s (lc_set_main s MWait)
| lc_wait err :
    lc_main s = MWait -> w_loop (lc_world s) = LReturned err -> lifecycle_step s (lc_set_main s (MReturning err))
| lc_close r :
    lc_main s = MReturning r ->
    lifecycle_step s (mkLifecycle (close_listener (lc_world s)) (lc_health s) (lc_pprof s) (MClosed r) (lc_tick s))
| lc_cancel r :
    lc_main s = MClosed r ->
    lifecycle_step s (mkLifecycle (end_context (lc_world s)) (lc_health s) (lc_pprof s) (MExited r) (lc_tick s))
| lc_bot_loop b b' :
    tk_bot (lc_tick s) = Some b -> ticker_step (w_ctx (lc_world s)) b b' ->
    lifecycle_step s (mkLifecycle (lc_world s) (lc_health s) (lc_pprof s) (lc_main s) (mkTickers (Some b') (tk_sched (lc_tick s))))
| lc_sched_loop b b' :
    tk_sched (lc_tick s) = Some b -> ticker_step (w_ctx (lc_world s)) b b' ->
    lifecycle_step s (mkLifecycle (lc_world s) (lc_health s) (lc_pprof s) (lc_main s) (mkTickers (tk_bot (lc_tick s)) (Some b'))).

(** [bot]: a policy was loaded. *)
Definition lifecycle_start (config : AppConfig.Config) (bot : bool) : lifecycle :=
  mkLifecycle (serve_start (server_config config)) (mkHttp HServing WWait)
    (if bool_decide (AppConfig.PprofAddress config = []) then None else Some (mkHttp HServing WWait)) MSelect
    (mkTickers (if bot then Some TSelect else None)
       (if bool_decide (AppConfig.BackendAddress config = []) then None else Some TSelect)).

(** ** Vocabulary *)

Definition http_left (h : http_server) : nat :=
  match ht_pc h with HServing => 2 | HShut => 1 | HStopped _ => 0 end + match ht_watch h with WWait => 2 | WShutting => 1 | WDone => 0 end.
Definition closer_left (k : closer_pc) : nat := match k with KWait => 2 | KListener => 1 | KDone | KExit => 0 end.

Definition ticker_left (t : option ticker_pc) : nat := match t with Some TSelect | Some TWorking => 1 | _ => 0 end.

(** The steps towards their end that the goroutines of [Run] have left after it
    has returned. *)
Definition lc_left (s : lifecycle) : nat :=
  loop_rank (w_loop (lc_world s)) + closer_left (w_closer (lc_world s)) + http_left (lc_health s) + from_option http_left 0%nat (lc_pprof s)
  + ticker_left (tk_bot (lc_tick s)) + ticker_left (tk_sched (lc_tick s)).

(** All of them have returned. *)
Definition http_ended (h : http_server) : Prop := (exists err, ht_pc h = HStopped err) /\ ht_watch h = WDone.
Definition all_ended (s : lifecycle) : Prop :=
  (exists r, w_loop (lc_world s) = LReturned r) /\ (w_closer (lc_world s) = KDone \/ w_closer (lc_world s) = KExit) /\
  http_ended (lc_health s) /\ (forall p, lc_pprof s = Some p -> http_ended p) /\
  (forall t, tk_bot (lc_tick s) = Some t \/ tk_sched (lc_tick s) = Some t -> t = TEnded).

(** A step that brings none of them closer to its end: work of a connection, a tick
    of a loop or the end of its work, a repeated signal. *)
Definition aside (s s' : lifecycle) : Prop :=
  w_loop (lc_world s') = w_loop (lc_world s) /\ w_closer (lc_world s') = w_closer (lc_world s) /\
  lc_health s' = lc_health s /\ lc_pprof s' = lc_pprof s /\
  ticker_left (tk_bot (lc_tick s')) = ticker_left (tk_bot (lc_tick s)) /\
  ticker_left (tk_sched (lc_tick s')) = ticker_left (tk_sched (lc_tick s)).

(** A server that was shut down has stopped serving. *)
Definition http_inv (h : http_server) : Prop := ht_watch h <> WWait -> ht_pc h <> HServing.

(** Where a result comes from. *)
Definition result_of (s : lifecycle) (r : option error) : Prop :=
  w_loop (lc_world s) = LReturned r \/
  exists h err, (h = lc_health s \/ lc_pprof s = Some h) /\ ht_pc h = HStopped err /\
    (r = Some err \/ r = None /\ errors_Is err http_ErrServerClosed = true /\ w_ctx (lc_world s) = true).

(** The closer has closed the listener, or left after the accept loop. *)
Definition closer_ok (w : Shutdown.world) : Prop :=
  match w_closer w with KWait => True | KListener | KDone => w_listener w = false | KExit => exists r, w_loop w = LReturned r end.

Record lifecycle_inv (s : lifecycle) : Prop := {
  li_health : http_inv (lc_health s);
  li_pprof : forall p, lc_pprof s = Some p -> http_inv p;
  li_result : match lc_main s with MReturning r | MClosed r | MExited r => result_of s r | _ => True end;
  li_exited : forall r, lc_main s = MExited r -> w_listener (lc_world s) = false /\ w_ctx (lc_world s) = true;
  li_closed : forall r, lc_main s = MClosed r -> w_listener (lc_world s) = false;
  li_closer : closer_ok (lc_world s)
}.

(** ** Lemmas *)

Lemma http_step_inv ctx h h' : http_inv h -> http_step ctx h h' -> http_inv h'.
Proof.
  unfold http_inv. intros Hi [err Hp Hn|Hw Hc|Hp|Hw] Hx; cbn in *; try done; [by destruct (ht_pc h)|].
  apply Hi. by rewrite Hw.
Qed.

(** A stopped server stays stopped. *)
Lemma http_step_stopped ctx h h' err : http_step ctx h h' -> ht_pc h = HStopped err -> ht_pc h' = HStopped err.
Proof. intros [e Hp Hn|Hw Hc|Hp|Hw] E; cbn; try congruence. by rewrite E. Qed.

Lemma http_step_left ctx h h' : http_step ctx h h' -> (http_left h' < http_left h)%nat.
Proof.
  unfold http_left. intros [e Hp Hn|Hw Hc|Hp|Hw]; cbn; rewrite ?Hp, ?Hw; try lia.
  destruct (ht_pc h); cbn; lia.
Qed.

Lemma http_progress h : http_inv h -> http_left h = 0%nat \/ exists h', http_step true h h'.
Proof.
  unfold http_inv, http_left. intros Hi. destruct (ht_watch h) eqn:Hw.
  - right. eexists. by apply http_shutdown.
  - right. eexists. by apply http_shut.
  - destruct (ht_pc h) eqn:Hp; [by destruct Hi|right; eexists; by apply http_closed|by left].
Qed.

(** The result of the accept loop is final. *)
Lemma serve_step_returned w w' r :
  serve_step RemoteAddr w w' -> w_loop w = LReturned r -> w_loop w' = LReturned r.
Proof. intros Hs E. inversion Hs; subst; cbn; try congruence; unfold conn_step; by destruct (run_step _ _ _). Qed.

(** The closer only moves forward. *)
Lemma serve_step_closer w w' :
  serve_step RemoteAddr w w' ->
  w_closer w' = w_closer w \/
  w_loop w' = w_loop w /\
  (w_closer w = KWait /\ w_closer w' = KListener /\ w_listener w' = false \/
   w_closer w = KListener /\ w_closer w' = KDone \/
   w_closer w = KWait /\ w_closer w' = KExit /\ exists r, w_loop w = LReturned r).
Proof.
  intros Hs. inversion Hs; subst; cbn; eauto 10; left.
  - unfold loop_check. by repeat case_match.
  - unfold loop_track. by repeat case_match.
  - unfold conn_step. by destruct (run_step _ _ _).
Qed.

Lemma closer_ok_step w w' : closer_ok w -> serve_step RemoteAddr w w' -> closer_ok w'.
Proof.
  unfold closer_ok. intros Hk Hs. destruct (serve_step_closer _ _ Hs) as [E|(El & [(E1 & E2 & E3)|[[E1 E2]|(E1 & E2 & E3)]])].
  - rewrite E. destruct (w_closer w); [done|by apply (closed_listener_step _ _ _ Hk Hs)..|].
    destruct Hk as [r Hr]. exists r. by eapply serve_step_returned.
  - by rewrite E2.
  - rewrite E2. rewrite E1 in Hk. by apply (closed_listener_step _ _ _ Hk Hs).
  - rewrite E2, El. done.
Qed.

Lemma http_stopped_result ctx err :
  http_stopped ctx err = Some err \/ http_stopped ctx err = None /\ errors_Is err http_ErrServerClosed = true /\ ctx = true.
Proof. unfold http_stopped. destruct (errors_Is err http_ErrServerClosed), ctx; cbn; auto. Qed.

Lemma result_of_stable s s' r :
  result_of s r ->
  (forall e, w_loop (lc_world s) = LReturned e -> w_loop (lc_world s') = LReturned e) ->
  (w_ctx (lc_world s) = true -> w_ctx (lc_world s') = true) ->
  (forall e, ht_pc (lc_health s) = HStopped e -> ht_pc (lc_health s') = HStopped e) ->
  (forall p e, lc_pprof s = Some p -> ht_pc p = HStopped e -> exists p', lc_pprof s' = Some p' /\ ht_pc p' = HStopped e) ->
  result_of s' r.
Proof.
  intros [Hl|(h & err & Hh & Hs & Hr)] H1 H2 H3 H4; [left; auto|right].
  assert (exists h', (h' = lc_health s' \/ lc_pprof s' = Some h') /\ ht_pc h' = HStopped err) as (h' & Hh' & Hs').
  { destruct Hh as [->|Hh]; [eauto|]. destruct (H4 h err Hh Hs) as (p' & ? & ?). eauto. }
  exists h', err. split_and!; try done. destruct Hr as [|(? & ? & ?)]; auto.
Qed.

Lemma lifecycle_step_inv s s' : lifecycle_inv s -> lifecycle_step s s' -> lifecycle_inv s'.
Proof.
  intros [Hh Hp Hr He Hc Hk] Hs.
  assert (Hkeep : forall w h p, closer_ok w ->
    (forall e, w_loop (lc_world s) = LReturned e -> w_loop w = LReturned e) -> (w_ctx (lc_world s) = true -> w_ctx w = true) ->
    (w_listener (lc_world s) = false -> w_listener w = false) ->
    (forall e, ht_pc (lc_health s) = HStopped e -> ht_pc h = HStopped e) ->
    (forall q e, lc_pprof s = Some q -> ht_pc q = HStopped e -> exists q', p = Some q' /\ ht_pc q' = HStopped e) ->
    http_inv h -> (forall q, p = Some q -> http_inv q) -> forall tk, lifecycle_inv (mkLifecycle w h p (lc_main s) tk)).
  { intros w h p H0 H1 H2 H3 H4 H5 H6 H7 tk. split; cbn; try done.
    - destruct (lc_main s); try done; by eapply result_of_stable.
    - intros r E. destruct (He r E). auto.
    - intros r E. apply H3. by apply (Hc r). }
  destruct Hs as [w Hs Hx| |h Hs|p p' Ep Hs|err Hm Hl|err Hm Hl|p err Hm Ep Hl|Hm Hx|err Hm Hl|r Hm|r Hm|b b' Hb Hs|b b' Hb Hs].
  - apply Hkeep; eauto.
    + by eapply closer_ok_step.
    + intros e. by apply serve_step_returned.
    + intros Hl. by apply (closed_listener_step _ _ _ Hl Hs).
  - apply Hkeep; eauto.
  - apply Hkeep; eauto; [intros e; by eapply http_step_stopped|by eapply http_step_inv].
  - apply Hkeep; eauto.
    + intros q e Eq Eh. rewrite Ep in Eq. simplify_eq. eexists. split; [done|]. by eapply http_step_stopped.
    + intros q [= <-]. eapply http_step_inv; [by apply Hp|done].
  - split; cbn; try done. by left.
  - split; cbn; try done. right. exists (lc_health s), err. split_and!; auto using http_stopped_result.
  - split; cbn; try done. right. exists p, err. split_and!; auto using http_stopped_result.
  - by split.
  - split; cbn; try done. by left.
  - rewrite Hm in Hr. split; cbn; try done. unfold closer_ok in *. cbn. by destruct (w_closer (lc_world s)).
  - rewrite Hm in Hr. split; cbn; try done; [eapply result_of_stable; eauto|]. intros r' [= <-]. split; [by apply (Hc r)|done].
  - apply Hkeep; eauto.
  - apply Hkeep; eauto.
Qed.

Lemma lifecycle_reachable config bot s : rtc lifecycle_step (lifecycle_start config bot) s -> lifecycle_inv s.
Proof.
  apply (rtc_ind_r (fun s => lifecycle_inv s)).
  - split; cbn; try done; [by intros []|]. intros p. case_match; intros; simplify_eq. by intros [].
  - intros s1 s2 _ Hs Hi. by eapply lifecycle_step_inv.
Qed.

Lemma ticker_step_left ctx t t' :
  ticker_step ctx t t' -> ticker_left (Some t') = ticker_left (Some t) \/ (ticker_left (Some t') < ticker_left (Some t))%nat.
Proof. intros []; cbn; lia. Qed.

Lemma lc_left_ended s : lc_left s = 0%nat <-> all_ended s.
Proof.
  assert (Hh : forall h, http_left h = 0%nat <-> http_ended h).
  { intros h. unfold http_left, http_ended. destruct (ht_pc h), (ht_watch h); cbn; split; try lia; try (intros [[? ?] ?]; done). eauto. }
  assert (Hl : loop_rank (w_loop (lc_world s)) = 0%nat <-> exists r, w_loop (lc_world s) = LReturned r).
  { destruct (w_loop (lc_world s)); cbn; split; try lia; try (by intros []). eauto. }
  assert (Hk : closer_left (w_closer (lc_world s)) = 0%nat <-> w_closer (lc_world s) = KDone \/ w_closer (lc_world s) = KExit).
  { destruct (w_closer (lc_world s)); cbn; split; try lia; try (by intros []); auto. }
  assert (Hp : from_option http_left 0%nat (lc_pprof s) = 0%nat <-> forall p, lc_pprof s = Some p -> http_ended p).
  { destruct (lc_pprof s) as [p|]; cbn; [rewrite Hh|done]. split; [by intros ? q [= <-]|auto]. }
  assert (Ht : forall t, ticker_left t = 0%nat <-> forall pc, t = Some pc -> pc = TEnded).
  { intros [[]|]; cbn; split; try lia; try done; try (by intros _ pc [= <-]); intros H; by specialize (H _ eq_refl). }
  unfold lc_left, all_ended. rewrite <-Hl, <-Hk, <-Hh, <-Hp. pose proof (Ht (tk_bot (lc_tick s))). pose proof (Ht (tk_sched (lc_tick s))).
  split.
  - intros E. split_and!; try lia. intros t [Et|Et]; [apply H|apply H0]; try done; lia.
  - intros (E1 & E2 & E3 & E4 & E5). assert (ticker_left (tk_bot (lc_tick s)) = 0%nat) by (apply H; eauto).
    assert (ticker_left (tk_sched (lc_tick s)) = 0%nat) by (apply H0; eauto). lia.
Qed.

(** After the return every step leads closer to the end or changes nothing of it. *)
Lemma exited_step s s' r :
  lifecycle_inv s -> lc_main s = MExited r -> lifecycle_step s s' ->
  lc_main s' = MExited r /\ ((lc_left s' < lc_left s)%nat \/ aside s s').
Proof.
  intros Hi Hm Hs. destruct (li_exited _ Hi r Hm) as [Hl Hx].
  destruct Hs as [w Hs Hx'| |h Hs|p p' Ep Hs|err Hm'|err Hm'|p err Hm'|Hm'|err Hm'|r' Hm'|r' Hm'|b b' Hb Hs|b b' Hb Hs];
    try congruence; (split; [done|]); unfold lc_left, aside; cbn.
  - destruct (closed_listener_step _ _ _ Hl Hs) as [_ H1]. destruct (serve_step_closer _ _ Hs) as [E|(E & Hk)].
    + rewrite E. destruct H1 as [->|]; [by right|left; lia].
    + rewrite E. left. destruct Hk as [(-> & -> & _)|[[-> ->]|(-> & -> & _)]]; cbn; lia.
  - by right.
  - left. apply http_step_left in Hs. lia.
  - left. apply http_step_left in Hs. rewrite Ep. cbn. lia.
  - rewrite Hb. destruct (ticker_step_left _ _ _ Hs) as [E|E]; cbn in E |- *; [right; by rewrite E|left; lia].
  - rewrite Hb. destruct (ticker_step_left _ _ _ Hs) as [E|E]; cbn in E |- *; [right; by rewrite E|left; lia].
Qed.

(** A loop on a ticker ends in at most two steps. *)
Lemma ticker_ends t : t <> TEnded -> exists n, (1 <= n <= 2)%nat /\ nsteps (ticker_step true) n t TEnded.
Proof.
  destruct t; [exists 1%nat|exists 2%nat|done]; (split; [lia|]).
  - apply nsteps_once. by apply tick_end.
  - eapply nsteps_l; [apply tick_done|]. apply nsteps_once. by apply tick_end.
Qed.

Lemma nsteps_lift {A B} (R : A -> A -> Prop) (S : B -> B -> Prop) (f : A -> B) n :
  (forall x y, R x y -> S (f x) (f y)) -> forall x y, nsteps R n x y -> nsteps S n (f x) (f y).
Proof. intros Hf. induction n as [|n IH]; intros x y H; inversion H; subst; econstructor; eauto. Qed.

Lemma tickers_progress s :
  w_ctx (lc_world s) = true -> (ticker_left (tk_bot (lc_tick s)) + ticker_left (tk_sched (lc_tick s)) <> 0)%nat ->
  exists n s', (1 <= n <= 2)%nat /\ nsteps lifecycle_step n s s' /\ (lc_left s' < lc_left s)%nat.
Proof.
  destruct s as [w h p m [bot sched]]. cbn [lc_world lc_tick tk_bot tk_sched]. intros Hx Ht.
  destruct (decide (ticker_left bot = 0%nat)) as [Eb|Eb].
  - destruct sched as [t|]; [|cbn in Ht; lia]. destruct (ticker_ends t) as (n & Hn & Hs); [intros ->; cbn in Ht; lia|].
    exists n, (mkLifecycle w h p m (mkTickers bot (Some TEnded))). split; [done|]. split.
    + refine (nsteps_lift _ _ (fun t => mkLifecycle w h p m (mkTickers bot (Some t))) n _ _ _ Hs).
      intros x y Hxy. refine (lc_sched_loop (mkLifecycle w h p m (mkTickers bot (Some x))) x y eq_refl _). cbn. by rewrite Hx.
    + unfold lc_left. cbn. destruct t; cbn in *; lia.
  - destruct bot as [t|]; [|done]. destruct (ticker_ends t) as (n & Hn & Hs); [by intros ->|].
    exists n, (mkLifecycle w h p m (mkTickers (Some TEnded) sched)). split; [done|]. split.
    + refine (nsteps_lift _ _ (fun t => mkLifecycle w h p m (mkTickers (Some t) sched)) n _ _ _ Hs).
      intros x y Hxy. refine (lc_bot_loop (mkLifecycle w h p m (mkTickers (Some x) sched)) x y eq_refl _). cbn. by rewrite Hx.
    + unfold lc_left. cbn. destruct t; cbn in *; lia.
Qed.

(** And they can go on until all have ended. *)
Lemma exited_progress s r :
  lifecycle_inv s -> lc_main s = MExited r ->
  lc_left s = 0%nat \/ exists n s', (1 <= n <= 2)%nat /\ nsteps lifecycle_step n s s' /\ (lc_left s' < lc_left s)%nat.
Proof.
  intros Hi Hm. destruct (li_exited _ Hi r Hm) as [Hl Hx].
  assert (Hone : forall s', lifecycle_step s s' -> (lc_left s' < lc_left s)%nat ->
    exists n s', (1 <= n <= 2)%nat /\ nsteps lifecycle_step n s s' /\ (lc_left s' < lc_left s)%nat).
  { intros s' H1 H2. exists 1%nat, s'. split; [lia|]. split; [by apply nsteps_once|done]. }
  destruct (decide (ticker_left (tk_bot (lc_tick s)) + ticker_left (tk_sched (lc_tick s)) = 0)%nat) as [Et|Et]; [|right; by apply tickers_progress].
  destruct (http_progress _ (li_health _ Hi)) as [Eh|[h Hh]].
  2: { right. eapply Hone; [apply lc_http; by rewrite Hx|]. unfold lc_left. cbn. apply http_step_left in Hh. lia. }
  assert (Hp : from_option http_left 0%nat (lc_pprof s) = 0%nat \/ exists p p', lc_pprof s = Some p /\ http_step true p p').
  { destruct (lc_pprof s) as [p|] eqn:Ep; [|by left]. destruct (http_progress _ (li_pprof _ Hi p Ep)) as [|[p' Hp]]; [by left|right; eauto]. }
  destruct Hp as [Ep|(p & p' & Ep & Hp)].
  2: { right. eapply Hone; [eapply lc_profile; [done|by rewrite Hx]|]. unfold lc_left. cbn. rewrite Ep. cbn. apply http_step_left in Hp. lia. }
  destruct (closed_listener_progress RemoteAddr _ Hl) as [[e El]|(w & Hs & Hr & Hc & Hk)].
  2: { right. eapply Hone; [by eapply lc_serve|]. unfold lc_left. cbn. rewrite Hk. lia. }
  destruct (w_closer (lc_world s)) eqn:Ek.
  - right. eapply Hone; [apply lc_serve; [by eapply step_closer_exit|done]|]. unfold lc_left. cbn. rewrite El, Ek. cbn. lia.
  - right. eapply Hone; [apply lc_serve; [by apply step_close_connections|done]|]. unfold lc_left. cbn. rewrite El, Ek. cbn. lia.
  - left. unfold lc_left. rewrite El, Ek. cbn. lia.
  - left. unfold lc_left. rewrite El, Ek. cbn. lia.
Qed.

(** Once the listener is closed the accept loop comes to its end. *)
Lemma loop_ends s : w_listener (lc_world s) = false ->
  exists s' e, rtc lifecycle_step s s' /\ w_loop (lc_world s') = LReturned e /\ lc_main s' = lc_main s.
Proof.
  remember (loop_rank (w_loop (lc_world s))) as k eqn:Ek. revert s Ek.
  induction (lt_wf k) as [k _ IH]. intros s -> Hl.
  destruct (closed_listener_progress RemoteAddr _ Hl) as [[e El]|(w & Hs & [Hr _] & Hc & _)]; [by exists s, e|].
  destruct (IH _ Hr (mkLifecycle w (lc_health s) (lc_pprof s) (lc_main s) (lc_tick s)) eq_refl) as (s' & e & Hrt & El & Em).
  { by apply (closed_listener_step _ _ _ Hl Hs). }
  exists s', e. split_and!; try done. eapply rtc_l; [by eapply lc_serve|done].
Qed.

(** After the end of the context the accept loop can come to its end. *)
Lemma loop_ends_with_context s : lifecycle_inv s -> w_ctx (lc_world s) = true ->
  exists s' e, rtc lifecycle_step s s' /\ w_loop (lc_world s') = LReturned e /\ lc_main s' = lc_main s.
Proof.
  intros Hi Hx. pose proof (li_closer _ Hi) as Hk. unfold closer_ok in Hk. destruct (w_closer (lc_world s)) eqn:Ek; [|by apply loop_ends..|].
  - assert (Hs := step_close_listener RemoteAddr (lc_world s) Ek Hx). set (w := mkWorld _ _ _ _ _ _ _ _) in Hs.
    destruct (loop_ends (mkLifecycle w (lc_health s) (lc_pprof s) (lc_main s) (lc_tick s)) eq_refl) as (s' & e & Hrt & El & Em).
    exists s', e. split_and!; try done. eapply rtc_l; [by eapply lc_serve|done].
  - destruct Hk as [r Hr]. by exists s, r.
Qed.

(** The deferred calls. *)
Lemma main_exits s r : lc_main s = MReturning r -> exists s', rtc lifecycle_step s s' /\ lc_main s' = MExited r.
Proof.
  intros Hm. eexists. split; [|shelve]. eapply rtc_l; [by apply lc_close|]. apply rtc_once. by apply lc_cancel.
  Unshelve. done.
Qed.
End lifecycle.

(** ** Properties *)

(** C20: [Run] stops. When the context ends, [Run] can return from every reachable
    state, whatever its goroutines are doing. When it has returned, its result is
    the result of the accept loop or comes from an HTTP server that stopped, and is
    nil in that case only if the server was shut down because the context had ended.
    From then on every step of the accept loop, its closer, the HTTP servers, the
    goroutines that shut them down, the loop of the bot filter and that of the
    scheduler brings them closer to their end, by [lc_left], the other steps
    (connections at work, ticks, the work of a tick, signals) leave it as it is, and
    until all of them have returned one or two steps bring it down: they make at
    most [lc_left] more such steps. The goroutines of the connections are not among
    them, and a scheduler in a call of Admit ends when that call does. *)
Theorem run_stops_completely RemoteAddr config bot s :
  rtc (lifecycle_step RemoteAddr) (lifecycle_start config bot) s ->
  (w_ctx (lc_world s) = true -> exists s' r, rtc (lifecycle_step RemoteAddr) s s' /\ lc_main s' = MExited r) /\
  (forall r, lc_main s = MExited r ->
     result_of s r /\
     (forall s', lifecycle_step RemoteAddr s s' -> lc_main s' = MExited r /\ ((lc_left s' < lc_left s)%nat \/ aside s s')) /\
     (all_ended s \/ exists n s', (1 <= n <= 2)%nat /\ nsteps (lifecycle_step RemoteAddr) n s s' /\ (lc_left s' < lc_left s)%nat)).
Proof.
  intros Hr. pose proof (lifecycle_reachable _ _ _ _ Hr) as Hi. split.
  - intros Hx. destruct (lc_main s) as [| |r|r|r] eqn:Hm.
    + destruct (loop_ends_with_context RemoteAddr s Hi Hx) as (s1 & e & H1 & El & Em). rewrite Hm in Em.
      destruct (main_exits RemoteAddr (lc_set_main s1 (MReturning e)) e eq_refl) as (s2 & H2 & Em2). exists s2, e. split; [|done].
      etrans; [exact H1|]. eapply rtc_l; [by apply lc_serve_errors|done].
    + destruct (loop_ends_with_context RemoteAddr s Hi Hx) as (s1 & e & H1 & El & Em). rewrite Hm in Em.
      destruct (main_exits RemoteAddr (lc_set_main s1 (MReturning e)) e eq_refl) as (s2 & H2 & Em2). exists s2, e. split; [|done].
      etrans; [exact H1|]. eapply rtc_l; [by apply lc_wait|done].
    + destruct (main_exits RemoteAddr s r Hm) as (s2 & H2 & Em2). by exists s2, r.
    + eexists _, r. split; [apply rtc_once; by apply lc_cancel|done].
    + by exists s, r.
  - intros r Hm. pose proof (li_result _ Hi) as Hres. rewrite Hm in Hres. split_and!; [done| |].
    + intros s'. by apply exited_step.
    + rewrite <-lc_left_ended. by eapply exited_progress.
Qed.

(** A process that is told to stop while it serves one connection. *)
Definition demo_serving : Shutdown.world :=
  let w := mkWorld (New (server_config AppConfig.demo_config)) ∅ false true KWait (LCheck 0) ∅ ({[0%nat]} ∪ ∅) in
  loop_recheck (loop_track demo_host (loop_check w 0) 0) 0.
Definition demo_state (w : Shutdown.world) (h : http_server) (main : main_pc) : lifecycle :=
  mkLifecycle w h (lc_pprof (lifecycle_start AppConfig.demo_config true)) main (lc_tick (lifecycle_start AppConfig.demo_config true)).
Definition demo_exited : lifecycle :=
  demo_state (end_context (close_listener (end_context demo_serving))) (mkHttp (HStopped http_ErrServerClosed) WShutting) (MExited None).

Lemma demo_exited_reachable : rtc (lifecycle_step demo_host) (lifecycle_start AppConfig.demo_config true) demo_exited.
Proof.
  set (w0 := serve_start (server_config AppConfig.demo_config)).
  set (w1 := mkWorld (w_server w0) ∅ false true KWait (LCheck 0) ∅ ({[0%nat]} ∪ ∅)).
  set (w2 := loop_check w1 0). set (w3 := loop_track demo_host w2 0).
  set (w5 := end_context demo_serving). set (h0 := mkHttp HServing WWait). set (h1 := mkHttp HShut WShutting).
  set (h2 := mkHttp (HStopped http_ErrServerClosed) WShutting).
  assert (Hserve : forall w w', serve_step demo_host w w' -> w_ctx w' = w_ctx w ->
    lifecycle_step demo_host (demo_state w h0 MSelect) (demo_state w' h0 MSelect)) by (intros w w'; apply (lc_serve _ (demo_state w h0 MSelect))).
  apply (rtc_l _ _ (demo_state w1 h0 MSelect)); [apply (Hserve w0); [apply (step_accept _ w0 0); [done|done|set_solver]|done]|].
  apply (rtc_l _ _ (demo_state w2 h0 MSelect)); [apply Hserve; [exact (step_check _ w1 0 eq_refl)|vm_compute; done]|].
  apply (rtc_l _ _ (demo_state w3 h0 MSelect)); [apply Hserve; [exact (step_track _ w2 0 eq_refl)|vm_compute; done]|].
  apply (rtc_l _ _ (demo_state demo_serving h0 MSelect)); [apply Hserve; [exact (step_recheck _ w3 0 eq_refl)|vm_compute; done]|].
  apply (rtc_l _ _ (demo_state w5 h0 MSelect)); [exact (lc_signal _ (demo_state demo_serving h0 MSelect))|].
  apply (rtc_l _ _ (demo_state w5 h1 MSelect)); [exact (lc_http _ (demo_state w5 h0 MSelect) h1 (http_shutdown true h0 eq_refl eq_refl))|].
  apply (rtc_l _ _ (demo_state w5 h2 MSelect)); [exact (lc_http _ (demo_state w5 h1 MSelect) h2 (http_closed true h1 eq_refl))|].
  apply (rtc_l _ _ (demo_state w5 h2 (MReturning None))); [exact (lc_health_errors _ (demo_state w5 h2 MSelect) http_ErrServerClosed eq_refl eq_refl)|].
  apply (rtc_l _ _ (demo_state (close_listener w5) h2 (MClosed None))); [exact (lc_close _ (demo_state w5 h2 (MReturning None)) None eq_refl)|].
  apply rtc_once. exact (lc_cancel _ (demo_state (close_listener w5) h2 (MClosed None)) None eq_refl).
Qed.

(** The race at the end of [Run]: the end of the context also shuts the health
    server down, and the select may receive that before the accept loop or its
    closer have noticed the context. [Run] then returns nil, and with it the
    process ends, while Serve is still accepting and the connections being served
    have not been closed. *)
Lemma run_returns_before_serve :
  rtc (lifecycle_step demo_host) (lifecycle_start AppConfig.demo_config true) demo_exited /\
  lc_main demo_exited = MExited None /\ w_loop (lc_world demo_exited) = LAccept /\ w_closer (lc_world demo_exited) = KWait /\
  (0%nat ∈ conns (w_server (lc_world demo_exited))) /\ (0%nat ∉ w_closed (lc_world demo_exited)).
Proof. split; [exact demo_exited_reachable|]. split_and!; try (vm_compute; done); vm_compute; set_solver. Qed.

Lemma run_stops_completely_witness :
  exists n s', (1 <= n <= 2)%nat /\ nsteps (lifecycle_step demo_host) n demo_exited s' /\ (lc_left s' < lc_left demo_exited)%nat.
Proof.
  destruct (run_stops_completely demo_host AppConfig.demo_config true demo_exited demo_exited_reachable) as [_ H].
  destruct (H None eq_refl) as (_ & _ & [H0|H1]); [|exact H1].
  destruct H0 as ([r Hr] & _). vm_compute in Hr. discriminate Hr.
Defined.
