(* ===== verification/Harness.v ===== *)
(** * The container harness of the integration tests
      (integration/internal/minecrafttest/server.go)

    [Start] runs a Minecraft server in a container, polls until its port is
    published, then polls until it is ready. What docker, the network and the
    clock answer is the environment of a run; a polling loop gets the answers of
    its rounds one by one, and is still waiting when they are used up. *)

From stdpp Require Import pretty.
From S2P Require Import Prelude Strconv NetAddr Session Errors.

(** ** Strings *)

(** The UTF-8 encodings of the white-space characters of Unicode. *)
Definition space_encodings : list gostring :=
  [[x09]; [x0a]; [x0b]; [x0c]; [x0d]; [x20]; [xc2; x85]; [xc2; xa0]; [xe1; x9a; x80];
   [xe2; x80; x80]; [xe2; x80; x81]; [xe2; x80; x82]; [xe2; x80; x83]; [xe2; x80; x84]; [xe2; x80; x85]; [xe2; x80; x86];
   [xe2; x80; x87]; [xe2; x80; x88]; [xe2; x80; x89]; [xe2; x80; x8a]; [xe2; x80; xa8]; [xe2; x80; xa9]; [xe2; x80; xaf];
   [xe2; x81; x9f]; [xe3; x80; x80]].

(** Cut any of [cuts] off the front as long as one is there. *)
Fixpoint strip (fuel : nat) (cuts : list gostring) (s : gostring) : gostring :=
  match fuel with
  | O => s
  | S fuel =>
    match list_find (fun c => take (length c) s = c) cuts with
    | Some (_, c) => strip fuel cuts (drop (length c) s)
    | None => s
    end
  end.

Definition TrimSpace (s : gostring) : gostring :=
  let s := strip (length s) space_encodings s in
  reverse (strip (length s) (reverse <$> space_encodings) (reverse s)).

Fixpoint Contains (s sub : gostring) : bool :=
  bool_decide (take (length sub) s = sub) || match s with [] => false | _ :: s => Contains s sub end.

(** ** State *)

Record Options := mkOptions { op_Type : gostring; op_Version : gostring; op_ExtraEnvironment : gmap gostring gostring }.

Record TestServer := mkTestServer { ts_name : gostring; ts_addr : gostring }.

(** Where a polling loop is: waiting for its next round, returned, or failed with
    [t.Fatalf]. *)
Inductive progress (A : Type) : Type :=
| Waiting
| Returned (a : A)
| Fatal (message : gostring).
Arguments Waiting {A}.
Arguments Returned {A} _.
Arguments Fatal {A} _.

(** The output of a command and its error. *)
Abbreviation command_result := (gostring * option error)%type.

(** A round of [waitReady]: the time, [docker logs], dialling an address, and the
    error of the context when the round selects on it. *)
Record ready_poll := mkReadyPoll {
  rp_now : Z;
  rp_logs : command_result;
  rp_dial : gostring -> option error;
  rp_ctx : option error
}.

(** Everything [Start] asks for. [he_order] is the order in which [range] visits
    the extra environment; [he_ports] are the rounds of [port]. *)
Record harness_env := mkHarnessEnv {
  he_docker : bool;
  he_pid : Z;
  he_nanos : Z;
  he_jar : gostring;
  he_order : list (gostring * gostring);
  he_run : command_result;
  he_port_start : Z;
  he_ports : list (Z * res gostring);
  he_port_logs : command_result;
  he_ready_start : Z;
  he_ready : list ready_poll;
  he_ready_logs : command_result
}.

Section harness.
Context (foreign : error -> string) (ToLower : gostring -> gostring) (EqualFold : gostring -> gostring -> bool).

(** ** Operations *)

Definition Logs (r : command_result) : gostring :=
  match r with
  | (_, Some err) => str "docker logs failed: " ++ Error foreign err
  | (output, None) => output
  end.

Definition newline : gostring := [x0a].

(** The address in the output of [docker port], when it has a port. *)
Definition published (output : res gostring) : option gostring :=
  match output with
  | Err _ => None
  | Ok output =>
    let address := TrimSpace output in
    match SplitHostPort address with
    | Err _ => None
    | Ok (_, port) => match ParseUint port 16 with Ok _ => Some address | Err _ => None end
    end
  end.

Fixpoint port_loop (deadline : Z) (polls : list (Z * res gostring)) (logs : command_result) : progress gostring :=
  match polls with
  | [] => Waiting
  | (now, output) :: polls =>
    if now <? deadline then
      match published output with
      | Some address => Returned address
      | None => port_loop deadline polls logs
      end
    else Fatal (str "Minecraft server port was not published" ++ newline ++ Logs logs)
  end.

Definition port (start : Z) (polls : list (Z * res gostring)) (logs : command_result) : progress gostring :=
  port_loop (start + 30 * Second) polls logs.

Definition ready (addr : gostring) (p : ready_poll) : bool :=
  Contains (Logs (rp_logs p)) (str "Done (") && bool_decide (rp_dial p addr = None).

Fixpoint waitReady_loop (deadline : Z) (addr : gostring) (polls : list ready_poll) (logs : command_result) : progress unit :=
  match polls with
  | [] => Waiting
  | p :: polls =>
    if rp_now p <? deadline then
      if ready addr p then Returned tt
      else match rp_ctx p with
      | Some err =>
        Fatal (str "Minecraft server startup context expired: " ++ Error foreign err ++ newline ++ Logs (rp_logs p))
      | None => waitReady_loop deadline addr polls logs
      end
    else Fatal (str "Minecraft server did not become ready" ++ newline ++ Logs logs)
  end.

Definition waitReady (start : Z) (addr : gostring) (polls : list ready_poll) (logs : command_result) : progress unit :=
  waitReady_loop (start + 3 * Minute) addr polls logs.

Definition container_name (options : Options) (env : harness_env) : gostring :=
  str "regiongate-" ++ ToLower (op_Type options) ++ str "-" ++ str (pretty (he_pid env)) ++ str "-" ++ str (pretty (he_nanos env)).

Definition docker_args (options : Options) (env : harness_env) : list gostring :=
  let setting kv := [str "--env"; kv] in
  map str ["run"; "--detach"; "--name"] ++ [container_name options env] ++
  map str ["--publish"; "127.0.0.1::25565"; "--env"; "EULA=TRUE"] ++
  setting (str "TYPE=" ++ op_Type options) ++ setting (str "VERSION=" ++ op_Version options) ++
  map str ["--env"; "ONLINE_MODE=FALSE"; "--env"; "ENFORCE_SECURE_PROFILE=FALSE"; "--env"; "ENABLE_RCON=FALSE"; "--env"; "MEMORY=1G"] ++
  (if bool_decide (he_jar env <> []) && EqualFold (op_Type options) (str "PAPER")
   then [str "--volume"; he_jar env ++ str ":/data/paper.jar:ro"] ++
        map str ["--env"; "TYPE=CUSTOM"; "--env"; "CUSTOM_SERVER=/data/paper.jar"]
   else []) ++
  concat (map (fun '(key, value) => setting (key ++ str "=" ++ value)) (he_order env)) ++
  [str "itzg/minecraft-server:java21"].

(** [t.Skip], or how far [Start] got, with the docker commands of the test: the
    one that was run and the one registered with [t.Cleanup]. *)
Inductive start_outcome : Type :=
| Skipped
| Ran (command : list gostring) (cleanup : option (list gostring)) (p : progress TestServer).

Definition Start (options : Options) (env : harness_env) : start_outcome :=
  if negb (he_docker env) then Skipped
  else
    let name := container_name options env in
    let args := docker_args options env in
    match he_run env with
    | (output, Some err) => Ran args None (Fatal (str "docker run: " ++ Error foreign err ++ newline ++ output))
    | (_, None) =>
      Ran args (Some (map str ["rm"; "--force"] ++ [name]))
        (match port (he_port_start env) (he_ports env) (he_port_logs env) with
         | Waiting => Waiting
         | Fatal message => Fatal message
         | Returned addr =>
           match waitReady (he_ready_start env) addr (he_ready env) (he_ready_logs env) with
           | Waiting => Waiting
           | Fatal message => Fatal message
           | Returned _ => Returned (mkTestServer name addr)
           end
         end)
    end.
End harness.

(** ** Lemmas *)

(** Rounds of a loop that sleeps [d] between them and starts at [t]. *)
Fixpoint spaced (d t : Z) (times : list Z) : Prop :=
  match times with
  | [] => True
  | now :: times => t <= now /\ spaced d (now + d) times
  end.

Section lemmas.
Context (foreign : error -> string).

(** With enough rounds the clock passes the deadline, so the loops end. *)
Lemma port_loop_ends d deadline logs polls : forall t,
  0 <= d -> spaced d t polls.*1 -> deadline - t <= d * (blen polls - 1) -> polls <> [] -> port_loop foreign deadline polls logs <> Waiting.
Proof.
  induction polls as [|[now output] polls IH]; intros t Hd Hs Hb Hne; [done|]. cbn in Hs |- *. destruct Hs as [Hn Hs]. rewrite blen_cons in Hb.
  destruct (Z.ltb_spec now deadline); [|done]. destruct (published output); [done|].
  destruct polls as [|q polls]; [exfalso; change (blen []) with 0 in Hb; lia|]. apply (IH (now + d)); [done|done| |done]. lia.
Qed.

Lemma waitReady_loop_ends d deadline addr logs polls : forall t,
  0 <= d -> spaced d t (rp_now <$> polls) -> deadline - t <= d * (blen polls - 1) -> polls <> [] ->
  waitReady_loop foreign deadline addr polls logs <> Waiting.
Proof.
  induction polls as [|p polls IH]; intros t Hd Hs Hb Hne; [done|]. cbn in Hs |- *. destruct Hs as [Hn Hs]. rewrite blen_cons in Hb.
  destruct (Z.ltb_spec (rp_now p) deadline); [|done]. destruct (ready _ _ _); [done|]. destruct (rp_ctx p); [done|].
  destruct polls as [|q polls]; [exfalso; change (blen []) with 0 in Hb; lia|]. apply (IH (rp_now p + d)); [done|done| |done]. lia.
Qed.

(** What the loops have seen when they return: the first good round is in time. *)
Lemma port_loop_returns deadline logs polls addr :
  port_loop foreign deadline polls logs = Returned addr ->
  exists pre now output post, polls = pre ++ (now, output) :: post /\ now < deadline /\ published output = Some addr /\
    Forall (fun p => published p.2 = None) pre.
Proof.
  induction polls as [|[now output] polls IH]; cbn; [done|]. destruct (Z.ltb_spec now deadline); [|done].
  destruct (published output) as [a|] eqn:E.
  - intros [= ->]. by exists [], now, output, polls.
  - intros H1. destruct (IH H1) as (pre & now' & output' & post & -> & Hn & Hp & Hf). exists ((now, output) :: pre), now', output', post.
    split_and!; try done. by constructor.
Qed.

Lemma waitReady_loop_returns deadline addr logs polls u :
  waitReady_loop foreign deadline addr polls logs = Returned u ->
  exists p, p ∈ polls /\ rp_now p < deadline /\ ready foreign addr p = true.
Proof.
  induction polls as [|p polls IH]; cbn; [done|]. destruct (Z.ltb_spec (rp_now p) deadline); [|done].
  destruct (ready foreign addr p) eqn:E.
  - intros _. exists p. split_and!; [set_solver|done|done].
  - destruct (rp_ctx p); [done|]. intros H1. destruct (IH H1) as (q & Hq & Hn & Hr). exists q. split_and!; [set_solver|done|done].
Qed.

Lemma published_port output address :
  published output = Some address ->
  exists text host digits, output = Ok text /\ address = TrimSpace text /\ SplitHostPort address = Ok (host, digits) /\
    0 <= digits_value 0 digits < 2 ^ 16.
Proof.
  unfold published. destruct output as [text|]; [|done]. destruct (SplitHostPort _) as [[host digits]|] eqn:Es; [|done].
  destruct (ParseUint digits 16) as [v|] eqn:Ep; [|done]. intros [= <-]. apply ParseUint_iff in Ep as (_ & Hd & -> & Hlt); [|lia].
  exists text, host, digits. split_and!; [done..| |done]. clear -Hd. unfold digits_value.
  assert (Hg : forall acc, 0 <= acc -> 0 <= foldl (fun n b => n * 10 + digit_value b) acc digits); [|by apply Hg].
  induction Hd as [|b l Hb _ IH]; intros acc Ha; cbn; [done|]. apply IH. unfold is_digit, digit_value in *. bool_facts. lia.
Qed.
End lemmas.

(** ** Properties *)

(** C40: starting a test server. With the clock moving on between rounds (250 ms
    between attempts to read the port, 1 s between looks at the log), [Start]
    decides within 121 and 181 rounds. It returns a server only if docker
    published its address with a valid port within the time limit, and afterwards
    the log reported readiness and the address accepted a connection in time. A
    container that was started is always registered for removal, whatever happens
    next. *)
Theorem harness_start foreign ToLower EqualFold options env :
  spaced (250 * Millisecond) (he_port_start env) (he_ports env).*1 -> 121 <= blen (he_ports env) ->
  spaced Second (he_ready_start env) (rp_now <$> he_ready env) -> 181 <= blen (he_ready env) ->
  match Start foreign ToLower EqualFold options env with
  | Skipped => he_docker env = false
  | Ran command cleanup p =>
    command = docker_args ToLower EqualFold options env /\
    (cleanup = Some [str "rm"; str "--force"; container_name ToLower options env] <-> snd (he_run env) = None) /\
    match p with
    | Waiting => False
    | Fatal _ => True
    | Returned server =>
      snd (he_run env) = None /\ ts_name server = container_name ToLower options env /\
      (exists now text host digits, (now, Ok text) ∈ he_ports env /\ now < he_port_start env + 30 * Second /\
         ts_addr server = TrimSpace text /\ SplitHostPort (ts_addr server) = Ok (host, digits) /\ 0 <= digits_value 0 digits < 2 ^ 16) /\
      (exists poll, poll ∈ he_ready env /\ rp_now poll < he_ready_start env + 3 * Minute /\
         Contains (Logs foreign (rp_logs poll)) (str "Done (") = true /\ rp_dial poll (ts_addr server) = None)
    end
  end.
Proof.
  intros Hs1 Hb1 Hs2 Hb2. unfold Start. destruct (he_docker env) eqn:Hd; [|done]. cbn [negb].
  destruct (he_run env) as [output [err|]]; cbn [snd]; [by split_and!|]. split_and!; [done|done|].
  assert (Hp : port foreign (he_port_start env) (he_ports env) (he_port_logs env) <> Waiting).
  { apply (port_loop_ends _ (250 * Millisecond) _ _ _ (he_port_start env)); try done; unfold Millisecond, Second; [lia|].
    intros E0. by rewrite E0 in Hb1. }
  destruct (port _ _ _ _) as [|addr|m] eqn:E1; [done| |done].
  assert (Hw : waitReady foreign (he_ready_start env) addr (he_ready env) (he_ready_logs env) <> Waiting).
  { apply (waitReady_loop_ends _ Second _ _ _ _ (he_ready_start env)); try done; unfold Minute, Second; [lia|].
    intros E0. by rewrite E0 in Hb2. }
  destruct (waitReady _ _ _ _ _) as [|u|m] eqn:E2; [done| |done]. cbn [ts_name ts_addr].
  apply port_loop_returns in E1 as (pre & now & out & post & Hports & Hnow & Hpub & _).
  apply published_port in Hpub as (text & host & digits & -> & Ha & Hsp & Hv).
  apply waitReady_loop_returns in E2 as (poll & Hin & Ht & Hr). unfold ready in Hr. bool_facts.
  split_and!; [done|done| |].
  - exists now, text, host, digits. split_and!; try done; try lia. rewrite Hports. set_solver.
  - by exists poll.
Qed.

(** A Paper server whose port is published in the second round and which is ready
    at once. *)
Definition demo_harness : harness_env :=
  mkHarnessEnv true 17 99 (str "/tmp/paper.jar") [(str "LEVEL", str "flat")] ([], None)
    0 ((0, Err io_EOF) :: map (fun i => (250 * Millisecond * Z.of_nat i, Ok (str "127.0.0.1:32768" ++ newline))) (seq 1 120))
    ([], None)
    0 (map (fun i => mkReadyPoll (Second * Z.of_nat i) (str "[Server] Done (3.1s)!", None) (fun _ => None) None) (seq 0 181)) ([], None).

Fixpoint spacedb (d t : Z) (times : list Z) : bool :=
  match times with
  | [] => true
  | now :: times => (t <=? now) && spacedb d (now + d) times
  end.

Lemma spacedb_spaced d times : forall t, spacedb d t times = true -> spaced d t times.
Proof. induction times as [|now times IH]; intros t; cbn; [done|]. intros H. bool_facts. auto with lia. Qed.

Lemma harness_start_witness :
  Start (fun _ => EmptyString) id (fun a b => bool_decide (a = b)) (mkOptions (str "PAPER") (str "1.20.4") ∅) demo_harness =
    Ran (docker_args id (fun a b => bool_decide (a = b)) (mkOptions (str "PAPER") (str "1.20.4") ∅) demo_harness)
      (Some [str "rm"; str "--force"; str "regiongate-PAPER-17-99"]) (Returned (mkTestServer (str "regiongate-PAPER-17-99") (str "127.0.0.1:32768"))) /\
  exists host digits, SplitHostPort (str "127.0.0.1:32768") = Ok (host, digits) /\ 0 <= digits_value 0 digits < 2 ^ 16.
Proof.
  pose proof (harness_start (fun _ => EmptyString) id (fun a b => bool_decide (a = b)) (mkOptions (str "PAPER") (str "1.20.4") ∅) demo_harness) as H.
  assert (E : Start (fun _ => EmptyString) id (fun a b => bool_decide (a = b)) (mkOptions (str "PAPER") (str "1.20.4") ∅) demo_harness =
    Ran (docker_args id (fun a b => bool_decide (a = b)) (mkOptions (str "PAPER") (str "1.20.4") ∅) demo_harness)
      (Some [str "rm"; str "--force"; str "regiongate-PAPER-17-99"]) (Returned (mkTestServer (str "regiongate-PAPER-17-99") (str "127.0.0.1:32768"))))
    by (vm_compute; reflexivity).
  split; [exact E|]. rewrite E in H.
  destruct H as (_ & _ & _ & _ & (now & text & host & digits & _ & _ & _ & Hs & Hv) & _);
    [apply spacedb_spaced; vm_compute; reflexivity|vm_compute; congruence|apply spacedb_spaced; vm_compute; reflexivity|vm_compute; congruence|].
  by exists host, digits.
Defined.
